(* ===== verification/_CoqProject ===== *)
-Q . S2P
Prelude.v
Texts.v
External.v
SharedBuffer.v
VectorImpl.v
VectorFacts.v
VectorSpec.v
VectorSort.v
VectorWorld.v
SortedVector.v
VectorProps.v
RilEvent.v
RilEventSpec.v
RilEventProps.v
RilEventLoop.v
RilDaemonEvents.v
RilDaemonProps.v
RilStartup.v
RilStartupProps.v
Parcel.v
RilTypes.v
RilResponse.v
RilTables.v
RilCore.v
RilDispatch.v
RilFacts.v
RilSystem.v
RilInv.v
RilWake.v
RilCodec.v
RilRoundtrip.v
RilProps.v
RilCodecProps.v
RilRadioProps.v
RilRef.v
RilDispatchMemory.v
RilDispatchMemProps.v
RilWakeRace.v
RilReplyRace.v
RilReplyProps.v
RilReplyRuns.v
RilRuns.v
RilNames.v
RilDebug.v
RilDebugProps.v
RilSockets.v
RefBase.v
RefLogic.v
RefThreads.v
RefPool.v
RefTermination.v
RefProps.v
RefTracking.v
RefTrackingProps.v
RefMoveProps.v
WeakPointer.v
WeakPointerProps.v
WeakPointerOrder.v
MemoryHeapPmem.v
MemoryHeapProps.v
Gralloc.v
RilQueue.v
SapSocket.v
SapInv.v
SapSystem.v
SapProps.v
SapRuns.v
SapLog.v
Doubles.v
Lights.v
LightsProps.v
Keycheck.v
Init.v
BootProps.v
VendorInit.v
