(* ===== verification/Prelude.v ===== *)
(** * Verification of the native code of msm7x30-common

    The repository is the device tree of the Sony Ericsson phones of the
    msm7x30 family.  Its own program logic is the radio interface layer in
    [libril/] (a daemon between Android's telephony stack and an old vendor
    library), the shims in [libshims/] (container and reference counting
    classes of an older libutils that the vendor libraries link against), the
    light module in [liblights/], and the boot programs in [keycheck/] and
    [init/].  This library models them as executable Rocq functions and proves
    what makes them correct.

    ** Parts of the program

    - [libshims/SharedBuffer.cpp]: reference counted blocks of storage.
    - [libshims/VectorImpl.cpp]: a vector with copy-on-write storage
      ([VectorImpl]) on top of [SharedBuffer], and a vector kept in order with
      binary search ([SortedVectorImpl]) on top of [VectorImpl].
    - [libril/ril_event.cpp]: the event loop, with a table of watched
      descriptors, a list of timers sorted by deadline and a list of events to
      fire.
    - [libril/ril.cpp] with [ril_v3.h], [ril_commands.h] and
      [ril_unsol_commands.h]: commands arrive as parcels on a socket;
      [processCommandBuffer] puts a request on the pending list and calls the
      dispatch function of the table, which decodes the payload and calls the
      vendor library.  The vendor library completes the request by
      [RIL_onRequestComplete], which encodes the answer with the response
      function of the table and sends it; it notifies the client by
      [RIL_onUnsolicitedResponse], which also holds the wake lock for a while.
      A thread of its own runs the event loop, and others wake it up through a
      pipe; a debug socket issues local requests.
    - [libril/RilSapSocket.cpp], [RilSocket.cpp] and [rilSocketQueue.h]: the
      SIM access profile socket.  The event loop decodes records of the
      Bluetooth process and queues them; request threads pass them to the
      vendor library, whose completions are sent back.
    - [libshims/RefBase.cpp] and [RefBase.h]: strong and weak references to
      objects that several threads share, with atomic counts, the pointer
      class [wp<T>], and the lists of references of the build with
      [DEBUG_REFS].
    - [libshims/MemoryHeapPmem.cpp]: sub-regions of a heap of physical memory
      as reference counted objects; the heap keeps weak pointers to them in a
      sorted vector and can revoke them all.
    - [include/gralloc_priv.h] and [libshims/GraphicBufferMapper.cpp]: the
      handles of graphic buffers, and a forwarded call.
    - [liblights/lights.c]: backlights and the LED that the battery and the
      notifications share, as files of sysfs.
    - [init/] and [keycheck/keycheck.c]: the first program of the boot image
      runs [keycheck], which waits for a volume key, and unpacks the ramdisk of
      Android or of the recovery; [init_semc/init_board_device.h] has the hooks
      of the board.
    - [libinit/init_semc.cpp]: the serial number from the kernel command line.

    ** Files

    Shared: this file (machine integers, outcomes, the state monad, lemmas and
    tactics), [Texts] (lengths of decimal numbers, C strings in arrays),
    [External] (libutils, the allocator and the element callbacks as
    classes with their documented laws, and instances of them).

    Containers: [SharedBuffer] and [VectorImpl] have one definition per member
    function, on a heap of blocks with reference counts; [SortedVector] is
    [SortedVectorImpl] (Module [Sorted]).  [VectorFacts] relates a vector to
    the list of its items, [VectorSpec] specifies every public method on every
    branch, [VectorSort] does it for [sort], [VectorWorld] is the step relation
    of several vectors that share storage, and [VectorProps] has the
    properties.

    Event loop: [RilEvent] has the functions of ril_event.cpp on a store of
    linked events, [RilEventSpec] relates the linked lists to lists,
    [RilEventProps] has the properties, and [RilEventLoop] is the whole loop on
    the answers of [select], proved against the classes [LoopInvariant],
    [Fires] and [LoopRefines]; [RilDaemonEvents] has what the callbacks of ril.cpp do to events,
    and [RilDaemonProps] makes them instances.  [RilStartup] has the thread of
    the loop, its start and its wake-up pipe as interleaved steps,
    [RilStartupProps] the invariant.

    Radio interface layer: [Parcel] (the operations of [android::Parcel] and
    the string conversions as classes with laws, the string functions of
    ril.cpp, and the layout of libbinder as an instance in Module [Wire]),
    [RilTypes] (the structures), [RilResponse] (every [responseX]), [RilTables]
    (both tables), [RilCore] (requests, socket, completion, notifications, wake
    lock; the state [rstate] has the globals of ril.cpp), [RilDispatch] (every
    [dispatchX] and [processCommandBuffer]), [RilSystem] (registration, the
    command callback, and the step relation [ril_step] of the daemon).
    [RilFacts], [RilInv], [RilWake], [RilCodec] and [RilRoundtrip] have the
    lemmas; [RilProps], [RilCodecProps] and [RilRadioProps] the properties;
    [RilRef] and [RilRuns] instantiate the parameters with Android's values and
    run a session, which supplies the witnesses.  [RilDispatchMemory] has the
    dispatch functions with the blocks of their strings, [RilDispatchMemProps] a
    simulation of the functions on values by them.  [RilWakeRace] has the wake
    lock access by access, since it has no mutex.  [RilReplyRace] has the threads
    that complete requests, read commands, close and accept connections, by
    critical sections and single accesses; [RilReplyProps] has the invariant and
    [RilReplyRuns] runs of it.  [RilDebug] and
    [RilDebugProps] are the debug port, [RilNames] the names for the log,
    [RilSockets] the names of the sockets.

    SAP socket: [RilQueue] (Ril_queue on linked blocks, and the list that it
    represents), [SapSocket] (every function, on a heap of requests, headers
    and payloads), [SapInv] (who owns which block), [SapSystem] (every handler
    keeps it), [SapProps] (the events in any order, and the properties),
    [SapRuns] (a concrete codec and runs), [SapLog] (the hex dump of
    messages).

    References: [RefBase] has the methods as programs whose steps are single
    atomic accesses.  [RefLogic] is a small program logic: a thread owns a token
    for its increments, an invariant ties the counts to the sum of the tokens,
    and [safe p t Q] says that every step of [p] keeps it whatever the other
    threads do.  [RefThreads] proves each method safe, [RefPool] adds up the
    threads, [RefTermination] bounds the steps of a call that is not disturbed,
    [RefProps] has the properties and executable schedules.  [WeakPointer] has
    [wp<T>] on a heap of such objects and [LightRefBase], [WeakPointerProps]
    the proof that the pointers own what the objects count, [WeakPointerOrder]
    the comparisons.  [RefTracking] has the methods with [DEBUG_REFS],
    [RefTrackingProps] relates them to those without, and [RefMoveProps] is
    about arrays of pointers that are moved.

    Memory: [MemoryHeapPmem] has the heap with any number of threads that map,
    pass on, drop and revoke regions, [MemoryHeapProps] its invariant;
    [Gralloc] has the handles.

    Lights and boot: [Doubles] (the arithmetic of type double that the gamma
    correction uses, on the floats of the standard library), [Lights] and
    [LightsProps]; [Keycheck], [Init] (a board is
    an instance of the class [Board], which has the promise of its hooks) and
    [BootProps]; [VendorInit].

    ** What the theorems show

    Containers ([VectorProps]).  A sequence of calls on vectors that may share
    storage behaves as the same calls on independent lists: no access outside a
    block or to a freed one, and no lost or double release.  The client keeps to
    [ops_pre] (above all it does not insert a vector into itself, which is shown
    to read freed memory); an abort is possible only where the allocator may
    refuse a request or a call asks for more than the address space, and
    otherwise the calls return.  Destroying all vectors frees all blocks.  The
    sort is stable and terminates; the binary search terminates and returns the
    position and the order; the sorted operations keep strict order.

    Event loop ([RilEventProps], [RilDaemonProps]).  A round fires
    timers that are due, all whose deadline has passed, in the order of their
    deadlines, and then the ready descriptors (a deadline of this very instant
    waits for the next round: [timer_not_fired_at_deadline]); the timer list
    stays sorted, the descriptor table and its set stay consistent, and a full
    table drops an event.  Together with the callbacks of the daemon, over any
    number of rounds, the loop never faults, returns only when [select] fails,
    follows an automaton of who is connected, waits in every round exactly until
    the earliest deadline, and frees every timer that has fired.  However its
    thread is started and interleaved with others, its [select] does not sleep
    on an event that is in its lists and whose byte is written, unless the pipe
    found the table full ([RilStartupProps]); [RIL_startEventLoop] can always
    return, and the lists are initialised then if the thread could be created.

    Requests ([RilReplyProps], [RilProps]).  Whatever threads complete, notify,
    read, close and accept, in any interleaving: no command is answered twice,
    every reply is to a command that was received and goes to its connection or
    a later one (runs in [RilReplyRuns] show a reply on a connection that did not
    ask for it, and one that is split), every request is on the list or in the
    hands of one thread, the requests of earlier connections are cancelled,
    and no step touches freed memory.  Function by function: a
    completion answers exactly the request of its token, a second one or an
    unknown one does nothing; closing the socket silences what is pending; a
    message is one frame.  Commands with a payload in the format of their
    dispatch function reach the vendor library with the decoded data (a relation
    [payload_format] between data and payload; where comments list other fields
    than the code reads, [divergent_format]), unsupported ones are answered with
    an error, malformed ones are never answered.

    Memory of commands ([RilDispatchMemProps]).  The dispatch functions with
    strings call the vendor library with the data of the functions on values,
    touch no freed block, and free every string once, overwritten; exactly three
    kinds of strings are left, and a malformed command leaves what it has read.
    The functions that send strings to themselves leave no block behind, but
    free their 16-bit copies as they are.

    Wake lock ([RilWakeRace]).  Whatever the interleaving of single accesses, a
    held lock has a timer that will release it or a notification that is about
    to request one; runs show a timer that is used after it was freed, and a
    lock that is released early.

    Debug port ([RilDebugProps]).  A complete command issues its requests and
    leaves no block and no descriptor behind; runs show what incomplete ones
    do, and that the power-off command leaves the daemon without a client for
    good.

    Payloads ([RilCodecProps], [RilRadioProps]).  What the response functions
    write is read back by the dispatch functions of the same data; the
    adaptations to the old vendor interface (network lists, LTE values, ICC ID,
    facility locks, radio technology, kept time messages) do what they are
    meant to do.

    SAP socket ([SapProps]).  As long as the client does not use a message id
    and token again before it is answered, and the vendor library completes
    each token once, no event touches freed memory, every request block is on
    one of the queues or with the vendor library, and a completion frees the
    request and sends exactly one frame with its token and id.  [SapRuns] has
    the runs that break these conditions.  [log_hex] prints the hex dump of a
    message and stays inside its array ([SapLog]).

    References ([RefProps]).  For any number of threads and any interleaving of
    their atomic steps: no step touches a deleted object or [weakref_impl], the
    counts are the references between calls, everything is freed exactly once,
    and a call that is left alone ends within 26 steps.  A thread calls only
    what its references allow; a first strong reference through a raw pointer
    next to a promotion is shown to break the count
    ([RefProps.first_reference_race]).  A client of [wp<T>] never touches
    deleted memory, the counts of every object are its pointers, an object lives
    as long as its life-time, fixed when it was made, and its strong pointers
    say, and a promotion yields a pointer exactly when it may
    ([WeakPointerProps]).  The build with
    [DEBUG_REFS] has the same runs as the one without, and its lists are the
    owners of the references ([RefTrackingProps]).

    Memory ([MemoryHeapProps]).  Whatever the threads do, no step touches a
    region that is freed, and the allocations are the regions that exist (but
    for one that is being added); with one revocation at a time each region that
    is not empty is mapped once and then unmapped exactly once.
    [two_revocations_unmap_twice] is the run that breaks the condition.
    [Gralloc]: [dynamicCast] accepts exactly the handles whose fields can all
    be read.

    Lights ([LightsProps]).  Every value written is in range, the backlight
    through the arithmetic of the gamma correction, and no text buffer is
    overrun; the shared LED refines the rule that a notification with a
    colour is shown before the battery state.

    Boot ([BootProps]).  keycheck keeps its two arrays in step and reports a
    key only if it was read from an open device; the boot waits no longer than
    its time-out and unpacks one of the two ramdisks, the recovery one if and
    only if the command line asks for it or the report of the key is noticed in
    time (and two boots run when keycheck cannot be started:
    [failed_keycheck_runs_init_twice]).  It leaves the LED off, the file systems as they were,
    and no request that would send the next boot to recovery again.

    ** Conventions

    [outcome]: [Ret] is a normal result, [Abort] a deliberate exit of the
    process, [Fault] an access that C++ gives no meaning to.  Integers are [Z];
    [u32], [s32] and [u8] are the conversions of the 32-bit target where the
    code can wrap.  Code outside the repository is a class of operations with a
    class of laws, and an instance shows that the laws can hold: libutils, the
    allocator and the element callbacks ([External]), [android::Parcel] and the
    string conversions ([Parcel]), [telephony/ril.h] ([RilHeader]) and the heap
    addresses ([Heap]), nanopb and the SAP messages ([SapApi]), the virtual
    functions of an object ([Virtuals]), [hardware/lights.h] and [pow]
    ([LightsHeader]), the input devices ([InputEnv]), the property area
    ([Properties]), the sizes and the sockets of the daemon ([SocketLimits],
    [ControlSockets]), [hardware/gralloc.h] ([GrallocHeader]).  What [write], [select], the clock and the vendor
    library do is an input of the functions or of the step relation.

    Loops over linked lists have fuel.  The loops over the pending requests
    take one more than the number of blocks in the heap, which a chain without
    repetition cannot exceed; that they return is part of the theorems.  A
    notification nests once through the radio state, so two levels are enough
    ([RilFacts.unsolicited_fuel_enough], [RilRuns.nested_codes_unnested]).  The
    functions of ril_event.cpp take their fuel as an argument, and the theorems
    hold for every fuel above the length of the lists; the binary search takes
    one more than the number of items, the loops of the sort are structural in
    the index.  The loops of [RefBase] have no fuel: a program is a tree, a loop
    is a node of it, and termination is a theorem about its steps; an object
    has at most [MAX_REFS] references, below [INITIAL_STRONG_VALUE].  The loop
    of [checkAndDequeue] takes one more than the number of request blocks.  The
    loops of keycheck and init are structural in their inputs (rounds of
    [poll], answers of [waitpid], directory trees), and [ril_event_loop] is in
    the answers of [select].  [log_hex] takes as many rounds as the message has
    lines, and 17 for the bytes of a line.

    ** Limits

    [RilSystem] and the properties that are stated function by function have
    every function of ril.cpp as one step; the interleavings of the threads are
    in [RilReplyRace] and [RilWakeRace].  There, and elsewhere, a critical
    section is one step; in [RilWakeRace] so is a store through
    [s_last_wake_timeout_info] together with the load of the pointer.
    One SIM is modelled ([SIM_COUNT] is 1), without [ANDROID_MULTI_SIM].
    Logging and the clearing of structures on the stack are left out, and the
    strings that [dispatchDataCall] and [dispatchImsSms] pass on are in
    [dispatchStrings] and [dispatchImsGsmSms]; [calloc] is assumed to succeed in ril.cpp, as the code assumes.
    In [RilDaemonProps] other threads request timers between the rounds of the
    loop, and the events of the SAP socket are not among those of the daemon.
    The handlers of the SAP socket are one step each, and so is a round of its
    request threads.  The call stacks of [DEBUG_REFS] are left out.  The strong
    count of a pmem region is the number of references, by the theorems about
    [RefBase], whose steps are not repeated there.
    [wp<T>] is used by one thread at a time, and the class [sp<T>] is not part
    of the repository.
    Not modelled: the Java classes of [cmhw/], which only read and write files
    of sysfs, and makefiles, overlays and configuration files, which are data.

    ** Left

    Several SIMs ([SIM_COUNT] above 1), which the device does not have, would
    repeat the state of one.  What else is not covered of the sources is
    declarations, prototypes, log messages and comments. *)

From stdpp Require Export base gmap sets strings numbers sorting list.

#[global] Open Scope Z_scope.

(** ** Machine integers *)

(** [size_t] and [uint32_t] of the 32-bit ARM target. *)
Definition u32 (z : Z) : Z := z mod 2 ^ 32.

(** [int32_t], [int] and [ssize_t] of the same target. *)
Definition s32 (z : Z) : Z := (z + 2 ^ 31) mod 2 ^ 32 - 2 ^ 31.

(** [uint8_t]. *)
Definition u8 (z : Z) : Z := z mod 2 ^ 8.

Definition SIZE_MAX : Z := 2 ^ 32 - 1.

Lemma u32_small (z : Z) : 0 <= z < 2 ^ 32 -> u32 z = z.
Proof. apply Z.mod_small. Qed.

Lemma u32_range (z : Z) : 0 <= u32 z < 2 ^ 32.
Proof. apply Z.mod_pos_bound. lia. Qed.

Lemma s32_small (z : Z) : - 2 ^ 31 <= z < 2 ^ 31 -> s32 z = z.
Proof. intros H. unfold s32. rewrite Z.mod_small by lia. lia. Qed.

Lemma s32_range (z : Z) : - 2 ^ 31 <= s32 z < 2 ^ 31.
Proof.
  unfold s32. pose proof (Z.mod_pos_bound (z + 2 ^ 31) (2 ^ 32) ltac:(lia)). lia.
Qed.

Lemma u8_range (z : Z) : 0 <= u8 z < 2 ^ 8.
Proof. apply Z.mod_pos_bound. lia. Qed.

Lemma u8_small (z : Z) : 0 <= z < 2 ^ 8 -> u8 z = z.
Proof. apply Z.mod_small. Qed.

(** ** Outcomes and the state monad

    [Abort] is a deliberate process abort ([LOG_ALWAYS_FATAL_IF]), [Fault]
    an access the C++ memory model gives no meaning to (a dangling or null
    pointer, an index outside its array, a double free). *)
Inductive outcome (A : Type) : Type :=
| Ret (a : A)
| Abort
| Fault.
Arguments Ret {A} a.
Arguments Abort {A}.
Arguments Fault {A}.

Definition M (S A : Type) : Type := S -> outcome (A * S).

#[global] Instance M_ret {S} : MRet (M S) := fun A a s => Ret (a, s).
#[global] Instance M_bind {S} : MBind (M S) := fun A B k m s =>
  match m s with
  | Ret (a, s') => k a s'
  | Abort => Abort
  | Fault => Fault
  end.

Definition get {S} : M S S := fun s => Ret (s, s).
Definition put {S} (s : S) : M S unit := fun _ => Ret (tt, s).
Definition abort {S A} : M S A := fun _ => Abort.
Definition fault {S A} : M S A := fun _ => Fault.

(** [holds m s P A]: run in [s], [m] does not fault; a normal result
    satisfies [P]; it aborts only if [A] is the case. *)
Definition holds {S A} (m : M S A) (s : S) (P : A -> S -> Prop) (Ab : Prop) : Prop :=
  match m s with
  | Ret (a, s') => P a s'
  | Abort => Ab
  | Fault => False
  end.

Lemma holds_ret {S A} (a : A) (s : S) P Ab : P a s -> holds (mret a) s P Ab.
Proof. done. Qed.

Lemma holds_bind {S A B} (m : M S A) (k : A -> M S B) (s : S) P Q Ab :
  holds m s Q Ab -> (forall a s', Q a s' -> holds (k a) s' P Ab) ->
  holds (m ≫= k) s P Ab.
Proof.
  unfold holds, mbind, M_bind. destruct (m s) as [[a s']| |]; [|done|done].
  intros HQ HP. exact (HP a s' HQ).
Qed.

Lemma holds_mono {S A} (m : M S A) (s : S) (P Q : A -> S -> Prop) (Ab Ab' : Prop) :
  holds m s Q Ab' -> (forall a s', Q a s' -> P a s') -> (Ab' -> Ab) -> holds m s P Ab.
Proof. unfold holds. destruct (m s) as [[a s']| |]; auto. Qed.

Lemma bind_run {S A B} (m : M S A) (k : A -> M S B) (s s' : S) a :
  m s = Ret (a, s') -> (m ≫= k) s = k a s'.
Proof. unfold mbind, M_bind. by intros ->. Qed.

Lemma holds_run {S A B} (m : M S A) (k : A -> M S B) (s s' : S) a P Ab :
  m s = Ret (a, s') -> holds (k a) s' P Ab -> holds (m ≫= k) s P Ab.
Proof. unfold holds, mbind, M_bind. by intros ->. Qed.

Lemma holds_done {S A} (m : M S A) (s s' : S) a (P : A -> S -> Prop) Ab :
  m s = Ret (a, s') -> P a s' -> holds m s P Ab.
Proof. unfold holds. by intros ->. Qed.

Lemma holds_if {S A} (b : bool) (m1 m2 : M S A) (s : S) P Ab :
  (b = true -> holds m1 s P Ab) -> (b = false -> holds m2 s P Ab) ->
  holds (if b then m1 else m2) s P Ab.
Proof. destruct b; auto. Qed.

(** [step lem] runs the first computation of a sequence by the equation
    [lem], which gives its result. *)
Ltac step lem := eapply holds_run; [solve [eapply lem; eauto] |].

Create HintDb run.
