(* ===== verification/Texts.v ===== *)
(** * Texts and decimal numbers

    Lengths of the texts that the programs print into buffers of a fixed
    size, and C strings in arrays of characters. *)

From stdpp Require Import pretty.
From S2P Require Import Prelude.

Lemma pretty_go_length k x s : (x < 10 ^ N.of_nat k)%N -> (String.length (pretty_N_go x s) <= k + String.length s)%nat.
Proof.
  revert x s. induction k as [|k IH]; intros x s Hx.
  - assert (x = 0%N) as -> by (simpl in Hx; lia). by rewrite pretty_N_go_0.
  - destruct (N.eq_dec x 0%N) as [->|Hne]; [rewrite pretty_N_go_0; lia|]. rewrite pretty_N_go_step by lia.
    etrans; [apply IH|simpl; lia]. rewrite Nat2N.inj_succ, N.pow_succ_r' in Hx. apply N.Div0.div_lt_upper_bound. lia.
Qed.

Lemma pretty_positive_length p : (Z.pos p < 2 ^ 32) -> (String.length (pretty p) <= 10)%nat.
Proof.
  intros Hp. unfold pretty, pretty_positive, pretty, pretty_N. destruct (decide (N.pos p = 0)%N); [done|].
  etrans; [apply (pretty_go_length 10)|done]. change (10 ^ N.of_nat 10)%N with 10000000000%N. lia.
Qed.

Lemma length_append s t : String.length (s +:+ t) = (String.length s + String.length t)%nat.
Proof. induction s as [|c s IH]; simpl; [done|]. by f_equal. Qed.

Lemma append_assoc s t u : (s +:+ t) +:+ u = s +:+ t +:+ u.
Proof. induction s as [|c s IH]; [done|]. exact (f_equal (String c) IH). Qed.

Lemma append_empty s : s +:+ "" = s.
Proof. induction s as [|c s IH]; [done|]. exact (f_equal (String c) IH). Qed.

Lemma pretty_int_length v : - 2 ^ 31 <= v < 2 ^ 31 -> (String.length (pretty v) <= 11)%nat.
Proof.
  intros Hv. destruct v as [|p|p]; [simpl; lia| |].
  - change (pretty (Z.pos p)) with (pretty p). pose proof (pretty_positive_length p). lia.
  - change (pretty (Z.neg p)) with ("-" +:+ pretty p). rewrite length_append. pose proof (pretty_positive_length p). simpl. lia.
Qed.

(** ** C strings *)

(** The text of a C string; [None] if it does not end in the array. *)
Fixpoint c_string (l : list Z) : option (list Z) :=
  match l with
  | [] => None
  | x :: rest => if x =? 0 then Some [] else r ← c_string rest; Some (x :: r)
  end.

Definition no_zero (l : list Z) : Prop := Forall (fun x => x <> 0) l.

Lemma c_string_zero l rest : no_zero l -> c_string (l ++ 0 :: rest) = Some l.
Proof.
  induction 1 as [|x l Hx _ IH]; [done|]. simpl. destruct (Z.eqb_spec x 0); [done|]. by rewrite IH.
Qed.
