(* ===== verification/External.v ===== *)
(** * Interfaces to the code outside the repository

    The shim library is compiled against AOSP headers that are not part of
    the repository: [utils/SharedBuffer.h], [utils/Errors.h], [safe_iop.h] and
    the element callbacks that [utils/Vector.h] overrides.  Each is a class of
    operations and a class of the documented laws the shims rely on; the
    instances at the end show that the laws can hold and serve the concrete
    runs of the other files. *)

From S2P Require Import Prelude.

(** ** libutils, safe_iop and the error codes *)

Class LibUtils := {
  sizeof_SharedBuffer : Z;
  (** [SharedBuffer::onlyOwner], as a function of [mRefs]. *)
  onlyOwner : Z -> bool;
  eKeepStorage : Z;
  (** The three safe_iop operations on [size_t]: [None] is the failure. *)
  safe_add : Z -> Z -> option Z;
  safe_sub : Z -> Z -> option Z;
  safe_mul : Z -> Z -> option Z;
  NO_ERROR : Z;
  BAD_INDEX : Z;
  BAD_VALUE : Z;
  NO_MEMORY : Z;
  NAME_NOT_FOUND : Z
}.

Class LibUtilsLaws (L : LibUtils) : Prop := {
  sizeof_SharedBuffer_bounds : 0 < sizeof_SharedBuffer < 2 ^ 16;
  onlyOwner_spec : forall r, onlyOwner r = (r =? 1);
  eKeepStorage_nonzero : eKeepStorage <> 0;
  safe_add_spec : forall a b, 0 <= a <= SIZE_MAX -> 0 <= b <= SIZE_MAX ->
    safe_add a b = if a + b <=? SIZE_MAX then Some (a + b) else None;
  safe_sub_spec : forall a b, 0 <= a <= SIZE_MAX -> 0 <= b <= SIZE_MAX ->
    safe_sub a b = if b <=? a then Some (a - b) else None;
  safe_mul_spec : forall a b, 0 <= a <= SIZE_MAX -> 0 <= b <= SIZE_MAX ->
    safe_mul a b = if a * b <=? SIZE_MAX then Some (a * b) else None;
  NO_ERROR_zero : NO_ERROR = 0;
  BAD_INDEX_neg : - 2 ^ 31 <= BAD_INDEX < 0;
  BAD_VALUE_neg : - 2 ^ 31 <= BAD_VALUE < 0;
  NO_MEMORY_neg : - 2 ^ 31 <= NO_MEMORY < 0;
  NAME_NOT_FOUND_neg : - 2 ^ 31 <= NAME_NOT_FOUND < 0
}.

(** ** The allocator

    [malloc_ok k n] says whether the [k]-th request of the run, for [n]
    bytes, is served; every theorem holds for every allocator. *)
Class Allocator := { malloc_ok : nat -> Z -> bool }.

(** ** Element callbacks of [VectorImpl]

    A slot of a storage block is [None] while no value has been written to it
    and [Some x] when it holds the item [x].  The pure virtual members of
    [VectorImpl] are functions on the slots of the regions they are given. *)
Abbreviation slot T := (option T).

Class ItemOps (T : Type) := {
  do_construct : list (slot T) -> list (slot T);
  do_destroy : list (slot T) -> list (slot T);
  (** [do_copy dest from]: both regions have the number of items copied. *)
  do_copy : list (slot T) -> list (slot T) -> list (slot T);
  do_splat : list (slot T) -> slot T -> list (slot T);
  (** [do_move_forward array dest from num] and its backward twin move
      inside one block, where the two ranges may overlap. *)
  do_move_forward : list (slot T) -> nat -> nat -> nat -> list (slot T);
  do_move_backward : list (slot T) -> nat -> nat -> nat -> list (slot T);
  (** The value that default construction leaves in a slot. *)
  default_item : T
}.

Class ItemLaws {T} (I : ItemOps T) : Prop := {
  do_construct_spec : forall r, do_construct r = replicate (length r) (Some default_item);
  do_destroy_length : forall r, length (do_destroy r) = length r;
  do_copy_spec : forall d s, length d = length s -> Forall is_Some s -> do_copy d s = s;
  do_splat_spec : forall d x, is_Some x -> do_splat d x = replicate (length d) x;
  do_move_forward_length : forall a to from n,
    length (do_move_forward a to from n) = length a;
  do_move_forward_moved : forall a to from n i,
    (from <= to)%nat -> (to + n <= length a)%nat -> (i < n)%nat ->
    do_move_forward a to from n !! (to + i)%nat = a !! (from + i)%nat;
  do_move_forward_below : forall a to from n j,
    (from <= to)%nat -> (to + n <= length a)%nat -> (j < from)%nat ->
    do_move_forward a to from n !! j = a !! j;
  do_move_backward_length : forall a to from n,
    length (do_move_backward a to from n) = length a;
  do_move_backward_moved : forall a to from n i,
    (to <= from)%nat -> (from + n <= length a)%nat -> (i < n)%nat ->
    do_move_backward a to from n !! (to + i)%nat = a !! (from + i)%nat;
  do_move_backward_below : forall a to from n j,
    (to <= from)%nat -> (from + n <= length a)%nat -> (j < to)%nat ->
    do_move_backward a to from n !! j = a !! j
}.

(** ** Reference instances *)

Module RefInstances.

#[export] Instance libutils : LibUtils := {|
  sizeof_SharedBuffer := 16;
  onlyOwner := fun r => r =? 1;
  eKeepStorage := 1;
  safe_add := fun a b => if a + b <=? SIZE_MAX then Some (a + b) else None;
  safe_sub := fun a b => if b <=? a then Some (a - b) else None;
  safe_mul := fun a b => if a * b <=? SIZE_MAX then Some (a * b) else None;
  NO_ERROR := 0;
  BAD_INDEX := -75;
  BAD_VALUE := -22;
  NO_MEMORY := -12;
  NAME_NOT_FOUND := -2
|}.

#[export] Instance libutils_laws : LibUtilsLaws libutils.
Proof. split; simpl; try done; try lia. Qed.

(** Every request is served. *)
#[export] Instance always_alloc : Allocator := {| malloc_ok := fun _ _ => true |}.

Definition splice {A} (a : list A) (at_ : nat) (r : list A) : list A :=
  take at_ a ++ r ++ drop (at_ + length r) a.

Definition move_slots {A} (a : list A) (to from n : nat) : list A :=
  take (length a) (splice a to (take n (drop from a))).

(** Items that are plain integers. *)
#[export] Instance z_items : ItemOps Z := {|
  do_construct := fun r => replicate (length r) (Some 0);
  do_destroy := fun r => replicate (length r) None;
  do_copy := fun _ s => s;
  do_splat := fun d x => replicate (length d) x;
  do_move_forward := move_slots;
  do_move_backward := move_slots;
  default_item := 0
|}.

Lemma move_slots_length {A} (a : list A) to from n : length (move_slots a to from n) = length a.
Proof.
  unfold move_slots, splice. rewrite length_take, !length_app, length_drop, !length_take.
  rewrite length_drop. lia.
Qed.

Lemma move_slots_moved {A} (a : list A) to from n i :
  (from + n <= length a)%nat -> (to + n <= length a)%nat -> (i < n)%nat ->
  move_slots a to from n !! (to + i)%nat = a !! (from + i)%nat.
Proof.
  intros Hf Ht Hi. unfold move_slots, splice. rewrite lookup_take_lt by lia.
  rewrite lookup_app_r; rewrite length_take; [|lia].
  rewrite lookup_app_l by (rewrite length_take, length_drop; lia).
  rewrite lookup_take_lt by lia. rewrite lookup_drop. f_equal. lia.
Qed.

Lemma move_slots_below {A} (a : list A) to from n j :
  (to <= length a)%nat -> (j < to)%nat -> move_slots a to from n !! j = a !! j.
Proof.
  intros Ht Hj. unfold move_slots, splice. rewrite lookup_take_lt by lia.
  rewrite lookup_app_l by (rewrite length_take; lia). by rewrite lookup_take_lt by lia.
Qed.

#[export] Instance z_items_laws : ItemLaws z_items.
Proof.
  split; simpl; intros;
    eauto using length_replicate, move_slots_length;
    try (apply move_slots_moved; lia); try (apply move_slots_below; lia).
Qed.

End RefInstances.
