(* ===== verification/SharedBuffer.v ===== *)
(** * libshims/SharedBuffer.cpp

    Reference counted storage blocks.  The heap maps the address of a block
    to its header ([mRefs], [mSize]) and its contents.  The contents are kept
    as cells of [w] bytes each, so that a client that stores items of [w]
    bytes sees one cell per item ([w = 1] is the byte view); [mSize] stays in
    bytes.  A freed address leaves the map and is never handed out again, so
    any later use of it is a [Fault].  A count is read and written by one
    thread at a time, as in the calls of one [VectorImpl]. *)

From S2P Require Import Prelude External.

Abbreviation loc := nat (only parsing).

Record SharedBuffer (T : Type) : Type := SB {
  mRefs : Z;
  mSize : Z;
  cells : list (slot T)
}.
Arguments SB {T} _ _ _.
Arguments mRefs {T} _.
Arguments mSize {T} _.
Arguments cells {T} _.

Record heap (T : Type) : Type := Heap {
  bufs : gmap loc (SharedBuffer T);
  (** Number of allocation requests so far; also the next fresh address. *)
  next : nat
}.
Arguments Heap {T} _ _.
Arguments bufs {T} _.
Arguments next {T} _.

Section SharedBufferOps.
Context {T : Type} {LU : LibUtils} {AL : Allocator}.
(** Bytes per cell. *)
Variable w : Z.

Definition deref (l : loc) : M (heap T) (SharedBuffer T) := fun h =>
  match bufs h !! l with Some b => Ret (b, h) | None => Fault end.

Definition store (l : loc) (b : SharedBuffer T) : M (heap T) unit := fun h =>
  match bufs h !! l with
  | Some _ => Ret (tt, Heap (<[l := b]> (bufs h)) (next h))
  | None => Fault
  end.

Definition free (l : loc) : M (heap T) unit := fun h =>
  match bufs h !! l with
  | Some _ => Ret (tt, Heap (delete l (bufs h)) (next h))
  | None => Fault
  end.

Definition cell_count (bytes : Z) : nat := Z.to_nat (bytes / w).

(** [malloc(sizeof(SharedBuffer) + size)] and the initialisation of the
    header; the cells of a fresh block hold nothing. *)
Definition malloc (size : Z) : M (heap T) (option loc) := fun h =>
  if malloc_ok (next h) (sizeof_SharedBuffer + size)
  then Ret (Some (next h),
            Heap (<[next h := SB 0 0 (replicate (cell_count size) None)]> (bufs h))
                 (S (next h)))
  else Ret (None, Heap (bufs h) (S (next h))).

(** [realloc(buf, sizeof(SharedBuffer) + newSize)]: the old address dies when
    it succeeds, and nothing changes when it fails. *)
Definition realloc (l : loc) (newSize : Z) : M (heap T) (option loc) := fun h =>
  match bufs h !! l with
  | None => Fault
  | Some b =>
      if malloc_ok (next h) (sizeof_SharedBuffer + newSize)
      then Ret (Some (next h),
                Heap (<[next h := SB (mRefs b) (mSize b)
                          (resize (cell_count newSize) None (cells b))]>
                       (delete l (bufs h)))
                     (S (next h)))
      else Ret (None, Heap (bufs h) (S (next h)))
  end.

(** [memcpy(dst->data(), src->data(), n)]. *)
Definition memcpy (dst src : loc) (n : Z) : M (heap T) unit :=
  s ← deref src;
  d ← deref dst;
  let k := cell_count n in
  if decide (k <= length (cells s) /\ k <= length (cells d))%nat
  then store dst (SB (mRefs d) (mSize d) (take k (cells s) ++ drop k (cells d)))
  else fault.

Definition alloc (size : Z) : M (heap T) (option loc) :=
  if size >=? SIZE_MAX - sizeof_SharedBuffer then abort else
  sb ← malloc size;
  match sb with
  | Some l =>
      b ← deref l;
      store l (SB 1 size (cells b));;
      mret (Some l)
  | None => mret None
  end.

Definition dealloc (released : loc) : M (heap T) Z :=
  b ← deref released;
  if negb (mRefs b =? 0) then mret (-1) else
  free released;;
  mret 0.

Definition acquire (this : loc) : M (heap T) unit :=
  b ← deref this;
  store this (SB (s32 (mRefs b + 1)) (mSize b) (cells b)).

Definition release (flags : Z) (this : loc) : M (heap T) Z :=
  b ← deref this;
  (* the common exit: mRefs = 0 and, unless asked to keep it, free *)
  let last := fun prev =>
    b' ← deref this;
    store this (SB 0 (mSize b') (cells b'));;
    (if Z.land flags eKeepStorage =? 0 then free this else mret tt);;
    mret prev in
  if onlyOwner (mRefs b) then last 1 else
  store this (SB (s32 (mRefs b - 1)) (mSize b) (cells b));;
  (if mRefs b =? 1 then last 1 else mret (mRefs b)).

Definition edit (this : loc) : M (heap T) (option loc) :=
  b ← deref this;
  if onlyOwner (mRefs b) then mret (Some this) else
  sb ← alloc (mSize b);
  match sb with
  | Some l => memcpy l this (mSize b);; release 0 this;; mret (Some l)
  | None => mret None
  end.

Definition editResize (newSize : Z) (this : loc) : M (heap T) (option loc) :=
  b ← deref this;
  let copy_out :=
    sb ← alloc newSize;
    match sb with
    | Some l =>
        memcpy l this (if newSize <? mSize b then newSize else mSize b);;
        release 0 this;;
        mret (Some l)
    | None => mret None
    end in
  if onlyOwner (mRefs b) then
    if mSize b =? newSize then mret (Some this) else
    if newSize >=? SIZE_MAX - sizeof_SharedBuffer then abort else
    buf ← realloc this newSize;
    match buf with
    | Some l =>
        b' ← deref l;
        store l (SB (mRefs b') newSize (cells b'));;
        mret (Some l)
    | None => copy_out
    end
  else copy_out.

Definition attemptEdit (this : loc) : M (heap T) (option loc) :=
  b ← deref this;
  mret (if onlyOwner (mRefs b) then Some this else None).

Definition reset (new_size : Z) (this : loc) : M (heap T) (option loc) :=
  sb ← alloc new_size;
  match sb with
  | Some l => release 0 this;; mret (Some l)
  | None => mret None
  end.

End SharedBufferOps.

(** ** Invariants of the heap *)

(** Addresses at or above [next] are free. *)
Definition heap_ok {T} (h : heap T) : Prop := forall l, (next h <= l)%nat -> bufs h !! l = None.

(** A block in use: a positive count that has not wrapped, and as many
    cells as its byte size says. *)
Record buf_ok {T} {LU : LibUtils} (w : Z) (b : SharedBuffer T) : Prop := {
  buf_refs : 1 <= mRefs b < 2 ^ 31;
  buf_size : 0 <= mSize b < SIZE_MAX - sizeof_SharedBuffer;
  buf_cells : length (cells b) = cell_count w (mSize b)
}.

(** What remains of the heap when one holder of [s] lets go of it. *)
Definition drop_ref {T} (s : option loc) (m : gmap loc (SharedBuffer T)) : gmap loc (SharedBuffer T) :=
  match s with
  | None => m
  | Some l =>
      match m !! l with
      | None => m
      | Some b => if mRefs b =? 1 then delete l m
                  else <[l := SB (mRefs b - 1) (mSize b) (cells b)]> m
      end
  end.

#[global] Arguments drop_ref : simpl never.

(** [moved s h l' b' h']: a holder gave up [s] and now owns [l'], which no
    one else refers to and which holds [b']. *)
Record moved {T} (s : option loc) (h : heap T) (l' : loc) (b' : SharedBuffer T) (h' : heap T) : Prop := {
  moved_bufs : bufs h' = <[l' := b']> (drop_ref s (bufs h));
  moved_fresh : drop_ref s (bufs h) !! l' = None;
  moved_refs : mRefs b' = 1;
  moved_next : (next h <= next h')%nat;
  moved_ok : heap_ok h'
}.

Section SharedBufferFacts.
Context {T : Type} {LU : LibUtils} {LL : LibUtilsLaws LU} {AL : Allocator}.
Variable w : Z.
Implicit Types (h : heap T) (b : SharedBuffer T).

Lemma deref_run h l b : bufs h !! l = Some b -> deref l h = Ret (b, h).
Proof. unfold deref. by intros ->. Qed.

Lemma store_run h l b b' :
  bufs h !! l = Some b -> store l b' h = Ret (tt, Heap (<[l := b']> (bufs h)) (next h)).
Proof. unfold store. by intros ->. Qed.

Lemma free_run h l b :
  bufs h !! l = Some b -> free l h = Ret (tt, Heap (delete l (bufs h)) (next h)).
Proof. unfold free. by intros ->. Qed.

Lemma alloc_run h size :
  size < SIZE_MAX - sizeof_SharedBuffer ->
  alloc w size h =
    if malloc_ok (next h) (sizeof_SharedBuffer + size)
    then Ret (Some (next h),
              Heap (<[next h := SB 1 size (replicate (cell_count w size) None)]> (bufs h))
                   (S (next h)))
    else Ret (None, Heap (bufs h) (S (next h))).
Proof.
  intros Hs. unfold alloc. rewrite Z.geb_leb. destruct (Z.leb_spec (SIZE_MAX - sizeof_SharedBuffer) size); [lia|].
  unfold mbind, M_bind, malloc, deref, store.
  destruct (malloc_ok _ _); simpl; [|done].
  rewrite lookup_insert_eq. simpl. rewrite lookup_insert_eq. by rewrite insert_insert_eq.
Qed.

Lemma alloc_abort h size :
  SIZE_MAX - sizeof_SharedBuffer <= size -> alloc w size h = Abort.
Proof.
  intros Hs. unfold alloc. rewrite Z.geb_leb.
  by destruct (Z.leb_spec (SIZE_MAX - sizeof_SharedBuffer) size); [|lia].
Qed.

(** Giving up a reference with [eKeepStorage] leaves a lone owner's block in
    place with a zero count. *)
Lemma release_keep_last h l b :
  bufs h !! l = Some b -> mRefs b = 1 ->
  release eKeepStorage l h = Ret (1, Heap (<[l := SB 0 (mSize b) (cells b)]> (bufs h)) (next h)).
Proof.
  intros Hl Hr. unfold release, mbind, M_bind. rewrite (deref_run _ _ _ Hl).
  rewrite onlyOwner_spec, Hr. simpl. rewrite (deref_run _ _ _ Hl), (store_run _ _ _ _ Hl).
  rewrite Z.land_diag. by destruct (Z.eqb_spec eKeepStorage 0); [destruct eKeepStorage_nonzero|].
Qed.

Lemma release_last h l b :
  bufs h !! l = Some b -> mRefs b = 1 ->
  release 0 l h = Ret (1, Heap (delete l (bufs h)) (next h)).
Proof.
  intros Hl Hr. unfold release, mbind, M_bind. rewrite (deref_run _ _ _ Hl).
  rewrite onlyOwner_spec, Hr. simpl. rewrite (deref_run _ _ _ Hl), (store_run _ _ _ _ Hl).
  erewrite free_run by (simpl; apply lookup_insert_eq). simpl. by rewrite delete_insert_eq.
Qed.

Lemma release_shared h l b flags :
  bufs h !! l = Some b -> 1 < mRefs b < 2 ^ 31 ->
  release flags l h =
    Ret (mRefs b, Heap (<[l := SB (mRefs b - 1) (mSize b) (cells b)]> (bufs h)) (next h)).
Proof.
  intros Hl Hr. unfold release, mbind, M_bind. rewrite (deref_run _ _ _ Hl).
  rewrite onlyOwner_spec. destruct (Z.eqb_spec (mRefs b) 1); [lia|].
  rewrite (store_run _ _ _ _ Hl). rewrite s32_small by lia. done.
Qed.

(** [release] is [drop_ref], and returns the count it found. *)
Lemma release_drop h l b :
  bufs h !! l = Some b -> 1 <= mRefs b < 2 ^ 31 ->
  release 0 l h = Ret (mRefs b, Heap (drop_ref (Some l) (bufs h)) (next h)).
Proof.
  intros Hl Hr. unfold drop_ref. rewrite Hl. destruct (Z.eqb_spec (mRefs b) 1) as [E|E].
  - rewrite E. by apply release_last with b.
  - apply release_shared; [done|lia].
Qed.

Lemma drop_ref_ne s (m : gmap loc (SharedBuffer T)) l :
  s <> Some l -> drop_ref s m !! l = m !! l.
Proof.
  destruct s as [l'|]; [|done]. intros Hne. unfold drop_ref.
  destruct (m !! l'); [|done]. case_match; [apply lookup_delete_ne | apply lookup_insert_ne]; congruence.
Qed.

Lemma drop_ref_None s (m : gmap loc (SharedBuffer T)) l : m !! l = None -> drop_ref s m !! l = None.
Proof.
  intros Hm. destruct (decide (s = Some l)) as [->|Hne]; [|by rewrite drop_ref_ne].
  unfold drop_ref. by rewrite Hm.
Qed.

Lemma drop_ref_owned (m : gmap loc (SharedBuffer T)) l b :
  m !! l = None -> mRefs b = 1 -> drop_ref (Some l) (<[l := b]> m) = m.
Proof.
  intros Hm Hr. unfold drop_ref. rewrite lookup_insert_eq, Hr. simpl. by apply delete_insert_id.
Qed.

Lemma drop_ref_unique (m : gmap loc (SharedBuffer T)) l b :
  m !! l = Some b -> mRefs b = 1 -> drop_ref (Some l) m = delete l m.
Proof. intros Hm Hr. unfold drop_ref. by rewrite Hm, Hr. Qed.

Lemma heap_ok_fresh h : heap_ok h -> bufs h !! next h = None.
Proof. intros H. by apply H. Qed.

Lemma heap_ok_lt h l b : heap_ok h -> bufs h !! l = Some b -> (l < next h)%nat.
Proof. intros H Hl. destruct (decide (l < next h)%nat); [done|]. rewrite H in Hl; [done|lia]. Qed.

(** A vector that owns its block may replace the block's contents. *)
Lemma moved_in_place h l b b' :
  heap_ok h -> bufs h !! l = Some b -> mRefs b = 1 -> mRefs b' = 1 ->
  moved (Some l) h l b' (Heap (<[l := b']> (bufs h)) (next h)).
Proof.
  intros Hok Hl Hr Hr'. split; simpl; try done.
  - by rewrite (drop_ref_unique _ _ _ Hl Hr), insert_delete_eq.
  - rewrite (drop_ref_unique _ _ _ Hl Hr). apply lookup_delete_eq.
  - intros l' Hge. simpl in *. rewrite lookup_insert_ne; [by apply Hok|].
    pose proof (heap_ok_lt _ _ _ Hok Hl). lia.
Qed.

Lemma moved_trans s h1 l2 b2 h2 l3 b3 h3 :
  moved s h1 l2 b2 h2 -> moved (Some l2) h2 l3 b3 h3 -> moved s h1 l3 b3 h3.
Proof.
  intros [E2 F2 R2 N2 O2] [E3 F3 R3 N3 O3].
  rewrite E2, drop_ref_owned in * by done. split; [done..| |done]. lia.
Qed.

Lemma moved_lookup s h l' b' h' : moved s h l' b' h' -> bufs h' !! l' = Some b'.
Proof. intros [-> _ _ _ _]. apply lookup_insert_eq. Qed.

Lemma acquire_run h l b :
  bufs h !! l = Some b -> 1 <= mRefs b < 2 ^ 31 - 1 ->
  acquire l h = Ret (tt, Heap (<[l := SB (mRefs b + 1) (mSize b) (cells b)]> (bufs h)) (next h)).
Proof.
  intros Hl Hr. unfold acquire, mbind, M_bind. rewrite (deref_run _ _ _ Hl), (store_run _ _ _ _ Hl).
  by rewrite s32_small by lia.
Qed.

Lemma memcpy_run h d s bd bs n :
  bufs h !! s = Some bs -> bufs h !! d = Some bd ->
  (cell_count w n <= length (cells bs))%nat -> (cell_count w n <= length (cells bd))%nat ->
  memcpy w d s n h =
    Ret (tt, Heap (<[d := SB (mRefs bd) (mSize bd)
                      (take (cell_count w n) (cells bs) ++ drop (cell_count w n) (cells bd))]> (bufs h))
                  (next h)).
Proof.
  intros Hs Hd H1 H2. unfold memcpy, mbind, M_bind. rewrite (deref_run _ _ _ Hs), (deref_run _ _ _ Hd).
  rewrite decide_True by done. by rewrite (store_run _ _ _ _ Hd).
Qed.

(** The tail shared by [edit] and [editResize]: a fresh block that takes the
    first bytes of the old one, which loses a reference. *)
Lemma copy_out_holds h l b size n :
  heap_ok h -> bufs h !! l = Some b -> 1 <= mRefs b < 2 ^ 31 ->
  (cell_count w n <= length (cells b))%nat -> (cell_count w n <= cell_count w size)%nat ->
  holds (sb ← alloc w size;
         match sb with
         | Some l' => memcpy w l' l n;; release 0 l;; mret (Some l')
         | None => mret None
         end) h
    (fun r h' => match r with
     | Some l' => size < SIZE_MAX - sizeof_SharedBuffer /\ moved (Some l) h l'
         (SB 1 size (take (cell_count w n) (cells b) ++ replicate (cell_count w size - cell_count w n) None)) h'
     | None => bufs h' = bufs h /\ next h' = S (next h) /\
               malloc_ok (next h) (sizeof_SharedBuffer + size) = false
     end)
    (SIZE_MAX - sizeof_SharedBuffer <= size).
Proof.
  intros Hok Hl Hr Hn1 Hn2. unfold holds, mbind, M_bind.
  destruct (Z.lt_ge_cases size (SIZE_MAX - sizeof_SharedBuffer)) as [Hs|Hs];
    [|rewrite alloc_abort by lia; done].
  rewrite alloc_run by done. destruct (malloc_ok _ _) eqn:Em; [|done].
  pose proof (heap_ok_lt _ _ _ Hok Hl) as Hlt.
  assert (Hne : next h <> l) by lia.
  erewrite memcpy_run; simpl;
    [|by rewrite lookup_insert_ne|by rewrite lookup_insert_eq|done|simpl; by rewrite length_replicate].
  simpl. rewrite insert_insert_eq, drop_replicate.
  erewrite release_drop; [|simpl; by rewrite lookup_insert_ne|lia].
  split; [done|]. split; simpl; try done; try lia.
  - unfold drop_ref. rewrite lookup_insert_ne, Hl by done.
    case_match; [by rewrite delete_insert_ne|by rewrite insert_insert_ne].
  - rewrite drop_ref_None; [done|]. by apply heap_ok_fresh.
  - intros l' Hge. simpl in *. apply drop_ref_None. rewrite lookup_insert_ne by lia. apply Hok. lia.
Qed.

Lemma cell_count_mono n m : 0 < w -> n <= m -> (cell_count w n <= cell_count w m)%nat.
Proof. intros Hw H. unfold cell_count. pose proof (Z.div_le_mono n m w Hw H). lia. Qed.

Lemma resize_take_replicate {A} (l : list A) n x :
  resize n x l = take n l ++ replicate (n - length l) x.
Proof.
  destruct (decide (n <= length l)%nat).
  - rewrite resize_le by done. replace (n - length l)%nat with 0%nat by lia. by rewrite app_nil_r.
  - rewrite resize_ge by lia. by rewrite take_ge by lia.
Qed.

(** Copying the smaller of the two sizes into a fresh block resizes. *)
Lemma copied_cells b newSize (n := if newSize <? mSize b then newSize else mSize b) :
  0 < w -> length (cells b) = cell_count w (mSize b) ->
  (cell_count w n <= length (cells b))%nat /\ (cell_count w n <= cell_count w newSize)%nat /\
  take (cell_count w n) (cells b) ++ replicate (cell_count w newSize - cell_count w n) None
  = resize (cell_count w newSize) None (cells b).
Proof.
  intros Hw Hc. rewrite resize_take_replicate, Hc. subst n.
  destruct (Z.ltb_spec newSize (mSize b)) as [E|E].
  - pose proof (cell_count_mono newSize (mSize b) Hw ltac:(lia)).
    split_and!; [lia|lia|]. do 2 f_equal; lia.
  - pose proof (cell_count_mono (mSize b) newSize Hw ltac:(lia)).
    split_and!; [lia|lia|]. by rewrite !take_ge by lia.
Qed.

(** A lone owner that keeps its block has moved nowhere. *)
Lemma moved_same h l b :
  heap_ok h -> bufs h !! l = Some b -> mRefs b = 1 -> moved (Some l) h l b h.
Proof.
  intros Hok Hl Hr. destruct h as [m nx]. rewrite <- (insert_id m l b) at 2 by done.
  by eapply (moved_in_place (Heap m nx)).
Qed.

(** What [editResize] promises. *)
Definition editResize_post h l b newSize (r : option loc) h' : Prop :=
  match r with
  | Some l' => newSize < SIZE_MAX - sizeof_SharedBuffer /\
      moved (Some l) h l' (SB 1 newSize (resize (cell_count w newSize) None (cells b))) h'
  | None => bufs h' = bufs h /\ (next h < next h')%nat /\
            exists k, malloc_ok k (sizeof_SharedBuffer + newSize) = false
  end.

(** Its path through [alloc], after a [realloc] that may have failed. *)
Lemma editResize_tail h h1 l b newSize (n := if newSize <? mSize b then newSize else mSize b) :
  0 < w -> heap_ok h -> bufs h !! l = Some b -> buf_ok w b -> 0 <= newSize ->
  bufs h1 = bufs h -> (next h <= next h1)%nat ->
  holds (sb ← alloc w newSize;
         match sb with
         | Some l' => memcpy w l' l n;; release 0 l;; mret (Some l')
         | None => mret None
         end) h1
    (editResize_post h l b newSize) (SIZE_MAX - sizeof_SharedBuffer <= newSize).
Proof.
  intros Hw Hok Hl [Hr Hsz Hc] Hn E1 N1.
  destruct (copied_cells b newSize Hw Hc) as (Hn1 & Hn2 & Hcont).
  eapply holds_mono; [apply copy_out_holds with (b := b); rewrite ?E1; try done|..].
  - intros l' Hge. rewrite E1. apply Hok. lia.
  - intros [l'|] h'; simpl; subst n; rewrite ?Hcont.
    + intros [? [EB F R N O]]. rewrite E1 in *. split; [done|]. by split; [..|lia|].
    + intros (-> & -> & Em). split; [done|]. split; [lia|eauto].
  - done.
Qed.

(** [editResize] returns an exclusively owned block of the new size that
    starts with the old contents, or leaves the heap as it was. *)
Lemma editResize_holds h l b newSize :
  0 < w -> heap_ok h -> bufs h !! l = Some b -> buf_ok w b -> 0 <= newSize ->
  holds (editResize w newSize l) h (editResize_post h l b newSize)
    (SIZE_MAX - sizeof_SharedBuffer <= newSize).
Proof.
  intros Hw Hok Hl Hb Hn. pose proof Hb as [Hr Hsz Hc].
  unfold editResize. eapply holds_run; [by apply deref_run|].
  rewrite onlyOwner_spec. destruct (Z.eqb_spec (mRefs b) 1) as [R1|R1]; [|by apply editResize_tail].
  destruct (Z.eqb_spec (mSize b) newSize) as [<-|Hne].
  { apply holds_ret. simpl. rewrite resize_all_alt by done.
    destruct b as [r sz cs]; simpl in *; subst r.
    split; [lia|]. by apply moved_same. }
  rewrite Z.geb_leb. destruct (Z.leb_spec (SIZE_MAX - sizeof_SharedBuffer) newSize) as [E|E]; [done|].
  unfold realloc. unfold holds, mbind, M_bind at 1. rewrite Hl.
  destruct (malloc_ok _ _) eqn:Em; [|by apply editResize_tail; [..|simpl; lia]].
  pose proof (heap_ok_lt _ _ _ Hok Hl) as Hlt.
  unfold mbind, M_bind. erewrite deref_run by (simpl; apply lookup_insert_eq).
  erewrite store_run by (simpl; apply lookup_insert_eq). simpl. rewrite insert_insert_eq, R1.
  split; [done|]. split; simpl; try done; try lia.
  - by rewrite (drop_ref_unique _ _ _ Hl R1).
  - rewrite drop_ref_None; [done|]. by apply heap_ok_fresh.
  - intros l' Hge. simpl in *. rewrite lookup_insert_ne by lia.
    destruct (decide (l = l')) as [->|]; [by rewrite lookup_delete_eq|].
    rewrite lookup_delete_ne by done. apply Hok. lia.
Qed.

Lemma edit_holds h l b :
  0 < w -> heap_ok h -> bufs h !! l = Some b -> buf_ok w b ->
  holds (edit w l) h
    (fun r h' => match r with
     | Some l' => moved (Some l) h l' (SB 1 (mSize b) (cells b)) h'
     | None => bufs h' = bufs h /\ mRefs b <> 1
     end)
    (SIZE_MAX - sizeof_SharedBuffer <= mSize b).
Proof.
  intros Hw Hok Hl [Hr Hsz Hc]. unfold edit. eapply holds_run; [by apply deref_run|].
  rewrite onlyOwner_spec. destruct (Z.eqb_spec (mRefs b) 1) as [R1|R1].
  - apply holds_ret. destruct b as [r sz cs]; simpl in *; subst r. by apply moved_same.
  - eapply holds_mono; [apply copy_out_holds with (b := b)|..]; try done; try lia.
    intros [l'|] h'; [intros [_ Hm]; revert Hm|by intros (? & _ & _)].
    rewrite <- Hc, take_ge, Nat.sub_diag by lia. by rewrite app_nil_r.
Qed.

End SharedBufferFacts.
