(* ===== verification/VectorImpl.v ===== *)
(** * libshims/VectorImpl.cpp: class VectorImpl

    A method is a computation on the heap of storage blocks and the fields of
    [this].  A [void*] into storage is a block and an item index; the source
    operands of the insertions are pointers that may also point outside the
    heap or into the vector's own block, so that self-insertion is covered.
    Offsets are counted in items of [mItemSize] bytes.  [ALOG_ASSERT] and
    [ALOGW_IF] do nothing in a release build. *)

From S2P Require Import Prelude External SharedBuffer.

Record VectorImpl : Type := VI {
  mStorage : option loc;
  mCount : Z;
  mFlags : Z;
  mItemSize : Z
}.

Definition HAS_TRIVIAL_CTOR : Z := 0x00000001.
Definition HAS_TRIVIAL_DTOR : Z := 0x00000002.
Definition HAS_TRIVIAL_COPY : Z := 0x00000004.

(** [mFlags & flag] as a condition. *)
Definition has_flag (v : VectorImpl) (flag : Z) : bool := negb (Z.land (mFlags v) flag =? 0).

Definition kMinVectorCapacity : Z := 4.

(** A pointer to items: null, memory outside the heap, or item [i] of the
    block at [l]. *)
Inductive item_ptr (T : Type) : Type :=
| PNull
| PExt (xs : list (slot T))
| PBuf (l : loc) (i : nat).
Arguments PNull {T}.
Arguments PExt {T} xs.
Arguments PBuf {T} l i.

Definition ptr_of {T} (s : option loc) (i : nat) : item_ptr T :=
  match s with Some l => PBuf l i | None => PNull end.

Record vstate (T : Type) : Type := VS { vheap : heap T; this : VectorImpl }.
Arguments VS {T} _ _.
Arguments vheap {T} _.
Arguments this {T} _.

Section VectorOps.
Context {T : Type} {LU : LibUtils} {AL : Allocator} {IO : ItemOps T}.

Abbreviation V := (M (vstate T)).

Definition on_heap {A} (m : M (heap T) A) : V A := fun s =>
  match m (vheap s) with
  | Ret (a, h) => Ret (a, VS h (this s))
  | Abort => Abort
  | Fault => Fault
  end.

Definition self : V VectorImpl := fun s => Ret (this s, s).
Definition set_storage (p : option loc) : V unit := fun s =>
  Ret (tt, VS (vheap s) (VI p (mCount (this s)) (mFlags (this s)) (mItemSize (this s)))).
Definition set_count (n : Z) : V unit := fun s =>
  Ret (tt, VS (vheap s) (VI (mStorage (this s)) n (mFlags (this s)) (mItemSize (this s)))).

(** Reading [n] items through a pointer, and rewriting [n] slots of a block. *)
Definition read_region (p : item_ptr T) (n : nat) : V (list (slot T)) :=
  match p with
  | PNull => if decide (n = 0)%nat then mret [] else fault
  | PExt xs => if decide (n <= length xs)%nat then mret (take n xs) else fault
  | PBuf l i =>
      b ← on_heap (deref l);
      if decide (i + n <= length (cells b))%nat then mret (take n (drop i (cells b))) else fault
  end.

Definition update_region (l : loc) (i n : nat) (f : list (slot T) -> list (slot T)) : V unit :=
  b ← on_heap (deref l);
  if decide (i + n <= length (cells b))%nat
  then on_heap (store l (SB (mRefs b) (mSize b)
         (take i (cells b) ++ f (take n (drop i (cells b))) ++ drop (i + n) (cells b))))
  else fault.

Definition update_cells (l : loc) (to from n : nat)
    (f : list (slot T) -> nat -> nat -> nat -> list (slot T)) : V unit :=
  b ← on_heap (deref l);
  if decide (to + n <= length (cells b) /\ from + n <= length (cells b))%nat
  then on_heap (store l (SB (mRefs b) (mSize b) (f (cells b) to from n)))
  else fault.

Definition _do_construct (l : loc) (i : nat) (num : Z) : V unit :=
  v ← self;
  if negb (has_flag v HAS_TRIVIAL_CTOR)
  then update_region l i (Z.to_nat num) do_construct
  else mret tt.

Definition _do_destroy (l : loc) (i : nat) (num : Z) : V unit :=
  v ← self;
  if negb (has_flag v HAS_TRIVIAL_DTOR)
  then update_region l i (Z.to_nat num) do_destroy
  else mret tt.

Definition _do_copy (l : loc) (i : nat) (from : item_ptr T) (num : Z) : V unit :=
  v ← self;
  s ← read_region from (Z.to_nat num);
  if negb (has_flag v HAS_TRIVIAL_COPY)
  then update_region l i (Z.to_nat num) (fun d => do_copy d s)
  else update_region l i (Z.to_nat num) (fun _ => s).

(** [do_splat] reads the item only if there is a slot to fill. *)
Definition _do_splat (l : loc) (i : nat) (item : item_ptr T) (num : Z) : V unit :=
  if num =? 0 then mret tt else
  x ← read_region item 1;
  update_region l i (Z.to_nat num) (fun d => do_splat d (default None (head x))).

Definition _do_move_forward (l : loc) (to from : nat) (num : Z) : V unit :=
  update_cells l to from (Z.to_nat num) do_move_forward.

Definition _do_move_backward (l : loc) (to from : nat) (num : Z) : V unit :=
  update_cells l to from (Z.to_nat num) do_move_backward.

Definition size : V Z := v ← self; mret (mCount v).

Definition capacity : V Z :=
  v ← self;
  match mStorage v with
  | Some l => b ← on_heap (deref l); mret (mSize b / mItemSize v)
  | None => mret 0
  end.

Definition release_storage : V unit :=
  v ← self;
  match mStorage v with
  | Some l =>
      prev ← on_heap (release eKeepStorage l);
      if prev =? 1
      then _do_destroy l 0 (mCount v);; on_heap (dealloc l);; mret tt
      else mret tt
  | None => mret tt
  end.

Definition editArrayImpl : V (option loc) :=
  v ← self;
  match mStorage v with
  | Some l =>
      editable ← on_heap (attemptEdit l);
      match editable with
      | Some _ => mret (Some l)
      | None =>
          b ← on_heap (deref l);
          editable ← on_heap (alloc (mItemSize v) (mSize b));
          match editable with
          | None => abort
          | Some l' =>
              _do_copy l' 0 (PBuf l 0) (mCount v);;
              release_storage;;
              set_storage (Some l');;
              mret (Some l')
          end
      end
  | None => mret None
  end.

Definition itemLocation (index : Z) : V (option (loc * nat)) :=
  v ← self;
  cap ← capacity;
  if index <? cap then
    match mStorage v with
    | Some l => mret (Some (l, Z.to_nat index))
    | None => mret None
    end
  else mret None.

Definition editItemLocation (index : Z) : V (option (loc * nat)) :=
  cap ← capacity;
  if index <? cap then
    buffer ← editArrayImpl;
    match buffer with
    | Some l => mret (Some (l, Z.to_nat index))
    | None => mret None
    end
  else mret None.

(** The capacity [_grow] asks for: [x + x/2 + 1], at least 4; [None] when
    one of the checked additions overflows. *)
Definition grow_capacity (new_size : Z) : option Z :=
  c1 ← safe_add new_size (new_size / 2);
  c2 ← safe_add c1 1;
  mret (Z.max kMinVectorCapacity c2).

(** The block that [_grow] and [_shrink] share: a fresh block [l] takes the
    first [where_] items and, from [src] on, the items up to [limit] at [dst];
    the old storage is released and the vector adopts [l]. *)
Definition copy_around_gap (l : loc) (where_ limit dst src : Z) : V unit :=
  v ← self;
  (if negb (where_ =? 0) then _do_copy l 0 (ptr_of (mStorage v) 0) where_ else mret tt);;
  (if negb (where_ =? limit)
   then _do_copy l (Z.to_nat dst) (ptr_of (mStorage v) (Z.to_nat src)) (limit - where_)
   else mret tt);;
  release_storage;;
  set_storage (Some l).

(** [editResize] for items that may be moved as bytes. *)
Definition resize_block (bytes : Z) (cur : loc) : V bool :=
  v ← self;
  sb ← on_heap (editResize (mItemSize v) bytes cur);
  match sb with
  | Some l => set_storage (Some l);; mret true
  | None => mret false
  end.

(** The other reallocation path: a new block and a copy of every item. *)
Definition replace_block (bytes where_ limit dst src : Z) : V bool :=
  v ← self;
  sb ← on_heap (alloc (mItemSize v) bytes);
  match sb with
  | Some l => copy_around_gap l where_ limit dst src;; mret true
  | None => mret false
  end.

Definition bitwise_movable (v : VectorImpl) : bool :=
  has_flag v HAS_TRIVIAL_COPY && has_flag v HAS_TRIVIAL_DTOR.

(** The three ways to make room; [false] is the early [return NULL]. *)
Definition _grow_storage (where_ amount new_size : Z) : V bool :=
  v ← self;
  cap ← capacity;
  if cap <? new_size then
    match grow_capacity new_size with
    | None => abort
    | Some new_capacity =>
        match safe_mul new_capacity (mItemSize v) with
        | None => abort
        | Some new_alloc_size =>
            match (if (mCount v =? where_) && bitwise_movable v then mStorage v else None) with
            | Some cur => resize_block new_alloc_size cur
            | None => replace_block new_alloc_size where_ (mCount v) (where_ + amount) where_
            end
        end
    end
  else
    array ← editArrayImpl;
    (if negb (where_ =? mCount v) then
       match array with
       | Some l => _do_move_forward l (Z.to_nat (where_ + amount)) (Z.to_nat where_)
                     (mCount v - where_)
       | None => fault
       end
     else mret tt);;
    mret true.

Definition _grow (where_ amount : Z) : V (option (loc * nat)) :=
  v ← self;
  match safe_add (mCount v) amount with
  | None => abort
  | Some new_size =>
      ok ← _grow_storage where_ amount new_size;
      if ok : bool then set_count new_size;; itemLocation where_ else mret None
  end.

Definition _shrink_storage (where_ amount new_size : Z) (cur : loc) : V bool :=
  v ← self;
  cap ← capacity;
  if new_size <? cap / 2 then
    let new_capacity := Z.max kMinVectorCapacity (u32 (new_size * 2)) in
    let bytes := u32 (new_capacity * mItemSize v) in
    if (where_ =? new_size) && bitwise_movable v
    then resize_block bytes cur
    else replace_block bytes where_ new_size where_ (where_ + amount)
  else
    array ← editArrayImpl;
    match array with
    | Some l =>
        _do_destroy l (Z.to_nat where_) amount;;
        (if negb (where_ =? new_size)
         then _do_move_backward l (Z.to_nat where_) (Z.to_nat (where_ + amount))
                (new_size - where_)
         else mret tt);;
        mret true
    | None => fault
    end.

Definition _shrink (where_ amount : Z) : V unit :=
  v ← self;
  match mStorage v with
  | None => mret tt
  | Some cur =>
      match safe_sub (mCount v) amount with
      | None => abort
      | Some new_size =>
          ok ← _shrink_storage where_ amount new_size cur;
          if ok : bool then set_count new_size else mret tt
      end
  end.

Definition insertArrayAt (array : item_ptr T) (index length : Z) : V Z :=
  n ← size;
  if n <? index then mret BAD_INDEX else
  where_ ← _grow index length;
  match where_ with
  | Some (l, i) => _do_copy l i array length;; mret (s32 index)
  | None => mret NO_MEMORY
  end.

Definition appendArray (array : item_ptr T) (length : Z) : V Z :=
  n ← size; insertArrayAt array n length.

(** The operand is read before [_grow] runs, as the arguments
    [vector.arrayImpl(), index, vector.size()] are. *)
Definition insertVectorAt (vector : VectorImpl) (index : Z) : V Z :=
  insertArrayAt (ptr_of (mStorage vector) 0) index (mCount vector).

Definition appendVector (vector : VectorImpl) : V Z :=
  n ← size; insertVectorAt vector n.

Definition insertAt (item : item_ptr T) (index numItems : Z) : V Z :=
  n ← size;
  if n <? index then mret BAD_INDEX else
  where_ ← _grow index numItems;
  match where_ with
  | Some (l, i) =>
      match item with
      | PNull => _do_construct l i numItems
      | _ => _do_splat l i item numItems
      end;;
      mret (s32 index)
  | None => mret NO_MEMORY
  end.

Definition removeItemsAt (index count : Z) : V Z :=
  n ← size;
  if n <? u32 (index + count) then mret BAD_VALUE else
  _shrink index count;;
  mret (s32 index).

Definition pop : V unit :=
  n ← size;
  if negb (n =? 0) then removeItemsAt (u32 (n - 1)) 1;; mret tt else mret tt.

Definition push (item : item_ptr T) : V unit :=
  n ← size; insertAt item n 1;; mret tt.

Definition add (item : item_ptr T) : V Z :=
  n ← size; insertAt item n 1.

Definition ptr_eqb (item : option (loc * nat)) (p : item_ptr T) : bool :=
  match item, p with
  | None, PNull => true
  | Some (l, i), PBuf l' i' => bool_decide (l = l') && bool_decide (i = i')
  | _, _ => false
  end.

Definition replaceAt (prototype : item_ptr T) (index : Z) : V Z :=
  n ← size;
  if n <=? index then mret BAD_INDEX else
  item ← editItemLocation index;
  if negb (ptr_eqb item prototype) then
    match item with
    | None => mret NO_MEMORY
    | Some (l, i) =>
        _do_destroy l i 1;;
        match prototype with
        | PNull => _do_construct l i 1
        | _ => _do_copy l i prototype 1
        end;;
        mret (s32 index)
    end
  else mret (s32 index).

Definition finish_vector : V unit :=
  release_storage;; set_storage None;; set_count 0.

Definition clear : V unit := n ← size; _shrink 0 n.

Definition setCapacity (new_capacity : Z) : V Z :=
  n ← size;
  if new_capacity <=? n then cap ← capacity; mret (s32 cap) else
  v ← self;
  match safe_mul new_capacity (mItemSize v) with
  | None => abort
  | Some new_allocation_size =>
      sb ← on_heap (alloc (mItemSize v) new_allocation_size);
      match sb with
      | Some l =>
          _do_copy l 0 (ptr_of (mStorage v) 0) n;;
          release_storage;;
          set_storage (Some l);;
          mret (s32 new_capacity)
      | None => mret NO_MEMORY
      end
  end.

Definition resize (sz : Z) : V Z :=
  n ← size;
  result ← (if n <? sz then insertAt PNull n (sz - n)
            else if sz <? n then removeItemsAt sz (n - sz)
            else mret NO_ERROR);
  mret (if result <? 0 then result else s32 sz).

(** Constructors and assignment.  [same] is [this == &rhs]. *)
Definition construct_vector (itemSize flags : Z) : VectorImpl := VI None 0 flags itemSize.

Definition copy_construct (rhs : VectorImpl) : M (heap T) VectorImpl :=
  match mStorage rhs with
  | Some l => acquire l;; mret rhs
  | None => mret rhs
  end.

Definition assign (same : bool) (rhs : VectorImpl) : V unit :=
  v ← self;
  if negb (mItemSize v =? mItemSize rhs) then abort else
  if same then mret tt else
  release_storage;;
  if negb (mCount rhs =? 0) then
    set_storage (mStorage rhs);; set_count (mCount rhs);;
    match mStorage rhs with
    | Some l => on_heap (acquire l)
    | None => fault
    end
  else set_storage None;; set_count 0.

(** ** Insertion sort *)

Section Sort.
Variable cmp : T -> T -> Z.

(** The value of a constructed item. *)
Definition read_item (l : loc) (i : nat) : V T :=
  r ← read_region (PBuf l i) 1;
  match r with [Some x] => mret x | _ => fault end.

Definition temp_value (t : slot T) : V T :=
  match t with Some x => mret x | None => fault end.

(** [malloc(mItemSize)] for the temporary. *)
Definition malloc_temp (bytes : Z) : V bool := fun s =>
  Ret (malloc_ok (next (vheap s)) bytes,
       VS (Heap (bufs (vheap s)) (S (next (vheap s)))) (this s)).

(** [_do_destroy] and [_do_copy] on the one-item temporary. *)
Definition destroy_temp (t : slot T) : V (slot T) :=
  v ← self;
  mret (if negb (has_flag v HAS_TRIVIAL_DTOR) then default None (head (do_destroy [t])) else t).

Definition copy_to_temp (t : slot T) (l : loc) (i : nat) : V (slot T) :=
  v ← self;
  s ← read_region (PBuf l i) 1;
  mret (default None (head (if negb (has_flag v HAS_TRIVIAL_COPY) then do_copy [t] s else s))).

(** The do-while loop that moves the sorted prefix up, entered with
    [curr = j] and [next = j + 1]; returns the final [next]. *)
Fixpoint sort_shift (l : loc) (temp : slot T) (j : nat) : V nat :=
  _do_destroy l (S j) 1;;
  _do_copy l (S j) (PBuf l j) 1;;
  match j with
  | O => mret O
  | S j' =>
      c ← read_item l j';
      t ← temp_value temp;
      if 0 <? cmp c t then sort_shift l temp j' else mret (S j')
  end.

(** The outer loop: [k] iterations left, at index [i]. *)
Fixpoint sort_loop (k i : nat) (array : option loc) (temp : option (slot T)) : V Z :=
  match k with
  | O =>
      match temp with
      | Some t => destroy_temp t;; mret NO_ERROR
      | None => mret NO_ERROR
      end
  | S k' =>
      match array with
      | None => fault
      | Some l =>
          x ← read_item l i;
          y ← read_item l (i - 1);
          if 0 <? cmp y x then
            let body := fun (l : loc) (t : slot T) =>
              t' ← copy_to_temp t l i;
              n ← sort_shift l t' (i - 1);
              _do_destroy l n 1;;
              _do_copy l n (PExt [t']) 1;;
              sort_loop k' (S i) (Some l) (Some t') in
            match temp with
            | None =>
                array' ← editArrayImpl;
                match array' with
                | None => mret NO_MEMORY
                | Some l' =>
                    v ← self;
                    ok ← malloc_temp (mItemSize v);
                    if ok : bool then body l' None else mret NO_MEMORY
                end
            | Some t => t' ← destroy_temp t; body l t'
            end
          else sort_loop k' (S i) array temp
      end
  end.

Definition sort : V Z :=
  v ← self;
  let count := s32 (mCount v) in
  if 1 <? count then sort_loop (Z.to_nat (count - 1)) 1 (mStorage v) None
  else mret NO_ERROR.

End Sort.
End VectorOps.
