(* ===== verification/VectorFacts.v ===== *)
(** * VectorImpl: representation and the effect of the private helpers

    [vec_ok h v xs] says that the vector [v] holds the items [xs]; the lemmas
    give, for each helper of [VectorImpl.cpp], the heap it leaves and the
    items it keeps. *)

From S2P Require Import Prelude External SharedBuffer VectorImpl.

(** Items may be copied when the type copies as bytes or they are all
    constructed. *)
Definition copyable {T} (v : VectorImpl) (xs : list (slot T)) : Prop :=
  has_flag v HAS_TRIVIAL_COPY = true \/ Forall is_Some xs.

Record vec_ok {T} {LU : LibUtils} (h : heap T) (v : VectorImpl) (xs : list (slot T)) : Prop := {
  vok_item : 0 < mItemSize v <= SIZE_MAX;
  vok_count : mCount v = Z.of_nat (length xs);
  vok_live : copyable v xs;
  vok_store :
    match mStorage v with
    | None => xs = []
    | Some l => exists b, bufs h !! l = Some b /\ buf_ok (mItemSize v) b /\
                          take (length xs) (cells b) = xs
    end
}.

Definition with_storage (v : VectorImpl) (p : option loc) : VectorImpl :=
  VI p (mCount v) (mFlags v) (mItemSize v).
Definition with_count (v : VectorImpl) (n : Z) : VectorImpl :=
  VI (mStorage v) n (mFlags v) (mItemSize v).

(** How a method may have changed the heap around its vector: nothing, the
    storage given up, or the storage given up for a block of its own. *)
Inductive transfer {T} (s : option loc) (h : heap T) (s' : option loc) (h' : heap T) : Prop :=
| tr_same : s' = s -> bufs h' = bufs h -> (next h <= next h')%nat -> heap_ok h' -> transfer s h s' h'
| tr_drop : s' = None -> bufs h' = drop_ref s (bufs h) -> (next h <= next h')%nat -> heap_ok h' ->
    transfer s h s' h'
| tr_moved l' b' : s' = Some l' -> moved s h l' b' h' -> transfer s h s' h'.

Section Facts.
Context {T : Type} {LU : LibUtils} {LL : LibUtilsLaws LU} {AL : Allocator}.
Context {IO : ItemOps T} {IL : ItemLaws IO}.
Implicit Types (h : heap T) (v : VectorImpl) (xs : list (slot T)) (b : SharedBuffer T).

(** ** Lists as memory *)

Lemma take_drop_middle' {A} (l : list A) i n : (i + n <= length l)%nat ->
  length (take n (drop i l)) = n.
Proof. intros H. rewrite length_take, length_drop. lia. Qed.

Lemma take_short {A} (l : list A) n (xs : list A) : take n l = xs -> length xs = n -> (n <= length l)%nat.
Proof. intros <-. rewrite length_take. lia. Qed.

Lemma vec_fits h v xs l b :
  vec_ok h v xs -> mStorage v = Some l -> bufs h !! l = Some b ->
  buf_ok (mItemSize v) b /\ take (length xs) (cells b) = xs /\ (length xs <= length (cells b))%nat.
Proof.
  intros Hv Hs Hb. pose proof (vok_store _ _ _ Hv) as Hst. rewrite Hs in Hst.
  destruct Hst as (b' & Hb' & Hok & Hx). assert (b' = b) as -> by congruence.
  split; [done|]. split; [done|]. by eapply take_short.
Qed.

Lemma vec_block h v xs l :
  vec_ok h v xs -> mStorage v = Some l -> exists b, bufs h !! l = Some b.
Proof.
  intros Hv Hs. pose proof (vok_store _ _ _ Hv) as Hst. rewrite Hs in Hst. destruct Hst as (b & ? & _). eauto.
Qed.

(** ** Running the primitive steps *)

Lemma on_heap_run {A} (m : M (heap T) A) h h' v a :
  m h = Ret (a, h') -> on_heap m (VS h v) = Ret (a, VS h' v).
Proof. unfold on_heap. simpl. by intros ->. Qed.

Lemma holds_on_heap {A} (m : M (heap T) A) h v (P : A -> heap T -> Prop) Ab :
  holds m h P Ab -> holds (on_heap m) (VS h v) (fun a s => P a (vheap s) /\ this s = v) Ab.
Proof. unfold holds, on_heap. simpl. by destruct (m h) as [[a h']| |]. Qed.

Lemma self_run h v : self (VS h v) = Ret (v, VS h v).
Proof. done. Qed.

Lemma size_run h v : size (VS h v) = Ret (mCount v, VS h v).
Proof. done. Qed.

Lemma update_region_run h v l b i n f :
  bufs h !! l = Some b -> (i + n <= length (cells b))%nat ->
  update_region l i n f (VS h v) =
    Ret (tt, VS (Heap (<[l := SB (mRefs b) (mSize b)
       (take i (cells b) ++ f (take n (drop i (cells b))) ++ drop (i + n) (cells b))]> (bufs h)) (next h)) v).
Proof.
  intros Hl Hn. unfold update_region. erewrite bind_run by (by apply on_heap_run, deref_run).
  rewrite decide_True by done. by apply on_heap_run, store_run with b.
Qed.

Lemma read_region_run h v l b i n :
  bufs h !! l = Some b -> (i + n <= length (cells b))%nat ->
  read_region (PBuf l i) n (VS h v) = Ret (take n (drop i (cells b)), VS h v).
Proof.
  intros Hl Hn. unfold read_region. erewrite bind_run by (by apply on_heap_run, deref_run).
  by rewrite decide_True by done.
Qed.

Lemma update_cells_run h v l b to from n f :
  bufs h !! l = Some b -> (to + n <= length (cells b))%nat -> (from + n <= length (cells b))%nat ->
  update_cells l to from n f (VS h v) =
    Ret (tt, VS (Heap (<[l := SB (mRefs b) (mSize b) (f (cells b) to from n)]> (bufs h)) (next h)) v).
Proof.
  intros Hl H1 H2. unfold update_cells. erewrite bind_run by (by apply on_heap_run, deref_run).
  rewrite decide_True by done. by apply on_heap_run, store_run with b.
Qed.

(** [_do_copy] writes exactly the items it reads. *)
Lemma _do_copy_run h v l b i p num xs :
  read_region p (Z.to_nat num) (VS h v) = Ret (xs, VS h v) -> length xs = Z.to_nat num ->
  copyable v xs -> bufs h !! l = Some b -> (i + Z.to_nat num <= length (cells b))%nat ->
  _do_copy l i p num (VS h v) =
    Ret (tt, VS (Heap (<[l := SB (mRefs b) (mSize b)
       (take i (cells b) ++ xs ++ drop (i + Z.to_nat num) (cells b))]> (bufs h)) (next h)) v).
Proof.
  intros Hr Hlen Hc Hl Hn. unfold _do_copy. erewrite bind_run by apply self_run.
  erewrite bind_run by exact Hr. destruct (has_flag v HAS_TRIVIAL_COPY) eqn:Hf; simpl.
  - by apply update_region_run.
  - destruct Hc as [?|Hc]; [congruence|]. erewrite update_region_run by done.
    rewrite do_copy_spec; [done| |done]. rewrite take_drop_middle' by done. done.
Qed.

(** Some contents of the same length: what [_do_destroy] leaves behind. *)
Lemma _do_destroy_run h v l b i num :
  bufs h !! l = Some b -> (i + Z.to_nat num <= length (cells b))%nat ->
  exists r, length r = Z.to_nat num /\
  _do_destroy l i num (VS h v) =
    Ret (tt, VS (Heap (<[l := SB (mRefs b) (mSize b)
       (take i (cells b) ++ r ++ drop (i + Z.to_nat num) (cells b))]> (bufs h)) (next h)) v).
Proof.
  intros Hl Hn. unfold _do_destroy. rewrite (bind_run _ _ _ _ _ (self_run h v)).
  destruct (has_flag v HAS_TRIVIAL_DTOR); simpl.
  - exists (take (Z.to_nat num) (drop i (cells b))). split; [by apply take_drop_middle'|].
    rewrite <- drop_drop, take_drop, take_drop. destruct h, b. simpl in *. by rewrite insert_id.
  - eexists. split; [|by apply update_region_run]. by rewrite do_destroy_length, take_drop_middle'.
Qed.

Lemma capacity_run h v xs :
  vec_ok h v xs ->
  exists c, capacity (VS h v) = Ret (Z.of_nat c, VS h v) /\ (length xs <= c)%nat /\
    match mStorage v with
    | None => c = 0%nat
    | Some l => forall b, bufs h !! l = Some b -> c = length (cells b)
    end.
Proof.
  intros Hv. unfold capacity. rewrite (bind_run _ _ _ _ _ (self_run h v)).
  destruct (mStorage v) as [l|] eqn:Hs.
  - destruct (vec_block _ _ _ _ Hv Hs) as [b Hb].
    destruct (vec_fits _ _ _ _ _ Hv Hs Hb) as ([Hr Hz Hc] & Hx & Hf).
    rewrite (bind_run _ _ _ _ _ (on_heap_run _ _ _ v _ (deref_run _ _ _ Hb))).
    exists (length (cells b)). split; [|split; [done|intros b' ?; congruence]].
    unfold mret, M_ret. do 2 f_equal. rewrite Hc. unfold cell_count. rewrite Z2Nat.id; [done|].
    apply Z.div_pos; [lia|]. pose proof (vok_item _ _ _ Hv). lia.
  - exists 0%nat. split; [done|]. split; [|done]. pose proof (vok_store _ _ _ Hv) as E.
    rewrite Hs in E. by subst.
Qed.

(** [release_storage] gives up exactly one reference and, for the last
    holder, destroys the items and frees the block. *)
Lemma release_storage_run h v xs :
  vec_ok h v xs ->
  release_storage (VS h v) = Ret (tt, VS (Heap (drop_ref (mStorage v) (bufs h)) (next h)) v).
Proof.
  intros Hv. unfold release_storage. rewrite (bind_run _ _ _ _ _ (self_run h v)).
  destruct (mStorage v) as [l|] eqn:Hs; [|by destruct h].
  destruct (vec_block _ _ _ _ Hv Hs) as [b Hb].
  destruct (vec_fits _ _ _ _ _ Hv Hs Hb) as ([Hr Hz Hc] & Hx & Hf).
  destruct (decide (mRefs b = 1)) as [R1|R1].
  - erewrite bind_run by (by apply on_heap_run, release_keep_last). simpl.
    destruct (_do_destroy_run (Heap (<[l:=SB 0 (mSize b) (cells b)]> (bufs h)) (next h)) v l
      (SB 0 (mSize b) (cells b)) 0 (mCount v))
      as (r & _ & Hd); [apply lookup_insert_eq|simpl; rewrite (vok_count _ _ _ Hv); lia|].
    rewrite (bind_run _ _ _ _ _ Hd). simpl. rewrite insert_insert_eq.
    erewrite bind_run; [done|]. apply on_heap_run. unfold dealloc.
    erewrite bind_run by (apply deref_run; simpl; apply lookup_insert_eq). simpl.
    erewrite bind_run by (eapply free_run; simpl; apply lookup_insert_eq).
    simpl. rewrite delete_insert_eq. by rewrite (drop_ref_unique _ _ _ Hb R1).
  - erewrite bind_run by (apply on_heap_run; eapply release_shared; [done|lia]).
    destruct (Z.eqb_spec (mRefs b) 1); [done|]. unfold drop_ref. rewrite Hb.
    by destruct (Z.eqb_spec (mRefs b) 1).
Qed.

(** ** Reading the vector's own items *)

Lemma slice_prefix {A} (c xs : list A) i n :
  take (length xs) c = xs -> (i + n <= length xs)%nat -> take n (drop i c) = take n (drop i xs).
Proof.
  intros Hx Hn. rewrite !take_drop_commute. f_equal. rewrite <- Hx, take_take. f_equal. lia.
Qed.

Lemma read_own_run h h1 v xs i n :
  vec_ok h v xs -> (forall l, mStorage v = Some l -> bufs h1 !! l = bufs h !! l) ->
  (i + n <= length xs)%nat ->
  read_region (ptr_of (mStorage v) i) n (VS h1 v) = Ret (take n (drop i xs), VS h1 v).
Proof.
  intros Hv Hsame Hn. destruct (mStorage v) as [l|] eqn:Hs; simpl.
  - destruct (vec_block _ _ _ _ Hv Hs) as [b Hb].
    destruct (vec_fits _ _ _ _ _ Hv Hs Hb) as (_ & Hx & Hf).
    erewrite <- slice_prefix by done. apply read_region_run; [|lia]. by rewrite Hsame.
  - pose proof (vok_store _ _ _ Hv) as E. rewrite Hs in E. subst xs. simpl in *.
    rewrite decide_True by lia. by rewrite drop_nil, take_nil.
Qed.

Lemma vec_ok_same h h1 v xs :
  vec_ok h v xs -> (forall l, mStorage v = Some l -> bufs h1 !! l = bufs h !! l) -> vec_ok h1 v xs.
Proof.
  intros [Hi Hc Hl Hst] Hsame. split; try done.
  destruct (mStorage v) as [l|]; [|done]. by rewrite Hsame.
Qed.

Lemma drop_ref_insert s (m : gmap loc (SharedBuffer T)) l b :
  s <> Some l -> drop_ref s (<[l := b]> m) = <[l := b]> (drop_ref s m).
Proof.
  destruct s as [l'|]; [|done]. intros Hne. unfold drop_ref.
  rewrite lookup_insert_ne by congruence. destruct (m !! l'); [|done].
  case_match; [apply delete_insert_ne | apply insert_insert_ne]; congruence.
Qed.

Lemma copyable_slice v xs i n : copyable v xs -> copyable v (take n (drop i xs)).
Proof. intros [?|H]; [by left|right]. by apply Forall_take, Forall_drop. Qed.

Lemma copyable_app v xs ys : copyable v xs -> copyable v ys -> copyable v (xs ++ ys).
Proof. intros [?|H1] [?|H2]; try (by left). right. by apply Forall_app. Qed.

(** A copy that is skipped when there is nothing to copy. *)
Lemma copy_if_run (c : bool) h v l b i p num xs :
  (c = false -> num = 0) ->
  read_region p (Z.to_nat num) (VS h v) = Ret (xs, VS h v) -> length xs = Z.to_nat num ->
  copyable v xs -> bufs h !! l = Some b -> (i + Z.to_nat num <= length (cells b))%nat ->
  (if c then _do_copy l i p num else mret tt) (VS h v) =
    Ret (tt, VS (Heap (<[l := SB (mRefs b) (mSize b)
       (take i (cells b) ++ xs ++ drop (i + Z.to_nat num) (cells b))]> (bufs h)) (next h)) v).
Proof.
  intros Hz Hr Hlen Hc Hl Hn. destruct c; [by apply _do_copy_run|].
  rewrite Hz in * by done. simpl in *. destruct xs; [|done]. simpl.
  rewrite Nat.add_0_r, take_drop. destruct h, b. simpl in *. by rewrite insert_id.
Qed.

(** Two writes into one list: what each leaves visible. *)
Lemma write_slice {A} (c seg : list A) i :
  (i + length seg <= length c)%nat ->
  let c' := take i c ++ seg ++ drop (i + length seg) c in
  length c' = length c /\ take i c' = take i c /\ take (length seg) (drop i c') = seg /\
  drop (i + length seg) c' = drop (i + length seg) c.
Proof.
  intros H c'. subst c'. rewrite !length_app, length_take, length_drop. split_and!.
  - lia.
  - rewrite take_app_le by (rewrite length_take; lia). rewrite take_take. f_equal. lia.
  - rewrite drop_app_ge by (rewrite length_take; lia). rewrite length_take.
    replace (i - i `min` length c)%nat with 0%nat by lia. rewrite drop_0. by rewrite take_app_length.
  - rewrite drop_app_ge by (rewrite length_take; lia). rewrite length_take.
    rewrite drop_app_ge by lia.
    replace (i + length seg - i `min` length c - length seg)%nat with 0%nat by lia. done.
Qed.

Lemma copy_around_gap_holds h h1 v xs l bytes n where_ limit dst src Ab :
  vec_ok h v xs -> heap_ok h -> (next h <= l)%nat -> next h1 = S l ->
  bufs h1 = <[l := SB 1 bytes (replicate n None)]> (bufs h) ->
  0 <= where_ <= Z.of_nat (length xs) -> where_ <= limit -> where_ <= src -> where_ <= dst ->
  src + (limit - where_) <= Z.of_nat (length xs) -> dst + (limit - where_) <= Z.of_nat n ->
  holds (copy_around_gap l where_ limit dst src) (VS h1 v)
    (fun _ s' => exists h' cs, s' = VS h' (with_storage v (Some l)) /\
       moved (mStorage v) h l (SB 1 bytes cs) h' /\ length cs = n /\
       take (Z.to_nat where_) cs = take (Z.to_nat where_) xs /\
       take (Z.to_nat (limit - where_)) (drop (Z.to_nat dst) cs)
       = take (Z.to_nat (limit - where_)) (drop (Z.to_nat src) xs)) Ab.
Proof.
  intros Hv Hok Hlt Hn1 Hb1 Hw Hlim Hsrc Hdst Hse Hde.
  assert (Hne : forall l0, mStorage v = Some l0 -> l <> l0).
  { intros l0 Hs ->. destruct (vec_block _ _ _ _ Hv Hs) as [b Hb].
    pose proof (heap_ok_lt _ _ _ Hok Hb). lia. }
  unfold copy_around_gap. eapply holds_run; [apply self_run|].
  pose proof (copyable_slice v xs 0 (Z.to_nat where_) (vok_live _ _ _ Hv)) as HC1.
  pose proof (copyable_slice v xs (Z.to_nat src) (Z.to_nat (limit - where_)) (vok_live _ _ _ Hv)) as HC2.
  eapply holds_run.
  { eapply copy_if_run; [|eapply read_own_run; [exact Hv|..]| |exact HC1| |]; simpl.
    - intros E. apply negb_false_iff in E. lia.
    - intros l0 Hs. rewrite Hb1, lookup_insert_ne by (by apply Hne). done.
    - lia.
    - rewrite length_take, drop_0. lia.
    - rewrite Hb1. apply lookup_insert_eq.
    - simpl. rewrite length_replicate. lia. }
  simpl. set (c1 := _ ++ drop _ (replicate n None)).
  eapply holds_run.
  { eapply copy_if_run; [|eapply read_own_run; [exact Hv|..]| |exact HC2| |]; simpl.
    - intros E. apply negb_false_iff in E. lia.
    - intros l0 Hs. rewrite Hb1, insert_insert_eq, lookup_insert_ne by (by apply Hne). done.
    - lia.
    - rewrite length_take, length_drop. lia.
    - apply lookup_insert_eq.
    - simpl. subst c1. rewrite length_app, length_take, !length_drop, length_replicate. lia. }
  simpl. rewrite Hb1, !insert_insert_eq, Hn1.
  destruct (write_slice (replicate n (@None T)) (take (Z.to_nat where_) (drop 0 xs)) 0) as (L1 & _ & S1 & _).
  { rewrite length_replicate, length_take, drop_0. lia. }
  replace (length (take (Z.to_nat where_) (drop 0 xs))) with (Z.to_nat where_) in *
    by (rewrite length_take, drop_0; lia).
  simpl in L1, S1. rewrite length_replicate in L1.
  set (seg := take (Z.to_nat (limit - where_)) (drop (Z.to_nat src) xs)).
  assert (Hseg : length seg = Z.to_nat (limit - where_)) by (subst seg; rewrite length_take, length_drop; lia).
  destruct (write_slice c1 seg (Z.to_nat dst)) as (L2 & T2 & S2 & _); [fold c1 in L1; lia|].
  rewrite Hseg in *. set (c2 := take (Z.to_nat dst) c1 ++ _) in *.
  assert (Hs : mStorage v <> Some l) by (intros E; by apply (Hne l)).
  eapply holds_run.
  { eapply release_storage_run, vec_ok_same; [exact Hv|]. intros l0 E. simpl.
    rewrite lookup_insert_ne; [done|]. by apply Hne. }
  eapply holds_done; [done|]. simpl. rewrite drop_ref_insert by done.
  eexists _, c2. split; [done|]. fold c1 in L1. split_and!.
  - split; simpl; try done; [|lia|].
    + apply drop_ref_None, Hok. lia.
    + intros l0 Hge. simpl in *. rewrite lookup_insert_ne by lia. apply drop_ref_None, Hok. lia.
  - lia.
  - transitivity (take (Z.to_nat where_) (take (Z.to_nat dst) c2)).
    { rewrite take_take. f_equal. lia. }
    rewrite T2, take_take. replace (Z.to_nat where_ `min` Z.to_nat dst)%nat with (Z.to_nat where_) by lia.
    exact S1.
  - done.
Qed.

(** ** The storage a method ends up with *)

(** The vector gave up its storage for a block of its own that satisfies
    [P]; nothing else of [this] changed. *)
Definition rehomed h v (P : SharedBuffer T -> Prop) (s' : vstate T) : Prop :=
  exists h' l' b', s' = VS h' (with_storage v (Some l')) /\ moved (mStorage v) h l' b' h' /\
    buf_ok (mItemSize v) b' /\ P b'.

Definition unchanged h v (s' : vstate T) : Prop :=
  exists h', s' = VS h' v /\ bufs h' = bufs h /\ (next h <= next h')%nat.

Definition oom : Prop := exists k n, malloc_ok k n = false.

Lemma with_storage_id v : with_storage v (mStorage v) = v.
Proof. by destruct v. Qed.

Lemma heap_ok_grow h h' : heap_ok h -> bufs h' = bufs h -> (next h <= next h')%nat -> heap_ok h'.
Proof. intros Hok E N l Hl. rewrite E. apply Hok. lia. Qed.

Lemma cell_count_exact w n : 0 < w -> 0 <= n -> cell_count w (n * w) = Z.to_nat n.
Proof. intros Hw Hn. unfold cell_count. by rewrite Z.div_mul by lia. Qed.

Lemma resize_block_holds h v xs l bytes :
  vec_ok h v xs -> heap_ok h -> mStorage v = Some l -> 0 <= bytes ->
  holds (resize_block bytes l) (VS h v)
    (fun ok s' => if ok : bool
       then rehomed h v (fun b' => length (cells b') = cell_count (mItemSize v) bytes /\
              forall k, (k <= length xs)%nat -> (k <= cell_count (mItemSize v) bytes)%nat ->
                take k (cells b') = take k xs) s'
       else unchanged h v s' /\ oom)
    (SIZE_MAX - sizeof_SharedBuffer <= bytes).
Proof.
  intros Hv Hok Hs Hn. destruct (vec_block _ _ _ _ Hv Hs) as [b Hb].
  destruct (vec_fits _ _ _ _ _ Hv Hs Hb) as (Hbo & Hx & Hf).
  pose proof (vok_item _ _ _ Hv) as Hw.
  unfold resize_block. eapply holds_run; [apply self_run|].
  eapply holds_bind; [apply holds_on_heap, editResize_holds with (b := b); try done; lia|].
  intros [l'|] [h' v'] [Hpost Hthis]; simpl in *; subst v'.
  - destruct Hpost as [Hsz Hpost].
    eapply holds_done; [done|]. eexists h', l', _. split; [done|]. rewrite Hs. split; [exact Hpost|].
    split; [|split].
    + split; simpl; [lia|lia|]. by rewrite length_resize.
    + simpl. by rewrite length_resize.
    + intros k Hk Hkn. simpl.
      rewrite resize_take_replicate, take_app_le by (rewrite length_take; lia).
      rewrite take_take. rewrite <- Hx, take_take. f_equal. lia.
  - destruct Hpost as (E & N & k & Hk). apply holds_ret. split; [|by eexists k, _].
    exists h'. split; [done|]. split; [done|lia].
Qed.

(** The items below [where_] and those from [src] up to [limit], which
    appear from [dst] on. *)
Definition gap_copied xs where_ limit dst src (c : list (slot T)) : Prop :=
  take (Z.to_nat where_) c = take (Z.to_nat where_) xs /\
  take (Z.to_nat (limit - where_)) (drop (Z.to_nat dst) c)
  = take (Z.to_nat (limit - where_)) (drop (Z.to_nat src) xs).

Lemma alloc_holds h v bytes :
  heap_ok h ->
  holds (on_heap (alloc (mItemSize v) bytes)) (VS h v)
    (fun r s' => match r with
     | Some l => bytes < SIZE_MAX - sizeof_SharedBuffer /\ l = next h /\
         s' = VS (Heap (<[l := SB 1 bytes
                     (replicate (cell_count (mItemSize v) bytes) None)]> (bufs h)) (S l)) v
     | None => unchanged h v s' /\ oom
     end)
    (SIZE_MAX - sizeof_SharedBuffer <= bytes).
Proof.
  intros Hok. unfold holds, on_heap. simpl.
  destruct (Z.lt_ge_cases bytes (SIZE_MAX - sizeof_SharedBuffer)) as [Hs|Hs];
    [|by rewrite alloc_abort].
  rewrite alloc_run by done. destruct (malloc_ok _ _) eqn:Em; [done|].
  split; [|by eexists _, _]. eexists. split; [done|]. simpl. split; [done|lia].
Qed.

Lemma replace_block_holds h v xs bytes where_ limit dst src :
  vec_ok h v xs -> heap_ok h -> 0 <= bytes ->
  0 <= where_ <= Z.of_nat (length xs) -> where_ <= limit -> where_ <= src -> where_ <= dst ->
  src + (limit - where_) <= Z.of_nat (length xs) ->
  dst + (limit - where_) <= Z.of_nat (cell_count (mItemSize v) bytes) ->
  holds (replace_block bytes where_ limit dst src) (VS h v)
    (fun ok s' => if ok : bool
       then rehomed h v (fun b' => length (cells b') = cell_count (mItemSize v) bytes /\
              gap_copied xs where_ limit dst src (cells b')) s'
       else unchanged h v s' /\ oom)
    (SIZE_MAX - sizeof_SharedBuffer <= bytes).
Proof.
  intros Hv Hok Hn Hw Hlim Hsrc Hdst Hse Hde. pose proof (vok_item _ _ _ Hv) as Hit.
  unfold replace_block. eapply holds_run; [apply self_run|].
  eapply holds_bind; [by apply alloc_holds|].
  intros [l|] s'; [|intros Hu; by apply holds_ret].
  intros (Hsz & -> & ->).
  eapply holds_bind; [eapply (copy_around_gap_holds h); simpl; try done; lia|].
  intros [] s' (h' & cs & -> & Hm & Hlen & H1 & H2). apply holds_ret.
  eexists h', _, _. split; [done|]. split; [exact Hm|]. split; [|done].
  by split; simpl; [lia|lia|].
Qed.

(** Copying every item to a fresh block and adopting it, as [editArrayImpl]
    and [setCapacity] do. *)
Lemma adopt_copy_holds {A} h h1 v xs l bytes n (r : A) Ab :
  vec_ok h v xs -> heap_ok h -> (next h <= l)%nat -> next h1 = S l ->
  bufs h1 = <[l := SB 1 bytes (replicate n None)]> (bufs h) -> (length xs <= n)%nat ->
  holds (_do_copy l 0 (ptr_of (mStorage v) 0) (mCount v);;
         release_storage;; set_storage (Some l);; mret r) (VS h1 v)
    (fun r' s' => r' = r /\ exists h' cs, s' = VS h' (with_storage v (Some l)) /\
       moved (mStorage v) h l (SB 1 bytes cs) h' /\ length cs = n /\ take (length xs) cs = xs) Ab.
Proof.
  intros Hv Hok Hlt Hn1 Hb1 Hn.
  assert (Hne : forall l0, mStorage v = Some l0 -> l <> l0).
  { intros l0 Hs ->. destruct (vec_block _ _ _ _ Hv Hs) as [b Hb].
    pose proof (heap_ok_lt _ _ _ Hok Hb). lia. }
  assert (Hs : mStorage v <> Some l) by (intros E; by apply (Hne l)).
  assert (Hcnt : Z.to_nat (mCount v) = length xs) by (rewrite (vok_count _ _ _ Hv); lia).
  eapply holds_run.
  { eapply _do_copy_run; [eapply read_own_run; [exact Hv|..]|..]; rewrite ?Hcnt.
    - intros l0 E. rewrite Hb1, lookup_insert_ne by (by apply Hne). done.
    - lia.
    - rewrite length_take, drop_0. lia.
    - apply copyable_slice, Hv.
    - rewrite Hb1. apply lookup_insert_eq.
    - simpl. rewrite length_replicate. lia. }
  simpl. rewrite Hcnt, drop_0, take_ge, drop_replicate by lia.
  rewrite Hb1, insert_insert_eq, Hn1. eapply holds_run.
  { eapply release_storage_run, vec_ok_same; [exact Hv|]. intros l0 E. simpl.
    rewrite lookup_insert_ne; [done|]. by apply Hne. }
  eapply holds_done; [done|]. split; [done|]. simpl. rewrite drop_ref_insert by done.
  eexists _, _. split; [done|]. split_and!.
  - split; simpl; try done; [|lia|].
    + apply drop_ref_None, Hok. lia.
    + intros l0 Hge. simpl in *. rewrite lookup_insert_ne by lia. apply drop_ref_None, Hok. lia.
  - rewrite length_app, length_replicate. lia.
  - by rewrite take_app_length.
Qed.

(** [editArrayImpl]: after it, the vector is the only holder of its block. *)
Lemma editArrayImpl_holds h v xs l b :
  vec_ok h v xs -> heap_ok h -> mStorage v = Some l -> bufs h !! l = Some b ->
  holds editArrayImpl (VS h v)
    (fun r s' => exists l', r = Some l' /\ mStorage (this s') = Some l' /\
       rehomed h v (fun b' => length (cells b') = length (cells b) /\
                              take (length xs) (cells b') = xs) s')
    oom.
Proof.
  intros Hv Hok Hs Hb. destruct (vec_fits _ _ _ _ _ Hv Hs Hb) as (Hbo & Hx & Hf).
  pose proof Hbo as [Hr Hsz Hc]. pose proof (vok_item _ _ _ Hv) as Hit.
  unfold editArrayImpl. eapply holds_run; [apply self_run|]. rewrite Hs.
  eapply holds_run; [apply on_heap_run; unfold attemptEdit; by rewrite (bind_run _ _ _ _ _ (deref_run _ _ _ Hb))|].
  rewrite onlyOwner_spec. destruct (Z.eqb_spec (mRefs b) 1) as [R1|R1].
  { apply holds_ret. exists l. split; [done|]. split; [done|].
    exists h, l, b. rewrite <- Hs, with_storage_id, Hs. split; [done|].
    split; [by apply moved_same|done]. }
  eapply holds_run; [apply on_heap_run, deref_run, Hb|].
  eapply holds_bind with (Q := fun r s' => r = Some (next h) /\
    s' = VS (Heap (<[next h := SB 1 (mSize b) (replicate (length (cells b)) None)]> (bufs h)) (S (next h))) v
    \/ r = None /\ oom).
  { unfold holds, on_heap. simpl. rewrite alloc_run, <- Hc by lia.
    destruct (malloc_ok _ _) eqn:Em; [by left|right]. split; [done|by eexists _, _]. }
  intros r s' [[-> ->]|[-> Hoom]]; [|exact Hoom].
  replace (PBuf l 0) with (@ptr_of T (mStorage v) 0) by (by rewrite Hs).
  eapply holds_mono; [eapply (adopt_copy_holds h); done| |done].
  intros r' s' (-> & h' & cs & -> & Hm & Hlen & Hcs). exists (next h). split; [done|]. split; [done|].
  eexists h', _, _. split; [done|]. split; [exact Hm|]. split; [|done].
  split; simpl; [lia|lia|]. by rewrite Hlen.
Qed.

(** ** Growing *)

(** The allocation [_grow] wants does not fit in a [size_t]. *)
Definition grow_overflow v (new_size : Z) : Prop :=
  SIZE_MAX - sizeof_SharedBuffer
  <= Z.max kMinVectorCapacity (new_size + new_size / 2 + 1) * mItemSize v.

Lemma grow_capacity_spec n : 0 <= n <= SIZE_MAX ->
  grow_capacity n =
    if n + n / 2 + 1 <=? SIZE_MAX then Some (Z.max kMinVectorCapacity (n + n / 2 + 1)) else None.
Proof.
  intros Hn. unfold grow_capacity.
  assert (0 <= n / 2 <= n) by (split; [apply Z.div_pos; lia|apply Z.div_le_upper_bound; lia]).
  rewrite safe_add_spec by lia. destruct (Z.leb_spec (n + n / 2) SIZE_MAX); simpl.
  - rewrite safe_add_spec by (unfold SIZE_MAX in *; lia).
    by destruct (Z.leb_spec (n + n / 2 + 1) SIZE_MAX).
  - by destruct (Z.leb_spec (n + n / 2 + 1) SIZE_MAX); [lia|].
Qed.

Lemma list_eq_take {A} (c d : list A) n :
  (n <= length c)%nat -> (n <= length d)%nat -> (forall i, (i < n)%nat -> c !! i = d !! i) ->
  take n c = take n d.
Proof.
  intros Hc Hd H. apply list_eq. intros i. destruct (decide (i < n)%nat).
  - rewrite !lookup_take_lt by lia. by apply H.
  - rewrite !lookup_take_ge by lia. done.
Qed.

(** Overwriting part of the block a vector owns keeps it rehomed. *)
Lemma moved_update s h l b b' h1 :
  moved s h l b h1 -> mRefs b' = 1 ->
  moved s h l b' (Heap (<[l := b']> (bufs h1)) (next h1)).
Proof.
  intros Hm Hr. eapply moved_trans; [exact Hm|].
  eapply moved_in_place; [apply Hm|by eapply moved_lookup|apply Hm|done].
Qed.

Lemma take_prefix {A} (c xs : list A) n :
  take (length xs) c = xs -> (n <= length xs)%nat -> take n c = take n xs.
Proof. intros Hx Hn. rewrite <- Hx, take_take. f_equal. lia. Qed.

Lemma move_forward_gap (c xs : list (slot T)) (w a k : nat) :
  take (length xs) c = xs -> (w + k = length xs)%nat -> (length xs + a <= length c)%nat ->
  let c' := do_move_forward c (w + a) w k in
  take w c' = take w xs /\ take k (drop (w + a) c') = take k (drop w xs).
Proof.
  intros Hx Hk Hc c'. assert (Hl : length c' = length c) by apply do_move_forward_length. split.
  - rewrite <- (take_prefix c xs) by (try done; lia). apply list_eq_take; [lia|lia|].
    intros i Hi. apply do_move_forward_below; lia.
  - rewrite <- (slice_prefix c xs) by (try done; lia).
    apply list_eq_take; rewrite ?length_drop; [lia|lia|].
    intros i Hi. rewrite !lookup_drop. apply do_move_forward_moved; lia.
Qed.

Definition grown h v xs where_ amount (s' : vstate T) : Prop :=
  rehomed h v (fun b' => mCount v + amount <= Z.of_nat (length (cells b')) /\
     gap_copied xs where_ (mCount v) (where_ + amount) where_ (cells b')) s'
  \/ mStorage v = None /\ mCount v + amount = 0 /\ s' = VS h v.

Lemma grow_in_place_holds h v xs where_ amount c :
  vec_ok h v xs -> heap_ok h -> 0 <= where_ <= mCount v -> 0 <= amount ->
  capacity (VS h v) = Ret (c, VS h v) -> mCount v + amount <= c ->
  holds (array ← editArrayImpl;
         (if negb (where_ =? mCount v) then
            match array with
            | Some l => _do_move_forward l (Z.to_nat (where_ + amount)) (Z.to_nat where_) (mCount v - where_)
            | None => fault
            end
          else mret tt);; mret true) (VS h v)
    (fun ok s' => ok = true /\ grown h v xs where_ amount s') oom.
Proof.
  intros Hv Hok Hw Ha Hcap Hle. pose proof (vok_count _ _ _ Hv) as Hcnt.
  destruct (capacity_run _ _ _ Hv) as (c' & Hc' & Hfit & Hst).
  assert (c = Z.of_nat c') as -> by congruence.
  destruct (mStorage v) as [l|] eqn:Hs.
  2: { subst c'. unfold editArrayImpl. eapply holds_run; [by unfold mbind, M_bind, self; simpl; rewrite Hs|].
       replace (where_ =? mCount v) with true by lia. apply holds_ret. split; [done|].
       right. split; [done|]. split; [lia|done]. }
  destruct (vec_block _ _ _ _ Hv Hs) as [b Hb]. rewrite (Hst b Hb) in *.
  eapply holds_bind; [by eapply editArrayImpl_holds|].
  intros r s' (l' & -> & E' & h' & l0 & b' & -> & Hm & Hbo & Hlen & Hx).
  simpl in E'. injection E' as ->.
  pose proof (moved_lookup _ _ _ _ _ Hm) as Hl'. destruct (Z.eqb_spec where_ (mCount v)) as [E|E]; simpl.
  - apply holds_ret. split; [done|]. left. exists h', l', b'. split; [done|]. split; [done|].
    split; [done|]. split; [lia|]. split; [apply take_prefix; [done|lia]|].
    by replace (Z.to_nat (mCount v - where_)) with 0%nat by lia.
  - eapply holds_run; [eapply update_cells_run; [exact Hl'|lia|lia]|]. apply holds_ret.
    split; [done|]. left.
    destruct (move_forward_gap (cells b') xs (Z.to_nat where_) (Z.to_nat amount)
                (Z.to_nat (mCount v - where_)) Hx) as [H1 H2]; [lia|lia|].
    eexists _, l', _. split; [done|]. split; [eapply moved_update; [exact Hm|simpl; apply Hm]|].
    split; [|split].
    + destruct Hbo as [? ? ?]. split; simpl; [done|done|]. by rewrite do_move_forward_length.
    + simpl. rewrite do_move_forward_length. lia.
    + simpl. unfold gap_copied. by rewrite Z2Nat.inj_add by lia.
Qed.

Lemma grow_storage_holds h v xs where_ amount :
  vec_ok h v xs -> heap_ok h -> 0 <= where_ <= mCount v -> 0 <= amount ->
  mCount v + amount <= SIZE_MAX ->
  holds (_grow_storage where_ amount (mCount v + amount)) (VS h v)
    (fun ok s' => if ok : bool then grown h v xs where_ amount s' else unchanged h v s' /\ oom)
    (oom \/ grow_overflow v (mCount v + amount)).
Proof.
  intros Hv Hok Hw Ha Hmax. pose proof (vok_item _ _ _ Hv) as Hit.
  pose proof (vok_count _ _ _ Hv) as Hcnt. pose proof sizeof_SharedBuffer_bounds as Hsb.
  destruct (capacity_run _ _ _ Hv) as (c & Hc & Hfit & Hst).
  unfold _grow_storage. eapply holds_run; [apply self_run|]. eapply holds_run; [exact Hc|].
  destruct (Z.ltb_spec (Z.of_nat c) (mCount v + amount)) as [Hlt|Hge].
  2: { eapply holds_mono; [by eapply grow_in_place_holds| |by left]. by intros ? ? [-> ?]. }
  rewrite grow_capacity_spec by lia. set (n := mCount v + amount) in *.
  assert (0 <= n / 2) by (apply Z.div_pos; lia).
  set (nc := Z.max kMinVectorCapacity (n + n / 2 + 1)).
  assert (Hov : SIZE_MAX < n + n / 2 + 1 \/ SIZE_MAX < nc * mItemSize v -> grow_overflow v n).
  { unfold grow_overflow. fold nc. unfold nc. intros [?|?]; nia. }
  destruct (Z.leb_spec (n + n / 2 + 1) SIZE_MAX) as [H1|H1]; [|right; by apply Hov; left].
  rewrite safe_mul_spec by (unfold nc, kMinVectorCapacity, SIZE_MAX in *; lia).
  destruct (Z.leb_spec (nc * mItemSize v) SIZE_MAX) as [H2|H2]; [|right; by apply Hov; right].
  assert (Hnc : n <= nc) by (unfold nc; lia).
  destruct (if (mCount v =? where_) && bitwise_movable v then mStorage v else None) as [cur|] eqn:Hb.
  - destruct (Z.eqb_spec (mCount v) where_) as [E|E]; simpl in Hb; [|done].
    destruct (bitwise_movable v); [|done].
    eapply holds_mono; [apply (resize_block_holds h v xs cur); try done; nia| |intros; right; done].
    rewrite cell_count_exact by lia. intros [|] s'; [|done]. intros (h' & l' & b' & -> & Hm & Hbo & Hlen & Hk). left.
    exists h', l', b'. split; [done|]. split; [done|]. split; [done|]. split; [lia|].
    split; [apply Hk; lia|]. by replace (Z.to_nat (mCount v - where_)) with 0%nat by lia.
  - clear Hb. eapply holds_mono; [eapply replace_block_holds; rewrite ?cell_count_exact; try done; nia| |intros; right; done].
    rewrite cell_count_exact by lia. intros [|] s'; [|done]. intros (h' & l' & b' & -> & Hm & Hbo & Hlen & Hk). left.
    exists h', l', b'. split; [done|]. split; [done|]. split; [done|]. split; [lia|done].
Qed.

(** What every public method leaves behind: some items, in a vector of the
    same type, with the heap changed only as [transfer] allows. *)
Definition method_post h v (Q : list (slot T) -> Prop) (s' : vstate T) : Prop :=
  exists ys, Q ys /\ transfer (mStorage v) h (mStorage (this s')) (vheap s') /\
    vec_ok (vheap s') (this s') ys /\ mFlags (this s') = mFlags v /\ mItemSize (this s') = mItemSize v.

Lemma capacity_block h v l b :
  0 < mItemSize v -> mStorage v = Some l -> bufs h !! l = Some b -> buf_ok (mItemSize v) b ->
  capacity (VS h v) = Ret (Z.of_nat (length (cells b)), VS h v).
Proof.
  intros Hw Hs Hb [Hr Hz Hc]. unfold capacity. rewrite (bind_run _ _ _ _ _ (self_run h v)), Hs.
  rewrite (bind_run _ _ _ _ _ (on_heap_run _ _ _ v _ (deref_run _ _ _ Hb))).
  unfold mret, M_ret. do 2 f_equal. rewrite Hc. unfold cell_count. rewrite Z2Nat.id; [done|].
  apply Z.div_pos; lia.
Qed.

Lemma itemLocation_block h v l b i :
  0 < mItemSize v -> mStorage v = Some l -> bufs h !! l = Some b -> buf_ok (mItemSize v) b ->
  itemLocation i (VS h v) =
    Ret (if i <? Z.of_nat (length (cells b)) then Some (l, Z.to_nat i) else None, VS h v).
Proof.
  intros Hw Hs Hb Hbo. unfold itemLocation. rewrite (bind_run _ _ _ _ _ (self_run h v)).
  rewrite (bind_run _ _ _ _ _ (capacity_block h v l b Hw Hs Hb Hbo)). rewrite Hs. by case_match.
Qed.

Lemma vec_count_bound h v xs : vec_ok h v xs -> 0 <= mCount v <= SIZE_MAX.
Proof.
  intros Hv. rewrite (vok_count _ _ _ Hv). pose proof sizeof_SharedBuffer_bounds as Hsb.
  pose proof (vok_item _ _ _ Hv) as Hit.
  destruct (mStorage v) as [l|] eqn:Hs.
  - destruct (vec_block _ _ _ _ Hv Hs) as [b Hb].
    destruct (vec_fits _ _ _ _ _ Hv Hs Hb) as ([Hr Hz Hc] & Hx & Hf).
    rewrite Hc in Hf. unfold cell_count in Hf.
    assert (mSize b / mItemSize v <= mSize b) by (apply Z.div_le_upper_bound; nia). lia.
  - pose proof (vok_store _ _ _ Hv) as E. rewrite Hs in E. subst. simpl. unfold SIZE_MAX. lia.
Qed.

(** [_grow]: room for [amount] items at [where_], or nothing changed.  With
    [amount = 0] at the end of a full block the items are kept but there is
    no location to return. *)
Lemma _grow_holds h v xs where_ amount :
  vec_ok h v xs -> heap_ok h -> 0 <= where_ <= mCount v -> 0 <= amount <= SIZE_MAX ->
  holds (_grow where_ amount) (VS h v)
    (fun r s' => match r with
     | Some (l, i) => i = Z.to_nat where_ /\ exists h' b',
         s' = VS h' (with_count (with_storage v (Some l)) (mCount v + amount)) /\
         moved (mStorage v) h l b' h' /\ buf_ok (mItemSize v) b' /\
         mCount v + amount <= Z.of_nat (length (cells b')) /\ where_ < Z.of_nat (length (cells b')) /\
         gap_copied xs where_ (mCount v) (where_ + amount) where_ (cells b')
     | None => (unchanged h v s' /\ oom) \/
               (amount = 0 /\ where_ = mCount v /\ method_post h v (fun ys => ys = xs) s')
     end)
    (oom \/ grow_overflow v (mCount v + amount)).
Proof.
  intros Hv Hok Hw Ha. pose proof (vok_item _ _ _ Hv) as Hit.
  pose proof (vok_count _ _ _ Hv) as Hcnt. pose proof sizeof_SharedBuffer_bounds as Hsb.
  unfold _grow. eapply holds_run; [apply self_run|].
  pose proof (vec_count_bound _ _ _ Hv) as Hsmall.
  rewrite safe_add_spec by lia. destruct (Z.leb_spec (mCount v + amount) SIZE_MAX) as [Hs|Hs].
  2: { right. unfold grow_overflow. assert (0 <= (mCount v + amount) / 2) by (apply Z.div_pos; lia). nia. }
  eapply holds_bind; [apply (grow_storage_holds h v xs where_ amount); try done; lia|].
  intros [|] s'; [|intros Hu; apply holds_ret; by left].
  intros [(h' & l' & b' & -> & Hm & Hbo & Hlen & Hk)|(Hn & H0 & ->)].
  - eapply holds_run; [done|]. simpl.
    pose proof (moved_lookup _ _ _ _ _ Hm) as Hl'.
    unfold holds. erewrite (itemLocation_block _ _ l' b') by (simpl; done || lia).
    destruct (Z.ltb_spec where_ (Z.of_nat (length (cells b')))) as [Hin|Hout].
    + split; [done|]. exists h', b'. done.
    + right. assert (amount = 0 /\ where_ = mCount v) as [-> ->] by lia.
      split; [done|]. split; [done|]. exists xs. split; [done|]. split; [by eapply tr_moved|]. split; [|done].
      split; simpl; [lia|lia|apply Hv|]. exists b'. split; [done|]. split; [done|].
      destruct Hk as [Hk _]. rewrite Hcnt, Nat2Z.id in Hk. by rewrite Hk, take_ge.
  - eapply holds_run; [done|]. simpl. unfold holds, itemLocation, capacity, mbind, M_bind, self. simpl.
    rewrite Hn. simpl. assert (where_ = 0 /\ amount = 0 /\ mCount v = 0) as (-> & -> & Hc0) by lia.
    rewrite Hc0. simpl. right. split; [done|]. split; [done|]. exists xs. split; [done|]. rewrite Hn. split.
    { apply tr_same; done. }
    split; [|done]. destruct xs; [|simpl in *; lia].
    split; simpl; [done|done|apply Hv|done].
Qed.

(** ** Shrinking *)

Lemma take_plus {A} (c : list A) (i j : nat) : take (i + j) c = take i c ++ take j (drop i c).
Proof.
  rewrite <- (take_drop i (take (i + j) c)), take_take, <- take_drop_commute. do 2 f_equal. lia.
Qed.

Definition removed xs where_ amount : list (slot T) :=
  take (Z.to_nat where_) xs ++ drop (Z.to_nat (where_ + amount)) xs.

Lemma removed_length xs where_ amount :
  0 <= where_ -> 0 <= amount -> where_ + amount <= Z.of_nat (length xs) ->
  length (removed xs where_ amount) = (length xs - Z.to_nat amount)%nat.
Proof. intros. unfold removed. rewrite length_app, length_take, length_drop. lia. Qed.

Lemma removed_live v xs where_ amount : copyable v xs -> copyable v (removed xs where_ amount).
Proof.
  intros H. apply copyable_app.
  - rewrite <- (drop_0 xs) at 1. by apply copyable_slice.
  - rewrite <- (take_ge (drop _ xs) (length (drop (Z.to_nat (where_ + amount)) xs))) by done.
    by apply copyable_slice.
Qed.

Lemma gap_removed xs where_ amount c :
  0 <= where_ -> 0 <= amount -> where_ + amount <= Z.of_nat (length xs) ->
  gap_copied xs where_ (Z.of_nat (length xs) - amount) where_ (where_ + amount) c ->
  take (length (removed xs where_ amount)) c = removed xs where_ amount.
Proof.
  intros Hw Ha Hle [H1 H2]. rewrite removed_length by lia.
  replace (length xs - Z.to_nat amount)%nat
    with (Z.to_nat where_ + Z.to_nat (Z.of_nat (length xs) - amount - where_))%nat by lia.
  rewrite take_plus, H1, H2. unfold removed. f_equal. apply take_ge. rewrite length_drop. lia.
Qed.

Lemma unchanged_post h v xs (Q : list (slot T) -> Prop) s' :
  vec_ok h v xs -> heap_ok h -> unchanged h v s' -> Q xs -> method_post h v Q s'.
Proof.
  intros Hv Hok (h' & -> & E & N) HQ. exists xs. split; [done|]. split.
  - by apply tr_same; [| | |eapply heap_ok_grow].
  - split; [|done]. eapply vec_ok_same; [exact Hv|]. simpl. intros l _. by rewrite E.
Qed.

(** A vector that owns its block [l'] holds a prefix of the block's cells. *)
Lemma rehomed_post h v l' b' h' n ys (Q : list (slot T) -> Prop) :
  0 < mItemSize v <= SIZE_MAX -> moved (mStorage v) h l' b' h' -> buf_ok (mItemSize v) b' ->
  n = Z.of_nat (length ys) -> copyable v ys -> take (length ys) (cells b') = ys -> Q ys ->
  method_post h v Q (VS h' (with_count (with_storage v (Some l')) n)).
Proof.
  intros Hit Hm Hbo Hn Hc Hy HQ. exists ys. split; [done|]. split; [by eapply tr_moved|].
  split; [|done]. split; [done|done|done|]. exists b'. split; [by eapply moved_lookup|done].
Qed.

Lemma move_backward_gap (c xs : list (slot T)) (w a k : nat) r :
  take (length xs) c = xs -> (w + a + k = length xs)%nat -> (length xs <= length c)%nat ->
  length r = a ->
  let c1 := take w c ++ r ++ drop (w + a) c in
  let c' := do_move_backward c1 w (w + a) k in
  length c' = length c /\ take w c' = take w xs /\ take k (drop w c') = take k (drop (w + a) xs).
Proof.
  intros Hx Hk Hc <- c1 c'. destruct (write_slice c r w) as (L & T1 & _ & D1); [lia|].
  fold c1 in L, T1, D1.
  assert (Hl : length c' = length c1) by apply do_move_backward_length. split; [lia|]. split.
  - rewrite <- (take_prefix c xs) by (try done; lia). rewrite <- T1. apply list_eq_take; [lia|lia|].
    intros i Hi. apply do_move_backward_below; lia.
  - rewrite <- (slice_prefix c xs) by (try done; lia). rewrite <- D1.
    apply list_eq_take; rewrite ?length_drop; [lia|lia|].
    intros i Hi. rewrite !lookup_drop. apply do_move_backward_moved; lia.
Qed.

Lemma shrink_in_place_holds h v xs l where_ amount :
  vec_ok h v xs -> heap_ok h -> mStorage v = Some l ->
  0 <= where_ -> 0 <= amount -> where_ + amount <= mCount v ->
  holds (array ← editArrayImpl;
         match array with
         | Some l =>
             _do_destroy l (Z.to_nat where_) amount;;
             (if negb (where_ =? mCount v - amount)
              then _do_move_backward l (Z.to_nat where_) (Z.to_nat (where_ + amount))
                     (mCount v - amount - where_)
              else mret tt);;
             mret true
         | None => fault
         end) (VS h v)
    (fun ok s' => ok = true /\
       rehomed h v (fun b' => take (length (removed xs where_ amount)) (cells b') = removed xs where_ amount) s')
    oom.
Proof.
  intros Hv Hok Hs Hw Ha Hle. pose proof (vok_count _ _ _ Hv) as Hcnt.
  destruct (vec_block _ _ _ _ Hv Hs) as [b Hb].
  destruct (vec_fits _ _ _ _ _ Hv Hs Hb) as (_ & _ & Hf).
  eapply holds_bind; [by eapply editArrayImpl_holds|].
  intros r s' (l' & -> & E' & h' & l0 & b' & -> & Hm & Hbo & Hlen & Hx).
  simpl in E'. injection E' as ->. pose proof (moved_lookup _ _ _ _ _ Hm) as Hl'.
  destruct (_do_destroy_run h' (with_storage v (Some l')) l' b' (Z.to_nat where_) amount Hl')
    as (r & Hr & Hd); [lia|].
  eapply holds_run; [exact Hd|].
  destruct (move_backward_gap (cells b') xs (Z.to_nat where_) (Z.to_nat amount)
              (Z.to_nat (mCount v - amount - where_)) r) as (L & H1 & H2); [done|lia|lia|lia|].
  destruct (write_slice (cells b') r (Z.to_nat where_)) as (L1 & T1 & _ & _); [lia|]. rewrite Hr in L1, T1.
  destruct Hbo as [Hbr Hbz Hbc]. destruct (Z.eqb_spec where_ (mCount v - amount)) as [E|E]; simpl.
  - apply holds_ret. split; [done|]. eexists _, l', _. split; [done|].
    split; [eapply moved_update; [exact Hm|simpl; apply Hm]|]. split; [by split; simpl; [..|lia]|].
    simpl. apply gap_removed; [lia..|]. split.
    + rewrite T1. apply take_prefix; [done|lia].
    + by replace (Z.to_nat (Z.of_nat (length xs) - amount - where_)) with 0%nat by lia.
  - eapply holds_run; [eapply update_cells_run; [apply lookup_insert_eq|simpl; lia|simpl; lia]|].
    apply holds_ret. split; [done|]. simpl. rewrite insert_insert_eq. eexists _, l', _. split; [done|].
    split; [eapply moved_update; [exact Hm|simpl; apply Hm]|]. rewrite Z2Nat.inj_add by lia.
    split; [by split; simpl; [..|lia]|]. simpl. apply gap_removed; [lia..|]. split; [done|].
    rewrite Z2Nat.inj_add by lia.
    by replace (Z.of_nat (length xs) - amount - where_) with (mCount v - amount - where_) by lia.
Qed.

(** The bytes [_shrink] asks for.  With a capacity of four or more the block
    does get smaller; with two or three the vector becomes empty and the
    minimum capacity may even be larger, which is the only way to abort. *)
Definition shrink_bytes (w new_size : Z) : Z :=
  u32 (Z.max kMinVectorCapacity (u32 (new_size * 2)) * w).

Lemma shrink_bytes_spec w new_size cap msize :
  0 < w -> 0 <= msize < SIZE_MAX - sizeof_SharedBuffer -> cap = msize / w ->
  0 <= new_size < cap / 2 ->
  0 <= shrink_bytes w new_size /\ new_size <= Z.of_nat (cell_count w (shrink_bytes w new_size)) /\
  (SIZE_MAX - sizeof_SharedBuffer <= shrink_bytes w new_size ->
   cap < kMinVectorCapacity /\ shrink_bytes w new_size = u32 (4 * w)).
Proof.
  intros Hw Hm Hcap Hn. pose proof sizeof_SharedBuffer_bounds as Hsb.
  assert (Hcw : cap * w <= msize) by (rewrite Hcap, Z.mul_comm; by apply Z.mul_div_le).
  assert (0 <= cap / 2 * 2 <= cap) by (pose proof (Z.mul_div_le cap 2 ltac:(lia)); lia).
  assert (cap <= SIZE_MAX) by nia. unfold kMinVectorCapacity.
  destruct (Z.lt_ge_cases cap 4) as [Hc4|Hc4].
  - assert (new_size = 0) as ->.
    { assert (cap / 2 < 2) by (apply Z.div_lt_upper_bound; lia). lia. }
    unfold shrink_bytes. simpl. split; [apply u32_range|]. split; [lia|]. done.
  - assert (Hk : shrink_bytes w new_size = Z.max 4 (new_size * 2) * w).
    { unfold shrink_bytes, kMinVectorCapacity. rewrite (u32_small (new_size * 2)) by (unfold SIZE_MAX in *; lia).
      rewrite u32_small; [done|]. unfold SIZE_MAX in *. nia. }
    rewrite Hk, cell_count_exact by lia. split; [nia|]. split; [lia|]. intros. nia.
Qed.

Lemma shrink_storage_holds h v xs l where_ amount :
  vec_ok h v xs -> heap_ok h -> mStorage v = Some l ->
  0 <= where_ -> 0 <= amount -> where_ + amount <= mCount v ->
  holds (_shrink_storage where_ amount (mCount v - amount) l) (VS h v)
    (fun ok s' => if ok : bool
       then rehomed h v (fun b' =>
              take (length (removed xs where_ amount)) (cells b') = removed xs where_ amount) s'
       else unchanged h v s' /\ oom)
    (oom \/ SIZE_MAX - sizeof_SharedBuffer <= u32 (4 * mItemSize v)).
Proof.
  intros Hv Hok Hs Hw Ha Hle. pose proof (vok_item _ _ _ Hv) as Hit.
  pose proof (vok_count _ _ _ Hv) as Hcnt. destruct (vec_block _ _ _ _ Hv Hs) as [b Hb].
  destruct (vec_fits _ _ _ _ _ Hv Hs Hb) as (Hbo & Hx & Hf). pose proof Hbo as [Hr Hz Hc].
  unfold _shrink_storage. eapply holds_run; [apply self_run|].
  eapply holds_run; [by eapply capacity_block; [lia|..]|].
  destruct (Z.ltb_spec (mCount v - amount) (Z.of_nat (length (cells b)) / 2)) as [Hlt|Hge].
  2: { eapply holds_mono; [by eapply shrink_in_place_holds| |by left]. by intros ? ? [-> ?]. }
  destruct (shrink_bytes_spec (mItemSize v) (mCount v - amount) (Z.of_nat (length (cells b))) (mSize b))
    as (B0 & B1 & B2); [lia|done| |lia|].
  { rewrite Hc. unfold cell_count. rewrite Z2Nat.id; [done|]. apply Z.div_pos; lia. }
  change (u32 (Z.max _ _ * mItemSize v)) with (shrink_bytes (mItemSize v) (mCount v - amount)).
  assert (Habort : SIZE_MAX - sizeof_SharedBuffer <= shrink_bytes (mItemSize v) (mCount v - amount) ->
    oom \/ SIZE_MAX - sizeof_SharedBuffer <= u32 (4 * mItemSize v)) by (intros H; destruct (B2 H) as [_ <-]; by right).
  destruct (Z.eqb_spec where_ (mCount v - amount)) as [E|E]; simpl; [destruct (bitwise_movable v)|].
  1: { eapply holds_mono; [by apply (resize_block_holds h v xs l)| |exact Habort].
       intros [|] s'; [|done]. intros (h' & l' & b' & -> & Hm & Hbo' & Hlen & Hk).
       exists h', l', b'. split; [done|]. split; [done|]. split; [done|].
       apply gap_removed; [lia..|]. split; [apply Hk; lia|].
       by replace (Z.to_nat (Z.of_nat (length xs) - amount - where_)) with 0%nat by lia. }
  all: eapply holds_mono; [apply (replace_block_holds h v xs); try done; lia| |exact Habort].
  all: intros [|] s'; [|done]; intros (h' & l' & b' & -> & Hm & Hbo' & Hlen & Hk).
  all: exists h', l', b'; split; [done|]; split; [done|]; split; [done|].
  all: apply gap_removed; [lia..|]; by rewrite <- Hcnt.
Qed.

(** [_shrink] removes the range, or keeps everything when memory is short. *)
Lemma _shrink_holds h v xs where_ amount :
  vec_ok h v xs -> heap_ok h -> 0 <= where_ -> 0 <= amount -> where_ + amount <= mCount v ->
  holds (_shrink where_ amount) (VS h v)
    (fun _ s' => method_post h v (fun ys => ys = removed xs where_ amount \/ ys = xs /\ oom) s')
    (oom \/ SIZE_MAX - sizeof_SharedBuffer <= u32 (4 * mItemSize v)).
Proof.
  intros Hv Hok Hw Ha Hle. pose proof (vec_count_bound _ _ _ Hv) as Hcb.
  pose proof (vok_count _ _ _ Hv) as Hcnt. unfold _shrink. eapply holds_run; [apply self_run|].
  destruct (mStorage v) as [l|] eqn:Hs.
  2: { apply holds_ret. pose proof (vok_store _ _ _ Hv) as E. rewrite Hs in E. subst xs. simpl in *.
       eapply unchanged_post; [exact Hv|done|by exists h|]. left. unfold removed. by rewrite take_nil, drop_nil. }
  rewrite safe_sub_spec by lia. destruct (Z.leb_spec amount (mCount v)); [|lia].
  eapply holds_bind; [by apply (shrink_storage_holds h v xs)|].
  intros [|] s'.
  - intros (h' & l' & b' & -> & Hm & Hbo & Hk). eapply holds_done; [done|].
    eapply rehomed_post; [apply Hv|exact Hm|done| | |exact Hk|by left].
    + rewrite removed_length by lia. lia.
    + apply removed_live, Hv.
  - intros [Hu Hoom]. apply holds_ret. eapply unchanged_post; [done..|]. by right.
Qed.

(** ** Sequences of methods *)

Lemma transfer_trans (s s1 s2 : option loc) h h1 h2 :
  transfer s h s1 h1 -> transfer s1 h1 s2 h2 -> transfer s h s2 h2.
Proof.
  intros [-> E1 N1 O1| -> E1 N1 O1|l1 b1 -> [E1 F1 R1 N1 O1]].
  - intros [-> E2 N2 O2| -> E2 N2 O2|l2 b2 -> [E2 F2 R2 N2 O2]]; rewrite ?E1 in *.
    + apply tr_same; [done|done|lia|done].
    + apply tr_drop; [done|done|lia|done].
    + eapply tr_moved; [done|]. split; [done|done|done|lia|done].
  - intros [-> E2 N2 O2| -> E2 N2 O2|l2 b2 -> [E2 F2 R2 N2 O2]].
    + apply tr_drop; [done|by rewrite E2|lia|done].
    + apply tr_drop; [done|by rewrite E2|lia|done].
    + change (drop_ref None (bufs h1)) with (bufs h1) in *. rewrite E1 in *.
      eapply tr_moved; [done|]. split; [done|done|done|lia|done].
  - intros [-> E2 N2 O2| -> E2 N2 O2|l2 b2 -> [E2 F2 R2 N2 O2]].
    + eapply tr_moved; [done|]. split; [by rewrite E2|done|done|lia|done].
    + apply tr_drop; [done| |lia|done]. by rewrite E2, E1, drop_ref_owned.
    + rewrite E1, drop_ref_owned in * by done. eapply tr_moved; [done|]. split; [done|done|done|lia|done].
Qed.

Lemma grow_overflow_mono v v1 n m :
  mItemSize v1 = mItemSize v -> 0 < mItemSize v -> n <= m -> grow_overflow v1 n -> grow_overflow v m.
Proof.
  unfold grow_overflow. intros -> Hw Hle. pose proof (Z.div_le_mono n m 2 ltac:(lia) Hle). nia.
Qed.

Lemma transfer_ok (s s' : option loc) h h' : transfer s h s' h' -> heap_ok h'.
Proof. by intros [| |? ? ? []]. Qed.

End Facts.
