(* ===== verification/VectorSpec.v ===== *)
(** * VectorImpl: what the public methods promise

    Each method is specified against the list of items, on every branch:
    success, a bad index, and memory that cannot be allocated. *)

From S2P Require Import Prelude External SharedBuffer VectorImpl VectorFacts.

Section Spec.
Context {T : Type} {LU : LibUtils} {LL : LibUtilsLaws LU} {AL : Allocator}.
Context {IO : ItemOps T} {IL : ItemLaws IO}.
Implicit Types (h : heap T) (v : VectorImpl) (xs ys : list (slot T)) (b : SharedBuffer T).

Definition inserted xs (index : Z) ys : list (slot T) :=
  take (Z.to_nat index) xs ++ ys ++ drop (Z.to_nat index) xs.

(** [source_ok h v p n ys]: [n] items [ys] can be read through [p], also
    after the vector [v] has given up its storage. *)
Definition source_ok h v (p : item_ptr T) (n : nat) ys : Prop :=
  length ys = n /\
  match p with
  | PNull => n = 0%nat
  | PExt zs => (n <= length zs)%nat /\ take n zs = ys
  | PBuf l i => exists b, bufs h !! l = Some b /\ (i + n <= length (cells b))%nat /\
                  take n (drop i (cells b)) = ys /\ (mStorage v = Some l -> mRefs b <> 1)
  end.

Lemma drop_ref_shared s (m : gmap loc (SharedBuffer T)) l b :
  m !! l = Some b -> (s = Some l -> mRefs b <> 1) ->
  exists b', drop_ref s m !! l = Some b' /\ cells b' = cells b.
Proof.
  intros Hl Hs. destruct (decide (s = Some l)) as [->|Hne].
  - unfold drop_ref. rewrite Hl. destruct (Z.eqb_spec (mRefs b) 1); [by destruct Hs|].
    rewrite lookup_insert_eq. eauto.
  - rewrite drop_ref_ne by done. eauto.
Qed.

Lemma source_read h v p n ys l' b' h' v' :
  source_ok h v p n ys -> moved (mStorage v) h l' b' h' ->
  read_region p n (VS h' v') = Ret (ys, VS h' v').
Proof.
  intros [Hlen Hp] Hm. destruct p as [|zs|l i]; simpl.
  - subst n. rewrite decide_True by done. by destruct ys.
  - destruct Hp as [Hle <-]. by rewrite decide_True by done.
  - destruct Hp as (b & Hl & Hle & <- & Hs).
    destruct (drop_ref_shared _ _ _ _ Hl Hs) as (b2 & Hl2 & Hc).
    erewrite bind_run.
    2: { apply on_heap_run, deref_run. rewrite (moved_bufs _ _ _ _ _ Hm), lookup_insert_ne; [exact Hl2|].
         intros ->. rewrite (moved_fresh _ _ _ _ _ Hm) in Hl2. done. }
    by rewrite Hc, decide_True by done.
Qed.

(** Filling the gap that [_grow] opened gives the inserted list. *)
Lemma gap_inserted xs index ys (c : list (slot T)) :
  0 <= index <= Z.of_nat (length xs) ->
  gap_copied xs index (Z.of_nat (length xs)) (index + Z.of_nat (length ys)) index c ->
  (length xs + length ys <= length c)%nat ->
  let c' := take (Z.to_nat index) c ++ ys ++ drop (Z.to_nat index + length ys) c in
  length c' = length c /\ take (length (inserted xs index ys)) c' = inserted xs index ys.
Proof.
  intros Hi [H1 H2] Hc c'. destruct (write_slice c ys (Z.to_nat index)) as (L & T1 & S1 & D1); [lia|].
  fold c' in L, T1, S1, D1. split; [done|]. unfold inserted.
  rewrite !length_app, length_take, length_drop.
  replace (Z.to_nat index `min` length xs + (length ys + (length xs - Z.to_nat index)))%nat
    with (Z.to_nat index + (length ys + Z.to_nat (Z.of_nat (length xs) - index)))%nat by lia.
  rewrite take_plus, T1, H1. f_equal. rewrite take_plus, S1. f_equal.
  rewrite drop_drop, D1. rewrite Z2Nat.inj_add, Nat2Z.id in H2 by lia.
  rewrite H2. apply take_ge. rewrite length_drop. lia.
Qed.

Lemma inserted_length xs index ys :
  length (inserted xs index ys) = (length xs + length ys)%nat.
Proof. unfold inserted. rewrite !length_app, length_take, length_drop. lia. Qed.

Lemma inserted_live v xs index ys : copyable v xs -> copyable v ys -> copyable v (inserted xs index ys).
Proof.
  intros [?|Hx] [?|Hy]; try (by left). right. unfold inserted.
  apply Forall_app. split; [by apply Forall_take|]. apply Forall_app. split; [done|by apply Forall_drop].
Qed.

(** What an insertion promises: the items, or an error and the old list. *)
Definition insert_post h v xs (index n : Z) (Q : list (slot T) -> Prop) (r : Z) (s' : vstate T) : Prop :=
  if mCount v <? index then r = BAD_INDEX /\ s' = VS h v else
  (r = s32 index /\ method_post h v Q s') \/
  (r = NO_MEMORY /\ method_post h v (fun zs => zs = xs) s' /\ (oom \/ n = 0)).

(** The common part of [insertArrayAt] and [insertAt]: [fill] writes [n]
    slots of the gap. *)
Lemma insert_holds h v xs index n (fill : loc -> nat -> M (vstate T) unit) (F : list (slot T) -> Prop) :
  vec_ok h v xs -> heap_ok h -> 0 <= index -> 0 <= n <= SIZE_MAX ->
  (forall l b h1 v1, moved (mStorage v) h l b h1 -> mFlags v1 = mFlags v ->
     (Z.to_nat index + Z.to_nat n <= length (cells b))%nat ->
     exists ys, F ys /\ length ys = Z.to_nat n /\ copyable v ys /\
     fill l (Z.to_nat index) (VS h1 v1) =
       Ret (tt, VS (Heap (<[l := SB (mRefs b) (mSize b)
         (take (Z.to_nat index) (cells b) ++ ys ++ drop (Z.to_nat index + Z.to_nat n) (cells b))]> (bufs h1))
         (next h1)) v1)) ->
  holds (sz ← size;
         if sz <? index then mret BAD_INDEX else
         where_ ← _grow index n;
         match where_ with
         | Some (l, i) => fill l i;; mret (s32 index)
         | None => mret NO_MEMORY
         end) (VS h v)
    (insert_post h v xs index n (fun zs => exists ys, F ys /\ zs = inserted xs index ys))
    (oom \/ grow_overflow v (mCount v + n)).
Proof.
  intros Hv Hok Hi Hn Hfill. pose proof (vok_count _ _ _ Hv) as Hcnt.
  eapply holds_run; [apply size_run|]. unfold insert_post.
  destruct (Z.ltb_spec (mCount v) index) as [Hlt|Hge]; [by apply holds_ret|].
  eapply holds_bind; [apply (_grow_holds h v xs); try done; lia|].
  intros [[l i]|] s'.
  - intros (-> & h' & b' & -> & Hm & Hbo & Hlen & _ & Hg).
    destruct (Hfill l b' h' (with_count (with_storage v (Some l)) (mCount v + n)) Hm eq_refl)
      as (ys & HF & Hyl & Hyc & Hrun); [lia|].
    eapply holds_run; [exact Hrun|]. apply holds_ret. left. split; [done|]. rewrite <- Hyl.
    destruct (gap_inserted xs index ys (cells b')) as [L Hz]; [lia| |lia|].
    { rewrite Hyl, Z2Nat.id by lia. by rewrite <- Hcnt. }
    eapply rehomed_post; [apply Hv|eapply moved_update; [exact Hm|apply Hm]| | | |exact Hz|eauto].
    + destruct Hbo as [? ? ?]. split; simpl; [done|done|]. by rewrite L.
    + rewrite inserted_length. lia.
    + apply inserted_live; [apply Hv|done].
  - intros Hnone. apply holds_ret. right. split; [done|].
    destruct Hnone as [[Hu Ho]|(-> & -> & Hpost)].
    + split; [|by left]. by eapply unchanged_post.
    + split; [done|by right].
Qed.

Lemma copyable_flags v v1 ys : mFlags v1 = mFlags v -> copyable v ys -> copyable v1 ys.
Proof. intros E. unfold copyable, has_flag. by rewrite E. Qed.

Lemma insertArrayAt_holds h v xs p index n ys :
  vec_ok h v xs -> heap_ok h -> 0 <= index -> 0 <= n <= SIZE_MAX ->
  source_ok h v p (Z.to_nat n) ys -> copyable v ys ->
  holds (insertArrayAt p index n) (VS h v)
    (insert_post h v xs index n (fun zs => zs = inserted xs index ys))
    (oom \/ grow_overflow v (mCount v + n)).
Proof.
  intros Hv Hok Hi Hn Hsrc Hc. pose proof Hsrc as [Hlen _].
  eapply holds_mono;
    [apply (insert_holds h v xs index n (fun l i => _do_copy l i p n) (fun zs => zs = ys)); try done| |done].
  - intros l b h1 v1 Hm Hfl Hfit. exists ys. split_and!; try done.
    apply _do_copy_run; [by eapply source_read|done|by eapply copyable_flags|by eapply moved_lookup|done].
  - intros r s'. unfold insert_post. case_match; [done|]. intros [[-> (zs & (? & -> & ->) & H')]|?]; [left|by right].
    split; [done|]. by exists (inserted xs index ys).
Qed.

(** A single item pointed to by [p]. *)
Lemma insertAt_holds h v xs p index n x :
  vec_ok h v xs -> heap_ok h -> 0 <= index -> 0 <= n <= SIZE_MAX ->
  p <> PNull -> source_ok h v p 1 [Some x] ->
  holds (insertAt p index n) (VS h v)
    (insert_post h v xs index n (fun zs => zs = inserted xs index (replicate (Z.to_nat n) (Some x))))
    (oom \/ grow_overflow v (mCount v + n)).
Proof.
  intros Hv Hok Hi Hn Hp Hsrc.
  replace (insertAt p index n) with
    (sz ← size; if sz <? index then mret BAD_INDEX else
     where_ ← _grow index n;
     match where_ with
     | Some (l, i) => _do_splat l i p n;; mret (s32 index)
     | None => mret NO_MEMORY
     end : M (vstate T) Z) by (by destruct p).
  eapply holds_mono;
    [apply (insert_holds h v xs index n (fun l i => _do_splat l i p n)
              (fun zs => zs = replicate (Z.to_nat n) (Some x))); try done| |done].
  - intros l b h1 v1 Hm Hfl Hfit. eexists. split; [done|]. split; [by rewrite length_replicate|].
    split; [right; by apply Forall_replicate|]. unfold _do_splat.
    pose proof (moved_lookup _ _ _ _ _ Hm) as Hl. destruct (Z.eqb_spec n 0) as [->|Hn0].
    + unfold mret, M_ret. simpl. rewrite Nat.add_0_r, take_drop. destruct h1, b; simpl in *.
      by rewrite insert_id.
    + erewrite bind_run by (by eapply source_read).
      erewrite update_region_run by done. simpl. rewrite do_splat_spec by done.
      by rewrite take_drop_middle'.
  - intros r s'. unfold insert_post. case_match; [done|]. intros [[-> (zs & (? & -> & ->) & H')]|?]; [left|by right].
    split; [done|]. by eexists.
Qed.

(** Insertion without a prototype: default construction, or, for types with a
    trivial constructor, whatever the memory holds. *)
Lemma insertAt_null_holds h v xs index n :
  vec_ok h v xs -> heap_ok h -> 0 <= index -> 0 <= n <= SIZE_MAX ->
  (has_flag v HAS_TRIVIAL_CTOR = true -> has_flag v HAS_TRIVIAL_COPY = true) ->
  holds (insertAt PNull index n) (VS h v)
    (insert_post h v xs index n (fun zs => exists ys, zs = inserted xs index ys /\
       length ys = Z.to_nat n /\
       (has_flag v HAS_TRIVIAL_CTOR = false -> ys = replicate (Z.to_nat n) (Some default_item))))
    (oom \/ grow_overflow v (mCount v + n)).
Proof.
  intros Hv Hok Hi Hn Hct.
  eapply holds_mono;
    [apply (insert_holds h v xs index n (fun l i => _do_construct l i n)
              (fun zs => length zs = Z.to_nat n /\ (has_flag v HAS_TRIVIAL_CTOR = false ->
                 zs = replicate (Z.to_nat n) (Some default_item)))); try done| |done].
  - intros l b h1 v1 Hm Hfl Hfit. unfold _do_construct. rewrite (bind_run _ _ _ _ _ (self_run _ _)).
    replace (has_flag v1 HAS_TRIVIAL_CTOR) with (has_flag v HAS_TRIVIAL_CTOR)
      by (unfold has_flag; by rewrite Hfl).
    pose proof (moved_lookup _ _ _ _ _ Hm) as Hl. destruct (has_flag v HAS_TRIVIAL_CTOR) eqn:Hf; simpl.
    + exists (take (Z.to_nat n) (drop (Z.to_nat index) (cells b))).
      rewrite take_drop_middle' by done. split; [done|]. split; [done|]. split; [left; by apply Hct|].
      rewrite <- drop_drop, take_drop, take_drop. destruct h1, b. simpl in *. by rewrite insert_id.
    + exists (replicate (Z.to_nat n) (Some default_item)). rewrite length_replicate.
      split; [done|]. split; [done|]. split; [right; by apply Forall_replicate|].
      erewrite update_region_run by done. by rewrite do_construct_spec, take_drop_middle'.
  - intros r s'. unfold insert_post. case_match; [done|].
    intros [[-> (zs & (ys & [Hyl Hy] & ->) & H')]|?]; [left|by right].
    split; [done|]. exists (inserted xs index ys). split; [by exists ys|done].
Qed.

Lemma removeItemsAt_holds h v xs index n :
  vec_ok h v xs -> heap_ok h -> 0 <= index -> 0 <= n -> index + n < 2 ^ 32 ->
  holds (removeItemsAt index n) (VS h v)
    (fun r s' => if mCount v <? index + n then r = BAD_VALUE /\ s' = VS h v else
       r = s32 index /\ method_post h v (fun ys => ys = removed xs index n \/ ys = xs /\ oom) s')
    (oom \/ SIZE_MAX - sizeof_SharedBuffer <= u32 (4 * mItemSize v)).
Proof.
  intros Hv Hok Hi Hn Hmax. unfold removeItemsAt. eapply holds_run; [apply size_run|].
  rewrite u32_small by lia. destruct (Z.ltb_spec (mCount v) (index + n)); [by apply holds_ret|].
  eapply holds_bind; [by apply (_shrink_holds h v xs)|]. intros [] s' Hp. by apply holds_ret.
Qed.

Lemma clear_holds h v xs :
  vec_ok h v xs -> heap_ok h ->
  holds clear (VS h v)
    (fun _ s' => method_post h v (fun ys => ys = [] \/ ys = xs /\ oom) s')
    (oom \/ SIZE_MAX - sizeof_SharedBuffer <= u32 (4 * mItemSize v)).
Proof.
  intros Hv Hok. pose proof (vok_count _ _ _ Hv) as Hcnt. unfold clear. eapply holds_run; [apply size_run|].
  eapply holds_mono; [apply (_shrink_holds h v xs); try done; lia| |done].
  intros _ s' (ys & Hy & Hp). exists ys. split; [|done]. destruct Hy as [->|?]; [left|by right].
  unfold removed. simpl. rewrite drop_ge by lia. done.
Qed.

Lemma finish_vector_holds h v xs Ab :
  vec_ok h v xs -> heap_ok h ->
  holds finish_vector (VS h v)
    (fun _ s' => s' = VS (Heap (drop_ref (mStorage v) (bufs h)) (next h)) (with_count (with_storage v None) 0) /\
                 method_post h v (fun ys => ys = []) s') Ab.
Proof.
  intros Hv Hok. unfold finish_vector. eapply holds_run; [by eapply release_storage_run|].
  eapply holds_done; [done|]. split; [done|]. exists []. split; [done|]. split.
  - apply tr_drop; simpl; try done. intros l Hl. simpl in *. by apply drop_ref_None, Hok.
  - split; [|done]. split; simpl; [apply Hv|done|by right|done].
Qed.

Lemma setCapacity_holds h v xs c :
  vec_ok h v xs -> heap_ok h -> 0 <= c <= SIZE_MAX ->
  holds (setCapacity c) (VS h v)
    (fun r s' => method_post h v (fun ys => ys = xs) s' /\
       (r = s32 c /\ capacity s' = Ret (c, s') \/
        c <= mCount v /\ s' = VS h v /\ (exists k, capacity s' = Ret (k, s') /\ r = s32 k) \/
        r = NO_MEMORY /\ oom))
    (oom \/ SIZE_MAX - sizeof_SharedBuffer <= c * mItemSize v).
Proof.
  intros Hv Hok Hc. pose proof (vok_item _ _ _ Hv) as Hit. pose proof sizeof_SharedBuffer_bounds.
  pose proof (vok_count _ _ _ Hv) as Hcnt.
  unfold setCapacity. eapply holds_run; [apply size_run|].
  destruct (Z.leb_spec c (mCount v)) as [Hle|Hgt].
  { destruct (capacity_run _ _ _ Hv) as (k & Hk & _ & _). eapply holds_run; [exact Hk|].
    apply holds_ret. split.
    - eapply unchanged_post; [done..|by exists h|done].
    - right. left. split; [done|]. split; [done|]. by exists (Z.of_nat k). }
  eapply holds_run; [apply self_run|]. rewrite safe_mul_spec by lia.
  destruct (Z.leb_spec (c * mItemSize v) SIZE_MAX) as [Hs|Hs]; [|right; lia].
  eapply holds_bind; [eapply holds_mono; [by apply alloc_holds|intros ? ? H'; exact H'|by right]|].
  intros [l|] s'.
  - intros (Hsz & -> & ->). rewrite cell_count_exact by lia.
    eapply holds_mono; [eapply (adopt_copy_holds h); simpl; try done; lia| |done].
    intros r s' (-> & h' & cs & -> & Hm & Hlen & Hx).
    assert (Hbo : buf_ok (mItemSize v) (SB 1 (c * mItemSize v) cs))
      by (split; simpl; [lia|nia|by rewrite cell_count_exact by lia]).
    split.
    + eapply rehomed_post; [done|exact Hm|done|apply Hv|apply Hv|exact Hx|done].
    + left. split; [done|]. erewrite capacity_block; [|simpl; lia|done|by eapply moved_lookup|done].
      simpl. do 2 f_equal. lia.
  - intros [Hu Ho]. apply holds_ret. split; [by eapply unchanged_post|]. right. by right.
Qed.

Lemma editItemLocation_holds h v xs index :
  vec_ok h v xs -> heap_ok h -> 0 <= index < mCount v ->
  holds (editItemLocation index) (VS h v)
    (fun r s' => exists l' b' h', r = Some (l', Z.to_nat index) /\
       s' = VS h' (with_storage v (Some l')) /\ moved (mStorage v) h l' b' h' /\
       buf_ok (mItemSize v) b' /\ (length xs <= length (cells b'))%nat /\ take (length xs) (cells b') = xs) oom.
Proof.
  intros Hv Hok Hi. pose proof (vok_count _ _ _ Hv) as Hcnt. unfold editItemLocation.
  destruct (capacity_run _ _ _ Hv) as (c & Hc & Hle & _). eapply holds_run; [exact Hc|].
  destruct (Z.ltb_spec index (Z.of_nat c)); [|lia].
  destruct (mStorage v) as [l|] eqn:Hs.
  2: { pose proof (vok_store _ _ _ Hv) as E. rewrite Hs in E. subst xs. simpl in *. lia. }
  destruct (vec_block _ _ _ _ Hv Hs) as [b Hb].
  destruct (vec_fits _ _ _ _ _ Hv Hs Hb) as (_ & _ & Hf).
  eapply holds_bind; [by eapply editArrayImpl_holds|].
  intros r s' (l' & -> & E' & h' & l0 & b' & -> & Hm & Hbo & Hlen & Hx).
  simpl in E'. injection E' as ->. apply holds_ret. rewrite Hs in Hm.
  exists l', b', h'. split_and!; try done. lia.
Qed.

(** A readable source never points into the block the vector now owns. *)
Lemma source_elsewhere h v p n ys l' b' h' i :
  source_ok h v p n ys -> moved (mStorage v) h l' b' h' -> ptr_eqb (Some (l', i)) p = false.
Proof.
  intros [_ Hp] Hm. destruct p as [|zs|l j]; [done|done|]. simpl. destruct Hp as (b & Hl & _ & _ & Hs).
  destruct (drop_ref_shared _ _ _ _ Hl Hs) as (b2 & Hl2 & _).
  apply andb_false_iff. left. apply bool_decide_eq_false. intros ->.
  rewrite (moved_fresh _ _ _ _ _ Hm) in Hl2. done.
Qed.

Lemma prefix_written {A} (c xs : list A) i y :
  take (length xs) c = xs -> (length xs <= length c)%nat -> (i < length xs)%nat ->
  take (length (<[i := y]> xs)) (take i c ++ y :: drop (S i) c) = <[i := y]> xs.
Proof.
  intros Hx Hle Hi. rewrite <- insert_take_drop by lia. rewrite length_insert.
  by rewrite take_insert_lt, Hx by done.
Qed.

(** [replaceAt] with an item: destroy the old one, copy the new one over it. *)
Lemma replaceAt_holds h v xs p index x :
  vec_ok h v xs -> heap_ok h -> 0 <= index -> p <> PNull -> source_ok h v p 1 [Some x] ->
  holds (replaceAt p index) (VS h v)
    (fun r s' => if mCount v <=? index then r = BAD_INDEX /\ s' = VS h v else
       r = s32 index /\ method_post h v (fun ys => ys = <[Z.to_nat index := Some x]> xs) s') oom.
Proof.
  intros Hv Hok Hi Hp Hsrc. pose proof (vok_count _ _ _ Hv) as Hcnt. unfold replaceAt.
  eapply holds_run; [apply size_run|]. destruct (Z.leb_spec (mCount v) index) as [?|Hlt]; [by apply holds_ret|].
  eapply holds_bind; [by apply (editItemLocation_holds h v xs)|].
  intros r s' (l' & b' & h' & -> & -> & Hm & [Hbr Hbz Hbc] & Hlen & Hx).
  rewrite (source_elsewhere _ _ _ _ _ _ _ _ _ Hsrc Hm). cbn [negb].
  destruct (_do_destroy_run h' (with_storage v (Some l')) l' b' (Z.to_nat index) 1 (moved_lookup _ _ _ _ _ Hm))
    as (d & Hd & Hrun); [simpl; lia|].
  eapply holds_run; [exact Hrun|]. set (h1 := Heap _ _) in *.
  assert (Hm1 : moved (mStorage v) h l' (SB (mRefs b') (mSize b')
    (take (Z.to_nat index) (cells b') ++ d ++ drop (Z.to_nat index + Z.to_nat 1) (cells b'))) h1)
    by (eapply moved_update; [exact Hm|apply Hm]).
  destruct (write_slice (cells b') d (Z.to_nat index)) as (Lw & Tw & _ & Dw); [simpl in Hd; lia|].
  rewrite Hd in Lw, Tw, Dw.
  replace (match p with PNull => _do_construct l' (Z.to_nat index) 1
    | _ => _do_copy l' (Z.to_nat index) p 1 end : M (vstate T) unit)
    with (_do_copy l' (Z.to_nat index) p 1 : M (vstate T) unit) by (by destruct p).
  eapply holds_run.
  { eapply _do_copy_run; [by eapply source_read|done|right; by repeat constructor|
      by eapply moved_lookup|cbn [cells]; rewrite Lw; simpl; lia]. }
  apply holds_ret. split; [done|]. cbn [cells mRefs mSize]. rewrite Tw, Dw.
  replace (with_storage v (Some l')) with (with_count (with_storage v (Some l')) (mCount v)) by done.
  change (Z.to_nat 1) with 1%nat. rewrite Nat.add_1_r. simpl. rewrite insert_insert_eq.
  eapply rehomed_post; [apply Hv|eapply moved_update; [exact Hm|simpl; apply Hm]| | | | |done]; cbn [cells].
  - split; simpl; [done|done|]. rewrite length_app, length_take. simpl. rewrite length_drop. lia.
  - by rewrite length_insert.
  - destruct (vok_live _ _ _ Hv) as [?|Hf]; [by left|right]. apply Forall_insert; [done|by exists x].
  - apply prefix_written; [done|done|lia].
Qed.

(** [resize]: default items at the end, or the tail cut off. *)
Lemma resize_holds h v xs sz :
  vec_ok h v xs -> heap_ok h -> 0 <= sz < 2 ^ 31 -> mCount v < 2 ^ 31 ->
  (has_flag v HAS_TRIVIAL_CTOR = true -> has_flag v HAS_TRIVIAL_COPY = true) ->
  holds (resize sz) (VS h v)
    (fun r s' =>
       r = sz /\ method_post h v (fun ys => Z.of_nat (length ys) = sz /\
           ys `prefix_of` xs \/ Z.of_nat (length ys) = sz /\ xs `prefix_of` ys \/ ys = xs /\ oom) s' \/
       r = NO_MEMORY /\ oom /\ method_post h v (fun ys => ys = xs) s')
    (oom \/ SIZE_MAX - sizeof_SharedBuffer <= u32 (4 * mItemSize v) \/ grow_overflow v sz).
Proof.
  intros Hv Hok Hsz Hcb Hct. pose proof (vok_count _ _ _ Hv) as Hcnt.
  pose proof NO_MEMORY_neg. unfold resize. eapply holds_run; [apply size_run|].
  destruct (Z.ltb_spec (mCount v) sz) as [Hlt|Hge]; [|destruct (Z.ltb_spec sz (mCount v)) as [Hgt|Heq]].
  - eapply holds_bind.
    { eapply holds_mono; [apply (insertAt_null_holds h v xs); try done; unfold SIZE_MAX; lia|intros ? ? H'; exact H'|].
      replace (mCount v + (sz - mCount v)) with sz by lia. tauto. }
    intros r s' Hp. apply holds_ret. unfold insert_post in Hp. destruct (Z.ltb_spec (mCount v) (mCount v)); [lia|].
    destruct Hp as [[-> (zs & (ys & -> & Hl & _) & Hrest)]|(-> & Hpost & [Ho|?])]; [left|right|lia].
    + rewrite !s32_small by lia. destruct (Z.ltb_spec (mCount v) 0); [lia|]. split; [done|].
      exists (inserted xs (mCount v) ys). split; [|done]. right. left.
      split; [rewrite inserted_length; lia|]. unfold inserted. exists ys.
      rewrite Hcnt, Nat2Z.id, take_ge, drop_ge, app_nil_r by lia. done.
    + destruct (Z.ltb_spec NO_MEMORY 0); [|lia]. done.
  - eapply holds_bind.
    { eapply holds_mono; [apply (removeItemsAt_holds h v xs); try done; lia|intros ? ? H'; exact H'|tauto]. }
    intros r s' Hp. apply holds_ret. destruct (Z.ltb_spec (mCount v) (sz + (mCount v - sz))); [lia|].
    destruct Hp as [-> (ys & Hy & Hrest)]. left. rewrite !s32_small by lia.
    destruct (Z.ltb_spec sz 0); [lia|]. split; [done|]. exists ys. split; [|done].
    destruct Hy as [->|?]; [left|by right; right]. rewrite removed_length by lia. split; [lia|].
    unfold removed. rewrite (drop_ge xs), app_nil_r by lia. apply prefix_take.
  - eapply holds_run; [done|]. apply holds_ret. left. rewrite NO_ERROR_zero. simpl. rewrite s32_small by lia.
    split; [done|]. eapply unchanged_post; [done|done|by exists h|]. left. split; [lia|done].
Qed.

End Spec.
