(* ===== verification/VectorSort.v ===== *)
(** * VectorImpl::sort

    The reference is stable insertion sort on lists; the method is shown to
    compute it in place, on a private copy of the block when it is shared. *)

From S2P Require Import Prelude External SharedBuffer VectorImpl VectorFacts.

(** ** The reference sort *)

Section Reference.
Context {T : Type} (cmp : T -> T -> Z).

(** Insert [x] from the right end of the list whose reverse is [r]. *)
Fixpoint ins_rev (x : T) (r : list T) : list T :=
  match r with
  | [] => [x]
  | y :: r' => if 0 <? cmp y x then y :: ins_rev x r' else x :: r
  end.

Definition ins (x : T) (l : list T) : list T := reverse (ins_rev x (reverse l)).
Definition isort (l : list T) : list T := foldl (fun acc x => ins x acc) [] l.

(** What a [compar_t] has to satisfy: a total preorder. *)
Class CmpOrder : Prop := {
  cmp_flip : forall a b, 0 < cmp a b <-> cmp b a < 0;
  cmp_trans : forall a b c, cmp a b <= 0 -> cmp b c <= 0 -> cmp a c <= 0
}.

Definition cmp_le (a b : T) : Prop := cmp a b <= 0.

#[export] Instance cmp_le_dec a b : Decision (cmp_le a b).
Proof. unfold cmp_le. apply _. Defined.

Lemma ins_rev_perm x r : ins_rev x r ≡ₚ x :: r.
Proof.
  induction r as [|y r IH]; simpl; [done|]. case_match; [|done]. rewrite IH. apply Permutation_swap.
Qed.

Lemma ins_perm x l : ins x l ≡ₚ x :: l.
Proof. unfold ins. by rewrite reverse_Permutation, ins_rev_perm, reverse_Permutation. Qed.

Lemma foldl_ins_perm l acc : foldl (fun acc x => ins x acc) acc l ≡ₚ acc ++ l.
Proof.
  revert acc. induction l as [|x l IH]; intros acc; simpl; [by rewrite app_nil_r|].
  rewrite IH, ins_perm. apply Permutation_middle.
Qed.

Lemma isort_perm l : isort l ≡ₚ l.
Proof. unfold isort. by rewrite foldl_ins_perm. Qed.

Lemma isort_snoc l x : isort (l ++ [x]) = ins x (isort l).
Proof. unfold isort. by rewrite foldl_app. Qed.

Lemma length_isort l : length (isort l) = length l.
Proof. by rewrite isort_perm. Qed.

(** An item that is not smaller than the last one stays where it is. *)
Lemma ins_id x l y : last l = Some y -> cmp y x <= 0 -> ins x l = l ++ [x].
Proof.
  intros Hl Hc. unfold ins. apply last_Some in Hl as [l' ->]. rewrite reverse_app. simpl.
  destruct (Z.ltb_spec 0 (cmp y x)); [lia|]. by rewrite reverse_cons, reverse_cons, reverse_involutive.
Qed.

Context {CO : CmpOrder}.

Lemma ins_rev_sorted x r :
  StronglySorted (flip cmp_le) r -> StronglySorted (flip cmp_le) (ins_rev x r).
Proof.
  induction 1 as [|y r Hs IH Hf]; simpl; [repeat constructor|].
  destruct (Z.ltb_spec 0 (cmp y x)) as [E|E].
  - constructor; [done|]. rewrite ins_rev_perm. constructor; [|done].
    unfold flip, cmp_le. apply cmp_flip in E. lia.
  - constructor; [by constructor|]. constructor; [done|]. eapply Forall_impl; [exact Hf|].
    unfold flip, cmp_le. intros z Hz. by apply cmp_trans with y.
Qed.

Lemma StronglySorted_reverse {A} (R : relation A) l :
  StronglySorted R l -> StronglySorted (flip R) (reverse l).
Proof.
  induction 1 as [|x l Hs IH Hf]; [rewrite reverse_nil; constructor|]. rewrite reverse_cons. apply StronglySorted_app.
  split_and!; [|done|].
  - intros y z Hy Hz. apply list_elem_of_singleton in Hz as ->. rewrite elem_of_reverse in Hy.
    rewrite Forall_forall in Hf. by apply Hf.
  - repeat constructor.
Qed.

Lemma ins_sorted x l : StronglySorted cmp_le l -> StronglySorted cmp_le (ins x l).
Proof.
  intros H. apply (StronglySorted_reverse (flip cmp_le)), ins_rev_sorted.
  by apply StronglySorted_reverse.
Qed.

Lemma isort_sorted l : StronglySorted cmp_le (isort l).
Proof.
  induction l as [|x l IH] using rev_ind; [apply SSorted_nil|]. rewrite isort_snoc. by apply ins_sorted.
Qed.

(** Items that compare equal to [z]. *)
Definition cmp_class (z y : T) : Prop := cmp z y = 0.

#[export] Instance cmp_class_dec z y : Decision (cmp_class z y).
Proof. unfold cmp_class. apply _. Defined.

Lemma ins_rev_stable z x r :
  filter (cmp_class z) (ins_rev x r) = filter (cmp_class z) (x :: r).
Proof.
  induction r as [|y r IH]; simpl; [done|]. destruct (Z.ltb_spec 0 (cmp y x)) as [E|E]; [|done].
  rewrite !filter_cons, IH, !filter_cons. destruct (decide (cmp_class z y)) as [Hy|]; [|done].
  destruct (decide (cmp_class z x)) as [Hx|]; [|done]. exfalso. unfold cmp_class in *.
  assert (cmp y x <= 0); [|lia]. apply cmp_trans with z; [|lia].
  destruct (Z.le_gt_cases (cmp y z) 0) as [?|G]; [done|]. apply cmp_flip in G. lia.
Qed.

(** Equal items keep their order. *)
Lemma isort_stable z l : filter (cmp_class z) (isort l) = filter (cmp_class z) l.
Proof.
  induction l as [|x l IH] using rev_ind; [done|]. rewrite isort_snoc, filter_app, <- IH. unfold ins.
  rewrite filter_reverse, ins_rev_stable, <- filter_reverse, reverse_cons, reverse_involutive.
  by rewrite filter_app.
Qed.

End Reference.

(** ** The method *)

Section SortFacts.
Context {T : Type} {LU : LibUtils} {LL : LibUtilsLaws LU} {AL : Allocator}.
Context {IO : ItemOps T} {IL : ItemLaws IO}.
Variable cmp : T -> T -> Z.
Implicit Types (h : heap T) (v : VectorImpl) (b : SharedBuffer T) (ts : list T).

(** The heap after the cells of the block [b] at [l] became [c]. *)
Definition set_cells h (l : loc) b (c : list (slot T)) : heap T :=
  Heap (<[l := SB (mRefs b) (mSize b) c]> (bufs h)) (next h).

Lemma set_cells_lookup h l b c : bufs (set_cells h l b c) !! l = Some (SB (mRefs b) (mSize b) c).
Proof. apply lookup_insert_eq. Qed.

Lemma set_cells_twice h l b c c' :
  set_cells (set_cells h l b c) l (SB (mRefs b) (mSize b) c) c' = set_cells h l b c'.
Proof. unfold set_cells. simpl. by rewrite insert_insert_eq. Qed.

Lemma slot_written {A} (c : list A) i (r : list A) :
  length r = 1%nat -> (i < length c)%nat ->
  exists x, r = [x] /\ take i c ++ r ++ drop (i + 1) c = <[i := x]> c.
Proof.
  intros Hr Hi. destruct r as [|x [|]]; try done. exists x. split; [done|].
  rewrite insert_take_drop by done. by rewrite Nat.add_1_r.
Qed.

Lemma read_region_slot h v l b i y :
  bufs h !! l = Some b -> cells b !! i = Some y -> read_region (PBuf l i) 1 (VS h v) = Ret ([y], VS h v).
Proof.
  intros Hl Hi. pose proof (lookup_lt_Some _ _ _ Hi). erewrite read_region_run by (done || lia).
  by rewrite (drop_S _ _ _ Hi).
Qed.

Lemma read_item_run h v l b i y :
  bufs h !! l = Some b -> cells b !! i = Some (Some y) -> read_item l i (VS h v) = Ret (y, VS h v).
Proof. intros Hl Hi. unfold read_item. by erewrite bind_run by (by eapply read_region_slot). Qed.

(** Destroying a slot and copying an item over it. *)
Lemma overwrite_run {A} h v l b i p y (k : M (vstate T) A) :
  bufs h !! l = Some b -> (i < length (cells b))%nat ->
  (forall r, let h1 := set_cells h l b (<[i := r]> (cells b)) in
     read_region p 1 (VS h1 v) = Ret ([Some y], VS h1 v)) ->
  (_do_destroy l i 1;; _do_copy l i p 1;; k) (VS h v)
  = k (VS (set_cells h l b (<[i := Some y]> (cells b))) v).
Proof.
  intros Hl Hi Hp. destruct (_do_destroy_run h v l b i 1 Hl) as (r & Hr & Hd); [simpl; lia|].
  destruct (slot_written (cells b) i r Hr Hi) as (x & -> & E). change (Z.to_nat 1) with 1%nat in Hd.
  rewrite E in Hd. erewrite bind_run by exact Hd. fold (set_cells h l b (<[i := x]> (cells b))).
  erewrite bind_run.
  2: { eapply _do_copy_run; [apply Hp|done|right; by repeat constructor|apply set_cells_lookup|].
       simpl. rewrite length_insert. lia. }
  change (Z.to_nat 1) with 1%nat. unfold set_cells. cbn [bufs next mRefs mSize cells app].
  rewrite insert_insert_eq. do 6 f_equal.
  rewrite Nat.add_1_r, <- insert_take_drop by (rewrite length_insert; lia). by rewrite list_insert_insert_eq.
Qed.

Lemma lookup_map_Some (r : list T) (rest : list (slot T)) i y :
  r !! i = Some y -> (map Some r ++ rest) !! i = Some (Some y).
Proof.
  intros Hi. rewrite lookup_app_l by (rewrite length_map; by eapply lookup_lt_Some).
  by rewrite list_lookup_fmap, Hi.
Qed.

(** The inner loop: [pre] are the items below, [s] the free slot above them.
    The item goes where the loop stops. *)
Lemma sort_shift_run h v l b x y r s rest :
  bufs h !! l = Some b -> cells b = map Some (reverse (y :: r)) ++ s :: rest -> 0 < cmp y x ->
  exists n c, sort_shift cmp l (Some x) (length r) (VS h v) = Ret (n, VS (set_cells h l b c) v) /\
    (n < length c)%nat /\ length c = length (cells b) /\
    <[n := Some x]> c = map Some (ins cmp x (reverse (y :: r))) ++ rest.
Proof.
  revert h b y s rest. induction r as [|z r IH]; intros h b y s rest Hl Hc Hgt.
  - simpl. rewrite (overwrite_run h v l b 1 _ y); [|done|rewrite Hc; simpl; lia|].
    2: { intros r h1. eapply read_region_slot; [apply set_cells_lookup|]. simpl. by rewrite Hc. }
    rewrite Hc. simpl. exists 0%nat, (Some y :: Some y :: rest). split; [done|]. split; [simpl; lia|].
    split; [done|]. unfold ins. simpl. by destruct (Z.ltb_spec 0 (cmp y x)); [|lia].
  - assert (Hl2 : length (cells b) = (S (S (length r)) + S (length rest))%nat).
    { rewrite Hc, length_app, length_map, length_reverse. simpl. lia. }
    assert (Hy : cells b !! S (length r) = Some (Some y)).
    { rewrite Hc. apply lookup_map_Some. rewrite reverse_cons, lookup_app_r; rewrite length_reverse; [|simpl; lia].
      simpl. by rewrite Nat.sub_diag. }
    cbn [sort_shift length].
    rewrite (overwrite_run h v l b (S (S (length r))) _ y); [|done|lia|].
    2: { intros r0 h1. eapply read_region_slot; [apply set_cells_lookup|]. simpl.
         by rewrite list_lookup_insert_ne by lia. }
    set (c1 := <[S (S (length r)) := Some y]> (cells b)).
    assert (Hc1 : c1 = map Some (reverse (z :: r)) ++ Some y :: Some y :: rest).
    { subst c1. rewrite Hc, (reverse_cons (z :: r)), map_app, <- app_assoc. simpl.
      rewrite insert_app_r_alt; rewrite length_map, length_reverse; [|simpl; lia]. simpl.
      by replace (S (length r) - length r)%nat with 1%nat by lia. }
    erewrite bind_run.
    2: { eapply read_item_run; [apply set_cells_lookup|]. simpl. rewrite Hc1. apply lookup_map_Some.
         rewrite reverse_cons, lookup_app_r; rewrite length_reverse; [|lia]. by rewrite Nat.sub_diag. }
    erewrite bind_run by done. destruct (Z.ltb_spec 0 (cmp z x)) as [Hz|Hz].
    + destruct (IH (set_cells h l b c1) (SB (mRefs b) (mSize b) c1) z (Some y) (Some y :: rest))
        as (n & c & Hrun & Hn & Hlc & Hins); [apply set_cells_lookup|done|done|].
      exists n, c. rewrite Hrun, set_cells_twice. split; [done|]. split; [done|].
      split; [rewrite Hlc; simpl; subst c1; apply length_insert|]. rewrite Hins.
      unfold ins. rewrite !reverse_involutive. cbn [ins_rev].
      destruct (Z.ltb_spec 0 (cmp y x)); [|lia]. by rewrite (reverse_cons _ y), map_app, <- app_assoc.
    + exists (S (length r)), c1. split; [done|]. subst c1. rewrite length_insert.
      split; [lia|]. split; [done|]. rewrite Hc1. unfold ins. rewrite reverse_involutive. cbn [ins_rev].
      destruct (Z.ltb_spec 0 (cmp y x)); [|lia]. destruct (Z.ltb_spec 0 (cmp z x)); [lia|].
      rewrite insert_app_r_alt; rewrite length_map, length_reverse; [|simpl; lia].
      simpl. rewrite Nat.sub_diag. simpl. rewrite (reverse_cons _ y), (reverse_cons _ x), !map_app, <- !app_assoc.
      done.
Qed.

(** One round of the outer loop that has to move the item [x]. *)
Lemma sort_round_run h v l b s y x tl rest t (k : slot T -> M (vstate T) Z) :
  bufs h !! l = Some b -> cells b = map Some (s ++ x :: tl) ++ rest -> last s = Some y -> 0 < cmp y x ->
  (t' ← copy_to_temp t l (length s);
   n ← sort_shift cmp l t' (length s - 1);
   _do_destroy l n 1;; _do_copy l n (PExt [t']) 1;; k t') (VS h v)
  = k (Some x) (VS (set_cells h l b (map Some (ins cmp x s ++ tl) ++ rest)) v).
Proof.
  intros Hl Hc Hy Hgt. erewrite bind_run.
  2: { unfold copy_to_temp. rewrite (bind_run _ _ _ _ _ (self_run h v)). erewrite bind_run; [done|].
       eapply read_region_slot; [exact Hl|]. rewrite Hc. apply lookup_map_Some.
       rewrite lookup_app_r by lia. by rewrite Nat.sub_diag. }
  assert (Ht : default None (head (if negb (has_flag v HAS_TRIVIAL_COPY) then do_copy [t] [Some x] else [Some x]))
    = Some x) by (rewrite do_copy_spec by (done || by repeat constructor); by case_match).
  rewrite Ht. apply last_Some in Hy as [s' ->].
  destruct (sort_shift_run h v l b x y (reverse s') (Some x) (map Some tl ++ rest)) as (n & c & Hrun & Hn & Hlc & Hins);
    [done| |done|].
  { rewrite Hc, reverse_cons, reverse_involutive, !map_app. simpl. by rewrite <- !app_assoc. }
  rewrite length_app, Nat.add_sub. rewrite length_reverse in Hrun. rewrite (bind_run _ _ _ _ _ Hrun).
  rewrite (overwrite_run _ _ _ (SB (mRefs b) (mSize b) c) _ _ x); [|apply set_cells_lookup|done|done].
  rewrite set_cells_twice. do 3 f_equal. simpl. rewrite Hins, reverse_cons, reverse_involutive, map_app.
  by rewrite <- app_assoc.
Qed.

(** The loop invariant: before the first move nothing has changed; after it
    the vector owns its block, which holds [cur]. *)
Definition sort_inv h v ts (cur : list T) (array : option loc) (temp : option (slot T)) (s0 : vstate T) : Prop :=
  mStorage (this s0) = array /\ length cur = length ts /\
  match temp with
  | None => unchanged h v s0 /\ cur = ts
  | Some _ => rehomed h v (fun b => take (length cur) (cells b) = map Some cur) s0
  end.

Lemma sort_inv_block h v ts cur array temp s0 :
  vec_ok h v (map Some ts) -> ts <> [] -> sort_inv h v ts cur array temp s0 ->
  exists l b rest, array = Some l /\ bufs (vheap s0) !! l = Some b /\ cells b = map Some cur ++ rest.
Proof.
  intros Hv Hne (<- & Hlen & Hinv). destruct temp as [t|].
  - destruct Hinv as (h' & l & b & -> & Hm & _ & Hx). exists l, b, (drop (length cur) (cells b)).
    split; [done|]. split; [by eapply moved_lookup|]. by rewrite <- Hx, take_drop.
  - destruct Hinv as [(h' & -> & E & _) ->]. simpl. pose proof (vok_store _ _ _ Hv) as Hst.
    destruct (mStorage v) as [l|]; [|by destruct ts]. destruct Hst as (b & Hb & _ & Hx).
    exists l, b, (drop (length ts) (cells b)). split; [done|]. rewrite E. split; [done|].
    rewrite length_map in Hx. by rewrite <- Hx, take_drop.
Qed.

Definition sort_post h v ts (r : Z) (s' : vstate T) : Prop :=
  (r = NO_ERROR /\ method_post h v (fun ys => ys = map Some (isort cmp ts)) s') \/
  (r = NO_MEMORY /\ method_post h v (fun ys => ys = map Some ts) s' /\ oom).

Lemma moved_rebase s h h0 h1 h2 l b :
  moved s h0 l b h1 -> bufs h0 = bufs h -> (next h <= next h0)%nat ->
  bufs h2 = bufs h1 -> (next h1 <= next h2)%nat -> moved s h l b h2.
Proof.
  intros [E F R N O] E0 N0 E2 N2. split; rewrite <- ?E0, ?E2; try done; [lia|].
  intros l' Hl'. rewrite E2. apply O. lia.
Qed.

Lemma sort_inv_post h v ts array temp s0 :
  vec_ok h v (map Some ts) -> heap_ok h -> sort_inv h v ts (isort cmp ts) array temp s0 ->
  method_post h v (fun ys => ys = map Some (isort cmp ts)) s0.
Proof.
  intros Hv Hok (Hs & Hlen & Hinv). destruct temp as [t|].
  - destruct Hinv as (h' & l & b & -> & Hm & Hbo & Hx).
    replace (with_storage v (Some l)) with (with_count (with_storage v (Some l)) (mCount v)) by done.
    eapply rehomed_post; [apply Hv|exact Hm|done| | |by rewrite length_map|done].
    + rewrite length_map, Hlen, (vok_count _ _ _ Hv), length_map. done.
    + right. apply Forall_map, Forall_true. intros x. by exists x.
  - destruct Hinv as [Hu Hc]. rewrite Hc in *. by eapply unchanged_post.
Qed.

Lemma block_updated h v l b c h1 cur :
  moved (mStorage v) h l b h1 -> buf_ok (mItemSize v) b -> length c = length (cells b) ->
  take (length cur) c = map Some cur ->
  rehomed h v (fun b' => take (length cur) (cells b') = map Some cur)
    (VS (set_cells h1 l b c) (with_storage v (Some l))).
Proof.
  intros Hm [? ? ?] Hc Hx. eexists _, l, _. split; [done|].
  split; [eapply moved_update; [exact Hm|simpl; apply Hm]|]. split; [|done].
  split; simpl; [done|done|lia].
Qed.

Lemma sort_round_holds h v ts i l h1 b1 x y rest t (k : slot T -> M (vstate T) Z) P Ab :
  moved (mStorage v) h l b1 h1 -> buf_ok (mItemSize v) b1 -> ts !! i = Some x ->
  cells b1 = map Some (isort cmp (take i ts) ++ x :: drop (S i) ts) ++ rest ->
  last (isort cmp (take i ts)) = Some y -> 0 < cmp y x ->
  (forall s', sort_inv h v ts (isort cmp (take (S i) ts) ++ drop (S i) ts) (Some l) (Some (Some x)) s' ->
     holds (k (Some x)) s' P Ab) ->
  holds (t' ← copy_to_temp t l i;
         n ← sort_shift cmp l t' (i - 1);
         _do_destroy l n 1;; _do_copy l n (PExt [t']) 1;; k t') (VS h1 (with_storage v (Some l))) P Ab.
Proof.
  intros Hm Hbo Hx Hc Hy Hgt Hk. pose proof (lookup_lt_Some _ _ _ Hx) as Hi.
  assert (Hsl : length (isort cmp (take i ts)) = i) by (rewrite length_isort, length_take; lia).
  pose proof (sort_round_run h1 (with_storage v (Some l)) l b1 _ y x (drop (S i) ts) rest t k
    (moved_lookup _ _ _ _ _ Hm) Hc Hy Hgt) as E. rewrite Hsl in E.
  unfold holds. rewrite E. apply Hk. rewrite (take_S_r _ _ _ Hx), isort_snoc.
  assert (Hlen : length (ins cmp x (isort cmp (take i ts)) ++ drop (S i) ts) = length ts).
  { rewrite length_app, ins_perm. simpl. rewrite Hsl, length_drop. lia. }
  split; [done|]. split; [done|]. apply block_updated; [done|done| |].
  - rewrite Hc, !length_app, !length_map, Hlen, length_app, Hsl. simpl. rewrite length_drop. lia.
  - rewrite take_app_le by (rewrite length_map; done). apply take_ge. by rewrite length_map.
Qed.

Lemma sort_loop_holds h v ts k i array temp s0 :
  vec_ok h v (map Some ts) -> heap_ok h -> (1 <= i)%nat -> (i + k = length ts)%nat ->
  sort_inv h v ts (isort cmp (take i ts) ++ drop i ts) array temp s0 ->
  holds (sort_loop cmp k i array temp) s0 (sort_post h v ts) oom.
Proof.
  intros Hv Hok Hi Hk Hinv. revert i array temp s0 Hi Hk Hinv. induction k as [|k IH]; intros i array temp s0 Hi Hk Hinv.
  { rewrite take_ge, drop_ge, app_nil_r in Hinv by lia.
    assert (Hp : sort_post h v ts NO_ERROR s0) by (left; split; [done|by eapply sort_inv_post]).
    destruct temp; simpl; [|by apply holds_ret]. by eapply holds_done. }
  destruct (lookup_lt_is_Some_2 ts i) as [x Hx]; [lia|].
  assert (Hsl : length (isort cmp (take i ts)) = i) by (rewrite length_isort, length_take; lia).
  destruct (last (isort cmp (take i ts))) as [y|] eqn:Hy.
  2: { apply last_None in Hy. rewrite Hy in Hsl. simpl in Hsl. lia. }
  rewrite (drop_S _ _ _ Hx) in Hinv.
  assert (HS : take (S i) ts = take i ts ++ [x]) by (by apply take_S_r).
  destruct (sort_inv_block _ _ _ _ _ _ _ Hv ltac:(by intros ->) Hinv) as (l & b & rest & -> & Hb & Hc).
  destruct s0 as [h0 v0]. simpl in Hb. cbn [sort_loop].
  assert (Hxi : cells b !! i = Some (Some x)).
  { rewrite Hc. apply lookup_map_Some. rewrite lookup_app_r by lia. by rewrite Hsl, Nat.sub_diag. }
  assert (Hyi : cells b !! (i - 1)%nat = Some (Some y)).
  { rewrite Hc. apply lookup_map_Some. rewrite lookup_app_l by lia.
    rewrite last_lookup in Hy. rewrite <- Hy. f_equal. lia. }
  eapply holds_run; [by eapply read_item_run|]. eapply holds_run; [by eapply read_item_run|].
  destruct (Z.ltb_spec 0 (cmp y x)) as [Hgt|Hle].
  2: { apply IH; [lia|lia|]. rewrite HS, isort_snoc, (ins_id _ _ _ _ Hy Hle), <- app_assoc. done. }
  destruct Hinv as (Hs & Hlen & Hinv). destruct temp as [t|].
  - destruct Hinv as (h' & l' & b' & E & Hm & Hbo & _). injection E as -> ->. simpl in Hs. injection Hs as ->.
    assert (b' = b) as -> by (apply (moved_lookup _ _ _ _ _) in Hm; congruence).
    eapply holds_run; [done|]. eapply sort_round_holds; [done..|]. intros s' Hs'. apply IH; [lia|lia|done].
  - destruct Hinv as [(h' & E & Eb & Nb) Hcur]. injection E as -> ->. simpl in Hs.
    eapply holds_bind.
    { eapply editArrayImpl_holds; [eapply vec_ok_same; [exact Hv|by rewrite Eb]|by eapply heap_ok_grow|done|done]. }
    intros r s' (l' & -> & El & h1 & l1 & b1 & -> & Hm & Hbo & Hl1 & Hx1).
    simpl in El. injection El as ->.
    eapply holds_run; [apply self_run|]. eapply holds_run; [done|]. rewrite length_map in Hx1.
    assert (Hm' : moved (mStorage v) h l' b1 (Heap (bufs h1) (S (next h1))))
      by (eapply moved_rebase; [exact Hm|done|done|done|simpl; lia]).
    cbn [vheap this]. destruct (malloc_ok _ _) eqn:Em.
    + eapply (sort_round_holds _ _ _ _ _ _ _ _ _ (drop (length ts) (cells b1))); [exact Hm'|done|done| |done|done|].
      * rewrite Hcur, <- Hx1. by rewrite take_drop.
      * intros s' Hs'. apply IH; [lia|lia|done].
    + apply holds_ret. right. split; [done|]. split; [|by eexists _, _].
      replace (with_storage v (Some l')) with (with_count (with_storage v (Some l')) (mCount v)) by done.
      eapply rehomed_post; [apply Hv|exact Hm'|done|apply Hv|apply Hv|by rewrite length_map|done].
Qed.

(** [sort] leaves the stably sorted items, or the old ones when memory for
    the temporary is short. *)
Lemma sort_holds h v ts :
  vec_ok h v (map Some ts) -> heap_ok h -> Z.of_nat (length ts) < 2 ^ 31 ->
  holds (sort cmp) (VS h v) (sort_post h v ts) oom.
Proof.
  intros Hv Hok Hlt. pose proof (vok_count _ _ _ Hv) as Hcnt. rewrite length_map in Hcnt.
  unfold sort. eapply holds_run; [apply self_run|]. cbn beta zeta. rewrite Hcnt, s32_small by lia.
  assert (H1 : forall i, (i <= 1)%nat -> (i <= length ts)%nat -> isort cmp (take i ts) ++ drop i ts = ts).
  { intros [|[|]] ? ?; [done| |lia]. destruct ts; simpl; [done|]. unfold ins. simpl. by destruct ts. }
  destruct (Z.ltb_spec 1 (Z.of_nat (length ts))) as [Hgt|Hle].
  - replace (Z.to_nat (Z.of_nat (length ts) - 1)) with (length ts - 1)%nat by lia.
    apply sort_loop_holds; [done|done|lia|lia|]. rewrite H1 by lia. split; [done|]. split; [done|].
    split; [by exists h|done].
  - apply holds_ret. left. split; [done|]. eapply unchanged_post; [done|done|by exists h|].
    f_equal. specialize (H1 (length ts) ltac:(lia) ltac:(lia)).
    by rewrite take_ge, drop_ge, app_nil_r in H1 by done.
Qed.

End SortFacts.
