(* ===== verification/VectorWorld.v ===== *)
(** * Vectors that share storage

    A world is a heap and the vectors whose storage lives in it.  The
    invariant says that a block's count is the number of vectors that hold it,
    so that a block nobody holds is gone; the refinement theorem says that a
    method run on one vector changes that vector's list and no other, which is
    the promise of copy-on-write. *)

From S2P Require Import Prelude External SharedBuffer VectorImpl VectorFacts VectorSpec VectorSort.

Record world (T : Type) : Type := World { wheap : heap T; vecs : list VectorImpl }.
Arguments World {T} _ _.
Arguments wheap {T} _.
Arguments vecs {T} _.

(** Number of vectors whose storage is [l]. *)
Definition holds_block (l : loc) (v : VectorImpl) : Prop := mStorage v = Some l.

#[global] Instance holds_block_dec l v : Decision (holds_block l v).
Proof. unfold holds_block. apply _. Defined.

Definition holders (l : loc) (vs : list VectorImpl) : nat := length (filter (holds_block l) vs).

Record world_ok {T} {LU : LibUtils} (w f : Z) (wd : world T) (xss : list (list T)) : Prop := {
  wok_heap : heap_ok (wheap wd);
  wok_vecs : Forall2 (fun v xs => vec_ok (wheap wd) v (map Some xs)) (vecs wd) xss;
  wok_kind : Forall (fun v => mItemSize v = w /\ mFlags v = f) (vecs wd);
  wok_refs : forall l b, bufs (wheap wd) !! l = Some b ->
    mRefs b = Z.of_nat (holders l (vecs wd)) /\ (0 < holders l (vecs wd))%nat
}.

Section WorldOps.
Context {T : Type} {LU : LibUtils} {AL : Allocator} {IO : ItemOps T}.

(** A method call on the vector [i]. *)
Definition on_vec {A} (i : nat) (m : M (vstate T) A) : M (world T) A := fun wd =>
  match vecs wd !! i with
  | None => Fault
  | Some v =>
      match m (VS (wheap wd) v) with
      | Ret (a, s') => Ret (a, World (vheap s') (<[i := this s']> (vecs wd)))
      | Abort => Abort
      | Fault => Fault
      end
  end.

Definition vec (i : nat) : M (world T) VectorImpl := fun wd =>
  match vecs wd !! i with Some v => Ret (v, wd) | None => Fault end.

(** The copy constructor: a new vector at the end of the list. *)
Definition copy_vec (j : nat) : M (world T) Z := fun wd =>
  match vecs wd !! j with
  | None => Fault
  | Some v =>
      match copy_construct v (wheap wd) with
      | Ret (v', h') => Ret (Z.of_nat (length (vecs wd)), World h' (vecs wd ++ [v']))
      | Abort => Abort
      | Fault => Fault
      end
  end.

(** The calls a client may make on vector [i]. *)
Inductive vop : Type :=
| OpInsertArray (i : nat) (ys : list T) (index : Z)
| OpInsertVector (i j : nat) (index : Z)
| OpInsertAt (i : nat) (x : T) (index n : Z)
| OpReplaceAt (i : nat) (x : T) (index : Z)
| OpRemove (i : nat) (index n : Z)
| OpPop (i : nat)
| OpClear (i : nat)
| OpSetCapacity (i : nat) (c : Z)
| OpSort (i : nat) (cmp : T -> T -> Z)
| OpAssign (i j : nat)
| OpCopy (j : nat)
| OpFinish (i : nat).

Definition run_op (op : vop) : M (world T) Z :=
  match op with
  | OpInsertArray i ys index =>
      on_vec i (insertArrayAt (PExt (map Some ys)) index (Z.of_nat (length ys)))
  | OpInsertVector i j index => rhs ← vec j; on_vec i (insertVectorAt rhs index)
  | OpInsertAt i x index n => on_vec i (insertAt (PExt [Some x]) index n)
  | OpReplaceAt i x index => on_vec i (replaceAt (PExt [Some x]) index)
  | OpRemove i index n => on_vec i (removeItemsAt index n)
  | OpPop i => on_vec i pop;; mret 0
  | OpClear i => on_vec i clear;; mret 0
  | OpSetCapacity i c => on_vec i (setCapacity c)
  | OpSort i cmp => on_vec i (sort cmp)
  | OpAssign i j => rhs ← vec j; on_vec i (assign (bool_decide (i = j)) rhs);; mret 0
  | OpCopy j => copy_vec j
  | OpFinish i => on_vec i finish_vector;; mret 0
  end.

Fixpoint run_ops (ops : list vop) : M (world T) (list Z) :=
  match ops with
  | [] => mret []
  | op :: ops' => r ← run_op op; rs ← run_ops ops'; mret (r :: rs)
  end.

End WorldOps.
Arguments vop T : clear implicits.

(** ** Counting holders *)

Section Holders.
Implicit Types (v : VectorImpl) (vs : list VectorImpl).

Definition count1 (l : loc) v : nat := if decide (holds_block l v) then 1 else 0.

Lemma holders_cons l v vs : holders l (v :: vs) = (count1 l v + holders l vs)%nat.
Proof. unfold holders, count1. rewrite filter_cons. by case_decide. Qed.

Lemma holders_app l vs vs' : holders l (vs ++ vs') = (holders l vs + holders l vs')%nat.
Proof. unfold holders. by rewrite filter_app, length_app. Qed.

Lemma holders_split l vs i v :
  vs !! i = Some v -> holders l vs = (count1 l v + holders l (delete i vs))%nat.
Proof.
  intros Hi. rewrite <- holders_cons. unfold holders. by rewrite <- (delete_Permutation vs i v Hi).
Qed.

Lemma holders_update l vs i v v' :
  vs !! i = Some v -> holders l (<[i := v']> vs) = (count1 l v' + holders l (delete i vs))%nat.
Proof.
  intros Hi. pose proof (lookup_lt_Some _ _ _ Hi).
  rewrite (holders_split l (<[i := v']> vs) i v') by (by apply list_lookup_insert_eq).
  do 2 f_equal. rewrite !delete_take_drop, take_insert_ge, drop_insert_lt by lia. done.
Qed.

Lemma holders_other l vs i j v v' :
  vs !! i = Some v -> vs !! j = Some v' -> i <> j -> holds_block l v' ->
  (count1 l v < holders l vs)%nat.
Proof.
  intros Hi Hj Hne Hh. rewrite (holders_split l vs i v Hi).
  assert (Hin : v' ∈ delete i vs).
  { apply list_elem_of_lookup. destruct (decide (j < i)%nat).
    - exists j. rewrite list_lookup_delete_lt by done. done.
    - exists (j - 1)%nat. rewrite list_lookup_delete_ge by lia. by replace (S (j - 1)) with j by lia. }
  assert (Hf : v' ∈ filter (holds_block l) (delete i vs)) by (by apply list_elem_of_filter).
  unfold holders. destruct (filter _ (delete i vs)); [by apply not_elem_of_nil in Hf|simpl; lia].
Qed.

Lemma holders_none l vs : (forall v, v ∈ vs -> mStorage v <> Some l) -> holders l vs = 0%nat.
Proof.
  intros H. unfold holders. destruct (filter (holds_block l) vs) as [|v vs'] eqn:E; [done|].
  assert (Hin : v ∈ filter (holds_block l) vs) by (rewrite E; apply list_elem_of_here).
  apply list_elem_of_filter in Hin as [Hv Hin]. by destruct (H v Hin).
Qed.

Lemma count1_storage l v v' : mStorage v = mStorage v' -> count1 l v = count1 l v'.
Proof. intros E. unfold count1. repeat case_decide; unfold holds_block in *; congruence. Qed.

End Holders.

(** ** The frame property *)

Section Frame.
Context {T : Type} {LU : LibUtils} {LL : LibUtilsLaws LU} {AL : Allocator}.
Context {IO : ItemOps T} {IL : ItemLaws IO}.
Implicit Types (h : heap T) (v : VectorImpl) (vs : list VectorImpl) (wd : world T).

(** The count of every block is right, for the vectors [vs]. *)
Definition refs_ok (m : gmap loc (SharedBuffer T)) vs : Prop :=
  forall l b, m !! l = Some b -> mRefs b = Z.of_nat (holders l vs) /\ (0 < holders l vs)%nat.

Lemma count1_None l v : mStorage v = None -> count1 l v = 0%nat.
Proof. intros E. unfold count1. case_decide; unfold holds_block in *; congruence. Qed.

Lemma count1_Some l v l' : mStorage v = Some l' -> count1 l v = (if decide (l = l') then 1 else 0)%nat.
Proof.
  intros E. unfold count1. repeat case_decide; unfold holds_block in *; congruence.
Qed.

(** Letting go of the storage of vector [i] is [drop_ref]. *)
Lemma refs_drop m vs i v v' :
  refs_ok m vs -> vs !! i = Some v -> mStorage v' = None ->
  refs_ok (drop_ref (mStorage v) m) (<[i := v']> vs).
Proof.
  intros Hr Hi Hv' l b Hl. rewrite (holders_update l vs i v v' Hi), (count1_None l v' Hv').
  destruct (decide (mStorage v = Some l)) as [Hs|Hs].
  - rewrite Hs in Hl. unfold drop_ref in Hl. destruct (m !! l) as [b0|] eqn:Hm; [|congruence].
    destruct (Hr l b0 Hm) as [Hc Hp]. rewrite (holders_split l vs i v Hi) in Hc.
    rewrite (count1_Some l v l Hs), decide_True in Hc by done.
    destruct (Z.eqb_spec (mRefs b0) 1); [by rewrite lookup_delete_eq in Hl|].
    rewrite lookup_insert_eq in Hl. injection Hl as <-. simpl. lia.
  - rewrite drop_ref_ne in Hl by done. destruct (Hr l b Hl) as [Hc Hp].
    rewrite (holders_split l vs i v Hi) in Hc, Hp.
    assert (count1 l v = 0%nat) as E by (unfold count1; by rewrite decide_False).
    rewrite E in Hc, Hp. done.
Qed.

(** Taking a fresh block of count one. *)
Lemma refs_take m vs i v l' b' :
  refs_ok m (<[i := with_storage v None]> vs) -> (i < length vs)%nat -> mRefs b' = 1 ->
  m !! l' = None -> (forall j vj, vs !! j = Some vj -> j <> i -> mStorage vj <> Some l') ->
  forall v', mStorage v' = Some l' -> refs_ok (<[l' := b']> m) (<[i := v']> vs).
Proof.
  intros Hr Hi H1 Hm Hj v' Hv' l b Hl. destruct (lookup_lt_is_Some_2 vs i Hi) as [v0 Hv0].
  rewrite (holders_update l vs i v0 v' Hv0), (count1_Some l v' l' Hv').
  destruct (decide (l = l')) as [->|Hne].
  - rewrite lookup_insert_eq in Hl. injection Hl as <-. rewrite H1.
    assert (holders l' (delete i vs) = 0%nat) as ->; [|lia].
    apply holders_none. intros vj Hin Hh. apply list_elem_of_lookup in Hin as [j Hlj].
    destruct (decide (j < i)%nat).
    + rewrite list_lookup_delete_lt in Hlj by done. apply (Hj j vj Hlj); [lia|done].
    + rewrite list_lookup_delete_ge in Hlj by lia. apply (Hj (S j) vj Hlj); [lia|done].
  - rewrite lookup_insert_ne in Hl by done. destruct (Hr l b Hl) as [Hc Hp].
    rewrite (holders_update l vs i v0 _ Hv0), count1_None in Hc, Hp by done. done.
Qed.

(** What another holder sees of its block when [v] lets go of its own. *)
Lemma drop_other m vs i v j vj lj b w :
  refs_ok m vs -> vs !! i = Some v -> vs !! j = Some vj -> j <> i -> mStorage vj = Some lj ->
  m !! lj = Some b -> buf_ok w b ->
  exists b', drop_ref (mStorage v) m !! lj = Some b' /\ buf_ok w b' /\ cells b' = cells b.
Proof.
  intros Hr Hi Hj Hne Hs Hb Hbo. destruct (decide (mStorage v = Some lj)) as [E|E].
  - rewrite E. unfold drop_ref. rewrite Hb. destruct (Hr _ _ Hb) as [Hc _].
    pose proof (holders_other lj vs i j v vj Hi Hj (not_eq_sym Hne) Hs) as Hlt.
    rewrite (count1_Some lj v lj E), decide_True in Hlt by done.
    destruct (Z.eqb_spec (mRefs b) 1); [lia|]. rewrite lookup_insert_eq. eexists. split; [done|].
    destruct Hbo as [? ? ?]. split; [|done]. split; simpl; [lia|done|done].
  - rewrite drop_ref_ne by done. by exists b.
Qed.

(** The blocks of the other vectors after a method of vector [i]. *)
Lemma transfer_other h h' vs i v s' j vj lj b w :
  refs_ok (bufs h) vs -> vs !! i = Some v -> transfer (mStorage v) h s' h' ->
  vs !! j = Some vj -> j <> i -> mStorage vj = Some lj -> bufs h !! lj = Some b -> buf_ok w b ->
  exists b', bufs h' !! lj = Some b' /\ buf_ok w b' /\ cells b' = cells b.
Proof.
  intros Hr Hi Ht Hj Hne Hs Hb Hbo.
  destruct (drop_other _ _ _ _ _ _ _ _ _ Hr Hi Hj Hne Hs Hb Hbo) as (b' & Hd & Hbo' & Hc).
  destruct Ht as [_ E _ _|_ E _ _|l' b2 _ Hm].
  - rewrite E. by exists b.
  - rewrite E. by exists b'.
  - rewrite (moved_bufs _ _ _ _ _ Hm), lookup_insert_ne; [by exists b'|].
    intros ->. rewrite (moved_fresh _ _ _ _ _ Hm) in Hd. done.
Qed.

Lemma transfer_refs h h' vs i v v' xss w f :
  world_ok w f (World h vs) xss -> vs !! i = Some v -> transfer (mStorage v) h (mStorage v') h' ->
  refs_ok (bufs h') (<[i := v']> vs).
Proof.
  intros [Hok Hvs _ Hr] Hi Ht. simpl in *. pose proof (lookup_lt_Some _ _ _ Hi) as Hlt.
  inversion Ht as [E Eb _ _|E Eb _ _|l' b' E Hm]; rewrite ?Eb.
  - intros l b Hl. rewrite (holders_update l vs i v v' Hi), (count1_storage l v' v E), <- holders_split by done.
    by apply Hr.
  - by apply refs_drop.
  - rewrite (moved_bufs _ _ _ _ _ Hm).
    apply (refs_take _ vs i v); try done; [by apply refs_drop|apply Hm|apply Hm|].
    intros j vj Hj Hne Hs. destruct (Forall2_lookup_l _ _ _ _ _ Hvs Hj) as (ys & _ & Hv).
    pose proof (vok_store _ _ _ Hv) as Hst. rewrite Hs in Hst. destruct Hst as (b & Hb & Hbo & _).
    destruct (drop_other _ _ _ _ _ _ _ _ _ Hr Hi Hj Hne Hs Hb Hbo) as (b2 & Hd & _ & _).
    rewrite (moved_fresh _ _ _ _ _ Hm) in Hd. done.
Qed.

(** A method of vector [i] leaves every other vector's items alone and the
    counts right. *)
Lemma world_frame w f h vs xss i v v' h' ys :
  world_ok w f (World h vs) xss -> vs !! i = Some v -> transfer (mStorage v) h (mStorage v') h' ->
  vec_ok h' v' (map Some ys) -> mFlags v' = mFlags v -> mItemSize v' = mItemSize v ->
  world_ok w f (World h' (<[i := v']> vs)) (<[i := ys]> xss).
Proof.
  intros Hw Hi Ht Hv Hf Hsz. pose proof Hw as [Hok Hvs Hk Hr]. simpl in *. split; simpl.
  - by eapply transfer_ok.
  - apply Forall2_same_length_lookup_2.
    { rewrite !length_insert. by eapply Forall2_length. }
    intros j vj zs Hj Hz. destruct (decide (j = i)) as [->|Hne].
    + rewrite list_lookup_insert_eq in Hj by (by eapply lookup_lt_Some).
      rewrite list_lookup_insert_eq in Hz
        by (rewrite <- (Forall2_length _ _ _ Hvs); by eapply lookup_lt_Some). congruence.
    + rewrite list_lookup_insert_ne in Hj by done. rewrite list_lookup_insert_ne in Hz by done.
      pose proof (Forall2_lookup_lr _ _ _ _ _ _ Hvs Hj Hz) as [H1 H2 H3 H4]. split; try done.
      destruct (mStorage vj) as [lj|] eqn:Hs; [|done]. destruct H4 as (b & Hb & Hbo & Hx).
      destruct (transfer_other _ _ _ _ _ _ _ _ _ _ _ Hr Hi Ht Hj Hne Hs Hb Hbo) as (b' & Hb' & Hbo' & Hc).
      exists b'. by rewrite Hc.
  - apply Forall_insert; [done|]. rewrite Forall_lookup in Hk. destruct (Hk i v Hi) as [<- <-]. done.
  - by eapply transfer_refs.
Qed.

End Frame.

(** ** Sharing: copy construction and assignment *)

Section Share.
Context {T : Type} {LU : LibUtils} {LL : LibUtilsLaws LU} {AL : Allocator}.
Context {IO : ItemOps T} {IL : ItemLaws IO}.
Implicit Types (h : heap T) (v : VectorImpl) (vs : list VectorImpl) (wd : world T).

(** One more reference to the block [b] at [l]. *)
Definition acquired h (l : loc) (b : SharedBuffer T) : heap T :=
  Heap (<[l := SB (mRefs b + 1) (mSize b) (cells b)]> (bufs h)) (next h).

Lemma refs_acquire h vs vs' l b :
  refs_ok (bufs h) vs -> bufs h !! l = Some b ->
  (forall l', holders l' vs' = (holders l' vs + if decide (l' = l) then 1 else 0)%nat) ->
  refs_ok (bufs (acquired h l b)) vs'.
Proof.
  intros Hr Hl Hh l' b' Hl'. rewrite Hh. simpl in Hl'. case_decide as E.
  - subst l'. rewrite lookup_insert_eq in Hl'. injection Hl' as <-. destruct (Hr _ _ Hl). simpl. lia.
  - rewrite lookup_insert_ne in Hl' by done. rewrite Nat.add_0_r. by apply Hr.
Qed.

Lemma vec_ok_acquired h l b v xs :
  vec_ok h v xs -> bufs h !! l = Some b -> mRefs b < 2 ^ 31 - 1 -> vec_ok (acquired h l b) v xs.
Proof.
  intros [H1 H2 H3 H4] Hl Hb. split; try done. destruct (mStorage v) as [l'|]; [|done].
  destruct H4 as (b' & Hb' & Hbo & Hx). simpl. destruct (decide (l = l')) as [->|Hne].
  - assert (b' = b) as -> by congruence. rewrite lookup_insert_eq. eexists. split; [done|].
    destruct Hbo. split; [|done]. split; simpl; [lia|done|done].
  - rewrite lookup_insert_ne by done. by exists b'.
Qed.

Lemma heap_ok_acquired h l b : heap_ok h -> bufs h !! l = Some b -> heap_ok (acquired h l b).
Proof.
  intros Hok Hl l' Hl'. simpl in *. pose proof (heap_ok_lt _ _ _ Hok Hl).
  rewrite lookup_insert_ne by lia. by apply Hok.
Qed.

(** A vector [v'] with the fields of vector [j], in a place [vs'] that did
    not hold [j]'s block. *)
Lemma world_share w f h vs xss j vj l b vs' xss' :
  world_ok w f (World h vs) xss -> vs !! j = Some vj -> mStorage vj = Some l -> bufs h !! l = Some b ->
  mRefs b < 2 ^ 31 - 1 ->
  (forall l', holders l' vs' = (holders l' vs + if decide (l' = l) then 1 else 0)%nat) ->
  Forall2 (fun v xs => vec_ok h v (map Some xs)) vs' xss' ->
  Forall (fun v => mItemSize v = w /\ mFlags v = f) vs' ->
  world_ok w f (World (acquired h l b) vs') xss'.
Proof.
  intros [Hok Hvs Hk Hr] Hj Hs Hb Hlt Hh Hvs' Hk'. simpl in *. split; simpl.
  - by apply heap_ok_acquired.
  - eapply Forall2_impl; [exact Hvs'|]. intros v xs Hv. by apply vec_ok_acquired.
  - done.
  - by eapply refs_acquire.
Qed.

Lemma holders_le l vs : (holders l vs <= length vs)%nat.
Proof. unfold holders. apply length_filter. Qed.

Lemma world_lookup w f h vs xss i xs :
  world_ok w f (World h vs) xss -> xss !! i = Some xs ->
  exists v, vs !! i = Some v /\ vec_ok h v (map Some xs) /\ mItemSize v = w /\ mFlags v = f.
Proof.
  intros [Hok Hvs Hk Hr] Hi. destruct (Forall2_lookup_r _ _ _ _ _ Hvs Hi) as (v & Hv & Hok').
  exists v. split; [done|]. split; [done|]. rewrite Forall_lookup in Hk. by eapply Hk.
Qed.

(** The block of vector [j] and the room left in its count. *)
Lemma world_block w f h vs xss j v l :
  world_ok w f (World h vs) xss -> vs !! j = Some v -> mStorage v = Some l ->
  Z.of_nat (length xss) < 2 ^ 31 - 1 ->
  exists b, bufs h !! l = Some b /\ 1 <= mRefs b < 2 ^ 31 - 1.
Proof.
  intros [Hok Hvs Hk Hr] Hj Hs Hlt. simpl in *.
  destruct (Forall2_lookup_l _ _ _ _ _ Hvs Hj) as (xs & _ & Hv).
  destruct (vec_block _ _ _ _ Hv Hs) as [b Hb]. exists b. split; [done|].
  destruct (Hr _ _ Hb) as [-> Hp]. pose proof (holders_le l vs). apply Forall2_length in Hvs. lia.
Qed.

Lemma copy_vec_holds w f h vs xss j xs Ab :
  world_ok w f (World h vs) xss -> xss !! j = Some xs -> Z.of_nat (length xss) < 2 ^ 31 - 1 ->
  holds (copy_vec j) (World h vs)
    (fun r wd' => r = Z.of_nat (length xss) /\ world_ok w f wd' (xss ++ [xs])) Ab.
Proof.
  intros Hw Hj Hlt. destruct (world_lookup _ _ _ _ _ _ _ Hw Hj) as (v & Hv & Hvo & Hk).
  pose proof Hw as [Hok Hvs Hkd Hr]. simpl in *. unfold holds, copy_vec. simpl. rewrite Hv.
  unfold copy_construct. destruct (mStorage v) as [l|] eqn:Hs.
  - destruct (world_block _ _ _ _ _ _ _ _ Hw Hv Hs Hlt) as (b & Hb & Hbr).
    unfold mbind, M_bind. rewrite (acquire_run _ _ _ Hb) by lia. simpl.
    split; [by rewrite (Forall2_length _ _ _ Hvs)|].
    eapply (world_share w f h vs xss j v l b); try done; [lia| | |].
    + intros l'. rewrite holders_app, holders_cons, (count1_Some l' v l Hs). unfold holders at 2. simpl. lia.
    + apply Forall2_app; [done|constructor; [done|constructor]].
    + apply Forall_app. split; [done|constructor; [done|constructor]].
  - simpl. split; [by rewrite (Forall2_length _ _ _ Hvs)|]. split; simpl; [done| | |].
    + apply Forall2_app; [done|constructor; [done|constructor]].
    + apply Forall_app. split; [done|constructor; [done|constructor]].
    + intros l b Hl. rewrite holders_app, holders_cons, (count1_None l v Hs), Nat.add_0_r. by apply Hr.
Qed.

Lemma assign_holds w f h vs xss i j xs ys Ab :
  world_ok w f (World h vs) xss -> xss !! i = Some xs -> xss !! j = Some ys ->
  Z.of_nat (length xss) < 2 ^ 31 - 1 ->
  holds (rhs ← vec j; on_vec i (assign (bool_decide (i = j)) rhs);; mret 0) (World h vs)
    (fun r wd' => r = 0 /\ world_ok w f wd' (<[i := ys]> xss)) Ab.
Proof.
  intros Hw Hi Hj Hlt. destruct (world_lookup _ _ _ _ _ _ _ Hw Hi) as (v & Hv & Hvo & Hvw & Hvf).
  destruct (world_lookup _ _ _ _ _ _ _ Hw Hj) as (u & Hu & Huo & Huw & Huf).
  eapply holds_run; [unfold vec; simpl; by rewrite Hu|].
  unfold holds, mbind at 1, M_bind at 1, on_vec. simpl. rewrite Hv.
  unfold assign. rewrite (bind_run _ _ _ _ _ (self_run h v)), Hvw, Huw, Z.eqb_refl. simpl.
  case_bool_decide as Eij.
  { subst j. assert (ys = xs) as -> by congruence. simpl. split; [done|].
    by rewrite !list_insert_id by done. }
  rewrite (bind_run _ _ _ _ _ (release_storage_run _ _ _ Hvo)).
  set (v0 := with_count (with_storage v None) 0).
  set (h0 := Heap (drop_ref (mStorage v) (bufs h)) (next h)).
  assert (Hw0 : world_ok w f (World h0 (<[i := v0]> vs)) (<[i := []]> xss)).
  { eapply world_frame; [exact Hw|done| |split; simpl; [apply Hvo|done|by right|done]|done|done].
    apply tr_drop; simpl; try done. intros l Hl. simpl in *. by apply drop_ref_None, Hw. }
  pose proof (vok_count _ _ _ Huo) as Hcnt. rewrite length_map in Hcnt.
  pose proof (lookup_lt_Some _ _ _ Hv) as Hil. pose proof (lookup_lt_Some _ _ _ Hi) as Hil'.
  destruct (Z.eqb_spec (mCount u) 0) as [H0|H0]; simpl.
  { split; [done|]. assert (ys = []) as -> by (destruct ys; [done|simpl in *; lia]). exact Hw0. }
  pose proof (vok_store _ _ _ Huo) as Hst. destruct (mStorage u) as [l|] eqn:Hus.
  2: { destruct ys; [simpl in *; lia|done]. }
  assert (Huj : (<[i := v0]> vs) !! j = Some u) by (by rewrite list_lookup_insert_ne).
  destruct (world_block _ _ _ _ _ _ _ _ Hw0 Huj Hus) as (b & Hb & Hbr); [by rewrite length_insert|].
  erewrite bind_run by done. erewrite bind_run by done. cbn [set_storage set_count vheap this mFlags mItemSize mStorage].
  rewrite (on_heap_run _ _ _ _ _ (acquire_run h0 l b Hb ltac:(lia))). simpl. split; [done|].
  pose proof Hw0 as [_ Hvs0 Hk0 _]. simpl in Hvs0, Hk0.
  assert (Huo' : vec_ok h0 (VI (Some l) (mCount u) (mFlags v) (mItemSize v)) (map Some ys)).
  { destruct (world_lookup _ _ _ _ _ j ys Hw0) as (u' & Hu' & [? ? ? ?] & _); [by rewrite list_lookup_insert_ne|].
    assert (u' = u) as -> by congruence. rewrite Hus in *. split; simpl; try done; [by rewrite Hvw, <- Huw| |].
    - unfold copyable, has_flag in *. simpl. by rewrite Hvf, <- Huf.
    - by rewrite Hvw, <- Huw. }
  eapply (world_share w f h0 _ _ j u l b); [exact Hw0|done|done|done|lia| | |].
  - intros l'. rewrite (holders_update l' vs i v _ Hv), (holders_update l' vs i v v0 Hv).
    rewrite (count1_None l' v0), (count1_Some l' _ l) by done. lia.
  - rewrite <- (list_insert_insert_eq vs i _ v0), <- (list_insert_insert_eq xss i ys []).
    by apply Forall2_insert.
  - rewrite <- (list_insert_insert_eq vs i _ v0). by apply Forall_insert.
Qed.

End Share.

(** ** The abstract machine: a list of lists *)

Section Refinement.
Context {T : Type} {LU : LibUtils} {LL : LibUtilsLaws LU} {AL : Allocator}.
Context {IO : ItemOps T} {IL : ItemLaws IO}.
Implicit Types (xs ys : list T) (xss : list (list T)) (op : vop T).

Definition linsert (index : Z) ys xs : list T :=
  take (Z.to_nat index) xs ++ ys ++ drop (Z.to_nat index) xs.
Definition lremove (index n : Z) xs : list T :=
  take (Z.to_nat index) xs ++ drop (Z.to_nat (index + n)) xs.

(** One list [xs] becomes [ys], and the call returns [r]. *)
Definition insert_rel (index : Z) (zs : list T) xs (r : Z) ys : Prop :=
  if Z.of_nat (length xs) <? index then r = BAD_INDEX /\ ys = xs else
  r = s32 index /\ ys = linsert index zs xs \/ r = NO_MEMORY /\ ys = xs /\ (oom \/ zs = []).

Definition remove_rel (index n : Z) xs (r : Z) ys : Prop :=
  if Z.of_nat (length xs) <? index + n then r = BAD_VALUE /\ ys = xs else
  r = s32 index /\ (ys = lremove index n xs \/ ys = xs /\ oom).

(** The list [i] steps by [R]; the others stay. *)
Definition at_list (i : nat) (R : list T -> Z -> list T -> Prop) xss (r : Z) xss' : Prop :=
  exists xs ys, xss !! i = Some xs /\ R xs r ys /\ xss' = <[i := ys]> xss.

Definition vop_spec op xss (r : Z) xss' : Prop :=
  match op with
  | OpInsertArray i zs index => at_list i (insert_rel index zs) xss r xss'
  | OpInsertVector i j index => exists zs, xss !! j = Some zs /\ at_list i (insert_rel index zs) xss r xss'
  | OpInsertAt i x index n => at_list i (insert_rel index (replicate (Z.to_nat n) x)) xss r xss'
  | OpReplaceAt i x index => at_list i (fun xs r ys =>
      if Z.of_nat (length xs) <=? index then r = BAD_INDEX /\ ys = xs
      else r = s32 index /\ ys = <[Z.to_nat index := x]> xs) xss r xss'
  | OpRemove i index n => at_list i (remove_rel index n) xss r xss'
  | OpPop i => at_list i (fun xs r ys => r = 0 /\ (ys = take (length xs - 1) xs \/ ys = xs /\ oom)) xss r xss'
  | OpClear i => at_list i (fun xs r ys => r = 0 /\ (ys = [] \/ ys = xs /\ oom)) xss r xss'
  | OpSetCapacity i c => at_list i (fun xs r ys => ys = xs) xss r xss'
  | OpSort i cmp => at_list i (fun xs r ys =>
      r = NO_ERROR /\ ys = isort cmp xs \/ r = NO_MEMORY /\ ys = xs /\ oom) xss r xss'
  | OpAssign i j => exists ys, xss !! j = Some ys /\ at_list i (fun _ r zs => r = 0 /\ zs = ys) xss r xss'
  | OpCopy j => exists ys, xss !! j = Some ys /\ r = Z.of_nat (length xss) /\ xss' = xss ++ [ys]
  | OpFinish i => at_list i (fun _ r ys => r = 0 /\ ys = []) xss r xss'
  end.

(** What a client has to guarantee: the vectors exist, a vector is not
    inserted into itself, sizes fit [size_t], and fewer than 2^31 vectors. *)
Definition vop_pre op xss : Prop :=
  match op with
  | OpInsertArray i zs index => (i < length xss)%nat /\ 0 <= index /\ Z.of_nat (length zs) <= SIZE_MAX
  | OpInsertVector i j index => (i < length xss)%nat /\ (j < length xss)%nat /\ i <> j /\ 0 <= index
  | OpInsertAt i _ index n => (i < length xss)%nat /\ 0 <= index /\ 0 <= n <= SIZE_MAX
  | OpReplaceAt i _ index => (i < length xss)%nat /\ 0 <= index
  | OpRemove i index n => (i < length xss)%nat /\ 0 <= index /\ 0 <= n /\ index + n < 2 ^ 32
  | OpSetCapacity i c => (i < length xss)%nat /\ 0 <= c <= SIZE_MAX
  | OpSort i _ => exists xs, xss !! i = Some xs /\ Z.of_nat (length xs) < 2 ^ 31
  | OpAssign i j => (i < length xss)%nat /\ (j < length xss)%nat /\ Z.of_nat (length xss) < 2 ^ 31 - 1
  | OpCopy j => (j < length xss)%nat /\ Z.of_nat (length xss) < 2 ^ 31 - 1
  | OpPop i | OpClear i | OpFinish i => (i < length xss)%nat
  end.

(** Requests too large for the address space; items have [w] bytes. *)
Definition too_large (bytes : Z) : Prop := SIZE_MAX - sizeof_SharedBuffer <= bytes.

Definition grow_bytes (w n : Z) : Z := Z.max kMinVectorCapacity (n + n / 2 + 1) * w.

Definition vop_overflow (w : Z) op xss : Prop :=
  match op with
  | OpInsertArray i zs _ => exists xs, xss !! i = Some xs /\
      too_large (grow_bytes w (Z.of_nat (length xs) + Z.of_nat (length zs)))
  | OpInsertVector i j _ => exists xs zs, xss !! i = Some xs /\ xss !! j = Some zs /\
      too_large (grow_bytes w (Z.of_nat (length xs) + Z.of_nat (length zs)))
  | OpInsertAt i _ _ n => exists xs, xss !! i = Some xs /\
      too_large (grow_bytes w (Z.of_nat (length xs) + n))
  | OpSetCapacity i c => too_large (c * w)
  | OpRemove _ _ _ | OpPop _ | OpClear _ => too_large (u32 (4 * w))
  | _ => False
  end.

(** A method whose postcondition names the new list of vector [i]. *)
Lemma on_vec_holds w f h vs xss i v xs (m : M (vstate T) Z) P (R : list T -> Z -> list T -> Prop) Ab :
  world_ok w f (World h vs) xss -> xss !! i = Some xs -> vs !! i = Some v ->
  holds m (VS h v) P Ab ->
  (forall r s', P r s' -> exists ys, R xs r ys /\ method_post h v (fun zs => zs = map Some ys) s') ->
  holds (on_vec i m) (World h vs)
    (fun r wd' => exists xss', at_list i R xss r xss' /\ world_ok w f wd' xss') Ab.
Proof.
  intros Hw Hi Hv Hm HP. unfold holds, on_vec in *. simpl. rewrite Hv.
  destruct (m (VS h v)) as [[r s']| |]; [|done|done].
  destruct (HP r s' Hm) as (ys & HR & zs & -> & Ht & Hvo & Hf & Hs).
  exists (<[i := ys]> xss). split; [by exists xs, ys|]. by eapply world_frame.
Qed.

Lemma post_same h v xs s' : s' = VS h v -> vec_ok h v (map Some xs) -> heap_ok h ->
  method_post h v (fun zs => zs = map Some xs) s'.
Proof. intros -> Hv Hok. eapply unchanged_post; [done|done|by exists h|done]. Qed.

Lemma post_cases h v (Q1 Q2 : list (slot T) -> Prop) s' :
  method_post h v (fun zs => Q1 zs \/ Q2 zs) s' -> method_post h v Q1 s' \/ method_post h v Q2 s'.
Proof. intros (zs & [H|H] & Hr); [left|right]; by exists zs. Qed.

Lemma post_mono h v (Q1 Q2 : list (slot T) -> Prop) s' :
  method_post h v Q1 s' -> (forall zs, Q1 zs -> Q2 zs) -> method_post h v Q2 s'.
Proof. intros (zs & H & Hr) HQ. exists zs. auto. Qed.

Lemma map_inserted index xs ys : inserted (map Some xs) index (map Some ys) = map Some (linsert index ys xs).
Proof. unfold inserted, linsert. by rewrite !map_app, fmap_take, fmap_drop. Qed.

Lemma map_removed index n xs : removed (map Some xs) index n = map Some (lremove index n xs).
Proof. unfold removed, lremove. by rewrite map_app, fmap_take, fmap_drop. Qed.

Lemma on_vec_unit i (m : M (vstate T) unit) wd :
  (on_vec i m;; mret 0) wd = on_vec i (m;; mret 0) wd.
Proof.
  unfold mbind, M_bind, on_vec. destruct (vecs wd !! i); [|done].
  by destruct (m _) as [[? ?]| |].
Qed.

Lemma on_vec_unit_holds w f h vs xss i v xs (m : M (vstate T) unit) (R : list T -> list T -> Prop) Ab :
  world_ok w f (World h vs) xss -> xss !! i = Some xs -> vs !! i = Some v ->
  holds m (VS h v) (fun _ s' => exists ys, R xs ys /\ method_post h v (fun us => us = map Some ys) s') Ab ->
  holds (on_vec i m;; mret 0) (World h vs)
    (fun r wd' => exists xss', at_list i (fun xs r ys => r = 0 /\ R xs ys) xss r xss' /\ world_ok w f wd' xss') Ab.
Proof.
  intros Hw Hx Hv Hm. unfold holds. rewrite on_vec_unit.
  eapply (on_vec_holds w f h vs xss i v xs (m;; mret 0) (fun r s' => r = 0 /\ exists ys, R xs ys /\
    method_post h v (fun us => us = map Some ys) s')); [done|done|done| |].
  - eapply holds_bind; [exact Hm|]. intros [] s' Hp. by apply holds_ret.
  - intros r s' (-> & ys & HR & Hp). by exists ys.
Qed.

Lemma insert_post_rel h v xs index n zs r s' :
  vec_ok h v (map Some xs) -> heap_ok h -> (n = 0 -> zs = []) ->
  insert_post h v (map Some xs) index n (fun us => us = inserted (map Some xs) index (map Some zs)) r s' ->
  exists ys, insert_rel index zs xs r ys /\ method_post h v (fun us => us = map Some ys) s'.
Proof.
  intros Hv Hok Hz. pose proof (vok_count _ _ _ Hv) as Hc. rewrite length_map in Hc.
  unfold insert_post, insert_rel. rewrite Hc, map_inserted. case_match.
  - intros [-> ->]. exists xs. split; [done|]. by apply post_same.
  - intros [[-> Hp]|(-> & Hp & Hn)].
    + exists (linsert index zs xs). split; [by left|done].
    + exists xs. split; [|done]. right. split; [done|]. split; [done|]. destruct Hn; [by left|right; auto].
Qed.

Lemma remove_post_rel h v xs index n s' :
  method_post h v (fun us => us = removed (map Some xs) index n \/ us = map Some xs /\ oom) s' ->
  exists ys, (ys = lremove index n xs \/ ys = xs /\ oom) /\ method_post h v (fun us => us = map Some ys) s'.
Proof.
  intros [Hp|Hp]%post_cases.
  - exists (lremove index n xs). split; [by left|]. by rewrite <- map_removed.
  - exists xs. pose proof Hp as (zs & [_ Ho] & _). split; [by right|]. eapply post_mono; [exact Hp|]. by intros ? [-> _].
Qed.

(** The storage of another vector is a readable source for an insertion. *)
Lemma other_source w f h vs xss i j v u zs :
  world_ok w f (World h vs) xss -> vs !! i = Some v -> vs !! j = Some u -> i <> j ->
  vec_ok h u (map Some zs) ->
  source_ok h v (ptr_of (mStorage u) 0) (Z.to_nat (mCount u)) (map Some zs).
Proof.
  intros [Hok Hvs Hk Hr] Hi Hj Hne Hu. simpl in *. pose proof (vok_count _ _ _ Hu) as Hc.
  split; [lia|]. pose proof (vok_store _ _ _ Hu) as Hst. destruct (mStorage u) as [l|] eqn:Hs; simpl.
  - destruct Hst as (b & Hb & Hbo & Hx). exists b. rewrite Hc, Nat2Z.id. split; [done|].
    split; [by eapply take_short|]. split; [done|]. intros Hvs1.
    destruct (Hr _ _ Hb) as [-> _]. pose proof (holders_other l vs i j v u Hi Hj Hne Hs) as Hlt.
    rewrite (count1_Some l v l Hvs1), decide_True in Hlt by done. lia.
  - rewrite Hst in Hc. simpl in Hc. lia.
Qed.

(** Items given to an insertion may be copied. *)
Lemma copyable_items v xs : copyable v (map Some xs).
Proof. right. apply Forall_map, Forall_true. intros x. by exists x. Qed.

Lemma ext_source h v xs n : n = length xs -> source_ok h v (PExt (map Some xs)) n (map Some xs).
Proof.
  intros ->. split; [apply length_map|]. rewrite length_map. split; [done|].
  apply take_ge. by rewrite length_map.
Qed.

Lemma grow_overflow_bytes v w n : mItemSize v = w -> grow_overflow v n -> too_large (grow_bytes w n).
Proof. by intros <-. Qed.

(** Running [op] in [wd] does not fault, and its result and the lists it
    leaves are those of the abstract machine. *)
Definition op_refines w f op wd xss : Prop :=
  holds (run_op op) wd (fun r wd' => exists xss', vop_spec op xss r xss' /\ world_ok w f wd' xss')
    (oom \/ vop_overflow w op xss).

Lemma insertArray_refines w f h vs xss i zs index :
  world_ok w f (World h vs) xss -> vop_pre (OpInsertArray i zs index) xss ->
  op_refines w f (OpInsertArray i zs index) (World h vs) xss.
Proof.
  intros Hw (Hi & Hidx & Hn). destruct (lookup_lt_is_Some_2 _ _ Hi) as [xs Hx].
  destruct (world_lookup _ _ _ _ _ _ _ Hw Hx) as (v & Hv & Hvo & Hvw & _). pose proof Hw as [Hok _ _ _].
  pose proof (vok_count _ _ _ Hvo) as Hc. rewrite length_map in Hc.
  eapply on_vec_holds; [exact Hw|exact Hx|exact Hv| |].
  - eapply holds_mono; [apply (insertArrayAt_holds h v (map Some xs) _ _ _ (map Some zs)); try done;
      [lia|apply ext_source; lia|apply copyable_items]|intros ? ? H'; exact H'|].
    intros [?|Ho]; [by left|right]. exists xs. split; [done|]. rewrite <- Hc. by eapply grow_overflow_bytes.
  - intros r s' Hp. eapply insert_post_rel; [done|done| |exact Hp]. destruct zs; simpl; [done|lia].
Qed.

Lemma insertVector_refines w f h vs xss i j index :
  world_ok w f (World h vs) xss -> vop_pre (OpInsertVector i j index) xss ->
  op_refines w f (OpInsertVector i j index) (World h vs) xss.
Proof.
  intros Hw (Hi & Hj & Hne & Hidx). destruct (lookup_lt_is_Some_2 _ _ Hi) as [xs Hx].
  destruct (lookup_lt_is_Some_2 _ _ Hj) as [zs Hz].
  destruct (world_lookup _ _ _ _ _ _ _ Hw Hx) as (v & Hv & Hvo & Hvw & _). pose proof Hw as [Hok _ _ _].
  destruct (world_lookup _ _ _ _ _ _ _ Hw Hz) as (u & Hu & Huo & Huw & _).
  pose proof (vok_count _ _ _ Hvo) as Hc. pose proof (vok_count _ _ _ Huo) as Hcu. rewrite length_map in Hc, Hcu.
  eapply holds_run; [unfold vec; simpl; by rewrite Hu|]. unfold insertVectorAt.
  eapply holds_mono; [eapply (on_vec_holds w f h vs xss i v xs _ _ (insert_rel index zs)); [done|done|done| |]| |].
  - apply (insertArrayAt_holds h v (map Some xs) _ _ _ (map Some zs)); try done;
      [by eapply vec_count_bound|by eapply other_source|apply copyable_items].
  - intros r s' Hp. eapply insert_post_rel; [done|done| |exact Hp]. destruct zs; simpl in *; [done|lia].
  - intros r wd' (xss' & Hr & Hw'). exists xss'. split; [by exists zs|done].
  - intros [?|Ho]; [by left|right]. exists xs, zs. split; [done|]. split; [done|].
    rewrite <- Hc, <- Hcu. exact (grow_overflow_bytes _ _ _ Hvw Ho).
Qed.

Lemma insertAt_refines w f h vs xss i x index n :
  world_ok w f (World h vs) xss -> vop_pre (OpInsertAt i x index n) xss ->
  op_refines w f (OpInsertAt i x index n) (World h vs) xss.
Proof.
  intros Hw (Hi & Hidx & Hn). destruct (lookup_lt_is_Some_2 _ _ Hi) as [xs Hx].
  destruct (world_lookup _ _ _ _ _ _ _ Hw Hx) as (v & Hv & Hvo & Hvw & _). pose proof Hw as [Hok _ _ _].
  pose proof (vok_count _ _ _ Hvo) as Hc. rewrite length_map in Hc.
  eapply on_vec_holds; [exact Hw|exact Hx|exact Hv| |].
  - eapply holds_mono; [apply (insertAt_holds h v (map Some xs) _ _ _ x); try done; by apply (ext_source h v [x])|intros ? ? H'; exact H'|].
    intros [?|Ho]; [by left|right]. exists xs. split; [done|]. rewrite <- Hc. by eapply grow_overflow_bytes.
  - intros r s' Hp. eapply insert_post_rel; [done|done| |]; cycle 1.
    + rewrite fmap_replicate. exact Hp.
    + by intros ->.
Qed.

Lemma replaceAt_refines w f h vs xss i x index :
  world_ok w f (World h vs) xss -> vop_pre (OpReplaceAt i x index) xss ->
  op_refines w f (OpReplaceAt i x index) (World h vs) xss.
Proof.
  intros Hw (Hi & Hidx). destruct (lookup_lt_is_Some_2 _ _ Hi) as [xs Hx].
  destruct (world_lookup _ _ _ _ _ _ _ Hw Hx) as (v & Hv & Hvo & _). pose proof Hw as [Hok _ _ _].
  pose proof (vok_count _ _ _ Hvo) as Hc. rewrite length_map in Hc.
  eapply on_vec_holds; [exact Hw|exact Hx|exact Hv| |].
  - eapply holds_mono; [apply (replaceAt_holds h v (map Some xs) _ _ x); try done; by apply (ext_source h v [x])|intros ? ? H'; exact H'|by left].
  - cbv beta. rewrite Hc. intros r s' Hp. case_match.
    + destruct Hp as [-> ->]. exists xs. split; [done|]. by apply post_same.
    + destruct Hp as [-> Hp]. eexists. split; [done|]. by rewrite list_fmap_insert.
Qed.

Lemma removeItemsAt_refines w f h vs xss i index n :
  world_ok w f (World h vs) xss -> vop_pre (OpRemove i index n) xss ->
  op_refines w f (OpRemove i index n) (World h vs) xss.
Proof.
  intros Hw (Hi & Hidx & Hn & Hmax). destruct (lookup_lt_is_Some_2 _ _ Hi) as [xs Hx].
  destruct (world_lookup _ _ _ _ _ _ _ Hw Hx) as (v & Hv & Hvo & Hvw & _). pose proof Hw as [Hok _ _ _].
  pose proof (vok_count _ _ _ Hvo) as Hc. rewrite length_map in Hc.
  eapply on_vec_holds; [exact Hw|exact Hx|exact Hv| |].
  - eapply holds_mono; [by apply (removeItemsAt_holds h v (map Some xs))|intros ? ? H'; exact H'|by rewrite Hvw].
  - cbv beta. rewrite Hc. intros r s' Hp. unfold remove_rel. case_match.
    + destruct Hp as [-> ->]. exists xs. split; [done|]. by apply post_same.
    + destruct Hp as [-> (ys & Hy & Hp)%remove_post_rel]. by exists ys.
Qed.

Lemma pop_refines w f h vs xss i :
  world_ok w f (World h vs) xss -> vop_pre (OpPop i) xss -> op_refines w f (OpPop i) (World h vs) xss.
Proof.
  intros Hw Hi. destruct (lookup_lt_is_Some_2 _ _ Hi) as [xs Hx].
  destruct (world_lookup _ _ _ _ _ _ _ Hw Hx) as (v & Hv & Hvo & Hvw & _). pose proof Hw as [Hok _ _ _].
  pose proof (vok_count _ _ _ Hvo) as Hc. rewrite length_map in Hc.
  pose proof (vec_count_bound _ _ _ Hvo) as Hb.
  apply (on_vec_unit_holds w f h vs xss i v xs pop
    (fun xs ys => ys = take (length xs - 1) xs \/ ys = xs /\ oom)); [done|done|done|].
  unfold pop. eapply holds_run; [apply size_run|]. destruct (Z.eqb_spec (mCount v) 0) as [E|E]; simpl.
  - apply holds_ret. exists xs. split; [left; by destruct xs; [|simpl in *; lia]|]. by apply post_same.
  - rewrite u32_small by (unfold SIZE_MAX in *; lia). eapply holds_bind.
    + eapply holds_mono; [apply (removeItemsAt_holds h v (map Some xs)); try done; unfold SIZE_MAX in *; lia|
        intros ? ? H'; exact H'|by rewrite Hvw].
    + intros r s' Hp. apply holds_ret. destruct (Z.ltb_spec (mCount v) (mCount v - 1 + 1)); [lia|].
      destruct Hp as [_ (ys & Hy & Hp)%remove_post_rel]. exists ys. split; [|done].
      destruct Hy as [->|?]; [left|by right]. unfold lremove. rewrite drop_ge, app_nil_r by lia. f_equal. lia.
Qed.

Lemma clear_refines w f h vs xss i :
  world_ok w f (World h vs) xss -> vop_pre (OpClear i) xss -> op_refines w f (OpClear i) (World h vs) xss.
Proof.
  intros Hw Hi. destruct (lookup_lt_is_Some_2 _ _ Hi) as [xs Hx].
  destruct (world_lookup _ _ _ _ _ _ _ Hw Hx) as (v & Hv & Hvo & Hvw & _). pose proof Hw as [Hok _ _ _].
  apply (on_vec_unit_holds w f h vs xss i v xs clear (fun xs ys => ys = [] \/ ys = xs /\ oom)); [done|done|done|].
  eapply holds_mono; [by apply (clear_holds h v (map Some xs))| |by rewrite Hvw].
  intros _ s' [Hp|Hp]%post_cases; [exists []; by split; [left|]|]. exists xs.
  pose proof Hp as (zs & [_ Ho] & _). split; [by right|]. eapply post_mono; [exact Hp|]. by intros ? [-> _].
Qed.

Lemma finish_refines w f h vs xss i :
  world_ok w f (World h vs) xss -> vop_pre (OpFinish i) xss -> op_refines w f (OpFinish i) (World h vs) xss.
Proof.
  intros Hw Hi. destruct (lookup_lt_is_Some_2 _ _ Hi) as [xs Hx].
  destruct (world_lookup _ _ _ _ _ _ _ Hw Hx) as (v & Hv & Hvo & Hvw & _). pose proof Hw as [Hok _ _ _].
  apply (on_vec_unit_holds w f h vs xss i v xs finish_vector (fun xs ys => ys = [])); [done|done|done|].
  eapply holds_mono; [by apply (finish_vector_holds h v (map Some xs) False)| |done].
  intros _ s' [_ Hp]. by exists [].
Qed.

Lemma setCapacity_refines w f h vs xss i c :
  world_ok w f (World h vs) xss -> vop_pre (OpSetCapacity i c) xss ->
  op_refines w f (OpSetCapacity i c) (World h vs) xss.
Proof.
  intros Hw (Hi & Hc). destruct (lookup_lt_is_Some_2 _ _ Hi) as [xs Hx].
  destruct (world_lookup _ _ _ _ _ _ _ Hw Hx) as (v & Hv & Hvo & Hvw & _). pose proof Hw as [Hok _ _ _].
  eapply on_vec_holds; [exact Hw|exact Hx|exact Hv| |].
  - eapply holds_mono; [by apply (setCapacity_holds h v (map Some xs))|intros ? ? H'; exact H'|by rewrite Hvw].
  - intros r s' [Hp _]. by exists xs.
Qed.

Lemma sort_refines w f h vs xss i cmp :
  world_ok w f (World h vs) xss -> vop_pre (OpSort i cmp) xss ->
  op_refines w f (OpSort i cmp) (World h vs) xss.
Proof.
  intros Hw (xs & Hx & Hlt).
  destruct (world_lookup _ _ _ _ _ _ _ Hw Hx) as (v & Hv & Hvo & Hvw & _). pose proof Hw as [Hok _ _ _].
  eapply on_vec_holds; [exact Hw|exact Hx|exact Hv| |].
  - eapply holds_mono; [by apply (sort_holds cmp h v xs)|intros ? ? H'; exact H'|by left].
  - intros r s' [[-> Hp]|(-> & Hp & Ho)]; eexists; (split; [|exact Hp]); [by left|by right].
Qed.

Lemma assign_refines w f h vs xss i j :
  world_ok w f (World h vs) xss -> vop_pre (OpAssign i j) xss ->
  op_refines w f (OpAssign i j) (World h vs) xss.
Proof.
  intros Hw (Hi & Hj & Hlt). destruct (lookup_lt_is_Some_2 _ _ Hi) as [xs Hx].
  destruct (lookup_lt_is_Some_2 _ _ Hj) as [ys Hy].
  eapply holds_mono; [by apply (assign_holds w f h vs xss i j xs ys)| |done].
  intros r wd' [-> Hw']. exists (<[i := ys]> xss). split; [|done]. exists ys. split; [done|]. by exists xs, ys.
Qed.

Lemma copy_refines w f h vs xss j :
  world_ok w f (World h vs) xss -> vop_pre (OpCopy j) xss -> op_refines w f (OpCopy j) (World h vs) xss.
Proof.
  intros Hw (Hj & Hlt). destruct (lookup_lt_is_Some_2 _ _ Hj) as [ys Hy].
  eapply holds_mono; [by apply (copy_vec_holds w f h vs xss j ys)| |done].
  intros r wd' [-> Hw']. exists (xss ++ [ys]). split; [by exists ys|done].
Qed.

#[local] Hint Resolve insertArray_refines insertVector_refines insertAt_refines replaceAt_refines
  removeItemsAt_refines pop_refines clear_refines finish_refines setCapacity_refines sort_refines
  assign_refines copy_refines : run.

Lemma run_op_refines w f op wd xss :
  world_ok w f wd xss -> vop_pre op xss -> op_refines w f op wd xss.
Proof. destruct wd. destruct op; eauto with run. Qed.

(** ** Sequences of calls *)

(** The abstract machine's run, and what it asks of a client at each step. *)
Inductive spec_run : list (list T) -> list (vop T) -> list Z -> list (list T) -> Prop :=
| run_nil xss : spec_run xss [] [] xss
| run_cons xss op ops r rs xss1 xss2 :
    vop_spec op xss r xss1 -> spec_run xss1 ops rs xss2 -> spec_run xss (op :: ops) (r :: rs) xss2.

Fixpoint ops_pre (ops : list (vop T)) xss : Prop :=
  match ops with
  | [] => True
  | op :: ops' => vop_pre op xss /\ forall r xss', vop_spec op xss r xss' -> ops_pre ops' xss'
  end.

(** Some step of the run asks for more than the address space. *)
Fixpoint ops_overflow (w : Z) (ops : list (vop T)) xss : Prop :=
  match ops with
  | [] => False
  | op :: ops' => vop_overflow w op xss \/
                  exists r xss', vop_spec op xss r xss' /\ ops_overflow w ops' xss'
  end.

Lemma run_ops_holds w f ops wd xss :
  world_ok w f wd xss -> ops_pre ops xss ->
  holds (run_ops ops) wd (fun rs wd' => exists xss', spec_run xss ops rs xss' /\ world_ok w f wd' xss')
    (oom \/ ops_overflow w ops xss).
Proof.
  revert wd xss. induction ops as [|op ops IH]; intros wd xss Hw Hp.
  - apply holds_ret. exists xss. by split; [constructor|].
  - destruct Hp as [Hp Hn]. simpl. eapply holds_bind.
    { eapply holds_mono; [by apply (run_op_refines w f)|intros ? ? H'; exact H'|tauto]. }
    intros r wd1 (xss1 & Hs & Hw1). eapply holds_bind.
    { eapply holds_mono; [apply IH; [exact Hw1|by eapply Hn]|intros ? ? H'; exact H'|].
      intros [?|Ho]; [by left|right; right; eauto]. }
    intros rs wd2 (xss2 & Hr & Hw2). apply holds_ret. exists xss2. by split; [econstructor|].
Qed.

End Refinement.
