(* ===== verification/SortedVector.v ===== *)
(** * libshims/VectorImpl.cpp: class SortedVectorImpl

    Binary search and the operations built on it.  [do_compare] is the pure
    virtual member that the typed wrapper supplies. *)

From S2P Require Import Prelude External SharedBuffer VectorImpl VectorFacts VectorSpec VectorSort.

Module Sorted.
Section SortedOps.
Context {T : Type} {LU : LibUtils} {AL : Allocator} {IO : ItemOps T}.
Variable do_compare : T -> T -> Z.

Abbreviation V := (M (vstate T)).

(** The value behind a pointer to one item. *)
Definition read_value (p : item_ptr T) : V T :=
  r ← read_region p 1;
  match r with [Some x] => mret x | _ => fault end.

(** Calling a const method of another vector. *)
Definition on_other {A} (u : VectorImpl) (m : V A) : V A := fun s =>
  match m (VS (vheap s) u) with
  | Ret (a, s') => Ret (a, VS (vheap s') (this s))
  | Abort => Abort
  | Fault => Fault
  end.

(** The search loop: the pair is the returned index or error and the final
    [l], which is the order.  The interval shrinks in every round, so that
    one unit of fuel per item and one more are enough. *)
Fixpoint search_loop (fuel : nat) (item : item_ptr T) (l h : Z) : V (Z * Z) :=
  match fuel with
  | O => fault
  | S fuel' =>
      if l <=? h then
        let mid := l + (h - l) ÷ 2 in
        v ← self;
        curr ← read_value (ptr_of (mStorage v) (Z.to_nat mid));
        x ← read_value item;
        let c := do_compare curr x in
        if c =? 0 then mret (mid, mid)
        else if c <? 0 then search_loop fuel' item (mid + 1) h
        else search_loop fuel' item l (mid - 1)
      else mret (NAME_NOT_FOUND, l)
  end.

Definition _indexOrderOf (item : item_ptr T) : V (Z * Z) :=
  n ← size;
  search_loop (S (Z.to_nat n)) item 0 (s32 (u32 (n - 1))).

Definition indexOf (item : item_ptr T) : V Z := r ← _indexOrderOf item; mret r.1.

Definition orderOf (item : item_ptr T) : V Z := r ← _indexOrderOf item; mret (u32 r.2).

Definition add (item : item_ptr T) : V Z :=
  r ← _indexOrderOf item;
  if r.1 <? 0 then insertAt item (u32 r.2) 1 else replaceAt item (u32 r.1).

(** [merge(const VectorImpl&)]: the items of [vector] one by one, from the
    pointer its storage had when the call began. *)
Fixpoint merge_loop (k i : nat) (buffer : option loc) : V Z :=
  match k with
  | O => mret NO_ERROR
  | S k' =>
      err ← add (ptr_of buffer i);
      if err <? 0 then mret err else merge_loop k' (S i) buffer
  end.

Definition merge_vector (vector : VectorImpl) : V Z :=
  if negb (mCount vector =? 0) then merge_loop (Z.to_nat (mCount vector)) 0 (mStorage vector)
  else mret NO_ERROR.

(** The pointer that [itemLocation] returns. *)
Definition loc_ptr (p : option (loc * nat)) : item_ptr T :=
  match p with Some (l, i) => PBuf l i | None => PNull end.

(** [merge(const SortedVectorImpl&)]. *)
Definition merge (vector : VectorImpl) : V Z :=
  if negb (mCount vector =? 0) then
    v ← self;
    last_v ← on_other vector (itemLocation (u32 (mCount vector - 1)));
    a ← read_value (loc_ptr last_v);
    b ← read_value (ptr_of (mStorage v) 0);
    if do_compare a b <=? 0 then insertVectorAt vector 0 else
    a ← read_value (ptr_of (mStorage vector) 0);
    last_t ← itemLocation (u32 (mCount v - 1));
    b ← read_value (loc_ptr last_t);
    if 0 <=? do_compare a b then appendVector vector else
    merge_vector vector
  else mret NO_ERROR.

Definition remove (item : item_ptr T) : V Z :=
  i ← indexOf item;
  (if 0 <=? i then removeItemsAt (u32 i) 1;; mret tt else mret tt);;
  mret i.

End SortedOps.
End Sorted.
Import Sorted.

(** ** Sets as strictly sorted lists *)

Section SortedFacts.
Context {T : Type} {LU : LibUtils} {LL : LibUtilsLaws LU} {AL : Allocator}.
Context {IO : ItemOps T} {IL : ItemLaws IO}.
Variable cmp : T -> T -> Z.
Context {CO : CmpOrder cmp}.
Implicit Types (h : heap T) (v : VectorImpl) (ts : list T).

Definition cmp_lt (a b : T) : Prop := cmp a b < 0.
Definition sorted ts : Prop := StronglySorted cmp_lt ts.

Lemma cmp_lt_le_trans a b c : cmp a b < 0 -> cmp b c <= 0 -> cmp a c < 0.
Proof.
  intros H1 H2. destruct (Z.lt_ge_cases (cmp a c) 0) as [?|G]; [done|].
  assert (cmp c a <= 0) by (destruct (Z.le_gt_cases (cmp c a) 0) as [?|F]; [done|apply (cmp_flip cmp) in F; lia]).
  assert (cmp b a <= 0) by (by apply (cmp_trans cmp b c a)).
  assert (0 < cmp b a) by (by apply (cmp_flip cmp)). lia.
Qed.

Lemma cmp_le_lt_trans a b c : cmp a b <= 0 -> cmp b c < 0 -> cmp a c < 0.
Proof.
  intros H1 H2. destruct (Z.lt_ge_cases (cmp a c) 0) as [?|G]; [done|].
  assert (cmp c a <= 0) by (destruct (Z.le_gt_cases (cmp c a) 0) as [?|F]; [done|apply (cmp_flip cmp) in F; lia]).
  assert (cmp c b <= 0) by (by apply (cmp_trans cmp c a b)).
  assert (0 < cmp c b) by (by apply (cmp_flip cmp)). lia.
Qed.

Lemma cmp_eq_sym a b : cmp a b = 0 -> cmp b a = 0.
Proof.
  intros E. destruct (Z.lt_trichotomy (cmp b a) 0) as [H|[H|H]]; [|done|].
  - apply (cmp_flip cmp) in H. lia.
  - apply (cmp_flip cmp) in H. lia.
Qed.

Lemma sorted_lookup ts i j a b :
  sorted ts -> ts !! i = Some a -> ts !! j = Some b -> (i < j)%nat -> cmp a b < 0.
Proof.
  intros Hs. revert i j. induction Hs as [|x ts Hs IH Hf]; intros i j Hi Hj Hlt; [done|].
  destruct j as [|j]; [lia|]. simpl in Hj. destruct i as [|i]; simpl in Hi.
  - injection Hi as <-. rewrite Forall_lookup in Hf. by apply (Hf j).
  - apply (IH i j); [done|done|lia].
Qed.

(** [order x ts k]: [k] items are smaller than [x] and none after them is. *)
Definition order (x : T) ts (k : nat) : Prop :=
  (k <= length ts)%nat /\
  (forall i y, ts !! i = Some y -> (i < k)%nat -> cmp y x < 0) /\
  (forall i y, ts !! i = Some y -> (k <= i)%nat -> 0 <= cmp y x).

(** The result of the search. *)
Definition found (x : T) ts (r : Z * Z) : Prop :=
  exists k, r.2 = Z.of_nat k /\ order x ts k /\
  ((r.1 = Z.of_nat k /\ exists y, ts !! k = Some y /\ cmp y x = 0) \/
   (r.1 = NAME_NOT_FOUND /\ forall y, y ∈ ts -> cmp y x <> 0)).

Lemma read_value_own h v ts i y :
  vec_ok h v (map Some ts) -> ts !! i = Some y ->
  read_value (ptr_of (mStorage v) i) (VS h v) = Ret (y, VS h v).
Proof.
  intros Hv Hi. unfold read_value. erewrite bind_run.
  2: { eapply read_own_run; [exact Hv|done|]. rewrite length_map. apply lookup_lt_Some in Hi. lia. }
  assert (E : map Some ts !! i = Some (Some y)) by (by rewrite list_lookup_fmap, Hi).
  by rewrite (drop_S _ _ _ E).
Qed.

(** The invariant of the loop: smaller items below [l], larger above [h']. *)
Lemma search_loop_run fuel h v ts p x (l h' : Z) :
  vec_ok h v (map Some ts) -> sorted ts ->
  read_value p (VS h v) = Ret (x, VS h v) ->
  0 <= l -> l <= h' + 1 -> h' < Z.of_nat (length ts) -> h' + 1 - l < Z.of_nat fuel ->
  (forall i y, ts !! i = Some y -> Z.of_nat i < l -> cmp y x < 0) ->
  (forall i y, ts !! i = Some y -> h' < Z.of_nat i -> 0 < cmp y x) ->
  exists r, search_loop cmp fuel p l h' (VS h v) = Ret (r, VS h v) /\ found x ts r.
Proof.
  intros Hv Hs Hp. revert l h'. induction fuel as [|fuel IH]; intros l h' H0 Hlh Hh Hf Hlo Hhi; [lia|].
  cbn [search_loop]. destruct (Z.leb_spec l h') as [Hle|Hgt].
  - cbv zeta. rewrite Z.quot_div_nonneg by lia. set (mid := l + (h' - l) / 2).
    assert (Hm : l <= mid <= h').
    { subst mid. assert (0 <= (h' - l) / 2 <= h' - l)
        by (split; [apply Z.div_pos; lia|apply Z.div_le_upper_bound; lia]). lia. }
    destruct (lookup_lt_is_Some_2 ts (Z.to_nat mid)) as [y Hy]; [lia|].
    rewrite (bind_run _ _ _ _ _ (self_run h v)).
    rewrite (bind_run _ _ _ _ _ (read_value_own _ _ _ _ _ Hv Hy)), (bind_run _ _ _ _ _ Hp).
    destruct (Z.eqb_spec (cmp y x) 0) as [E|E]; [|destruct (Z.ltb_spec (cmp y x) 0) as [C|C]].
    + exists (mid, mid). split; [done|]. exists (Z.to_nat mid). simpl. rewrite Z2Nat.id by lia.
      split; [done|]. split; [|left; by split; [|exists y]]. split; [lia|]. split.
      * intros i z Hi Hlt. apply cmp_lt_le_trans with y; [|lia]. by eapply sorted_lookup.
      * intros i z Hi Hge. destruct (decide (i = Z.to_nat mid)) as [->|Hne].
        { assert (z = y) as -> by congruence. lia. }
        assert (cmp x z < 0); [|by apply Z.lt_le_incl, (cmp_flip cmp)].
        apply cmp_le_lt_trans with y; [by rewrite cmp_eq_sym|]. eapply sorted_lookup; [done..|lia].
    + apply IH; [lia|lia|lia|lia| |done]. intros i z Hi Hlt.
      destruct (decide (i = Z.to_nat mid)) as [->|Hne]; [by assert (z = y) as -> by congruence|].
      apply cmp_lt_le_trans with y; [|lia]. eapply sorted_lookup; [done..|lia].
    + apply IH; [lia|lia|lia|lia|done|]. intros i z Hi Hlt.
      destruct (decide (i = Z.to_nat mid)) as [->|Hne]; [assert (z = y) as -> by congruence; lia|].
      apply (cmp_flip cmp). apply cmp_lt_le_trans with y; [apply (cmp_flip cmp); lia|].
      apply Z.lt_le_incl. eapply sorted_lookup; [done..|lia].
  - exists (NAME_NOT_FOUND, l). split; [done|]. exists (Z.to_nat l). simpl. rewrite Z2Nat.id by lia.
    split; [done|]. split; [split; [lia|]|right].
    + split; intros i y Hi Hlt; [apply (Hlo i); [done|lia]|apply Z.lt_le_incl, (Hhi i); [done|lia]].
    + split; [done|]. intros y [i Hi]%list_elem_of_lookup.
      destruct (Z.lt_ge_cases (Z.of_nat i) l); [pose proof (Hlo i y Hi)|pose proof (Hhi i y Hi)]; lia.
Qed.

Lemma indexOrderOf_run h v ts p x :
  vec_ok h v (map Some ts) -> sorted ts -> Z.of_nat (length ts) < 2 ^ 31 ->
  read_value p (VS h v) = Ret (x, VS h v) ->
  exists r, _indexOrderOf cmp p (VS h v) = Ret (r, VS h v) /\ found x ts r.
Proof.
  intros Hv Hs Hlt Hp. pose proof (vok_count _ _ _ Hv) as Hc. rewrite length_map in Hc.
  unfold _indexOrderOf. rewrite (bind_run _ _ _ _ _ (size_run h v)).
  assert (E : s32 (u32 (mCount v - 1)) = mCount v - 1).
  { destruct (Z.eq_dec (mCount v) 0) as [->|]; [done|]. rewrite u32_small, s32_small by lia. done. }
  rewrite E. apply search_loop_run; try done; try lia.
  intros i y Hi Hlt'. apply lookup_lt_Some in Hi. lia.
Qed.

(** ** The reference operations on sorted lists *)

Definition below (x y : T) : Prop := cmp y x < 0.
Definition above (x y : T) : Prop := 0 < cmp y x.

#[export] Instance below_dec x y : Decision (below x y).
Proof. unfold below. apply _. Defined.
#[export] Instance above_dec x y : Decision (above x y).
Proof. unfold above. apply _. Defined.

(** [x] replaces the item equal to it or takes its place in the order. *)
Definition sadd (x : T) ts : list T := filter (below x) ts ++ x :: filter (above x) ts.
Definition srem (x : T) ts : list T := filter (below x) ts ++ filter (above x) ts.

Lemma filter_keep (P : T -> Prop) `{forall y, Decision (P y)} l : Forall P l -> filter P l = l.
Proof. induction 1 as [|y l Hy _ IH]; [done|]. by rewrite filter_cons_True, IH. Qed.

Lemma filter_lose (P : T -> Prop) `{forall y, Decision (P y)} l : Forall (fun y => ~ P y) l -> filter P l = [].
Proof. induction 1 as [|y l Hy _ IH]; [done|]. by rewrite filter_cons_False. Qed.

Lemma order_below x ts k : order x ts k -> filter (below x) ts = take k ts.
Proof.
  intros (Hk & Hlo & Hhi). rewrite <- (take_drop k ts) at 1. rewrite filter_app, filter_keep, filter_lose, app_nil_r; [done| |].
  - apply Forall_lookup. intros i y Hi. rewrite lookup_drop in Hi. unfold below. pose proof (Hhi _ _ Hi). lia.
  - apply Forall_lookup. intros i y Hi. apply lookup_take_Some in Hi as [Hi Hlt]. by eapply Hlo.
Qed.

Lemma order_above x ts k k' :
  order x ts k -> (k <= k')%nat -> (forall i y, ts !! i = Some y -> (k <= i < k')%nat -> cmp y x = 0) ->
  (forall i y, ts !! i = Some y -> (k' <= i)%nat -> cmp y x <> 0) ->
  filter (above x) ts = drop k' ts.
Proof.
  intros (Hk & Hlo & Hhi) Hkk Heq Hne. rewrite <- (take_drop k' ts) at 1.
  rewrite filter_app, filter_lose, filter_keep; [done| |].
  - apply Forall_lookup. intros i y Hi. rewrite lookup_drop in Hi. unfold above.
    pose proof (Hhi _ _ Hi). pose proof (Hne _ _ Hi). lia.
  - apply Forall_lookup. intros i y Hi. apply lookup_take_Some in Hi as [Hi Hlt]. unfold above.
    destruct (decide (i < k)%nat); [pose proof (Hlo i y Hi)|pose proof (Heq i y Hi)]; lia.
Qed.

(** The two outcomes of the search, in terms of the reference. *)
Lemma found_cases x ts r :
  sorted ts -> found x ts r ->
  exists k, r.2 = Z.of_nat k /\ (k <= length ts)%nat /\
  ((r.1 = Z.of_nat k /\ (k < length ts)%nat /\ sadd x ts = <[k := x]> ts /\
    srem x ts = take k ts ++ drop (S k) ts) \/
   (r.1 = NAME_NOT_FOUND /\ sadd x ts = take k ts ++ x :: drop k ts /\ srem x ts = ts)).
Proof.
  intros Hs (k & Hk & Ho & Hc). exists k. split; [done|]. split; [apply Ho|].
  unfold sadd, srem. rewrite (order_below _ _ _ Ho). destruct Hc as [[Hr (y & Hy & E)]|[Hr Hn]]; [left|right].
  - rewrite (order_above _ _ _ (S k) Ho); [|lia| |].
    + split; [done|]. pose proof (lookup_lt_Some _ _ _ Hy). split; [done|].
      by rewrite insert_take_drop by done.
    + intros i z Hi Hlt. assert (i = k) as -> by lia. congruence.
    + intros i z Hi Hlt E'. assert (cmp y z < 0) by (apply (sorted_lookup ts k i); [done..|lia]).
      assert (cmp y x < 0); [|lia]. apply cmp_lt_le_trans with z; [done|lia].
  - rewrite (order_above _ _ _ k Ho); [|lia|lia|].
    + split; [done|]. split; [done|]. apply take_drop.
    + intros i z Hi _. apply Hn. by eapply list_elem_of_lookup_2.
Qed.

Lemma sorted_filter (P : T -> Prop) `{forall y, Decision (P y)} ts :
  sorted ts -> StronglySorted cmp_lt (filter P ts).
Proof.
  unfold sorted. induction 1 as [|y l Hs IH Hf]; [constructor|]. rewrite filter_cons. case_decide; [|done].
  constructor; [done|]. rewrite Forall_forall in Hf. apply Forall_forall.
  intros z [_ Hz]%list_elem_of_filter. by apply Hf.
Qed.

Lemma sadd_sorted x ts : sorted ts -> sorted (sadd x ts).
Proof.
  intros Hs. unfold sadd, sorted. apply StronglySorted_app. split_and!.
  - intros a b [Ha _]%list_elem_of_filter Hb. unfold below in Ha. apply elem_of_cons in Hb as [->|Hb]; [done|].
    apply list_elem_of_filter in Hb as [Hb _]. unfold above in Hb. apply (cmp_flip cmp) in Hb.
    apply cmp_lt_le_trans with x; [done|lia].
  - by apply sorted_filter.
  - constructor; [by apply sorted_filter|]. apply Forall_forall.
    intros b [Hb _]%list_elem_of_filter. by apply (cmp_flip cmp).
Qed.

Lemma srem_sorted x ts : sorted ts -> sorted (srem x ts).
Proof.
  intros Hs. unfold srem, sorted. apply StronglySorted_app. split_and!; [|by apply sorted_filter..].
  intros a b [Ha _]%list_elem_of_filter [Hb _]%list_elem_of_filter. unfold below, above in *.
  apply (cmp_flip cmp) in Hb. apply cmp_lt_le_trans with x; [done|lia].
Qed.

Lemma elem_of_sadd x ts y : y ∈ sadd x ts <-> y = x \/ y ∈ ts /\ cmp y x <> 0.
Proof.
  unfold sadd. rewrite elem_of_app, elem_of_cons, !list_elem_of_filter. unfold below, above.
  split; [intuition (subst; auto; lia)|]. destruct (Z.lt_trichotomy (cmp y x) 0) as [?|[?|?]]; intuition lia.
Qed.

Lemma elem_of_srem x ts y : y ∈ srem x ts <-> y ∈ ts /\ cmp y x <> 0.
Proof.
  unfold srem. rewrite elem_of_app, !list_elem_of_filter. unfold below, above.
  split; [intuition (subst; auto; lia)|]. destruct (Z.lt_trichotomy (cmp y x) 0) as [?|[?|?]]; intuition lia.
Qed.

(** ** The methods *)

Lemma source_read_now h v p x v' :
  source_ok h v p 1 [Some x] -> read_value p (VS h v') = Ret (x, VS h v').
Proof.
  intros [_ Hp]. unfold read_value. destruct p as [|zs|l i]; [done| |].
  - destruct Hp as [Hle E]. simpl. rewrite decide_True by done. by rewrite E.
  - destruct Hp as (b & Hl & Hle & E & _). erewrite bind_run by (by apply read_region_run). by rewrite E.
Qed.

Definition added h v ts x (r : Z) s' : Prop :=
  (exists k : nat, r = Z.of_nat k /\ sadd x ts !! k = Some x /\
     method_post h v (fun us => us = map Some (sadd x ts)) s') \/
  (r = NO_MEMORY /\ oom /\ method_post h v (fun us => us = map Some ts) s').

Lemma add_holds h v ts p x :
  vec_ok h v (map Some ts) -> heap_ok h -> sorted ts -> Z.of_nat (length ts) < 2 ^ 31 ->
  p <> PNull -> source_ok h v p 1 [Some x] ->
  holds (add cmp p) (VS h v) (added h v ts x) (oom \/ grow_overflow v (mCount v + 1)).
Proof.
  intros Hv Hok Hs Hlt Hp Hsrc. pose proof (vok_count _ _ _ Hv) as Hc. rewrite length_map in Hc.
  destruct (indexOrderOf_run h v ts p x Hv Hs Hlt (source_read_now _ _ _ _ _ Hsrc)) as (r & Hrun & Hf).
  destruct (found_cases _ _ _ Hs Hf) as (k & Ek & Hk & Hcase).
  unfold add. eapply holds_run; [exact Hrun|]. rewrite Ek. pose proof NAME_NOT_FOUND_neg.
  destruct Hcase as [(Er & Hkl & Hadd & _)|(Er & Hadd & _)]; rewrite Er; unfold added; rewrite Hadd.
  - destruct (Z.ltb_spec (Z.of_nat k) 0); [lia|]. rewrite u32_small by lia.
    eapply holds_mono; [apply (replaceAt_holds h v (map Some ts) p _ x); try done; lia| |by left].
    intros r0 s'. destruct (Z.leb_spec (mCount v) (Z.of_nat k)); [lia|]. intros [-> Hpost]. left. exists k.
    rewrite s32_small, Nat2Z.id in * by lia. split; [done|]. split; [by rewrite list_lookup_insert_eq|].
    by rewrite list_fmap_insert.
  - destruct (Z.ltb_spec NAME_NOT_FOUND 0); [|lia]. rewrite u32_small by lia.
    eapply holds_mono; [apply (insertAt_holds h v (map Some ts) p _ _ x); try done; unfold SIZE_MAX; lia| |done].
    intros r0 s'. unfold insert_post. destruct (Z.ltb_spec (mCount v) (Z.of_nat k)); [lia|].
    intros [[-> Hpost]|(-> & Hpost & [Ho|?])]; [left|by right|lia]. exists k. rewrite s32_small by lia.
    split; [done|]. split; [rewrite lookup_app_r; rewrite length_take; [|lia]; by replace (k - _)%nat with 0%nat by lia|].
    unfold inserted in Hpost. rewrite Nat2Z.id, <- fmap_take, <- fmap_drop in Hpost. by rewrite map_app.
Qed.

Lemma remove_holds h v ts p x :
  vec_ok h v (map Some ts) -> heap_ok h -> sorted ts -> Z.of_nat (length ts) < 2 ^ 31 ->
  source_ok h v p 1 [Some x] ->
  holds (remove cmp p) (VS h v)
    (fun r s' => (r = NAME_NOT_FOUND /\ srem x ts = ts /\ s' = VS h v) \/
       exists (k : nat) y, r = Z.of_nat k /\ ts !! k = Some y /\ cmp y x = 0 /\
         method_post h v (fun us => us = map Some (srem x ts) \/ us = map Some ts /\ oom) s')
    (oom \/ SIZE_MAX - sizeof_SharedBuffer <= u32 (4 * mItemSize v)).
Proof.
  intros Hv Hok Hs Hlt Hsrc. pose proof (vok_count _ _ _ Hv) as Hc. rewrite length_map in Hc.
  destruct (indexOrderOf_run h v ts p x Hv Hs Hlt (source_read_now _ _ _ _ _ Hsrc)) as (r & Hrun & Hf).
  destruct (found_cases _ _ _ Hs Hf) as (k & Ek & Hk & Hcase). pose proof NAME_NOT_FOUND_neg.
  unfold remove, indexOf. eapply holds_run; [by rewrite (bind_run _ _ _ _ _ Hrun)|].
  destruct Hcase as [(Er & Hkl & _ & Hrem)|(Er & _ & Hrem)]; rewrite Er.
  - destruct (Z.leb_spec 0 (Z.of_nat k)); [|lia]. rewrite u32_small by lia.
    destruct Hf as (k' & Ek' & _ & [[_ (y & Hy & E)]|[Er' _]]); [|lia]. assert (k' = k) as -> by lia.
    apply (holds_bind _ _ _ _ (fun _ s' =>
      method_post h v (fun us => us = map Some (srem x ts) \/ us = map Some ts /\ oom) s')).
    + eapply holds_bind; [apply (removeItemsAt_holds h v (map Some ts)); try done; lia|]. intros r0 s' Hp.
      apply holds_ret. destruct (Z.ltb_spec (mCount v) (Z.of_nat k + 1)); [lia|]. destruct Hp as [_ Hp].
      rewrite Hrem. unfold removed in Hp.
      rewrite Nat2Z.id, Z2Nat.inj_add, Nat2Z.id, Nat.add_1_r, <- fmap_take, <- fmap_drop in Hp by lia.
      by rewrite map_app.
    + intros [] s' Hp. apply holds_ret. right. exists k, y. done.
  - destruct (Z.leb_spec 0 NAME_NOT_FOUND); [lia|]. eapply holds_run; [done|]. apply holds_ret. by left.
Qed.

(** A source that is not the vector's own exclusive block stays readable. *)
Lemma source_persists h v p n us v' h' :
  source_ok h v p n us -> transfer (mStorage v) h (mStorage v') h' -> source_ok h' v' p n us.
Proof.
  intros [Hl Hp] Ht. split; [done|]. destruct p as [|zs|l i]; [done|done|].
  destruct Hp as (b & Hb & Hle & Hx & Hs). destruct (drop_ref_shared _ _ _ _ Hb Hs) as (b2 & Hd & Hc).
  inversion Ht as [E Eb _ _|E Eb _ _|l' b' E Hm]; rewrite E.
  - exists b. rewrite Eb. split_and!; done.
  - exists b2. rewrite Eb, Hc. split_and!; done.
  - assert (l' <> l) by (intros ->; rewrite (moved_fresh _ _ _ _ _ Hm) in Hd; done).
    exists b2. rewrite (moved_bufs _ _ _ _ _ Hm), lookup_insert_ne, Hc by done. split_and!; try done. congruence.
Qed.

Lemma length_sadd x ts : (length (sadd x ts) <= S (length ts))%nat.
Proof.
  unfold sadd. rewrite length_app. simpl.
  assert (length (filter (below x) ts) + length (filter (above x) ts) <= length ts)%nat; [|lia].
  induction ts as [|y ts IH]; [done|]. rewrite !filter_cons. unfold below, above in *.
  repeat case_decide; simpl; lia.
Qed.

(** The items of [zs] added one after the other. *)
Definition sadd_all ts zs : list T := foldl (fun acc z => sadd z acc) ts zs.

Lemma sadd_all_sorted zs ts : sorted ts -> sorted (sadd_all ts zs).
Proof. revert ts. induction zs as [|z zs IH]; intros ts Hs; [done|]. by apply IH, sadd_sorted. Qed.

Lemma length_sadd_all zs ts : (length (sadd_all ts zs) <= length ts + length zs)%nat.
Proof.
  revert ts. induction zs as [|z zs IH]; intros ts; simpl; [lia|].
  pose proof (IH (sadd z ts)). pose proof (length_sadd z ts). unfold sadd_all in *. simpl. lia.
Qed.

Lemma sadd_all_snoc ts zs z : sadd_all ts (zs ++ [z]) = sadd z (sadd_all ts zs).
Proof. unfold sadd_all. by rewrite foldl_app. Qed.

(** Whose key is in the merged list. *)
Lemma sadd_all_keys zs ts y :
  (exists x, x ∈ sadd_all ts zs /\ cmp x y = 0) <->
  (exists x, x ∈ ts /\ cmp x y = 0) \/ (exists x, x ∈ zs /\ cmp x y = 0).
Proof.
  revert ts. induction zs as [|z zs IH]; intros ts.
  { split; [by left|]. intros [?|(x & Hx & _)]; [done|]. by apply not_elem_of_nil in Hx. }
  change (sadd_all ts (z :: zs)) with (sadd_all (sadd z ts) zs). rewrite IH. setoid_rewrite elem_of_sadd.
  setoid_rewrite elem_of_cons. split.
  - intros [(x & [->|[Hx _]] & E)|(x & Hx & E)]; eauto.
  - intros [(x & Hx & E)|(x & [->|Hx] & E)]; eauto.
    left. destruct (Z.eq_dec (cmp x z) 0) as [E'|]; [|eauto]. exists z. split; [by left|].
    pose proof (cmp_eq_sym _ _ E'). assert (cmp z y <= 0) by (apply (cmp_trans cmp z x y); lia).
    assert (cmp y z <= 0) by (apply (cmp_trans cmp y x z); [rewrite cmp_eq_sym by done|]; lia).
    destruct (Z.lt_trichotomy (cmp z y) 0) as [G|[G|G]]; [|done|lia].
    assert (0 < cmp y z) by (by apply (cmp_flip cmp)). lia.
Qed.

Definition merged h v ts zs (r : Z) s' : Prop :=
  (r = NO_ERROR /\ method_post h v (fun us => us = map Some (sadd_all ts zs)) s') \/
  (r = NO_MEMORY /\ oom /\ exists n, method_post h v (fun us => us = map Some (sadd_all ts (take n zs))) s').

Lemma merge_loop_holds k i h v ts zs buffer h1 v1 :
  sorted ts -> Z.of_nat (length ts + length zs) < 2 ^ 31 -> (i + k = length zs)%nat ->
  0 < mItemSize v -> is_Some buffer ->
  transfer (mStorage v) h (mStorage v1) h1 -> vec_ok h1 v1 (map Some (sadd_all ts (take i zs))) ->
  mFlags v1 = mFlags v -> mItemSize v1 = mItemSize v ->
  (forall j z, zs !! j = Some z -> source_ok h1 v1 (ptr_of buffer j) 1 [Some z]) ->
  holds (merge_loop cmp k i buffer) (VS h1 v1) (merged h v ts zs)
    (oom \/ grow_overflow v (Z.of_nat (length ts + length zs))).
Proof.
  intros Hs Hlt Hk Hw [lb ->]. revert i h1 v1 Hk. induction k as [|k IH]; intros i h1 v1 Hk Ht Hv Hf Hsz Hsrc.
  { apply holds_ret. left. split; [done|]. rewrite take_ge in Hv by lia.
    exists (map Some (sadd_all ts zs)). done. }
  destruct (lookup_lt_is_Some_2 zs i) as [z Hz]; [lia|]. cbn [merge_loop].
  pose proof (length_sadd_all (take i zs) ts) as Hlen. rewrite length_take in Hlen.
  pose proof (vok_count _ _ _ Hv) as Hc. rewrite length_map in Hc.
  eapply holds_bind.
  { eapply holds_mono; [apply (add_holds h1 v1 (sadd_all ts (take i zs)) _ z); try done;
      [by eapply transfer_ok|by apply sadd_all_sorted|lia|by apply Hsrc]|intros ? ? H'; exact H'|].
    intros [?|Ho]; [by left|right]. eapply grow_overflow_mono; [exact Hsz|done| |exact Ho]. lia. }
  unfold added. rewrite <- sadd_all_snoc, <- take_S_r by done. intros r [h2 v2] [(n & -> & _ & Hp)|(-> & Ho & Hp)].
  - destruct (Z.ltb_spec (Z.of_nat n) 0); [lia|]. destruct Hp as (us & -> & Ht2 & Hv2 & Hf2 & Hs2). simpl in *.
    apply IH; try done; [lia|by eapply transfer_trans|congruence|congruence|].
    intros j y Hj. eapply source_persists; [by apply Hsrc|done].
  - pose proof NO_MEMORY_neg. destruct (Z.ltb_spec NO_MEMORY 0); [|lia]. apply holds_ret. right.
    split; [done|]. split; [done|]. exists i. destruct Hp as (us & -> & Ht2 & Hv2 & Hf2 & Hs2).
    exists (map Some (sadd_all ts (take i zs))). split; [done|]. split; [by eapply transfer_trans|].
    split; [done|]. split; congruence.
Qed.

(** [merge] of an unsorted vector [u] held elsewhere. *)
Lemma merge_vector_holds h v ts u zs :
  vec_ok h v (map Some ts) -> heap_ok h -> sorted ts -> Z.of_nat (length ts + length zs) < 2 ^ 31 ->
  mCount u = Z.of_nat (length zs) -> (zs <> [] -> is_Some (mStorage u)) ->
  (forall j z, zs !! j = Some z -> source_ok h v (ptr_of (mStorage u) j) 1 [Some z]) ->
  holds (merge_vector cmp u) (VS h v) (merged h v ts zs)
    (oom \/ grow_overflow v (Z.of_nat (length ts + length zs))).
Proof.
  intros Hv Hok Hs Hlt Hu Hst Hsrc. unfold merge_vector. rewrite Hu.
  assert (H0 : transfer (mStorage v) h (mStorage v) h) by (by apply tr_same).
  destruct (Z.eqb_spec (Z.of_nat (length zs)) 0) as [E|E]; simpl.
  - apply holds_ret. left. split; [done|]. destruct zs; [|simpl in *; lia]. by exists (map Some ts).
  - rewrite Nat2Z.id. eapply merge_loop_holds; try done; [apply Hv|]. apply Hst. by intros ->.
Qed.

End SortedFacts.
