(* ===== verification/VectorProps.v ===== *)
(** * Properties of the containers

    The theorems about [SharedBuffer], [VectorImpl] and [SortedVectorImpl]
    that clients rely on, and the boundary cases in which the code does
    something else than its interface suggests. *)

From S2P Require Import Prelude External SharedBuffer VectorImpl VectorFacts VectorSpec VectorSort VectorWorld SortedVector.
Import Sorted.

(** ** No leaks *)

Section Leaks.
Context {T : Type} {LU : LibUtils} {LL : LibUtilsLaws LU} {AL : Allocator}.
Context {IO : ItemOps T} {IL : ItemLaws IO}.

Lemma world_init w f n :
  0 < w <= SIZE_MAX -> world_ok w f (World (Heap ∅ 0) (replicate n (construct_vector w f)))
    (replicate n ([] : list T)).
Proof.
  intros Hw. split; simpl; [done| | |done].
  - apply Forall2_replicate. split; simpl; [done|done|by right|done].
  - by apply Forall_replicate.
Qed.

Lemma finish_run w f h vs (xss : list (list T)) i v :
  world_ok w f (World h vs) xss -> vs !! i = Some v ->
  let wd' := World (Heap (drop_ref (mStorage v) (bufs h)) (next h))
                   (<[i := with_count (with_storage v None) 0]> vs) in
  run_op (OpFinish i) (World h vs) = Ret (0, wd') /\ world_ok w f wd' (<[i := []]> xss).
Proof.
  intros Hw Hi wd'. pose proof Hw as [Hok Hvs _ _]. simpl in *.
  destruct (Forall2_lookup_l _ _ _ _ _ Hvs Hi) as (xs & _ & Hv).
  pose proof (finish_vector_holds h v (map Some xs) False Hv Hok) as Hf.
  cbn [run_op]. rewrite on_vec_unit. unfold holds, on_vec, mbind, M_bind in *. simpl. rewrite Hi.
  destruct (finish_vector (VS h v)) as [[[] s']| |]; [|done|done].
  destruct Hf as [-> (ys & -> & Ht & Hvo & Hfl & Hsz)]. split; [done|]. by eapply world_frame.
Qed.

Lemma finish_from w f k : forall j (wd : world T) (xss : list (list T)),
  world_ok w f wd xss -> (j + k = length xss)%nat ->
  (forall i v, vecs wd !! i = Some v -> (i < j)%nat -> mStorage v = None) ->
  exists wd', run_ops (map OpFinish (seq j k)) wd = Ret (replicate k 0, wd') /\
    (exists xss', world_ok w f wd' xss') /\ Forall (fun v => mStorage v = None) (vecs wd').
Proof.
  induction k as [|k IH]; intros j [h vs] xss Hw Hk Hn.
  - exists (World h vs). split; [done|]. split; [by exists xss|]. apply Forall_lookup. intros i v Hi.
    apply (Hn i v Hi). apply lookup_lt_Some in Hi.
    pose proof (Forall2_length _ _ _ (wok_vecs _ _ _ _ Hw)). simpl in *. lia.
  - pose proof (Forall2_length _ _ _ (wok_vecs _ _ _ _ Hw)) as Hlen. simpl in Hlen.
    destruct (lookup_lt_is_Some_2 vs j) as [v Hv]; [lia|].
    destruct (finish_run _ _ _ _ _ _ _ Hw Hv) as [Hrun Hw'].
    destruct (IH (S j) _ _ Hw') as (wd' & Hrun' & Hx & Ha).
    + rewrite length_insert. lia.
    + simpl. intros i u Hi Hlt. destruct (decide (i = j)) as [->|Hne].
      * rewrite list_lookup_insert_eq in Hi by lia. by injection Hi as <-.
      * rewrite list_lookup_insert_ne in Hi by done. apply (Hn i u Hi). lia.
    + exists wd'. split; [|done]. simpl. erewrite bind_run by exact Hrun. by erewrite bind_run by exact Hrun'.
Qed.

End Leaks.

(** ** The properties *)

Section Properties.
Context {T : Type} {LU : LibUtils} {LL : LibUtilsLaws LU} {AL : Allocator}.
Context {IO : ItemOps T} {IL : ItemLaws IO}.

(** C1: copy-on-write vectors are lists.  A sequence of calls on freshly
    constructed vectors, by a client that keeps to [ops_pre] (the vectors exist,
    no vector is inserted into itself, indices and counts fit [size_t] and their
    sum does not wrap, and fewer than 2^31 vectors are copied and items sorted),
    never touches freed or foreign memory, returns what the abstract machine on
    lists returns, and changes only the list of the vector it is called on,
    whether or not vectors share storage.  It can abort only if the allocator may
    refuse a request or a call asks for more than the address space; if neither
    is the case the calls do return. *)
Theorem vector_calls_refine_lists (w f : Z) (n : nat) (ops : list (vop T)) :
  0 < w <= SIZE_MAX -> ops_pre ops (replicate n []) ->
  let wd := World (Heap ∅ 0) (replicate n (construct_vector w f)) in
  let refined rs wd' := exists xss', spec_run (replicate n []) ops rs xss' /\ world_ok w f wd' xss' in
  holds (run_ops ops) wd refined (oom \/ ops_overflow w ops (replicate n [])) /\
  (~ oom -> ~ ops_overflow w ops (replicate n []) -> exists rs wd', run_ops ops wd = Ret (rs, wd') /\ refined rs wd').
Proof.
  intros Hw Hp wd refined.
  assert (Hh : holds (run_ops ops) wd refined (oom \/ ops_overflow w ops (replicate n []))) by (apply run_ops_holds; [by apply world_init|done]).
  split; [done|]. intros Ho Hv. unfold holds in Hh. destruct (run_ops ops wd) as [[rs wd']| |]; [by exists rs, wd'|by destruct Hh|done].
Qed.

(** C2: no storage leaks.  From every reachable set of vectors, however they
    share, destroying each of them once frees every block. *)
Theorem vectors_free_all_storage (w f : Z) (wd : world T) (xss : list (list T)) :
  world_ok w f wd xss ->
  exists wd', run_ops (map OpFinish (seq 0 (length xss))) wd = Ret (replicate (length xss) 0, wd') /\
    bufs (wheap wd') = ∅.
Proof.
  intros Hw. destruct (finish_from w f (length xss) 0 wd xss Hw eq_refl) as (wd' & Hrun & [xss' Hw'] & Ha).
  { intros; lia. }
  exists wd'. split; [done|]. apply map_eq. intros l. rewrite lookup_empty.
  destruct (bufs (wheap wd') !! l) as [b|] eqn:Hl; [|done].
  destruct (wok_refs _ _ _ _ Hw' l b Hl) as [_ Hp]. rewrite holders_none in Hp; [lia|].
  intros v Hv. rewrite Forall_forall in Ha. by rewrite (Ha v Hv).
Qed.

(** C3: [VectorImpl::sort] returns [NO_ERROR] with a sorted permutation in
    which items that compare equal keep their order, on a private block; or
    [NO_MEMORY] with the items as they were. *)
Theorem sort_sorts_stably (cmp : T -> T -> Z) {CO : CmpOrder cmp} (h : heap T) (v : VectorImpl) (ts : list T) :
  vec_ok h v (map Some ts) -> heap_ok h -> Z.of_nat (length ts) < 2 ^ 31 ->
  holds (sort cmp) (VS h v)
    (fun r s' => r = NO_ERROR /\ (exists ts', StronglySorted (cmp_le cmp) ts' /\ ts' ≡ₚ ts /\
         (forall z, filter (cmp_class cmp z) ts' = filter (cmp_class cmp z) ts) /\
         method_post h v (fun us => us = map Some ts') s') \/
       r = NO_MEMORY /\ oom /\ method_post h v (fun us => us = map Some ts) s')
    oom.
Proof.
  intros Hv Hok Hlt. eapply holds_mono; [by apply (sort_holds cmp h v ts)| |done].
  intros r s' [[-> Hp]|(-> & Hp & Ho)]; [left|by right]. split; [done|]. exists (isort cmp ts).
  split; [by apply isort_sorted|]. split; [apply isort_perm|]. split; [intros z; by apply (isort_stable cmp)|done].
Qed.

(** [SharedBuffer::editResize] hands back a block of the new size that
    only the caller holds and that starts with the old contents, after giving
    up exactly one reference to the old block; when no memory is left it
    returns NULL and the heap still holds everything it held. *)
Lemma editResize_transfers_contents (w : Z) (h : heap T) (l : nat) (b : SharedBuffer T) (newSize : Z) :
  0 < w -> heap_ok h -> bufs h !! l = Some b -> buf_ok w b -> 0 <= newSize ->
  holds (editResize w newSize l) h
    (fun r h' => match r with
     | Some l' => moved (Some l) h l' (SB 1 newSize (list.resize (cell_count w newSize) None (cells b))) h'
     | None => bufs h' = bufs h /\ exists k, malloc_ok k (sizeof_SharedBuffer + newSize) = false
     end)
    (SIZE_MAX - sizeof_SharedBuffer <= newSize).
Proof.
  intros Hw Hok Hl Hb Hn. eapply holds_mono; [by apply (editResize_holds w h l b)| |done].
  intros [l'|] h'; [by intros [_ ?]|by intros (? & _ & ?)].
Qed.

End Properties.

Section SortedProperties.
Context {T : Type} {LU : LibUtils} {LL : LibUtilsLaws LU} {AL : Allocator}.
Context {IO : ItemOps T} {IL : ItemLaws IO}.
Variable cmp : T -> T -> Z.
Context {CO : CmpOrder cmp}.

(** C4: the binary search of [SortedVectorImpl] terminates without leaving
    the array; it returns the index of the item equal to the key, or
    [NAME_NOT_FOUND] when there is none, and in both cases the order is the
    number of items smaller than the key. *)
Theorem binary_search_finds (h : heap T) (v : VectorImpl) (ts : list T) (p : item_ptr T) (x : T) :
  vec_ok h v (map Some ts) -> sorted cmp ts -> Z.of_nat (length ts) < 2 ^ 31 ->
  read_value p (VS h v) = Ret (x, VS h v) ->
  exists r, _indexOrderOf cmp p (VS h v) = Ret (r, VS h v) /\
    r.2 = Z.of_nat (length (filter (below cmp x) ts)) /\
    ((exists k y, r.1 = Z.of_nat k /\ ts !! k = Some y /\ cmp y x = 0) \/
     (r.1 = NAME_NOT_FOUND /\ forall y, y ∈ ts -> cmp y x <> 0)).
Proof.
  intros Hv Hs Hlt Hp. destruct (indexOrderOf_run cmp h v ts p x Hv Hs Hlt Hp) as (r & Hr & k & Ek & Ho & Hc).
  exists r. split; [done|]. rewrite (order_below _ _ _ _ Ho), length_take.
  destruct Ho as (Hk & _). split; [rewrite Ek; lia|]. destruct Hc as [[E (y & Hy & Hc)]|?]; [left|by right].
  by exists k, y.
Qed.

(** C5: [SortedVectorImpl::add] keeps the vector strictly sorted: the new
    item replaces the one equal to it or is inserted in its place, and the
    returned index is where it now is. *)
Theorem sorted_add_inserts (h : heap T) (v : VectorImpl) (ts : list T) (p : item_ptr T) (x : T) :
  vec_ok h v (map Some ts) -> heap_ok h -> sorted cmp ts -> Z.of_nat (length ts) < 2 ^ 31 ->
  p <> PNull -> source_ok h v p 1 [Some x] ->
  holds (add cmp p) (VS h v)
    (fun r s' => (exists ts' k, r = Z.of_nat k /\ ts' !! k = Some x /\ sorted cmp ts' /\
         (forall y, y ∈ ts' <-> y = x \/ y ∈ ts /\ cmp y x <> 0) /\
         method_post h v (fun us => us = map Some ts') s') \/
       r = NO_MEMORY /\ oom /\ method_post h v (fun us => us = map Some ts) s')
    (oom \/ grow_overflow v (mCount v + 1)).
Proof.
  intros Hv Hok Hs Hlt Hp Hsrc. eapply holds_mono; [by apply (add_holds cmp h v ts p x)| |done].
  intros r s' [(k & Er & Hk & Hpost)|?]; [left|by right]. exists (sadd cmp x ts), k.
  split; [done|]. split; [done|]. split; [by apply sadd_sorted|]. split; [|done].
  intros y. by apply elem_of_sadd.
Qed.

(** [SortedVectorImpl::remove] takes out exactly the item equal to the
    key and returns the index it had; without such an item it returns
    [NAME_NOT_FOUND] and touches nothing.  When memory is short the item may
    stay although its index is returned. *)
Lemma sorted_remove_removes (h : heap T) (v : VectorImpl) (ts : list T) (p : item_ptr T) (x : T) :
  vec_ok h v (map Some ts) -> heap_ok h -> sorted cmp ts -> Z.of_nat (length ts) < 2 ^ 31 ->
  source_ok h v p 1 [Some x] ->
  holds (remove cmp p) (VS h v)
    (fun r s' => (r = NAME_NOT_FOUND /\ (forall y, y ∈ ts -> cmp y x <> 0) /\ s' = VS h v) \/
       exists (k : nat) y, r = Z.of_nat k /\ ts !! k = Some y /\ cmp y x = 0 /\
         (method_post h v (fun us => us = map Some (srem cmp x ts)) s' \/
          oom /\ method_post h v (fun us => us = map Some ts) s') /\
         sorted cmp (srem cmp x ts) /\ (forall z, z ∈ srem cmp x ts <-> z ∈ ts /\ cmp z x <> 0))
    (oom \/ SIZE_MAX - sizeof_SharedBuffer <= u32 (4 * mItemSize v)).
Proof.
  intros Hv Hok Hs Hlt Hsrc. eapply holds_mono; [by apply (remove_holds cmp h v ts p x)| |done].
  intros r s' [(-> & E & ->)|(k & y & -> & Hy & E & Hp)]; [left|right].
  - split; [done|]. split; [|done]. intros y Hy. rewrite <- E, elem_of_srem in Hy by done. apply Hy.
  - exists k, y. split; [done|]. split; [done|]. split; [done|].
    split; [|split; [by apply srem_sorted|intros z; by apply elem_of_srem]].
    apply post_cases in Hp as [Hp|Hp]; [by left|right]. pose proof Hp as (us & [_ Ho] & _). split; [done|].
    eapply post_mono; [exact Hp|]. by intros us' [-> _].
Qed.

(** C6: merging an arbitrary vector into a sorted one gives a strictly sorted
    vector whose keys are those of both, or stops with [NO_MEMORY] after a
    prefix of the items. *)
Theorem sorted_merge_unites (h : heap T) (v : VectorImpl) (ts : list T) (u : VectorImpl) (zs : list T) :
  vec_ok h v (map Some ts) -> heap_ok h -> sorted cmp ts -> Z.of_nat (length ts + length zs) < 2 ^ 31 ->
  mCount u = Z.of_nat (length zs) -> (zs <> [] -> is_Some (mStorage u)) ->
  (forall j z, zs !! j = Some z -> source_ok h v (ptr_of (mStorage u) j) 1 [Some z]) ->
  holds (merge_vector cmp u) (VS h v)
    (fun r s' => exists ts' n, sorted cmp ts' /\
       (forall y, (exists x, x ∈ ts' /\ cmp x y = 0) <->
          (exists x, x ∈ ts /\ cmp x y = 0) \/ (exists x, x ∈ take n zs /\ cmp x y = 0)) /\
       method_post h v (fun us => us = map Some ts') s' /\
       (r = NO_ERROR /\ take n zs = zs \/ r = NO_MEMORY /\ oom))
    (oom \/ grow_overflow v (Z.of_nat (length ts + length zs))).
Proof.
  intros Hv Hok Hs Hlt Hu Hst Hsrc. eapply holds_mono; [by apply (merge_vector_holds cmp h v ts u zs)| |done].
  intros r s' [[-> Hp]|(-> & Ho & n & Hp)].
  - exists (sadd_all cmp ts (take (length zs) zs)), (length zs). split; [by apply sadd_all_sorted|].
    split; [intros y; by apply sadd_all_keys|]. rewrite take_ge by done. auto.
  - exists (sadd_all cmp ts (take n zs)), n. split; [by apply sadd_all_sorted|].
    split; [intros y; by apply sadd_all_keys|]. auto.
Qed.

End SortedProperties.

(** ** Concrete runs *)

Section Runs.
Import RefInstances.

#[local] Instance z_order : CmpOrder Z.sub.
Proof. split; intros; lia. Qed.

(** A vector of 4-byte items with room for four. *)
Definition run_heap (xs : list Z) : heap Z :=
  Heap {[ 0%nat := SB 1 16 (list.resize 4 None (map Some xs)) ]} 1.
Definition run_vec (n : Z) : VectorImpl := VI (Some 0%nat) n 7 4.

Lemma run_vec_ok (xs : list Z) : (length xs <= 4)%nat ->
  vec_ok (run_heap xs) (run_vec (Z.of_nat (length xs))) (map Some xs) /\ heap_ok (run_heap xs).
Proof.
  intros Hl. split.
  - split; [done|by rewrite length_map|by right; apply Forall_map, Forall_true; eauto|].
    exists (SB 1 16 (list.resize 4 None (map Some xs))). split; [done|]. split.
    + split; [done|done|]. simpl. by rewrite length_resize.
    + cbn [cells]. rewrite resize_take_replicate, (take_ge (map Some xs)) by (rewrite length_map; lia).
      by rewrite take_app_length.
  - intros [|l] Hge; simpl in *; [lia|]. by rewrite lookup_singleton_ne.
Qed.

Lemma vector_calls_refine_lists_witness :
  let ops := [OpInsertArray 0 [3; 1; 2] 0; OpCopy 0] in
  exists rs wd' xss', run_ops ops (World (Heap ∅ 0) (replicate 2 (construct_vector 4 7))) = Ret (rs, wd') /\
    spec_run (replicate 2 []) ops rs xss' /\ world_ok 4 7 wd' xss'.
Proof.
  intros ops. destruct (vector_calls_refine_lists 4 7 2 ops) as [_ Hr].
  - by unfold SIZE_MAX.
  - split; [split; [simpl; lia|]; by unfold SIZE_MAX|]. intros r xss' (xs & ys & _ & _ & ->). simpl.
    split; [|done]. split; [simpl; lia|done].
  - destruct Hr as (rs & wd' & Hrun & xss' & Hs & Hw); [by intros (k & m & [=])| |by exists rs, wd', xss'].
    intros [(xs & Hx & Ht)|(r & xss' & _ & [[]|(r' & xss2 & _ & [])])]. injection Hx as <-. vm_compute in Ht. by apply Ht.
Defined.

Lemma vectors_free_all_storage_witness :
  exists wd', run_ops (map OpFinish (seq 0 1)) (World (run_heap [3; 1]) [run_vec 2]) = Ret ([0], wd') /\
    bufs (wheap wd') = ∅.
Proof.
  apply (vectors_free_all_storage 4 7 _ [[3; 1]]). destruct (run_vec_ok [3; 1]) as [Hv Hok]; [simpl; lia|].
  split; [done|by repeat constructor; apply Hv|by repeat constructor|].
  intros [|l] b Hl; [|simpl in Hl; by rewrite lookup_singleton_ne in Hl]. vm_compute in Hl. injection Hl as <-. split; [done|].
  vm_compute. lia.
Defined.

Lemma sort_sorts_stably_witness :
  holds (sort Z.sub) (VS (run_heap [3; 1; 2]) (run_vec 3))
    (fun r s' => r = NO_ERROR /\ (exists ts', StronglySorted (cmp_le Z.sub) ts' /\ ts' ≡ₚ [3; 1; 2] /\
         (forall z, filter (cmp_class Z.sub z) ts' = filter (cmp_class Z.sub z) [3; 1; 2]) /\
         method_post (run_heap [3; 1; 2]) (run_vec 3) (fun us => us = map Some ts') s') \/
       r = NO_MEMORY /\ oom /\ method_post (run_heap [3; 1; 2]) (run_vec 3) (fun us => us = map Some [3; 1; 2]) s')
    oom.
Proof. destruct (run_vec_ok [3; 1; 2]) as [Hv Hok]; [simpl; lia|]. apply (sort_sorts_stably Z.sub (run_heap [3; 1; 2]) (run_vec 3) [3; 1; 2]); done. Defined.

Lemma editResize_transfers_contents_witness :
  let b := SB 1 16 [Some 3; Some 1; None; None] in
  holds (editResize 4 32 0%nat) (run_heap [3; 1])
    (fun r h' => match r with
     | Some l' => moved (Some 0%nat) (run_heap [3; 1]) l'
         (SB 1 32 (list.resize (cell_count 4 32) None (cells b))) h'
     | None => bufs h' = bufs (run_heap [3; 1]) /\ exists k, malloc_ok k (sizeof_SharedBuffer + 32) = false
     end)
    (SIZE_MAX - sizeof_SharedBuffer <= 32).
Proof.
  intros b. destruct (run_vec_ok [3; 1]) as [Hv Hok]; [simpl; lia|].
  apply (editResize_transfers_contents 4 (run_heap [3; 1]) 0%nat b 32); [done|done|done|by split|done].
Defined.

Lemma binary_search_finds_witness :
  exists r, _indexOrderOf Z.sub (PExt [Some 2]) (VS (run_heap [1; 2; 5]) (run_vec 3))
      = Ret (r, VS (run_heap [1; 2; 5]) (run_vec 3)) /\
    r.2 = Z.of_nat (length (filter (below Z.sub 2) [1; 2; 5])) /\
    ((exists k y, r.1 = Z.of_nat k /\ [1; 2; 5] !! k = Some y /\ y - 2 = 0) \/
     (r.1 = NAME_NOT_FOUND /\ forall y, y ∈ [1; 2; 5] -> y - 2 <> 0)).
Proof.
  destruct (run_vec_ok [1; 2; 5]) as [Hv Hok]; [simpl; lia|].
  apply (binary_search_finds Z.sub (run_heap [1; 2; 5]) (run_vec 3) [1; 2; 5]); [done| |done|done].
  by repeat constructor.
Defined.

Lemma sorted_add_inserts_witness :
  let h := run_heap [1; 2; 5] in let v := run_vec 3 in
  holds (add Z.sub (PExt [Some 4])) (VS h v)
    (fun r s' => (exists ts' k, r = Z.of_nat k /\ ts' !! k = Some 4 /\ sorted Z.sub ts' /\
         (forall y, y ∈ ts' <-> y = 4 \/ y ∈ [1; 2; 5] /\ y - 4 <> 0) /\
         method_post h v (fun us => us = map Some ts') s') \/
       r = NO_MEMORY /\ oom /\ method_post h v (fun us => us = map Some [1; 2; 5]) s')
    (oom \/ grow_overflow v (mCount v + 1)).
Proof.
  destruct (run_vec_ok [1; 2; 5]) as [Hv Hok]; [simpl; lia|].
  apply (sorted_add_inserts Z.sub (run_heap [1; 2; 5]) (run_vec 3) [1; 2; 5]); [done|done| |done|done|by repeat split].
  by repeat constructor.
Defined.

Lemma sorted_remove_removes_example :
  let h := run_heap [1; 2; 5] in let v := run_vec 3 in
  holds (remove Z.sub (PExt [Some 2])) (VS h v)
    (fun r s' => (r = NAME_NOT_FOUND /\ (forall y, y ∈ [1; 2; 5] -> y - 2 <> 0) /\ s' = VS h v) \/
       exists (k : nat) y, r = Z.of_nat k /\ [1; 2; 5] !! k = Some y /\ y - 2 = 0 /\
         (method_post h v (fun us => us = map Some (srem Z.sub 2 [1; 2; 5])) s' \/
          oom /\ method_post h v (fun us => us = map Some [1; 2; 5]) s') /\
         sorted Z.sub (srem Z.sub 2 [1; 2; 5]) /\
         (forall z, z ∈ srem Z.sub 2 [1; 2; 5] <-> z ∈ [1; 2; 5] /\ z - 2 <> 0))
    (oom \/ SIZE_MAX - sizeof_SharedBuffer <= u32 (4 * mItemSize v)).
Proof.
  destruct (run_vec_ok [1; 2; 5]) as [Hv Hok]; [simpl; lia|].
  apply (sorted_remove_removes Z.sub (run_heap [1; 2; 5]) (run_vec 3) [1; 2; 5]); [done|done| |done|by repeat split].
  by repeat constructor.
Defined.

(** The operand of the merge: a vector in a second block. *)
Definition merge_heap : heap Z :=
  Heap {[ 0%nat := SB 1 16 [Some 1; Some 5; None; None];
          1%nat := SB 1 16 [Some 7; Some 5; None; None] ]} 2.

Lemma sorted_merge_unites_witness :
  let v := run_vec 2 in
  holds (merge_vector Z.sub (VI (Some 1%nat) 2 7 4)) (VS merge_heap v)
    (fun r s' => exists ts' n, sorted Z.sub ts' /\
       (forall y, (exists x, x ∈ ts' /\ x - y = 0) <->
          (exists x, x ∈ [1; 5] /\ x - y = 0) \/ (exists x, x ∈ take n [7; 5] /\ x - y = 0)) /\
       method_post merge_heap v (fun us => us = map Some ts') s' /\
       (r = NO_ERROR /\ take n [7; 5] = [7; 5] \/ r = NO_MEMORY /\ oom))
    (oom \/ grow_overflow v (Z.of_nat (length [1; 5] + length [7; 5]))).
Proof.
  apply (sorted_merge_unites Z.sub merge_heap (run_vec 2) [1; 5] (VI (Some 1%nat) 2 7 4) [7; 5]).
  - split; [done|done|by right; repeat constructor|].
    by exists (SB 1 16 [Some 1; Some 5; None; None]).
  - intros [|[|l]] Hge; simpl in *; [lia|lia|]. by rewrite lookup_insert_ne, lookup_singleton_ne.
  - by repeat constructor.
  - done.
  - done.
  - by exists 1%nat.
  - intros [|[|j]] z Hz; inversion Hz; subst z; (split; [done|]);
      exists (SB 1 16 [Some 7; Some 5; None; None]); (split_and!; [done|simpl; lia|done|done]).
Defined.

(** Appending a vector to itself reads the block that [_grow] has just
    released, when the vector is full. *)
Theorem append_self_is_use_after_free :
  (setCapacity 4;; insertArrayAt (PExt [Some 1; Some 2; Some 3; Some 4]) 0 4;;
   v ← self; appendVector v) (VS (Heap ∅ 0) (construct_vector 4 7)) = Fault.
Proof. vm_compute. reflexivity. Qed.

(** Appending nothing to an empty vector reports [NO_MEMORY] although no
    allocation failed. *)
Theorem append_nothing_reports_no_memory :
  appendArray (PExt []) 0 (VS (Heap ∅ 0) (construct_vector 4 7))
  = Ret (NO_MEMORY, VS (Heap ∅ 0) (construct_vector 4 7)).
Proof. vm_compute. reflexivity. Qed.

(** [index + count] wraps around in the bounds check: a request for 2^32 - 1
    items from index 2 passes it and aborts the process in [_shrink], instead
    of being answered with [BAD_VALUE]. *)
Theorem remove_bounds_check_wraps :
  removeItemsAt 2 4294967295 (VS (run_heap [1; 2; 3]) (run_vec 3)) = Abort.
Proof. vm_compute. reflexivity. Qed.

(** Merging a sorted vector that starts with this vector's last key appends
    it as it is: the key is there twice. *)
Theorem merge_sorted_duplicates :
  let h := Heap {[ 0%nat := SB 1 16 [Some 1; Some 5; None; None];
                   1%nat := SB 1 16 [Some 5; Some 9; None; None] ]} 2 in
  match merge Z.sub (VI (Some 1%nat) 2 7 4) (VS h (run_vec 2)) with
  | Ret (r, s') => r = 2 /\ mCount (this s') = 4 /\
                   option_map cells (bufs (vheap s') !! 0%nat) = Some [Some 1; Some 5; Some 5; Some 9]
  | _ => False
  end.
Proof. vm_compute. auto. Qed.

(** Merging a sorted vector into an empty one compares against storage that
    does not exist. *)
Theorem merge_into_empty_reads_null :
  merge Z.sub (run_vec 1) (VS (run_heap [1]) (construct_vector 4 7)) = Fault.
Proof. vm_compute. reflexivity. Qed.

End Runs.
