(* ===== verification/RilEvent.v ===== *)
(** * libril/ril_event.cpp: the event loop

    Events live in a store and are linked into the timer and the pending list
    through their [next] and [prev] fields, as in the source; the two list
    heads are events themselves.  [getNow] is the [now] that a function is
    given.  The list mutex serialises the functions, so each runs as one
    step.  [tv_sec] counts seconds of the monotonic clock and stays far below
    2^31, so that [timeval] arithmetic is on unbounded integers. *)

From S2P Require Import Prelude.

Abbreviation addr := nat (only parsing).

Record timeval : Type := TV { tv_sec : Z; tv_usec : Z }.

Record ril_event : Type := Ev {
  next : option addr;
  prev : option addr;
  fd : Z;
  index : Z;
  persist : bool;
  timeout : timeval;
  func : Z;
  param : Z
}.

Definition MAX_FD_EVENTS : nat := 8.

(** The addresses of the two list heads. *)
Definition timer_list : addr := 0%nat.
Definition pending_list : addr := 1%nat.

Record estate : Type := ES {
  evs : gmap addr ril_event;
  readFds : gset Z;
  nfds : Z;
  watch_table : list (option addr)
}.

Abbreviation E := (M estate).

(** ** Memory *)

Definition load (a : addr) : E ril_event := fun s =>
  match evs s !! a with Some e => Ret (e, s) | None => Fault end.

Definition update (a : addr) (f : ril_event -> ril_event) : E unit := fun s =>
  match evs s !! a with
  | Some e => Ret (tt, ES (<[a := f e]> (evs s)) (readFds s) (nfds s) (watch_table s))
  | None => Fault
  end.

Definition with_next (p : option addr) (e : ril_event) : ril_event :=
  Ev p (prev e) (fd e) (index e) (persist e) (timeout e) (func e) (param e).
Definition with_prev (p : option addr) (e : ril_event) : ril_event :=
  Ev (next e) p (fd e) (index e) (persist e) (timeout e) (func e) (param e).
Definition with_fd (n : Z) (e : ril_event) : ril_event :=
  Ev (next e) (prev e) n (index e) (persist e) (timeout e) (func e) (param e).
Definition with_index (n : Z) (e : ril_event) : ril_event :=
  Ev (next e) (prev e) (fd e) n (persist e) (timeout e) (func e) (param e).
Definition with_timeout (tv : timeval) (e : ril_event) : ril_event :=
  Ev (next e) (prev e) (fd e) (index e) (persist e) tv (func e) (param e).

(** Following a pointer that may be null. *)
Definition ptr (p : option addr) : E addr :=
  match p with Some a => mret a | None => fault end.

Definition set_readFds (r : gset Z) : E unit := fun s => Ret (tt, ES (evs s) r (nfds s) (watch_table s)).
Definition set_nfds (n : Z) : E unit := fun s => Ret (tt, ES (evs s) (readFds s) n (watch_table s)).
Definition set_watch (i : nat) (p : option addr) : E unit := fun s =>
  Ret (tt, ES (evs s) (readFds s) (nfds s) (<[i := p]> (watch_table s))).

Definition clear_watch : E unit := fun s =>
  Ret (tt, ES (evs s) (readFds s) (nfds s) (replicate MAX_FD_EVENTS None)).

(** ** Time *)

Definition timeradd (a b : timeval) : timeval :=
  let sec := tv_sec a + tv_sec b in
  let usec := tv_usec a + tv_usec b in
  if 1000000 <=? usec then TV (sec + 1) (usec - 1000000) else TV sec usec.

(** [timercmp(a, b, >)] and [timercmp(a, b, <)]. *)
Definition timer_gt (a b : timeval) : bool :=
  if tv_sec a =? tv_sec b then tv_usec b <? tv_usec a else tv_sec b <? tv_sec a.
Definition timer_lt (a b : timeval) : bool :=
  if tv_sec a =? tv_sec b then tv_usec a <? tv_usec b else tv_sec a <? tv_sec b.

Definition timersub (a b : timeval) : timeval :=
  let sec := tv_sec a - tv_sec b in
  let usec := tv_usec a - tv_usec b in
  if usec <? 0 then TV (sec - 1) (usec + 1000000) else TV sec usec.

(** ** Lists *)

Definition zero_event : ril_event := Ev None None 0 0 false (TV 0 0) 0 0.

Definition init_list (list : addr) : E unit :=
  update list (fun _ => with_fd (-1) (with_prev (Some list) (with_next (Some list) zero_event))).

Definition addToList (ev list : addr) : E unit :=
  update ev (with_next (Some list));;
  l ← load list;
  update ev (with_prev (prev l));;
  e ← load ev;
  p ← ptr (prev e);
  update p (with_next (Some ev));;
  update list (with_prev (Some ev)).

Definition removeFromList (ev : addr) : E unit :=
  e ← load ev;
  n ← ptr (next e);
  update n (with_prev (prev e));;
  e ← load ev;
  p ← ptr (prev e);
  update p (with_next (next e));;
  update ev (with_next None);;
  update ev (with_prev None).

(** ** The watch table *)

(** The largest watched descriptor, at least [n]. *)
Fixpoint max_fd (table : list (option addr)) (n : Z) : E Z :=
  match table with
  | [] => mret n
  | None :: t => max_fd t n
  | Some rev :: t => e ← load rev; max_fd t (if n <? fd e then fd e else n)
  end.

Definition removeWatch (ev : addr) (i : nat) : E unit :=
  set_watch i None;;
  update ev (with_index (-1));;
  e ← load ev;
  s ← get;
  set_readFds (readFds s ∖ {[ fd e ]});;
  if fd e + 1 =? nfds s then
    s ← get;
    n ← max_fd (watch_table s) 0;
    set_nfds (n + 1)
  else mret tt.

(** ** The phases of the loop *)

(** The walk over the timer list; [fuel] bounds the events on it. *)
Fixpoint timeouts_loop (fuel : nat) (now : timeval) (tev : addr) : E unit :=
  match fuel with
  | O => fault
  | S fuel' =>
      if bool_decide (tev = timer_list) then mret tt else
      e ← load tev;
      if timer_gt now (timeout e) then
        n ← ptr (next e);
        removeFromList tev;;
        addToList tev pending_list;;
        timeouts_loop fuel' now n
      else mret tt
  end.

Definition processTimeouts (fuel : nat) (now : timeval) : E unit :=
  head ← load timer_list;
  tev ← ptr (next head);
  timeouts_loop fuel now tev.

(** The walk over the watch table from index [i], with [k] entries left. *)
Fixpoint readies_loop (k : nat) (i : nat) (rfds : gset Z) (n : Z) : E unit :=
  match k with
  | O => mret tt
  | S k' =>
      if 0 <? n then
        s ← get;
        match watch_table s !! i with
        | Some (Some rev) =>
            e ← load rev;
            if bool_decide (fd e ∈ rfds) then
              addToList rev pending_list;;
              (if negb (persist e) then removeWatch rev i else mret tt);;
              readies_loop k' (S i) rfds (n - 1)
            else readies_loop k' (S i) rfds n
        | _ => readies_loop k' (S i) rfds n
        end
      else mret tt
  end.

Definition processReadReadies (rfds : gset Z) (n : Z) : E unit :=
  readies_loop MAX_FD_EVENTS 0 rfds n.

Section Fire.
(** [ev->func(ev->fd, 0, ev->param)], which may call back into this module. *)
Variable call : Z -> Z -> Z -> E unit.

Fixpoint fire_loop (fuel : nat) (ev : addr) : E unit :=
  match fuel with
  | O => fault
  | S fuel' =>
      if bool_decide (ev = pending_list) then mret tt else
      e ← load ev;
      n ← ptr (next e);
      removeFromList ev;;
      e ← load ev;
      call (func e) (fd e) (param e);;
      fire_loop fuel' n
  end.

Definition firePending (fuel : nat) : E unit :=
  head ← load pending_list;
  ev ← ptr (next head);
  fire_loop fuel ev.
End Fire.

Definition calcNextTimeout (now : timeval) : E (option timeval) :=
  head ← load timer_list;
  tev ← ptr (next head);
  if bool_decide (tev = timer_list) then mret None else
  e ← load tev;
  mret (Some (if timer_gt (timeout e) now then timersub (timeout e) now else TV 0 0)).

(** ** The interface *)

Definition ril_event_init : E unit :=
  set_readFds ∅;;
  init_list timer_list;;
  init_list pending_list;;
  clear_watch.

Definition ril_event_set (ev : addr) (f : Z) (pers : bool) (fn prm : Z) : E unit :=
  update ev (fun _ => Ev None None f (-1) pers (TV 0 0) fn prm).

(** The first free entry from index [i] on. *)
Fixpoint add_loop (k i : nat) (ev : addr) : E unit :=
  match k with
  | O => mret tt
  | S k' =>
      s ← get;
      match watch_table s !! i with
      | Some None =>
          set_watch i (Some ev);;
          update ev (with_index (Z.of_nat i));;
          e ← load ev;
          set_readFds (readFds s ∪ {[ fd e ]});;
          if nfds s <=? fd e then set_nfds (fd e + 1) else mret tt
      | _ => add_loop k' (S i) ev
      end
  end.

Definition ril_event_add (ev : addr) : E unit := add_loop MAX_FD_EVENTS 0 ev.

(** The insertion point: the comparison reads the timeout of the head, too,
    before it is recognised as the end of the list. *)
Fixpoint timer_loop (fuel : nat) (deadline : timeval) (list : addr) : E addr :=
  match fuel with
  | O => fault
  | S fuel' =>
      l ← load list;
      if timer_lt (timeout l) deadline && negb (bool_decide (list = timer_list)) then
        n ← ptr (next l);
        timer_loop fuel' deadline n
      else mret list
  end.

Definition ril_timer_add (fuel : nat) (now : timeval) (ev : addr) (tv : option timeval) : E unit :=
  match tv with
  | None => mret tt
  | Some tv =>
      head ← load timer_list;
      list ← ptr (next head);
      update ev (with_fd (-1));;
      let deadline := timeradd now tv in
      update ev (with_timeout deadline);;
      list ← timer_loop fuel deadline list;
      addToList ev list
  end.

Definition ril_event_del (ev : addr) : E unit :=
  e ← load ev;
  if (index e <? 0) || (Z.of_nat MAX_FD_EVENTS <=? index e) then mret tt
  else removeWatch ev (Z.to_nat (index e)).

(** One round of [ril_event_loop] after [select] returned [n >= 0] and left
    the ready descriptors in [rfds]; [now] is the clock that
    [processTimeouts] reads. *)
Definition loop_round (call : Z -> Z -> Z -> E unit) (fuel : nat) (now : timeval) (rfds : gset Z) (n : Z) : E unit :=
  processTimeouts fuel now;;
  processReadReadies rfds n;;
  firePending call fuel.

(** ** Doubly linked lists *)

(** What the list operations may change: links only. *)
Definition payload (e : ril_event) : Z * Z * bool * timeval * Z * Z :=
  (fd e, index e, persist e, timeout e, func e, param e).

Definition nxt (m : gmap addr ril_event) (a : addr) : option addr := m !! a ≫= next.
Definition prv (m : gmap addr ril_event) (a : addr) : option addr := m !! a ≫= prev.

(** Consecutive elements point at each other. *)
Fixpoint linked (m : gmap addr ril_event) (l : list addr) : Prop :=
  match l with
  | a :: (b :: _) as t => nxt m a = Some b /\ prv m b = Some a /\ linked m t
  | _ => True
  end.

(** [dlist m h xs]: the list with head [h] holds the events [xs]. *)
Definition dlist (m : gmap addr ril_event) (h : addr) (xs : list addr) : Prop :=
  NoDup (h :: xs) /\ linked m (h :: xs ++ [h]).

Lemma linked_cons m a b t : linked m (a :: b :: t) <-> nxt m a = Some b /\ prv m b = Some a /\ linked m (b :: t).
Proof. done. Qed.

Lemma linked_app m l1 a l2 : linked m (l1 ++ a :: l2) <-> linked m (l1 ++ [a]) /\ linked m (a :: l2).
Proof.
  induction l1 as [|x l1 IH]; [simpl; tauto|]. destruct l1 as [|y l1].
  - simpl. tauto.
  - rewrite <- !app_comm_cons in *. rewrite !linked_cons, IH. tauto.
Qed.

(** Only the successors of all but the last and the predecessors of all but
    the first matter. *)
Lemma linked_frame m m' l :
  linked m l -> (forall i a, l !! i = Some a -> (S i < length l)%nat -> nxt m' a = nxt m a) ->
  (forall i a, l !! S i = Some a -> prv m' a = prv m a) -> linked m' l.
Proof.
  induction l as [|a [|b t] IH]; [done|done|]. rewrite !linked_cons. intros (H1 & H2 & H3) Hn Hp.
  rewrite (Hn 0%nat a eq_refl), (Hp 0%nat b eq_refl) by (simpl; lia). split; [done|]. split; [done|].
  apply IH; [done| |].
  - intros i x Hi Hlt. apply (Hn (S i)); [done|simpl in *; lia].
  - intros i x Hi. by apply (Hp (S i)).
Qed.

(** Effect of one store on the two link functions. *)
Lemma nxt_set_next m a e p x : m !! a = Some e ->
  nxt (<[a := with_next p e]> m) x = if decide (x = a) then p else nxt m x.
Proof.
  intros Ha. unfold nxt. case_decide as E; [subst; by rewrite lookup_insert_eq|].
  by rewrite lookup_insert_ne.
Qed.

Lemma prv_set_next m a e p x : m !! a = Some e -> prv (<[a := with_next p e]> m) x = prv m x.
Proof.
  intros Ha. unfold prv. destruct (decide (x = a)) as [->|]; [by rewrite lookup_insert_eq, Ha|].
  by rewrite lookup_insert_ne.
Qed.

Lemma prv_set_prev m a e p x : m !! a = Some e ->
  prv (<[a := with_prev p e]> m) x = if decide (x = a) then p else prv m x.
Proof.
  intros Ha. unfold prv. case_decide as E; [subst; by rewrite lookup_insert_eq|].
  by rewrite lookup_insert_ne.
Qed.

Lemma nxt_set_prev m a e p x : m !! a = Some e -> nxt (<[a := with_prev p e]> m) x = nxt m x.
Proof.
  intros Ha. unfold nxt. destruct (decide (x = a)) as [->|]; [by rewrite lookup_insert_eq, Ha|].
  by rewrite lookup_insert_ne.
Qed.

(** Two stores of events that differ in links only. *)
Definition same_payload (m m' : gmap addr ril_event) : Prop :=
  forall a, payload <$> (m' !! a) = payload <$> (m !! a).

Lemma same_payload_set m a e f : m !! a = Some e -> payload (f e) = payload e -> same_payload m (<[a := f e]> m).
Proof.
  intros Ha Hf x. destruct (decide (x = a)) as [->|]; [|by rewrite lookup_insert_ne].
  rewrite lookup_insert_eq, Ha. simpl. by rewrite Hf.
Qed.

#[global] Instance same_payload_preorder : PreOrder same_payload.
Proof. split; [done|]. intros m1 m2 m3 H1 H2 a. by rewrite H2, H1. Qed.

(** Running [update]. *)
Lemma update_run s a e f : evs s !! a = Some e ->
  update a f s = Ret (tt, ES (<[a := f e]> (evs s)) (readFds s) (nfds s) (watch_table s)).
Proof. unfold update. by intros ->. Qed.

Lemma load_run s a e : evs s !! a = Some e -> load a s = Ret (e, s).
Proof. unfold load. by intros ->. Qed.

Lemma nxt_Some m a b : nxt m a = Some b -> exists e, m !! a = Some e /\ next e = Some b.
Proof. unfold nxt. destruct (m !! a) as [e|]; [|done]. simpl. eauto. Qed.

Lemma prv_Some m a b : prv m a = Some b -> exists e, m !! a = Some e /\ prev e = Some b.
Proof. unfold prv. destruct (m !! a) as [e|]; [|done]. simpl. eauto. Qed.

Definition with_evs (s : estate) (m : gmap addr ril_event) : estate :=
  ES m (readFds s) (nfds s) (watch_table s).

(** [addToList] and [removeFromList] as functions on links. *)
Lemma addToList_run s ev list p :
  is_Some (evs s !! ev) -> prv (evs s) list = Some p -> is_Some (evs s !! p) -> ev <> list -> ev <> p ->
  exists m', addToList ev list s = Ret (tt, with_evs s m') /\ same_payload (evs s) m' /\
    (forall x, nxt m' x = if decide (x = p) then Some ev else if decide (x = ev) then Some list else nxt (evs s) x) /\
    (forall x, prv m' x = if decide (x = list) then Some ev else if decide (x = ev) then Some p else prv (evs s) x).
Proof.
  intros [e He] Hl [ep Hp] Hne Hnp. destruct (prv_Some _ _ _ Hl) as (l & Hll & Elp). unfold addToList.
  erewrite bind_run by (by apply update_run). set (m1 := <[ev:=with_next (Some list) e]> (evs s)).
  assert (H1 : m1 !! list = Some l) by (by apply lookup_insert_ne_Some || (unfold m1; by rewrite lookup_insert_ne)).
  erewrite bind_run by (by apply load_run). rewrite Elp.
  assert (H2 : m1 !! ev = Some (with_next (Some list) e)) by apply lookup_insert_eq.
  erewrite bind_run by (by apply update_run). cbn [evs readFds nfds watch_table].
  set (m2 := <[ev:=with_prev (Some p) (with_next (Some list) e)]> m1).
  assert (H3 : m2 !! ev = Some (with_prev (Some p) (with_next (Some list) e))) by apply lookup_insert_eq.
  erewrite bind_run by (by apply load_run). erewrite bind_run by done.
  assert (H4 : m2 !! p = Some ep) by (unfold m2, m1; by rewrite !lookup_insert_ne).
  erewrite bind_run by (by apply update_run). cbn [evs readFds nfds watch_table].
  set (m3 := <[p:=with_next (Some ev) ep]> m2).
  assert (H5 : exists l3, m3 !! list = Some l3) by (unfold m3; destruct (decide (list = p)) as [->|];
    [rewrite lookup_insert_eq; eauto|rewrite lookup_insert_ne by done; unfold m2; rewrite lookup_insert_ne by done; eauto]).
  destruct H5 as [l3 H5]. rewrite (update_run _ _ l3) by done.
  eexists. split; [done|]. cbn [evs]. split; [|split].
  - transitivity m1; [by apply same_payload_set|]. transitivity m2; [by apply same_payload_set|].
    transitivity m3; by apply same_payload_set.
  - intros x. rewrite nxt_set_prev by done. unfold m3. rewrite nxt_set_next by done.
    case_decide; [done|]. unfold m2. rewrite nxt_set_prev by done. unfold m1. by rewrite nxt_set_next.
  - intros x. rewrite prv_set_prev by done. case_decide; [done|]. unfold m3. rewrite prv_set_next by done.
    unfold m2. rewrite prv_set_prev by done. case_decide; [done|]. unfold m1. by rewrite prv_set_next.
Qed.

Lemma removeFromList_run s ev p n :
  nxt (evs s) ev = Some n -> prv (evs s) ev = Some p -> is_Some (evs s !! n) -> is_Some (evs s !! p) ->
  ev <> n -> ev <> p ->
  exists m', removeFromList ev s = Ret (tt, with_evs s m') /\ same_payload (evs s) m' /\
    (forall x, nxt m' x = if decide (x = ev) then None else if decide (x = p) then Some n else nxt (evs s) x) /\
    (forall x, prv m' x = if decide (x = ev) then None else if decide (x = n) then Some p else prv (evs s) x).
Proof.
  intros Hn Hp [en Hen] [ep Hep] Hne Hpe. destruct (nxt_Some _ _ _ Hn) as (e & He & Een).
  assert (Eep : prev e = Some p) by (unfold prv in Hp; by rewrite He in Hp). unfold removeFromList.
  erewrite bind_run by (by apply load_run). rewrite Een. erewrite bind_run by done.
  erewrite bind_run by (by apply update_run). set (m1 := <[n:=_]> (evs s)).
  assert (H1 : m1 !! ev = Some e) by (unfold m1; by rewrite lookup_insert_ne).
  erewrite bind_run by (by apply load_run). rewrite Eep. erewrite bind_run by done.
  assert (H2 : exists ep', m1 !! p = Some ep') by (unfold m1; destruct (decide (p = n)) as [->|];
    [rewrite lookup_insert_eq; eauto|rewrite lookup_insert_ne by done; eauto]).
  destruct H2 as [ep' H2]. erewrite bind_run by (by apply update_run). cbn [evs readFds nfds watch_table].
  rewrite Een. set (m2 := <[p:=_]> m1).
  assert (H3 : m2 !! ev = Some e) by (unfold m2; by rewrite lookup_insert_ne).
  erewrite bind_run by (by apply update_run). cbn [evs readFds nfds watch_table].
  set (m3 := <[ev:=_]> m2). assert (H4 : m3 !! ev = Some (with_next None e)) by apply lookup_insert_eq.
  erewrite update_run by done. eexists. split; [done|]. cbn [evs]. split; [|split].
  - transitivity m1; [by apply (same_payload_set _ _ _ (with_prev (prev e)))|].
    transitivity m2; [by apply (same_payload_set _ _ _ (with_next (Some n)))|].
    transitivity m3; [by apply (same_payload_set _ _ _ (with_next None))|].
    by apply (same_payload_set _ _ _ (with_prev None)).
  - intros x. rewrite nxt_set_prev by done. unfold m3. rewrite nxt_set_next by done. case_decide; [done|].
    unfold m2. rewrite nxt_set_next by done. case_decide; [done|]. unfold m1. by rewrite nxt_set_prev.
  - intros x. rewrite prv_set_prev by done. case_decide; [done|]. unfold m3. rewrite prv_set_next by done.
    unfold m2. rewrite prv_set_next by done. unfold m1. rewrite prv_set_prev by done. by rewrite Eep.
Qed.

(** ** The list operations on [dlist] *)

(** The ring [h, xs, ys, h] cut between [p], the last of [h, xs], and [q],
    the first of [ys, h]: changing the successor of [p] and the predecessor of
    [q] leaves both halves linked. *)
Lemma ring_frame m m' h xs ys p q l1 l2 :
  NoDup (h :: xs ++ ys) -> h :: xs = l1 ++ [p] -> ys ++ [h] = q :: l2 ->
  linked m (l1 ++ [p]) -> linked m (q :: l2) ->
  (forall x, x <> p -> x ∈ h :: xs ++ ys -> nxt m' x = nxt m x) ->
  (forall x, x <> q -> x ∈ h :: xs ++ ys -> prv m' x = prv m x) ->
  linked m' (l1 ++ [p]) /\ linked m' (q :: l2).
Proof.
  intros Hnd E1 E2 H1 H2 Hn Hp. change (h :: xs ++ ys) with ((h :: xs) ++ ys) in *.
  pose proof Hnd as (Hnd1 & Hdis & Hnd2)%NoDup_app.
  assert (Hndq : NoDup (q :: l2)).
  { rewrite <- E2. apply NoDup_app. split; [done|]. split; [|apply NoDup_singleton].
    intros x Hx ->%list_elem_of_singleton. apply (Hdis h); [apply list_elem_of_here|done]. }
  assert (Hq : q = h \/ q ∈ ys).
  { assert (Hq : q ∈ ys ++ [h]) by (rewrite E2; apply list_elem_of_here).
    apply elem_of_app in Hq as [?| ->%list_elem_of_singleton]; auto. }
  split; (eapply linked_frame; [eassumption| |]).
  - intros i x Hi Hlt. rewrite length_app in Hlt. simpl in Hlt. apply Hn.
    + intros ->. rewrite E1 in Hnd1. apply NoDup_app in Hnd1 as (_ & Hd & _).
      rewrite lookup_app_l in Hi by lia. apply (Hd p); [by eapply list_elem_of_lookup_2|apply list_elem_of_here].
    + rewrite <- E1 in Hi. apply elem_of_app. left. by eapply list_elem_of_lookup_2.
  - intros i x Hi. rewrite <- E1 in Hi. simpl in Hi. apply list_elem_of_lookup_2 in Hi. apply Hp.
    + intros ->. destruct Hq as [->|Hq]; [by apply NoDup_cons in Hnd1 as [? _]|].
      apply (Hdis q); [by apply list_elem_of_further|done].
    + apply elem_of_app. left. by apply list_elem_of_further.
  - intros i x Hi Hlt. rewrite <- E2 in Hi, Hlt. rewrite length_app in Hlt. simpl in Hlt.
    rewrite lookup_app_l in Hi by lia. apply list_elem_of_lookup_2 in Hi. apply Hn.
    + intros ->. apply (Hdis p); [rewrite E1; apply elem_of_app; right; apply list_elem_of_here|done].
    + apply elem_of_app. by right.
  - intros i x Hi. simpl in Hi. apply list_elem_of_lookup_2 in Hi. apply Hp.
    + intros ->. by apply NoDup_cons in Hndq as [? _].
    + assert (Hx : x ∈ ys ++ [h]) by (rewrite E2; by apply list_elem_of_further).
      apply elem_of_app in Hx as [Hx| ->%list_elem_of_singleton]; apply elem_of_app; [by right|left; apply list_elem_of_here].
Qed.

(** The ring as a cut list, and the two neighbours of the cut. *)
Lemma ring_cut {A} (h : A) xs ys :
  exists p q l1 l2, last (h :: xs) = Some p /\ head (ys ++ [h]) = Some q /\
    h :: xs = l1 ++ [p] /\ ys ++ [h] = q :: l2 /\ p ∈ h :: xs /\ q ∈ h :: ys.
Proof.
  destruct (last (h :: xs)) as [p|] eqn:Hp; [|by apply last_None in Hp].
  pose proof Hp as [l1 Hl1]%last_Some. destruct (ys ++ [h]) as [|q l2] eqn:E; [by destruct ys|].
  exists p, q, l1, l2. rewrite Hl1. split_and!; try done; [apply elem_of_app; right; apply list_elem_of_here|].
  assert (Hq : q ∈ ys ++ [h]) by (rewrite E; apply list_elem_of_here).
  apply elem_of_app in Hq as [?| ->%list_elem_of_singleton]; [by apply list_elem_of_further|apply list_elem_of_here].
Qed.

Lemma dlist_insert m m' h xs ys p q ev :
  dlist m h (xs ++ ys) -> ev ∉ h :: xs ++ ys -> last (h :: xs) = Some p -> head (ys ++ [h]) = Some q ->
  (forall x, nxt m' x = if decide (x = p) then Some ev else if decide (x = ev) then Some q else nxt m x) ->
  (forall x, prv m' x = if decide (x = q) then Some ev else if decide (x = ev) then Some p else prv m x) ->
  dlist m' h (xs ++ ev :: ys).
Proof.
  intros [Hnd Hl] Hev Hp Hq Hn' Hp'.
  destruct (ring_cut h xs ys) as (p' & q' & l1 & l2 & Ep & Eq & E1 & E2 & Hpin & Hqin).
  rewrite Hp in Ep. injection Ep as <-. rewrite Hq in Eq. injection Eq as <-.
  split; [rewrite <- Permutation_middle, Permutation_swap; by constructor|].
  rewrite <- app_assoc, E2, (app_comm_cons xs _ h), E1, <- app_assoc in Hl. cbn [app] in Hl.
  rewrite <- app_assoc, <- app_comm_cons, E2, (app_comm_cons xs _ h), E1, <- app_assoc. cbn [app].
  apply linked_app in Hl as [HA HB]. rewrite linked_cons in HB. destruct HB as (_ & _ & HB).
  assert (Hpe : p <> ev) by (intros ->; apply Hev, (elem_of_app (h :: xs)); by left).
  assert (Hqe : q <> ev) by (intros ->; apply Hev; apply elem_of_cons in Hqin as [->|?];
    [apply list_elem_of_here|apply (elem_of_app (h :: xs)); by right]).
  destruct (ring_frame m m' h xs ys p q l1 l2) as [HA' HB']; try done.
  - intros x Hx Hin. rewrite Hn', decide_False, decide_False; [done|by intros ->|done].
  - intros x Hx Hin. rewrite Hp', decide_False, decide_False; [done|by intros ->|done].
  - apply linked_app. split; [done|]. rewrite !linked_cons. split_and!; [..|done].
    + by rewrite Hn', decide_True.
    + by rewrite Hp', decide_False, decide_True.
    + by rewrite Hn', decide_False, decide_True.
    + by rewrite Hp', decide_True.
Qed.

Lemma dlist_remove m m' h xs ys p q ev :
  dlist m h (xs ++ ev :: ys) -> last (h :: xs) = Some p -> head (ys ++ [h]) = Some q ->
  (forall x, nxt m' x = if decide (x = ev) then None else if decide (x = p) then Some q else nxt m x) ->
  (forall x, prv m' x = if decide (x = ev) then None else if decide (x = q) then Some p else prv m x) ->
  dlist m' h (xs ++ ys) /\ ev ∉ h :: xs ++ ys.
Proof.
  intros [Hnd Hl] Hp Hq Hn' Hp'.
  destruct (ring_cut h xs ys) as (p' & q' & l1 & l2 & Ep & Eq & E1 & E2 & Hpin & Hqin).
  rewrite Hp in Ep. injection Ep as <-. rewrite Hq in Eq. injection Eq as <-.
  rewrite <- Permutation_middle, Permutation_swap in Hnd. apply NoDup_cons in Hnd as [Hev Hnd].
  split; [|done]. split; [done|].
  rewrite <- app_assoc, <- app_comm_cons, E2, (app_comm_cons xs _ h), E1, <- app_assoc in Hl. cbn [app] in Hl.
  rewrite <- app_assoc, E2, (app_comm_cons xs _ h), E1, <- app_assoc. cbn [app].
  apply linked_app in Hl as [HA HB]. rewrite !linked_cons in HB. destruct HB as (_ & _ & _ & _ & HB).
  assert (Hpe : p <> ev) by (intros ->; apply Hev, (elem_of_app (h :: xs)); by left).
  assert (Hqe : q <> ev) by (intros ->; apply Hev; apply elem_of_cons in Hqin as [->|?];
    [apply list_elem_of_here|apply (elem_of_app (h :: xs)); by right]).
  destruct (ring_frame m m' h xs ys p q l1 l2) as [HA' HB']; try done.
  - intros x Hx Hin. rewrite Hn', decide_False, decide_False; [done|done|by intros ->].
  - intros x Hx Hin. rewrite Hp', decide_False, decide_False; [done|done|by intros ->].
  - apply linked_app. split; [done|]. rewrite linked_cons. split_and!; [..|done].
    + by rewrite Hn', decide_False, decide_True.
    + by rewrite Hp', decide_False, decide_True.
Qed.
