(* ===== verification/RilEventSpec.v ===== *)
(** * The event loop on lists

    The timer list as a list sorted by deadline, the pending list as a queue
    and the watch table as a set; each function of [ril_event.cpp] against
    them. *)

From S2P Require Import Prelude RilEvent.

(** ** Neighbours *)

Lemma linked_lookup m l i a b : linked m l -> l !! i = Some a -> l !! S i = Some b ->
  nxt m a = Some b /\ prv m b = Some a.
Proof.
  revert i. induction l as [|x [|y t] IH]; intros i Hl Ha Hb; [done|by destruct i|].
  rewrite linked_cons in Hl. destruct Hl as (H1 & H2 & H3). destruct i as [|i]; simpl in *.
  - by simplify_eq.
  - by apply (IH i).
Qed.

Lemma dlist_cut m h xs ys p q :
  dlist m h (xs ++ ys) -> last (h :: xs) = Some p -> head (ys ++ [h]) = Some q ->
  nxt m p = Some q /\ prv m q = Some p.
Proof.
  intros [_ Hl] Hp Hq. apply (linked_lookup m (h :: (xs ++ ys) ++ [h]) (length xs)); [done| |].
  - rewrite <- app_assoc, app_comm_cons, lookup_app_l by (simpl; lia). by rewrite last_lookup in Hp.
  - rewrite <- app_assoc, app_comm_cons, lookup_app_r by (simpl; lia). simpl. rewrite Nat.sub_diag.
    by rewrite <- head_lookup.
Qed.

Lemma dlist_present m h xs a : dlist m h xs -> a ∈ h :: xs -> is_Some (m !! a).
Proof.
  intros [_ Hl] Ha. apply list_elem_of_lookup in Ha as [i Hi].
  assert (Hlt : (i < length (h :: xs))%nat) by (by eapply lookup_lt_Some).
  destruct (lookup_lt_is_Some_2 (h :: xs ++ [h]) (S i)) as [b Hb]; [simpl in *; rewrite length_app; simpl; lia|].
  destruct (linked_lookup m (h :: xs ++ [h]) i a b Hl) as [Hn _]; [|done|].
  - rewrite app_comm_cons, lookup_app_l by done. done.
  - apply nxt_Some in Hn as (e & He & _). eauto.
Qed.

(** Lists over other events are not affected. *)
Lemma dlist_frame m m' h xs :
  dlist m h xs -> (forall x, x ∈ h :: xs -> nxt m' x = nxt m x /\ prv m' x = prv m x) -> dlist m' h xs.
Proof.
  intros [Hnd Hl] Hf. split; [done|].
  assert (Hin : forall x, x ∈ h :: xs ++ [h] -> x ∈ h :: xs).
  { intros x. rewrite !elem_of_cons, elem_of_app, list_elem_of_singleton. tauto. }
  eapply linked_frame; [exact Hl| |]; intros; apply Hf, Hin; by eapply list_elem_of_lookup_2.
Qed.

(** ** The list operations *)

Lemma addToList_dlist s h xs ys q ev :
  dlist (evs s) h (xs ++ ys) -> ev ∉ h :: xs ++ ys -> is_Some (evs s !! ev) -> head (ys ++ [h]) = Some q ->
  exists m', addToList ev q s = Ret (tt, with_evs s m') /\ same_payload (evs s) m' /\
    dlist m' h (xs ++ ev :: ys) /\
    (forall x, x ∉ ev :: h :: xs ++ ys -> nxt m' x = nxt (evs s) x /\ prv m' x = prv (evs s) x).
Proof.
  intros Hd Hev Hs Hq. destruct (ring_cut h xs ys) as (p & q' & l1 & l2 & Hp & Hq' & _ & _ & Hpin & Hqin).
  rewrite Hq in Hq'. injection Hq' as <-. destruct (dlist_cut _ _ _ _ _ _ Hd Hp Hq) as [_ Hprv].
  assert (Hpin' : p ∈ h :: xs ++ ys) by (apply (elem_of_app (h :: xs)); by left).
  assert (Hqin' : q ∈ h :: xs ++ ys) by (apply elem_of_cons in Hqin as [->|?];
    [apply list_elem_of_here|apply (elem_of_app (h :: xs)); by right]).
  destruct (addToList_run s ev q p) as (m' & Hrun & Hpay & Hn & Hpv); try done; try (by intros ->).
  { exact (dlist_present _ _ _ _ Hd Hpin'). }
  exists m'. split; [done|]. split; [done|]. split; [by eapply dlist_insert|].
  intros x Hx. rewrite Hn, Hpv, !decide_False; [done|..]; intros ->; apply Hx;
    first [apply list_elem_of_here|by apply list_elem_of_further].
Qed.

Lemma removeFromList_dlist s h xs ys ev :
  dlist (evs s) h (xs ++ ev :: ys) ->
  exists m', removeFromList ev s = Ret (tt, with_evs s m') /\ same_payload (evs s) m' /\
    dlist m' h (xs ++ ys) /\ (ev ∉ h :: xs ++ ys) /\
    (forall x, x ∉ h :: xs ++ ev :: ys -> nxt m' x = nxt (evs s) x /\ prv m' x = prv (evs s) x).
Proof.
  intros Hd. destruct (ring_cut h xs ys) as (p & q & l1 & l2 & Hp & Hq & _ & _ & Hpin & Hqin).
  assert (Hqe : head (ev :: ys ++ [h]) = Some ev) by done.
  destruct (dlist_cut _ h xs (ev :: ys) p ev Hd Hp Hqe) as [_ Hprv].
  assert (Hd2 : dlist (evs s) h ((xs ++ [ev]) ++ ys)) by (by rewrite <- app_assoc).
  destruct (dlist_cut _ h (xs ++ [ev]) ys ev q Hd2) as [Hnxt _]; [by rewrite app_comm_cons, last_snoc|done|].
  assert (Hpin' : p ∈ h :: xs ++ ev :: ys) by (apply (elem_of_app (h :: xs)); by left).
  assert (Hqin' : q ∈ h :: xs ++ ev :: ys) by (apply elem_of_cons in Hqin as [->|?];
    [apply list_elem_of_here|apply (elem_of_app (h :: xs)); right; by apply list_elem_of_further]).
  assert (Hev : ev ∉ h :: xs ++ ys).
  { destruct Hd as [Hnd _]. rewrite <- Permutation_middle, Permutation_swap in Hnd. by apply NoDup_cons in Hnd as [? _]. }
  destruct (removeFromList_run s ev p q) as (m' & Hrun & Hpay & Hn & Hpv); try done.
  { exact (dlist_present _ _ _ _ Hd Hqin'). } { exact (dlist_present _ _ _ _ Hd Hpin'). }
  { intros ->. apply Hev. apply elem_of_cons in Hqin as [->|?]; [apply list_elem_of_here|].
    apply (elem_of_app (h :: xs)). by right. }
  { intros ->. apply Hev, (elem_of_app (h :: xs)). by left. }
  destruct (dlist_remove _ m' h xs ys p q ev Hd Hp Hq Hn Hpv) as [Hd' _].
  exists m'. split_and!; try done. intros x Hx.
  rewrite Hn, Hpv, !decide_False; [done|..]; intros ->; try done;
    apply Hx, (elem_of_app (h :: xs)); right; apply list_elem_of_here.
Qed.

(** ** Deadlines *)

Definition deadline (m : gmap addr ril_event) (a : addr) : option timeval := timeout <$> m !! a.

Lemma deadline_same m m' a : same_payload m m' -> deadline m' a = deadline m a.
Proof.
  intros H. unfold deadline. specialize (H a). destruct (m' !! a), (m !! a); simplify_eq/=; congruence.
Qed.

(** [a] is not due before [b]. *)
Definition timer_le (a b : timeval) : Prop := timer_lt b a = false.

Lemma timer_lt_spec a b :
  timer_lt a b = true <-> tv_sec a < tv_sec b \/ tv_sec a = tv_sec b /\ tv_usec a < tv_usec b.
Proof. unfold timer_lt. destruct (Z.eqb_spec (tv_sec a) (tv_sec b)); rewrite Z.ltb_lt; lia. Qed.

Lemma timer_gt_lt a b : timer_gt a b = timer_lt b a.
Proof. unfold timer_gt, timer_lt. by rewrite (Z.eqb_sym (tv_sec a)). Qed.

Lemma timer_le_spec a b :
  timer_le a b <-> tv_sec a < tv_sec b \/ tv_sec a = tv_sec b /\ tv_usec a <= tv_usec b.
Proof. unfold timer_le. rewrite <- not_true_iff_false, timer_lt_spec. lia. Qed.

Definition due_before (m : gmap addr ril_event) (a b : addr) : Prop :=
  forall ta tb, deadline m a = Some ta -> deadline m b = Some tb -> timer_le ta tb.

(** The timer list is sorted by deadline. *)
Definition timers_sorted (m : gmap addr ril_event) (ts : list addr) : Prop := StronglySorted (due_before m) ts.

Lemma timers_sorted_same m m' ts : same_payload m m' -> timers_sorted m ts -> timers_sorted m' ts.
Proof.
  intros Hp. unfold timers_sorted. induction 1 as [|a ts Hs IH Hf]; constructor; [done|].
  eapply Forall_impl; [exact Hf|]. intros b Hb ta tb. rewrite !(deadline_same m m') by done. apply Hb.
Qed.

(** ** The invariant of the two lists *)

Record lists_ok (m : gmap addr ril_event) (ts ps : list addr) : Prop := {
  lok_timers : dlist m timer_list ts;
  lok_pending : dlist m pending_list ps;
  lok_apart : NoDup (timer_list :: pending_list :: ts ++ ps)
}.

Lemma lists_apart m ts ps a : lists_ok m ts ps -> a ∈ timer_list :: ts -> a ∉ pending_list :: ps.
Proof.
  intros [_ _ Hnd] Ha Hp. apply NoDup_cons in Hnd as [H1 Hnd]. apply NoDup_cons in Hnd as [H2 Hnd].
  apply NoDup_app in Hnd as (_ & Hd & _). apply elem_of_cons in Ha as [->|Ha]; apply elem_of_cons in Hp as [E|Hp].
  - done.
  - apply H1, elem_of_cons. right. apply elem_of_app. by right.
  - subst a. apply H2, elem_of_app. by left.
  - by apply (Hd a).
Qed.

Lemma head_snoc_cons {A} (x : A) l h : head ((x :: l) ++ [h]) = Some x.
Proof. done. Qed.

(** Moving the first timer to the end of the pending list. *)
Lemma move_to_pending s ev ts ps :
  lists_ok (evs s) (ev :: ts) ps ->
  exists m', (removeFromList ev;; addToList ev pending_list) s = Ret (tt, with_evs s m') /\
    same_payload (evs s) m' /\ lists_ok m' ts (ps ++ [ev]).
Proof.
  intros Hl. pose proof Hl as [Ht Hp Hnd].
  destruct (removeFromList_dlist s timer_list [] ts ev Ht) as (m1 & Hr1 & Hpay1 & Ht1 & Hev1 & Hf1).
  assert (Hev : ev ∉ pending_list :: ps) by (eapply lists_apart; [exact Hl|apply list_elem_of_further, list_elem_of_here]).
  assert (Hp1 : dlist m1 pending_list ps).
  { eapply dlist_frame; [exact Hp|]. intros x Hx. apply Hf1. intros Hx'. by apply (lists_apart _ _ _ x Hl). }
  assert (Hsome : is_Some (m1 !! ev)).
  { specialize (Hpay1 ev). destruct (dlist_present _ _ _ ev Ht) as [e He]; [apply list_elem_of_further, list_elem_of_here|].
    rewrite He in Hpay1. destruct (m1 !! ev); [eauto|done]. }
  destruct (addToList_dlist (with_evs s m1) pending_list ps [] pending_list ev) as (m2 & Hr2 & Hpay2 & Hp2 & Hf2);
    [by rewrite app_nil_r|by rewrite app_nil_r|done|done|].
  exists m2. erewrite bind_run by exact Hr1. split; [exact Hr2|]. split; [by etransitivity|].
  split; [|done|].
  - eapply dlist_frame; [exact Ht1|]. intros x Hx. apply Hf2. rewrite app_nil_r, elem_of_cons. intros [->|Hx']; [done|].
    apply (lists_apart _ _ _ x Hl); [|done]. apply elem_of_cons in Hx as [->|Hx]; [apply list_elem_of_here|].
    by apply list_elem_of_further, list_elem_of_further.
  - rewrite app_assoc. rewrite <- Permutation_cons_append. exact Hnd.
Qed.

(** ** processTimeouts *)

Definition expired (m : gmap addr ril_event) (now : timeval) (a : addr) : Prop :=
  exists t, deadline m a = Some t /\ timer_lt t now = true.

(** [now >= ev->timeout]: what the comment of [processTimeouts] asks for. *)
Definition due (m : gmap addr ril_event) (now : timeval) (a : addr) : Prop :=
  exists t, deadline m a = Some t /\ timer_le t now.

Lemma expired_due m now a : expired m now a -> due m now a.
Proof. intros (t & Ht & Hlt). exists t. split; [done|]. rewrite timer_lt_spec in Hlt. rewrite timer_le_spec. lia. Qed.

(** Only a timer whose deadline is this very instant is due and not expired. *)
Lemma due_expired m now a : due m now a -> deadline m a <> Some now -> expired m now a.
Proof.
  intros (t & Ht & Hle) Hne. exists t. split; [done|]. rewrite timer_le_spec in Hle. rewrite timer_lt_spec.
  destruct (decide (tv_sec t = tv_sec now)), (decide (tv_usec t = tv_usec now)); try lia.
  destruct Hne. rewrite Ht. destruct t, now; simpl in *; congruence.
Qed.

Lemma expired_same m m' now a : same_payload m m' -> expired m' now a <-> expired m now a.
Proof. intros Hp. unfold expired. by rewrite (deadline_same m m'). Qed.

Lemma dlist_first m h x xs : dlist m h (x :: xs) -> nxt m h = Some x /\ prv m x = Some h.
Proof. intros Hd. by apply (dlist_cut m h [] (x :: xs)). Qed.

Lemma dlist_succ m h x xs : dlist m h (x :: xs) -> exists y, nxt m x = Some y /\ head (xs ++ [h]) = Some y.
Proof.
  intros Hd. destruct (head (xs ++ [h])) as [y|] eqn:E; [|by destruct xs].
  exists y. split; [|done]. by apply (dlist_cut m h [x] xs).
Qed.

Lemma timeouts_loop_run fuel now : forall s ts ps tev,
  lists_ok (evs s) ts ps -> head (ts ++ [timer_list]) = Some tev -> (length ts < fuel)%nat ->
  exists k m', timeouts_loop fuel now tev s = Ret (tt, with_evs s m') /\ same_payload (evs s) m' /\
    lists_ok m' (drop k ts) (ps ++ take k ts) /\ Forall (expired (evs s) now) (take k ts) /\
    (forall a, ts !! k = Some a -> ~ expired (evs s) now a).
Proof.
  induction fuel as [|fuel IH]; intros s ts ps tev Hl Hh Hf; [lia|]. cbn [timeouts_loop].
  pose proof Hl as [Ht Hp Hnd]. destruct ts as [|ev ts].
  { injection Hh as <-. rewrite bool_decide_eq_true_2 by done. exists 0%nat, (evs s). simpl. rewrite app_nil_r.
    split; [by destruct s|]. done. }
  injection Hh as <-. assert (Hne : ev <> timer_list).
  { intros ->. apply NoDup_cons in Hnd as [Hnd _]. apply Hnd. apply list_elem_of_further, list_elem_of_here. }
  rewrite bool_decide_eq_false_2 by done.
  destruct (dlist_succ _ _ _ _ Ht) as (y & Hy & Hyh). destruct (nxt_Some _ _ _ Hy) as (e & He & Ene).
  erewrite bind_run by (by apply load_run). rewrite timer_gt_lt. destruct (timer_lt (timeout e) now) eqn:Elt.
  - rewrite Ene. erewrite bind_run by done.
    destruct (move_to_pending s ev ts ps Hl) as (m1 & Hr1 & Hpay1 & Hl1).
    destruct (IH (with_evs s m1) ts (ps ++ [ev]) y) as (k & m2 & Hr2 & Hpay2 & Hl2 & Hex & Hst);
      [done|done|simpl in *; lia|]. simpl in Hpay2, Hex, Hst.
    exists (S k), m2. split.
    { unfold mbind, M_bind in Hr1 |- *. destruct (removeFromList ev s) as [[[] s1]| |]; [|done|done]. by rewrite Hr1. }
    split; [by etransitivity|]. simpl. split; [by rewrite <- app_assoc in Hl2|]. split.
    + constructor; [exists (timeout e); split; [unfold deadline; by rewrite He|done]|].
      eapply Forall_impl; [exact Hex|]. intros a. by apply (expired_same (evs s) m1).
    + intros a Ha Hx. apply (Hst a Ha). by apply (expired_same (evs s) m1).
  - exists 0%nat, (evs s). simpl. rewrite app_nil_r. split; [by destruct s|]. split_and!; try done.
    intros a [= <-] (t & Hd & Hlt). unfold deadline in Hd. rewrite He in Hd. simpl in Hd. congruence.
Qed.

Lemma processTimeouts_run fuel now s ts ps :
  lists_ok (evs s) ts ps -> timers_sorted (evs s) ts -> (length ts < fuel)%nat ->
  exists k m', processTimeouts fuel now s = Ret (tt, with_evs s m') /\ same_payload (evs s) m' /\
    lists_ok m' (drop k ts) (ps ++ take k ts) /\ Forall (expired (evs s) now) (take k ts) /\
    Forall (fun a => ~ expired (evs s) now a) (drop k ts).
Proof.
  intros Hl Hs Hf. pose proof Hl as [Ht _ _]. unfold processTimeouts.
  destruct (head (ts ++ [timer_list])) as [tev|] eqn:Eh; [|by destruct ts].
  assert (Hn : nxt (evs s) timer_list = Some tev) by (by apply (dlist_cut _ timer_list [] ts)).
  destruct (nxt_Some _ _ _ Hn) as (e & He & Ene). erewrite bind_run by (by apply load_run).
  rewrite Ene. erewrite bind_run by done.
  destruct (timeouts_loop_run fuel now s ts ps tev Hl Eh Hf) as (k & m' & Hr & Hpay & Hl' & Hex & Hst).
  exists k, m'. split_and!; try done. destruct (drop k ts) as [|a l] eqn:Ed; [done|].
  assert (Ha : ts !! k = Some a) by (rewrite <- (Nat.add_0_r k), <- lookup_drop; by rewrite Ed).
  constructor; [by apply Hst|]. unfold timers_sorted in Hs. rewrite <- (take_drop k ts), Ed in Hs.
  apply StronglySorted_app in Hs as (_ & _ & Hs). apply StronglySorted_inv in Hs as [_ Hall].
  eapply Forall_impl; [exact Hall|]. intros b Hab (tb & Hb & Hlt). apply (Hst a Ha).
  assert (Hia : is_Some (evs s !! a)).
  { eapply dlist_present; [exact Ht|]. apply list_elem_of_further. by eapply list_elem_of_lookup_2. }
  destruct Hia as [ea Hea]. exists (timeout ea). unfold deadline. rewrite Hea. split; [done|].
  assert (Hle : timer_le (timeout ea) tb) by (apply Hab; [unfold deadline; by rewrite Hea|done]).
  apply timer_le_spec in Hle. apply timer_lt_spec in Hlt. apply timer_lt_spec. lia.
Qed.

(** ** firePending *)

(** The reference: each event in turn is unlinked and its callback run. *)
Fixpoint fire_all (call : Z -> Z -> Z -> E unit) (ps : list addr) : E unit :=
  match ps with
  | [] => mret tt
  | ev :: ps' => removeFromList ev;; e ← load ev; call (func e) (fd e) (param e);; fire_all call ps'
  end.

(** What the loop needs of a callback: it returns, and leaves the events
    still pending linked as they are. *)
Class Callback (call : Z -> Z -> Z -> E unit) : Prop :=
  callback_frame : forall f d p s ps, dlist (evs s) pending_list ps ->
    exists s', call f d p s = Ret (tt, s') /\ dlist (evs s') pending_list ps.

Lemma fire_loop_run call `{!Callback call} : forall ps fuel s ev,
  dlist (evs s) pending_list ps -> head (ps ++ [pending_list]) = Some ev -> (length ps < fuel)%nat ->
  exists s', fire_loop call fuel ev s = Ret (tt, s') /\ fire_all call ps s = Ret (tt, s') /\
    dlist (evs s') pending_list [].
Proof.
  induction ps as [|p ps IH]; intros [|fuel] s ev Hd Hh Hf; simpl in Hf; try lia; cbn [fire_loop fire_all].
  { injection Hh as <-. rewrite bool_decide_eq_true_2 by done. by exists s. }
  injection Hh as <-. assert (Hne : p <> pending_list).
  { intros ->. destruct Hd as [Hnd _]. apply NoDup_cons in Hnd as [Hnd _]. apply Hnd, list_elem_of_here. }
  rewrite bool_decide_eq_false_2 by done.
  destruct (dlist_succ _ _ _ _ Hd) as (y & Hy & Hyh). destruct (nxt_Some _ _ _ Hy) as (e & He & Ene).
  erewrite bind_run by (by apply load_run). rewrite Ene. erewrite bind_run by done.
  destruct (removeFromList_dlist s pending_list [] ps p Hd) as (m1 & Hr1 & Hpay1 & Hd1 & _ & _).
  rewrite !(bind_run _ _ _ _ _ Hr1).
  assert (H1 : exists e1, m1 !! p = Some e1).
  { specialize (Hpay1 p). rewrite He in Hpay1. destruct (m1 !! p); [eauto|done]. }
  destruct H1 as [e1 He1]. rewrite !(bind_run _ _ _ _ _ (load_run (with_evs s m1) p e1 He1)).
  destruct (callback_frame (func e1) (fd e1) (param e1) (with_evs s m1) ps Hd1) as (s2 & Hc & Hd2).
  rewrite !(bind_run _ _ _ _ _ Hc). by apply IH; [..|lia].
Qed.

Lemma firePending_run call `{!Callback call} fuel s ps :
  dlist (evs s) pending_list ps -> (length ps < fuel)%nat ->
  exists s', firePending call fuel s = Ret (tt, s') /\ fire_all call ps s = Ret (tt, s') /\
    dlist (evs s') pending_list [].
Proof.
  intros Hd Hf. unfold firePending. destruct (head (ps ++ [pending_list])) as [ev|] eqn:Eh; [|by destruct ps].
  assert (Hn : nxt (evs s) pending_list = Some ev) by (by apply (dlist_cut _ pending_list [] ps)).
  destruct (nxt_Some _ _ _ Hn) as (e & He & Ene). erewrite bind_run by (by apply load_run).
  rewrite Ene. erewrite bind_run by done. by apply fire_loop_run.
Qed.

(** ** ril_timer_add *)

Lemma timer_loop_run d : forall ts fuel s pre list,
  dlist (evs s) timer_list (pre ++ ts) -> head (ts ++ [timer_list]) = Some list -> (length ts < fuel)%nat ->
  exists k q, timer_loop fuel d list s = Ret (q, s) /\ head (drop k ts ++ [timer_list]) = Some q /\
    Forall (fun a => forall t, deadline (evs s) a = Some t -> timer_lt t d = true) (take k ts) /\
    (forall a t, ts !! k = Some a -> deadline (evs s) a = Some t -> timer_le d t).
Proof.
  induction ts as [|a ts IH]; intros [|fuel] s pre list Hd Hh Hf; simpl in Hf; try lia; cbn [timer_loop].
  { injection Hh as <-. destruct (dlist_present _ _ _ timer_list Hd) as [e He]; [apply list_elem_of_here|].
    erewrite bind_run by (by apply load_run). rewrite bool_decide_eq_true_2, andb_false_r by done.
    by exists 0%nat, timer_list. }
  injection Hh as <-. assert (Hd2 : dlist (evs s) timer_list ((pre ++ [a]) ++ ts)) by (by rewrite <- app_assoc).
  assert (Hain : a ∈ pre ++ a :: ts) by (apply elem_of_app; right; apply list_elem_of_here).
  assert (Hne : a <> timer_list).
  { intros ->. destruct Hd as [Hnd _]. by apply NoDup_cons in Hnd as [Hnd _]. }
  destruct (head (ts ++ [timer_list])) as [y|] eqn:Ey; [|by destruct ts].
  destruct (dlist_cut _ timer_list (pre ++ [a]) ts a y Hd2) as [Hn _]; [by rewrite app_comm_cons, last_snoc|done|].
  destruct (nxt_Some _ _ _ Hn) as (e & He & Ene). erewrite bind_run by (by apply load_run).
  rewrite bool_decide_eq_false_2, andb_true_r by done. destruct (timer_lt (timeout e) d) eqn:El.
  - rewrite Ene. erewrite bind_run by done.
    destruct (IH fuel s (pre ++ [a]) y Hd2 eq_refl) as (k & q & Hr & Hq & Hb & Ha); [lia|].
    exists (S k), q. split_and!; try done. constructor; [|done]. intros t Ht. unfold deadline in Ht.
    rewrite He in Ht. simpl in Ht. congruence.
  - exists 0%nat, a. split_and!; try done. intros b t [= <-] Ht. unfold deadline in Ht. rewrite He in Ht.
    simpl in Ht. unfold timer_le. congruence.
Qed.

(** Changing data of an event outside the lists. *)
Lemma dlist_data m h xs a e f :
  dlist m h xs -> m !! a = Some e -> next (f e) = next e -> prev (f e) = prev e -> dlist (<[a := f e]> m) h xs.
Proof.
  intros Hd Ha Hn Hp. eapply dlist_frame; [exact Hd|]. intros x _. unfold nxt, prv.
  destruct (decide (x = a)) as [->|]; [|by rewrite lookup_insert_ne]. rewrite lookup_insert_eq, Ha. simpl. by rewrite Hn, Hp.
Qed.

Lemma sorted_insert m ts k ev d :
  timers_sorted m ts -> deadline m ev = Some d -> (forall a, a ∈ ts -> is_Some (deadline m a)) ->
  Forall (fun a => forall t, deadline m a = Some t -> timer_lt t d = true) (take k ts) ->
  (forall a t, ts !! k = Some a -> deadline m a = Some t -> timer_le d t) ->
  timers_sorted m (take k ts ++ ev :: drop k ts).
Proof.
  unfold timers_sorted. intros Hs Hev Hall Hb Ha. rewrite <- (take_drop k ts) in Hs.
  apply StronglySorted_app in Hs as (H12 & H1 & H2).
  assert (Hafter : forall b, b ∈ drop k ts -> due_before m ev b).
  { intros b Hbin td tb Hd Htb. assert (td = d) as -> by congruence.
    destruct (drop k ts) as [|c l] eqn:Ed; [by apply not_elem_of_nil in Hbin|].
    assert (Hc : ts !! k = Some c) by (rewrite <- (Nat.add_0_r k), <- lookup_drop; by rewrite Ed).
    apply elem_of_cons in Hbin as [->|Hbin]; [by eapply Ha|]. apply StronglySorted_inv in H2 as [_ H2].
    rewrite Forall_forall in H2. destruct (Hall c) as [tc Htc]; [by eapply list_elem_of_lookup_2|].
    pose proof (Ha c tc Hc Htc) as L1. pose proof (H2 b Hbin tc tb Htc Htb) as L2.
    apply timer_le_spec in L1, L2. apply timer_le_spec. lia. }
  apply StronglySorted_app. split_and!; [|done|constructor; [done|by apply Forall_forall]].
  intros x y Hx Hy. apply elem_of_cons in Hy as [->|Hy]; [|by apply H12]. intros tx td Htx Htd.
  assert (td = d) as -> by congruence. rewrite Forall_forall in Hb. pose proof (Hb x Hx tx Htx) as L.
  apply timer_lt_spec in L. apply timer_le_spec. lia.
Qed.

Lemma deadline_frame m m' ts : timers_sorted m ts -> (forall b, b ∈ ts -> deadline m' b = deadline m b) ->
  timers_sorted m' ts.
Proof.
  unfold timers_sorted. intros Hs Hf. induction Hs as [|x ts Hs IH Hall]; [constructor|].
  constructor; [apply IH; intros; apply Hf; by apply list_elem_of_further|].
  rewrite Forall_forall in Hall. apply Forall_forall. intros y Hy tx ty.
  rewrite (Hf x), (Hf y) by (apply list_elem_of_here || by apply list_elem_of_further). by apply Hall.
Qed.

Lemma ril_timer_add_run fuel now s ts ps ev e tv :
  lists_ok (evs s) ts ps -> timers_sorted (evs s) ts -> (length ts < fuel)%nat ->
  evs s !! ev = Some e -> ev ∉ timer_list :: pending_list :: ts ++ ps ->
  exists k m', ril_timer_add fuel now ev (Some tv) s = Ret (tt, with_evs s m') /\
    lists_ok m' (take k ts ++ ev :: drop k ts) ps /\ timers_sorted m' (take k ts ++ ev :: drop k ts) /\
    deadline m' ev = Some (timeradd now tv) /\
    same_payload (<[ev := with_timeout (timeradd now tv) (with_fd (-1) e)]> (evs s)) m'.
Proof.
  intros Hl Hs Hf He Hev. pose proof Hl as [Ht Hp Hnd]. unfold ril_timer_add.
  destruct (head (ts ++ [timer_list])) as [l0|] eqn:Eh; [|by destruct ts].
  destruct (dlist_cut _ timer_list [] ts timer_list l0 Ht eq_refl Eh) as [Hn _].
  destruct (nxt_Some _ _ _ Hn) as (eh & Heh & Eneh). erewrite bind_run by (by apply load_run).
  rewrite Eneh. erewrite bind_run by done. erewrite bind_run by (by apply update_run).
  erewrite bind_run by (apply update_run; apply lookup_insert_eq). cbn [evs readFds nfds watch_table].
  rewrite insert_insert_eq. set (e1 := with_timeout (timeradd now tv) (with_fd (-1) e)).
  set (m1 := <[ev := e1]> (evs s)).
  assert (Ht1 : dlist m1 timer_list ts) by (by apply (dlist_data _ _ _ _ _ (fun _ => e1) Ht He)).
  assert (Hp1 : dlist m1 pending_list ps) by (by apply (dlist_data _ _ _ _ _ (fun _ => e1) Hp He)).
  rewrite !elem_of_cons, elem_of_app in Hev.
  assert (Hd1 : forall b, b ∈ ts -> deadline m1 b = deadline (evs s) b).
  { intros b Hb. unfold deadline, m1. rewrite lookup_insert_ne by (intros ->; tauto). done. }
  assert (Hs1 : timers_sorted m1 ts) by (by apply (deadline_frame (evs s) m1 ts)).
  destruct (timer_loop_run (timeradd now tv) ts fuel (with_evs s m1) [] l0) as (k & q & Hr & Hq & Hb & Ha); [done..|].
  erewrite bind_run by exact Hr. simpl in Hb, Ha.
  destruct (addToList_dlist (with_evs s m1) timer_list (take k ts) (drop k ts) q ev) as (m2 & Hr2 & Hpay & Ht2 & Hf2);
    [by rewrite take_drop| |by exists e1; apply lookup_insert_eq|done|].
  { rewrite take_drop, elem_of_cons. tauto. }
  rewrite take_drop in Hf2. exists k, m2. simpl in Hpay, Hf2. split; [exact Hr2|].
  assert (Hdev : deadline m1 ev = Some (timeradd now tv)) by (unfold deadline, m1; by rewrite lookup_insert_eq).
  split; [split|split; [|split]]; [done| | | | |done].
  - eapply dlist_frame; [exact Hp1|]. intros x Hx. apply Hf2. rewrite !elem_of_cons. intros [->|Hx'].
    + apply elem_of_cons in Hx. tauto.
    + apply (lists_apart _ _ _ x Hl); [by apply elem_of_cons|done].
  - rewrite <- app_assoc, <- app_comm_cons, <- Permutation_middle, app_assoc, take_drop.
    change (NoDup ([timer_list; pending_list] ++ ev :: (ts ++ ps))). rewrite <- Permutation_middle. simpl.
    constructor; [rewrite !elem_of_cons, elem_of_app; tauto|done].
  - eapply timers_sorted_same; [exact Hpay|]. apply (sorted_insert m1 ts k ev (timeradd now tv)); try done.
    intros a Hain. destruct (dlist_present _ _ _ a Ht1) as [ea Hea]; [by apply list_elem_of_further|].
    exists (timeout ea). unfold deadline. by rewrite Hea.
  - by rewrite (deadline_same m1 m2).
Qed.

(** ** calcNextTimeout *)

Lemma calcNextTimeout_run now s ts ps :
  lists_ok (evs s) ts ps -> timers_sorted (evs s) ts ->
  (ts = [] /\ calcNextTimeout now s = Ret (None, s)) \/
  exists a t, head ts = Some a /\ deadline (evs s) a = Some t /\
    calcNextTimeout now s = Ret (Some (if timer_lt now t then timersub t now else TV 0 0), s) /\
    (forall b tb, b ∈ ts -> deadline (evs s) b = Some tb -> timer_le t tb).
Proof.
  intros [Ht _ Hnd] Hs. unfold calcNextTimeout.
  destruct (head (ts ++ [timer_list])) as [tev|] eqn:Eh; [|by destruct ts].
  assert (Hn : nxt (evs s) timer_list = Some tev) by (by apply (dlist_cut _ timer_list [] ts)).
  destruct (nxt_Some _ _ _ Hn) as (e & He & Ene). erewrite bind_run by (by apply load_run).
  rewrite Ene. erewrite bind_run by done. destruct ts as [|a ts]; [left|right].
  - injection Eh as <-. by rewrite bool_decide_eq_true_2.
  - injection Eh as <-. destruct (dlist_present _ _ _ a Ht) as [ea Hea]; [apply list_elem_of_further, list_elem_of_here|].
    assert (Hda : deadline (evs s) a = Some (timeout ea)) by (unfold deadline; by rewrite Hea).
    exists a, (timeout ea). split; [done|]. split; [done|]. split.
    + rewrite bool_decide_eq_false_2.
      2: { intros ->. destruct Ht as [Hnd2 _]. apply NoDup_cons in Hnd2 as [Hx _]. apply Hx, list_elem_of_here. }
      erewrite bind_run by (by apply load_run). by rewrite timer_gt_lt.
    + intros b tb Hb Htb. apply elem_of_cons in Hb as [->|Hb].
      * assert (tb = timeout ea) as -> by congruence. apply timer_le_spec. lia.
      * apply StronglySorted_inv in Hs as [_ Hs]. rewrite Forall_forall in Hs. by eapply (Hs b).
Qed.

Definition normalised (t : timeval) : Prop := 0 <= tv_usec t < 1000000.

(** Waiting for the computed time reaches the deadline exactly. *)
Lemma timersub_add now t : normalised now -> normalised t -> timeradd now (timersub t now) = t.
Proof.
  unfold normalised, timeradd, timersub. intros Hn Ht. destruct t as [s u], now as [ns nu]; simpl in *.
  destruct (Z.ltb_spec (u - nu) 0); simpl.
  - destruct (Z.leb_spec 1000000 (nu + (u - nu + 1000000))); [|lia]. f_equal; lia.
  - destruct (Z.leb_spec 1000000 (nu + (u - nu))); [lia|]. f_equal; lia.
Qed.

(** ** The watch table *)

(** Entry [i] of the table is the event [a] with data [e]. *)
Definition entry (s : estate) (i : nat) (a : addr) (e : ril_event) : Prop :=
  watch_table s !! i = Some (Some a) /\ evs s !! a = Some e.

Record watch_ok (s : estate) : Prop := {
  wok_length : length (watch_table s) = MAX_FD_EVENTS;
  wok_entry : forall i a, watch_table s !! i = Some (Some a) ->
    exists e, evs s !! a = Some e /\ index e = Z.of_nat i /\ 0 <= fd e < nfds s;
  wok_fds : forall f, f ∈ readFds s <-> exists i a e, entry s i a e /\ fd e = f;
  wok_distinct : forall i j a b ea eb, entry s i a ea -> entry s j b eb -> fd ea = fd eb -> i = j;
  wok_tight : nfds s <= 1 \/ exists i a e, entry s i a e /\ fd e + 1 = nfds s
}.

(** The invariant looks at descriptors and indices only. *)
Lemma watch_ok_frame s m : watch_ok s ->
  (forall i a, watch_table s !! i = Some (Some a) -> payload <$> m !! a = payload <$> evs s !! a) -> watch_ok (with_evs s m).
Proof.
  intros [Hl He Hf Hd Ht] Hp.
  assert (Hent : forall i a e, entry (with_evs s m) i a e -> exists e0, entry s i a e0 /\ payload e = payload e0).
  { intros i a e [H1 H2]. specialize (Hp i a H1). simpl in *. rewrite H2 in Hp.
    destruct (evs s !! a) as [e0|] eqn:E; [|done]. injection Hp as Hp. exists e0. split; [by split|]. unfold payload. congruence.
    }
  assert (Hent' : forall i a e0, entry s i a e0 -> exists e, entry (with_evs s m) i a e /\ payload e = payload e0).
  { intros i a e0 [H1 H2]. specialize (Hp i a H1). rewrite H2 in Hp. destruct (m !! a) as [e|] eqn:E; [|done].
    injection Hp as Hp. exists e. split; [by split|]. unfold payload. congruence. }
  split; simpl.
  - done.
  - intros i a Hi. destruct (He i a Hi) as (e0 & H0 & Hix & Hfd).
    destruct (Hent' i a e0) as (e & [_ H1] & E); [by split|]. exists e. injection E as E1 E2 _ _ _ _.
    rewrite E1, E2. done.
  - intros f. rewrite Hf. split; intros (i & a & e & Hen & <-).
    + destruct (Hent' i a e Hen) as (e' & Hen' & E). exists i, a, e'. split; [done|]. by injection E.
    + destruct (Hent i a e Hen) as (e' & Hen' & E). exists i, a, e'. split; [done|]. by injection E.
  - intros i j a b ea eb Ha Hb E. destruct (Hent _ _ _ Ha) as (ea' & Ha' & Ea).
    destruct (Hent _ _ _ Hb) as (eb' & Hb' & Eb). apply (Hd i j a b ea' eb' Ha' Hb').
    injection Ea as Ea _ _ _ _ _. injection Eb as Eb _ _ _ _ _. congruence.
  - destruct Ht as [?|(i & a & e & Hen & E)]; [by left|right].
    destruct (Hent' i a e Hen) as (e' & Hen' & E'). exists i, a, e'. split; [done|].
    injection E' as E' _ _ _ _ _. congruence.
Qed.

Lemma watch_ok_same s m : watch_ok s -> same_payload (evs s) m -> watch_ok (with_evs s m).
Proof. intros Hw Hp. apply watch_ok_frame; [done|]. intros i a _. apply Hp. Qed.

Lemma max_fd_run s t n :
  (forall a, Some a ∈ t -> is_Some (evs s !! a)) ->
  exists mx, max_fd t n s = Ret (mx, s) /\ n <= mx /\
    (forall a e, Some a ∈ t -> evs s !! a = Some e -> fd e <= mx) /\
    (mx = n \/ exists a e, Some a ∈ t /\ evs s !! a = Some e /\ fd e = mx).
Proof.
  revert n. induction t as [|[a|] t IH]; intros n Hin; cbn [max_fd].
  - exists n. split; [done|]. split; [lia|]. split; [|by left]. intros a e Ha. by apply not_elem_of_nil in Ha.
  - destruct (Hin a) as [e He]; [apply list_elem_of_here|]. erewrite bind_run by (by apply load_run).
    destruct (IH (if n <? fd e then fd e else n)) as (mx & Hr & Hle & Hall & Hex).
    { intros b Hb. apply Hin. by apply list_elem_of_further. }
    exists mx. split; [done|]. assert (n <= mx /\ fd e <= mx) as [? ?] by (destruct (Z.ltb_spec n (fd e)); lia).
    split; [done|]. split.
    + intros b eb Hb Heb. apply elem_of_cons in Hb as [[= ->]|Hb]; [congruence|by eapply Hall].
    + destruct Hex as [E|(b & eb & Hb & Heb & E)].
      * destruct (Z.ltb_spec n (fd e)); [right|by left]. exists a, e. split; [apply list_elem_of_here|done].
      * right. exists b, eb. split; [by apply list_elem_of_further|done].
  - destruct (IH n) as (mx & Hr & Hle & Hall & Hex).
    { intros b Hb. apply Hin. by apply list_elem_of_further. }
    exists mx. split; [done|]. split; [done|]. split.
    + intros b eb Hb. apply elem_of_cons in Hb as [[=]|Hb]. by apply Hall.
    + destruct Hex as [?|(b & eb & Hb & Heb & E)]; [by left|right]. exists b, eb. split; [by apply list_elem_of_further|done].
Qed.

(** What is left of the table when entry [i] is cleared. *)
Definition unwatched (s : estate) (i : nat) (ev : addr) (e : ril_event) (n : Z) : estate :=
  ES (<[ev := with_index (-1) e]> (evs s)) (readFds s ∖ {[ fd e ]}) n (<[i := None]> (watch_table s)).

Lemma unwatched_entry s i ev e n j a ea :
  watch_ok s -> entry s i ev e ->
  entry (unwatched s i ev e n) j a ea <-> j <> i /\ entry s j a ea.
Proof.
  intros Hw [H1 H2]. unfold entry. simpl.
  assert (Hil : (i < length (watch_table s))%nat) by (by eapply lookup_lt_Some).
  split.
  - intros [Hj Ha]. destruct (decide (j = i)) as [->|Hne]; [by rewrite list_lookup_insert_eq in Hj|].
    rewrite list_lookup_insert_ne in Hj by done. split; [done|]. split; [done|].
    destruct (decide (a = ev)) as [->|]; [|by rewrite lookup_insert_ne in Ha].
    destruct (wok_entry _ Hw _ _ Hj) as (e1 & E1 & I1 & _). destruct (wok_entry _ Hw _ _ H1) as (e2 & E2 & I2 & _).
    assert (e1 = e2) by congruence. subst. lia.
  - intros (Hne & Hj & Ha). rewrite list_lookup_insert_ne by done. split; [done|].
    rewrite lookup_insert_ne; [done|]. intros <-.
    destruct (wok_entry _ Hw _ _ Hj) as (e1 & E1 & I1 & _). destruct (wok_entry _ Hw _ _ H1) as (e2 & E2 & I2 & _).
    assert (e1 = e2) by congruence. subst. lia.
Qed.

Lemma unwatched_ok s i ev e n :
  watch_ok s -> entry s i ev e ->
  (forall j a ea, j <> i -> entry s j a ea -> fd ea < n) ->
  (n <= 1 \/ exists j a ea, j <> i /\ entry s j a ea /\ fd ea + 1 = n) ->
  watch_ok (unwatched s i ev e n).
Proof.
  intros Hw Hi Hlt Htight. pose proof Hw as [Hl He Hf Hd Ht].
  pose proof (fun j a ea => unwatched_entry s i ev e n j a ea Hw Hi) as Hent. split.
  - simpl. by rewrite length_insert.
  - intros j a Hj. simpl in Hj. destruct (decide (j = i)) as [->|Hne].
    { destruct Hi as [Hi _]. rewrite list_lookup_insert_eq in Hj by (by eapply lookup_lt_Some). done. }
    rewrite list_lookup_insert_ne in Hj by done. destruct (He j a Hj) as (ea & Ha & Hix & Hfd).
    destruct (proj2 (Hent j a ea)) as [_ Ha']; [by split|]. exists ea. split; [done|]. split; [done|].
    pose proof (Hlt j a ea Hne ltac:(by split)). simpl. lia.
  - intros f. simpl. rewrite elem_of_difference, elem_of_singleton, Hf. split.
    + intros [(j & a & ea & Hj & E) Hne]. exists j, a, ea. split; [|done]. apply Hent. split; [|done].
      intros ->. destruct Hj as [J1 J2], Hi as [I1 I2]. assert (ea = e) by congruence. subst. done.
    + intros (j & a & ea & Hj & E). apply Hent in Hj as [Hne Hj]. split; [by exists j, a, ea|]. intros E'. subst f.
      by apply Hne, (Hd j i a ev ea e).
  - intros j k a b ea eb [_ Ha]%Hent [_ Hb]%Hent. by apply (Hd j k a b ea eb).
  - destruct Htight as [?|(j & a & ea & Hne & Hj & E)]; [by left|right]. exists j, a, ea. split; [by apply Hent|done].
Qed.

(** [removeWatch] keeps the table consistent; [nfds] goes down when the
    largest descriptor leaves. *)
Lemma removeWatch_run s i ev e :
  watch_ok s -> entry s i ev e ->
  exists n, removeWatch ev i s = Ret (tt, unwatched s i ev e n) /\ watch_ok (unwatched s i ev e n).
Proof.
  intros Hw Hi. pose proof Hi as [Hi1 Hi2]. pose proof Hw as [Hl He Hf Hd Ht]. unfold removeWatch.
  erewrite bind_run by done. erewrite bind_run by (by apply update_run).
  erewrite bind_run by (apply load_run; apply lookup_insert_eq). erewrite bind_run by done.
  cbn [fd with_index evs readFds nfds watch_table]. erewrite bind_run by done.
  cbn [evs readFds nfds watch_table]. destruct (Z.eqb_spec (fd e + 1) (nfds s)) as [E|E].
  - erewrite bind_run by done. cbn [watch_table].
    set (s1 := ES _ _ _ _). destruct (max_fd_run s1 (<[i:=None]> (watch_table s)) 0) as (mx & Hr & H0 & Hall & Hex).
    { intros a Ha. apply list_elem_of_lookup in Ha as [j Hj]. destruct (decide (j = i)) as [->|Hne].
      { rewrite list_lookup_insert_eq in Hj by (by eapply lookup_lt_Some). done. }
      rewrite list_lookup_insert_ne in Hj by done. destruct (He j a Hj) as (ea & Hea & _).
      simpl. destruct (decide (a = ev)) as [->|]; [rewrite lookup_insert_eq; eauto|rewrite lookup_insert_ne by done; eauto]. }
    erewrite bind_run by exact Hr. exists (mx + 1). split; [done|]. apply unwatched_ok; try done.
    + intros j a ea Hne Hj. assert (fd ea <= mx); [|lia].
      destruct (proj2 (unwatched_entry s i ev e 0 j a ea Hw Hi) (conj Hne Hj)) as [H1 H2].
      eapply Hall; [|exact H2]. by eapply list_elem_of_lookup_2.
    + destruct Hex as [->|(a & ea & Hin & Hea & Efd)]; [left; lia|right].
      apply list_elem_of_lookup in Hin as [j Hj].
      destruct (proj1 (unwatched_entry s i ev e 0 j a ea Hw Hi)) as [Hne Hen]; [by split|]. exists j, a, ea.
      split_and!; [done|done|lia].
  - exists (nfds s). split; [done|]. apply unwatched_ok; try done.
    + intros j a ea _ [Hj Hea]. destruct (He j a Hj) as (ea' & Hea' & _ & Hlt). assert (ea' = ea) by congruence. subst. lia.
    + destruct Ht as [?|(j & a & ea & Hj & Efd)]; [by left|right]. exists j, a, ea. split; [|done]. intros ->.
      destruct Hj as [J1 J2]. assert (ea = e) by congruence. subst. lia.
Qed.

(** The state with [ev] at the free entry [i]. *)
Definition watched (s : estate) (i : nat) (ev : addr) (e : ril_event) : estate :=
  ES (<[ev := with_index (Z.of_nat i) e]> (evs s)) (readFds s ∪ {[ fd e ]})
     (Z.max (nfds s) (fd e + 1)) (<[i := Some ev]> (watch_table s)).

Lemma add_loop_run s ev e : forall k i,
  evs s !! ev = Some e ->
  (exists j, (i <= j < i + k)%nat /\ watch_table s !! j = Some None /\
     (forall j', (i <= j' < j)%nat -> watch_table s !! j' <> Some None) /\
     add_loop k i ev s = Ret (tt, watched s j ev e)) \/
  ((forall j, (i <= j < i + k)%nat -> watch_table s !! j <> Some None) /\ add_loop k i ev s = Ret (tt, s)).
Proof.
  induction k as [|k IH]; intros i He; cbn [add_loop].
  { right. split; [|done]. intros j Hj. lia. }
  erewrite bind_run by done. destruct (watch_table s !! i) as [[a|]|] eqn:Ei.
  2: { left. exists i. split; [lia|]. split; [done|]. split; [intros; lia|].
       erewrite bind_run by done. erewrite bind_run by (by apply update_run).
       erewrite bind_run by (apply load_run; apply lookup_insert_eq). erewrite bind_run by done.
       cbn [fd with_index evs readFds nfds watch_table set_nfds set_readFds]. unfold watched.
       destruct (Z.leb_spec (nfds s) (fd e)); [rewrite Z.max_r by lia|rewrite Z.max_l by lia]; done. }
  all: destruct (IH (S i) He) as [(j & Hj & Hn & Hb & Hr)|[Hn Hr]]; [left|right].
  all: try (exists j; split; [lia|]; split; [done|]; split; [|done]; intros j' Hj';
            destruct (decide (j' = i)) as [->|]; [by rewrite Ei|apply Hb; lia]).
  all: split; [|done]; intros j Hj; destruct (decide (j = i)) as [->|]; [by rewrite Ei|apply Hn; lia].
Qed.

(** Adding an event whose descriptor is not watched yet. *)
Lemma watched_ok s i ev e :
  watch_ok s -> watch_table s !! i = Some None -> evs s !! ev = Some e -> 0 <= fd e ->
  (forall j a ea, entry s j a ea -> a <> ev /\ fd ea <> fd e) -> watch_ok (watched s i ev e).
Proof.
  intros [Hl He Hf Hd Ht] Hi Hev Hfd Hfresh. pose proof (lookup_lt_Some _ _ _ Hi) as Hil.
  assert (Hent : forall j a ea, entry (watched s i ev e) j a ea <->
    (j <> i /\ entry s j a ea) \/ (j = i /\ a = ev /\ ea = with_index (Z.of_nat i) e)).
  { intros j a ea. unfold entry. simpl. destruct (decide (j = i)) as [->|Hne].
    - rewrite list_lookup_insert_eq by done. split.
      + intros [[= <-] Ha]. rewrite lookup_insert_eq in Ha. injection Ha as <-. by right.
      + intros [[? _]|(_ & -> & ->)]; [done|]. by rewrite lookup_insert_eq.
    - rewrite list_lookup_insert_ne by done. split.
      + intros [Hj Ha]. left. split; [done|]. split; [done|]. destruct (He j a Hj) as (ea0 & Hea0 & _).
        destruct (Hfresh j a ea0) as [Hae _]; [by split|]. by rewrite lookup_insert_ne in Ha.
      + intros [[_ [Hj Ha]]|(? & _)]; [|done]. split; [done|]. destruct (Hfresh j a ea) as [Hae _]; [by split|].
        by rewrite lookup_insert_ne. }
  split.
  - simpl. by rewrite length_insert.
  - intros j a Hj. simpl in Hj. destruct (decide (j = i)) as [->|Hne].
    + rewrite list_lookup_insert_eq in Hj by done. injection Hj as <-. exists (with_index (Z.of_nat i) e). simpl.
      rewrite lookup_insert_eq. split; [done|]. split; [done|]. lia.
    + rewrite list_lookup_insert_ne in Hj by done. destruct (He j a Hj) as (ea & Hea & Hix & Hlt).
      destruct (proj2 (Hent j a ea)) as [_ Ha]; [by left|]. exists ea. split; [done|]. split; [done|]. simpl. lia.
  - intros f. simpl. rewrite elem_of_union, elem_of_singleton, Hf. split.
    + intros [(j & a & ea & Hj & E)|E].
      * exists j, a, ea. split; [|done]. apply Hent. left. split; [|done]. intros ->. destruct Hj. congruence.
      * exists i, ev, (with_index (Z.of_nat i) e). split; [|done]. apply Hent. by right.
    + intros (j & a & ea & Hj & E). apply Hent in Hj as [[_ Hj]|(-> & -> & ->)]; [left; by exists j, a, ea|by right].
  - intros j k a b ea eb Ha Hb E. apply Hent in Ha as [[Hj Ha]|(-> & -> & ->)]; apply Hent in Hb as [[Hk Hb]|(-> & -> & ->)].
    + by apply (Hd j k a b ea eb).
    + destruct (Hfresh j a ea Ha) as [_ Hne]. by destruct Hne.
    + destruct (Hfresh k b eb Hb) as [_ Hne]. by destruct Hne.
    + done.
  - simpl. destruct (Z.max_spec (nfds s) (fd e + 1)) as [[_ ->]|[Hle ->]].
    + right. exists i, ev, (with_index (Z.of_nat i) e). split; [apply Hent; by right|done].
    + destruct Ht as [?|(j & a & ea & Hj & E)]; [by left|right]. exists j, a, ea. split; [|done].
      apply Hent. left. split; [|done]. intros ->. destruct Hj. congruence.
Qed.

Lemma ril_event_add_run s ev e :
  watch_ok s -> evs s !! ev = Some e -> 0 <= fd e ->
  (forall j a ea, entry s j a ea -> a <> ev /\ fd ea <> fd e) ->
  (exists i, watch_table s !! i = Some None /\ (forall j, (j < i)%nat -> watch_table s !! j <> Some None) /\
     ril_event_add ev s = Ret (tt, watched s i ev e) /\ watch_ok (watched s i ev e)) \/
  ((forall i, (i < MAX_FD_EVENTS)%nat -> exists a, watch_table s !! i = Some (Some a)) /\
   ril_event_add ev s = Ret (tt, s)).
Proof.
  intros Hw He Hfd Hfr. unfold ril_event_add.
  destruct (add_loop_run s ev e MAX_FD_EVENTS 0 He) as [(j & Hj & Hn & Hb & Hr)|[Hn Hr]]; [left|right].
  - exists j. split; [done|]. split; [intros j' ?; apply Hb; lia|]. split; [done|]. by apply watched_ok.
  - split; [|done]. intros i Hi. destruct (lookup_lt_is_Some_2 (watch_table s) i) as [[a|] Ha].
    + by rewrite (wok_length _ Hw).
    + by exists a.
    + destruct (Hn i); [lia|done].
Qed.

(** ** processReadReadies *)

Definition ready (m : gmap addr ril_event) (rfds : gset Z) (a : addr) : Prop :=
  match m !! a with Some e => fd e ∈ rfds | None => False end.

#[global] Instance ready_dec m rfds a : Decision (ready m rfds a).
Proof. unfold ready. destruct (m !! a); apply _. Defined.

(** The first [n] ready events from entry [i] on, in the order of the table. *)
Definition ready_from (m : gmap addr ril_event) (rfds : gset Z) (n : Z) (t : list (option addr)) : list addr :=
  take (Z.to_nat n) (filter (ready m rfds) (omap id t)).

(** What the walk keeps of an event: everything but links and index. *)
Definition data (e : ril_event) : Z * bool * timeval * Z * Z := (fd e, persist e, timeout e, func e, param e).
Definition same_data (m m' : gmap addr ril_event) : Prop := forall a, data <$> m' !! a = data <$> m !! a.

#[global] Instance same_data_preorder : PreOrder same_data.
Proof. split; [done|]. intros m1 m2 m3 H1 H2 a. by rewrite H2, H1. Qed.

Lemma same_payload_data m m' : same_payload m m' -> same_data m m'.
Proof.
  intros H a. specialize (H a). destruct (m' !! a), (m !! a); simplify_eq/=; [|done..]. unfold data. congruence.
Qed.

Lemma same_data_ready m m' rfds a : same_data m m' -> ready m' rfds a <-> ready m rfds a.
Proof.
  intros H. specialize (H a). unfold ready. destruct (m' !! a) as [e'|], (m !! a) as [e|]; simplify_eq/=; [|done].
  unfold data in H. by assert (fd e' = fd e) as -> by congruence.
Qed.

Lemma same_data_filter m m' rfds (l : list addr) : same_data m m' -> filter (ready m' rfds) l = filter (ready m rfds) l.
Proof. intros H. apply list_filter_iff. intros a. by apply same_data_ready. Qed.

Lemma same_data_index m a e n : m !! a = Some e -> same_data m (<[a := with_index n e]> m).
Proof.
  intros Ha b. destruct (decide (b = a)) as [->|]; [by rewrite lookup_insert_eq, Ha|by rewrite lookup_insert_ne].
Qed.

Lemma lists_ok_index m ts ps a e n : lists_ok m ts ps -> m !! a = Some e -> lists_ok (<[a := with_index n e]> m) ts ps.
Proof. intros [H1 H2 H3] Ha. split; [by apply dlist_data|by apply dlist_data|done]. Qed.

(** Appending a watched event to the pending list. *)
Lemma add_pending s ts ps ev :
  lists_ok (evs s) ts ps -> ev ∉ timer_list :: pending_list :: ts ++ ps -> is_Some (evs s !! ev) ->
  exists m', addToList ev pending_list s = Ret (tt, with_evs s m') /\ same_payload (evs s) m' /\
    lists_ok m' ts (ps ++ [ev]).
Proof.
  intros Hl Hev Hs. pose proof Hl as [Ht Hp Hnd]. rewrite !elem_of_cons, elem_of_app in Hev.
  destruct (addToList_dlist s pending_list ps [] pending_list ev) as (m' & Hr & Hpay & Hd & Hf);
    [by rewrite app_nil_r|rewrite app_nil_r, elem_of_cons; tauto|done|done|].
  exists m'. split; [done|]. split; [done|]. split; [|done|].
  - eapply dlist_frame; [exact Ht|]. intros x Hx. apply Hf. rewrite app_nil_r, elem_of_cons. intros [->|Hx'].
    + apply elem_of_cons in Hx. tauto.
    + by apply (lists_apart _ _ _ x Hl).
  - rewrite app_assoc, <- Permutation_cons_append.
    change (NoDup ([timer_list; pending_list] ++ ev :: (ts ++ ps))). rewrite <- Permutation_middle. simpl.
    constructor; [rewrite !elem_of_cons, elem_of_app; tauto|done].
Qed.

Definition oneshot (m : gmap addr ril_event) (a : addr) : Prop := persist <$> m !! a = Some false.

Lemma same_data_oneshot m m' a : same_data m m' -> oneshot m' a <-> oneshot m a.
Proof.
  intros H. specialize (H a). unfold oneshot. destruct (m' !! a) as [e'|], (m !! a) as [e|]; simplify_eq/=; [|done].
  unfold data in H. by assert (persist e' = persist e) as -> by congruence.
Qed.

(** The table after the events [rs] have fired. *)
Definition fired_table (s : estate) (rs : list addr) (s' : estate) : Prop :=
  forall j a, watch_table s' !! j = Some (Some a) <->
    watch_table s !! j = Some (Some a) /\ ~ (a ∈ rs /\ oneshot (evs s) a).

Lemma entry_unique s i j a : watch_ok s ->
  watch_table s !! i = Some (Some a) -> watch_table s !! j = Some (Some a) -> i = j.
Proof.
  intros Hw Hi Hj. destruct (wok_entry _ Hw _ _ Hi) as (e1 & E1 & I1 & _).
  destruct (wok_entry _ Hw _ _ Hj) as (e2 & E2 & I2 & _). assert (e1 = e2) by congruence. subst. lia.
Qed.

(** One ready entry: the event is queued and, unless persistent, unwatched. *)
Lemma fire_entry s ts ps i rev e :
  lists_ok (evs s) ts ps -> watch_ok s -> entry s i rev e ->
  rev ∉ timer_list :: pending_list :: ts ++ ps ->
  exists s1, (forall A (k : E A),
      (addToList rev pending_list;; (if negb (persist e) then removeWatch rev i else mret tt);; k) s = k s1) /\
    lists_ok (evs s1) ts (ps ++ [rev]) /\ watch_ok s1 /\ same_data (evs s) (evs s1) /\
    fired_table s [rev] s1 /\ drop (S i) (watch_table s1) = drop (S i) (watch_table s).
Proof.
  intros Hl Hw [Hi He] Hrev.
  destruct (add_pending s ts ps rev Hl Hrev ltac:(by exists e)) as (m1 & Hr & Hpay & Hl1).
  pose proof (watch_ok_same s m1 Hw Hpay) as Hw1.
  assert (He1 : exists e1, m1 !! rev = Some e1 /\ payload e1 = payload e).
  { specialize (Hpay rev). rewrite He in Hpay. destruct (m1 !! rev) as [e1|]; [|done]. exists e1. split; [done|]. simpl in Hpay.
    congruence. }
  destruct He1 as (e1 & He1 & Hpe). assert (Hos : oneshot (evs s) rev <-> persist e = false).
  { unfold oneshot. rewrite He. simpl. split; congruence. }
  destruct (persist e) eqn:Hpers; simpl.
  - exists (with_evs s m1). split; [intros A k; by erewrite bind_run by exact Hr|].
    split; [done|]. split; [done|]. split; [by apply same_payload_data|]. split; [|done].
    intros j a. simpl. split; [|tauto]. intros Hj. split; [done|]. intros [->%list_elem_of_singleton H]. by apply Hos in H.
  - destruct (removeWatch_run (with_evs s m1) i rev e1 Hw1) as (n & Hr2 & Hw2); [by split|].
    exists (unwatched (with_evs s m1) i rev e1 n).
    split; [intros A k; erewrite bind_run by exact Hr; by erewrite bind_run by exact Hr2|].
    split; [by apply lists_ok_index|]. split; [done|].
    split; [etransitivity; [by apply same_payload_data|by apply same_data_index]|]. split.
    + intros j a. simpl. destruct (decide (j = i)) as [->|Hne].
      * rewrite list_lookup_insert_eq by (by eapply lookup_lt_Some). rewrite Hi. split; [done|].
        intros [[= <-] H]. destruct H. split; [by apply list_elem_of_singleton|by apply Hos].
      * rewrite list_lookup_insert_ne by done. split; [|tauto]. intros Hj. split; [done|].
        intros [->%list_elem_of_singleton _]. by apply Hne, (entry_unique s j i rev).
    + simpl. apply drop_insert_lt. lia.
Qed.

Lemma readies_loop_run rfds : forall k i n s ts ps,
  lists_ok (evs s) ts ps -> watch_ok s -> (i + k = MAX_FD_EVENTS)%nat ->
  (forall j a, (i <= j)%nat -> watch_table s !! j = Some (Some a) ->
     a ∉ timer_list :: pending_list :: ts ++ ps) ->
  let rs := ready_from (evs s) rfds n (drop i (watch_table s)) in
  exists s', readies_loop k i rfds n s = Ret (tt, s') /\
    lists_ok (evs s') ts (ps ++ rs) /\ watch_ok s' /\ same_data (evs s) (evs s') /\ fired_table s rs s'.
Proof.
  induction k as [|k IH]; intros i n s ts ps Hl Hw Hik Hfresh rs; subst rs; cbn [readies_loop];
    pose proof (wok_length _ Hw) as Hlen.
  { exists s. split; [done|]. rewrite drop_ge by lia. unfold ready_from. simpl.
    rewrite filter_nil, take_nil, app_nil_r. split_and!; try done. intros j a. split; [|tauto].
    intros Hj. split; [done|]. intros [H _]. by apply not_elem_of_nil in H. }
  destruct (Z.ltb_spec 0 n) as [Hn|Hn].
  2: { exists s. split; [done|]. unfold ready_from. replace (Z.to_nat n) with 0%nat by lia. simpl.
       rewrite app_nil_r. split_and!; try done. intros j a. split; [|tauto].
       intros Hj. split; [done|]. intros [H _]. by apply not_elem_of_nil in H. }
  erewrite bind_run by done. destruct (lookup_lt_is_Some_2 (watch_table s) i) as [o Ho]; [lia|]. rewrite Ho.
  rewrite (drop_S _ _ _ Ho). destruct o as [rev|].
  2: { apply (IH (S i) n s ts ps); [done|done|lia|]. intros j a Hj. apply Hfresh. lia. }
  destruct (wok_entry _ Hw _ _ Ho) as (e & He & _ & _). erewrite bind_run by (by apply load_run).
  unfold ready_from. simpl omap. cbn [omap id]. rewrite filter_cons.
  assert (Hrdy : ready (evs s) rfds rev <-> fd e ∈ rfds) by (unfold ready; by rewrite He).
  destruct (decide (fd e ∈ rfds)) as [Hin|Hin].
  2: { rewrite bool_decide_eq_false_2, decide_False by (done || by rewrite Hrdy).
       apply (IH (S i) n s ts ps); [done|done|lia|]. intros j a Hj. apply Hfresh. lia. }
  rewrite bool_decide_eq_true_2, decide_True by (done || by rewrite Hrdy).
  assert (Hrev : rev ∉ timer_list :: pending_list :: ts ++ ps) by (by apply (Hfresh i)).
  destruct (fire_entry s ts ps i rev e Hl Hw (conj Ho He) Hrev) as (s1 & Hrun & Hl1 & Hw1 & Hd1 & Hft & Hdr).
  rewrite Hrun. destruct (IH (S i) (n - 1) s1 ts (ps ++ [rev])) as (s2 & Hr2 & Hl2 & Hw2 & Hd2 & Hft2); [done|done|lia| |].
  { intros j a Hj Ha. apply Hft in Ha as [Ha _]. pose proof (Hfresh j a ltac:(lia) Ha) as Hf.
    rewrite !elem_of_cons, !elem_of_app in *. rewrite list_elem_of_singleton.
    intros [?|[?|[?|[?|E]]]]; try tauto. subst a.
    assert (j = i) by (by apply (entry_unique s j i rev)). lia. }
  exists s2. split; [done|]. rewrite Hdr in Hl2, Hft2. unfold ready_from in Hl2, Hft2.
  rewrite (same_data_filter _ _ _ _ Hd1) in Hl2, Hft2.
  replace (Z.to_nat n) with (S (Z.to_nat (n - 1))) by lia. cbn [take]. split; [by rewrite <- app_assoc in Hl2|].
  split; [done|]. split; [by etransitivity|]. intros j a. rewrite (Hft2 j a), (Hft j a), list_elem_of_singleton, elem_of_cons.
  rewrite (same_data_oneshot _ _ a Hd1). tauto.
Qed.

(** ** One round *)

Lemma length_omap_id (t : list (option addr)) : (length (omap id t) <= length t)%nat.
Proof. induction t as [|[x|] t IH]; cbn [omap list_omap id length] in *; unfold omap in *; lia. Qed.

(** Nothing is pending and the watched events are in neither list. *)
Record loop_ok (s : estate) (ts : list addr) : Prop := {
  loop_lists : lists_ok (evs s) ts [];
  loop_sorted : timers_sorted (evs s) ts;
  loop_watch : watch_ok s;
  loop_apart : forall j a, watch_table s !! j = Some (Some a) -> a ∉ timer_list :: pending_list :: ts
}.

(** What a round has to fire. *)
Definition collected (s : estate) (ts : list addr) (k : nat) (rs : list addr) (s1 : estate) : Prop :=
  lists_ok (evs s1) (drop k ts) (take k ts ++ rs) /\ watch_ok s1 /\ same_data (evs s) (evs s1) /\ fired_table s rs s1.

Lemma collect_run fuel now rfds n s ts :
  loop_ok s ts -> (length ts < fuel)%nat ->
  exists k s1, (processTimeouts fuel now;; processReadReadies rfds n) s = Ret (tt, s1) /\
    Forall (expired (evs s) now) (take k ts) /\ Forall (fun a => ~ expired (evs s) now a) (drop k ts) /\
    collected s ts k (ready_from (evs s) rfds n (watch_table s)) s1.
Proof.
  intros [Hl Hs Hw Ha] Hf.
  destruct (processTimeouts_run fuel now s ts [] Hl Hs) as (k & m1 & Hr1 & Hpay & Hl1 & Hex & Hnex); [lia|].
  simpl in Hl1. destruct (readies_loop_run rfds MAX_FD_EVENTS 0 n (with_evs s m1) (drop k ts) (take k ts))
    as (s1 & Hr2 & Hl2 & Hw2 & Hd2 & Hft); [done|by apply watch_ok_same|done| |].
  { intros j a _ Hj. simpl in Hj. specialize (Ha j a Hj). rewrite !elem_of_cons, elem_of_app in *.
    rewrite <- (take_drop k ts), elem_of_app in Ha. tauto. }
  pose proof (same_payload_data _ _ Hpay) as Hd1. rewrite drop_0 in Hl2, Hft. unfold ready_from in Hl2, Hft. simpl in Hl2, Hft.
  rewrite (same_data_filter _ _ _ _ Hd1) in Hl2, Hft. simpl in Hd2.
  exists k, s1. split; [by erewrite bind_run by exact Hr1|]. split_and!; try done. split; [done|]. split; [done|].
  split; [by etransitivity|].
  intros j a. rewrite (Hft j a). simpl. by rewrite (same_data_oneshot _ _ a Hd1).
Qed.

(** There are no more events to fire than timers and table entries. *)
Lemma due_length s ts k rfds n : watch_ok s -> (length (take k ts ++ ready_from (evs s) rfds n (watch_table s)) <= length ts + MAX_FD_EVENTS)%nat.
Proof.
  intros Hw. unfold ready_from. rewrite length_app, !length_take.
  pose proof (length_filter (ready (evs s) rfds) (omap id (watch_table s))).
  pose proof (length_omap_id (watch_table s)) as Ho. rewrite (wok_length _ Hw) in Ho. lia.
Qed.

Lemma loop_round_run call `{!Callback call} fuel now rfds n s ts :
  loop_ok s ts -> (length ts + MAX_FD_EVENTS < fuel)%nat ->
  exists k s1 s2, let due := take k ts ++ ready_from (evs s) rfds n (watch_table s) in
    Forall (expired (evs s) now) (take k ts) /\ Forall (fun a => ~ expired (evs s) now a) (drop k ts) /\
    lists_ok (evs s1) (drop k ts) due /\ watch_ok s1 /\ same_data (evs s) (evs s1) /\
    fired_table s (ready_from (evs s) rfds n (watch_table s)) s1 /\
    loop_round call fuel now rfds n s = Ret (tt, s2) /\ fire_all call due s1 = Ret (tt, s2) /\
    dlist (evs s2) pending_list [].
Proof.
  intros Hok Hf. destruct (collect_run fuel now rfds n s ts Hok ltac:(lia)) as (k & s1 & Hr & Hex & Hnex & Hl & Hw & Hd & Hft).
  pose proof (due_length s ts k rfds n (loop_watch _ _ Hok)).
  destruct (firePending_run call fuel s1 _ (lok_pending _ _ _ Hl)) as (s2 & Hr3 & Hfa & Hp); [lia|].
  exists k, s1, s2. simpl. split_and!; try done. unfold loop_round. revert Hr. unfold mbind, M_bind.
  destruct (processTimeouts fuel now s) as [[[] s0]| |]; [|done|done]. intros ->. done.
Qed.
