(* ===== verification/RilEventProps.v ===== *)
(** * Properties of the event loop *)

From S2P Require Import Prelude RilEvent RilEventSpec.

(** C7: one round of [ril_event_loop].  The callbacks that run are those of a
    prefix of the timer list, in deadline order, followed by the first [n]
    watched events whose descriptor is ready, in table order; each runs once.
    Every timer that fires is due (now >= timeout, as the comment of
    [processTimeouts] asks), and every timer whose deadline lies before [now]
    fires; when no deadline is this very instant, the timers that fire are
    exactly the due ones.  (A timer whose deadline is [now] is due by the
    comment and does not fire: [timer_not_fired_at_deadline].)  Before the
    callbacks run, the fired timers have left the timer list, fired one-shot
    watches have left the table and persistent ones are still in it; afterwards
    nothing is pending. *)
Theorem round_fires_due_events (call : Z -> Z -> Z -> E unit) {CB : Callback call}
    (fuel : nat) (now : timeval) (rfds : gset Z) (n : Z) (s : estate) (ts : list nat) :
  loop_ok s ts -> (length ts + MAX_FD_EVENTS < fuel)%nat ->
  exists k s1 s2,
    let ready_now := ready_from (evs s) rfds n (watch_table s) in
    loop_round call fuel now rfds n s = Ret (tt, s2) /\
    fire_all call (take k ts ++ ready_now) s1 = Ret (tt, s2) /\
    Forall (due (evs s) now) (take k ts) /\
    (forall a t, a ∈ ts -> deadline (evs s) a = Some t -> timer_lt t now = true -> a ∈ take k ts) /\
    (Forall (fun a => deadline (evs s) a <> Some now) ts -> Forall (fun a => ~ due (evs s) now a) (drop k ts)) /\
    lists_ok (evs s1) (drop k ts) (take k ts ++ ready_now) /\
    watch_ok s1 /\ same_data (evs s) (evs s1) /\ fired_table s ready_now s1 /\
    dlist (evs s2) pending_list [].
Proof.
  intros Hok Hf. destruct (loop_round_run call fuel now rfds n s ts Hok Hf)
    as (k & s1 & s2 & Hex & Hnex & Hl & Hw & Hd & Hft & Hr & Hfa & Hp).
  exists k, s1, s2. cbv zeta. split_and!; try done.
  - eapply Forall_impl; [exact Hex|]. intros a. apply expired_due.
  - intros a t Ha Ht Hlt. rewrite <- (take_drop k ts), elem_of_app in Ha. destruct Ha as [?|Ha]; [done|].
    rewrite Forall_forall in Hnex. destruct (Hnex a Ha). by exists t.
  - intros Hne. rewrite Forall_forall in Hnex, Hne |- *. intros a Ha Hdue. apply (Hnex a Ha), due_expired; [done|].
    apply Hne. rewrite <- (take_drop k ts). apply elem_of_app. by right.
Qed.

(** C8: [ril_timer_add] gives the event the deadline [now + tv], links it into
    the timer list so that the list stays sorted by deadline and keeps every
    other timer, and leaves the pending list alone. *)
Theorem timer_add_keeps_deadline_order (fuel : nat) (now : timeval) (s : estate) (ts ps : list nat)
    (ev : nat) (e : ril_event) (tv : timeval) :
  lists_ok (evs s) ts ps -> timers_sorted (evs s) ts -> (length ts < fuel)%nat ->
  evs s !! ev = Some e -> ev ∉ timer_list :: pending_list :: ts ++ ps ->
  exists k m', ril_timer_add fuel now ev (Some tv) s = Ret (tt, with_evs s m') /\
    lists_ok m' (take k ts ++ ev :: drop k ts) ps /\ timers_sorted m' (take k ts ++ ev :: drop k ts) /\
    deadline m' ev = Some (timeradd now tv) /\
    (forall a, a <> ev -> payload <$> m' !! a = payload <$> evs s !! a).
Proof.
  intros Hl Hs Hf He Hev. destruct (ril_timer_add_run fuel now s ts ps ev e tv Hl Hs Hf He Hev)
    as (k & m' & Hr & Hl' & Hs' & Hd & Hp).
  exists k, m'. split_and!; try done. intros a Ha. rewrite (Hp a). by rewrite lookup_insert_ne.
Qed.

(** The wait computed by [calcNextTimeout] ends exactly at the earliest
    deadline of all timers, is zero when that has passed, and is absent only
    when there are no timers. *)
Lemma next_timeout_is_earliest_deadline (now : timeval) (s : estate) (ts ps : list nat) :
  lists_ok (evs s) ts ps -> timers_sorted (evs s) ts -> normalised now ->
  (forall a t, a ∈ ts -> deadline (evs s) a = Some t -> normalised t) ->
  exists r, calcNextTimeout now s = Ret (r, s) /\
    match r with
    | None => ts = []
    | Some wait => exists a t, a ∈ ts /\ deadline (evs s) a = Some t /\
        (forall b tb, b ∈ ts -> deadline (evs s) b = Some tb -> timer_le t tb) /\
        (timer_lt now t = true -> timeradd now wait = t) /\ (timer_le t now -> wait = TV 0 0)
    end.
Proof.
  intros Hl Hs Hn Hnt. destruct (calcNextTimeout_run now s ts ps Hl Hs) as [[-> Hr]|(a & t & Ha & Ht & Hr & Hmin)].
  { exists None. done. }
  assert (Hin : a ∈ ts) by (destruct ts as [|b ts]; [done|]; injection Ha as <-; apply list_elem_of_here).
  eexists. split; [exact Hr|]. exists a, t. split_and!; try done.
  - intros Hlt. rewrite Hlt. apply timersub_add; [done|by eapply Hnt].
  - unfold timer_le. by intros ->.
Qed.

(** C9: [ril_event_add] puts the event into the first free entry of the table
    and changes no other entry; the event keeps everything but its index, its
    descriptor joins the set and [nfds] grows to cover it, so that [select]
    sees every watched descriptor.  Only when all eight entries are taken, and
    then always, nothing at all changes: the event is dropped without notice.
    Asked of the caller: neither the event nor its descriptor is already in
    the table. *)
Theorem event_add_watches_or_drops (s : estate) (ev : nat) (e : ril_event) :
  watch_ok s -> evs s !! ev = Some e -> 0 <= fd e ->
  (forall j a ea, entry s j a ea -> a <> ev /\ fd ea <> fd e) ->
  exists s', ril_event_add ev s = Ret (tt, s') /\ watch_ok s' /\
    ((exists i, watch_table s !! i = Some None /\ (forall j, (j < i)%nat -> watch_table s !! j <> Some None) /\
        watch_table s' = <[i := Some ev]> (watch_table s) /\
        evs s' = <[ev := with_index (Z.of_nat i) e]> (evs s) /\
        readFds s' = readFds s ∪ {[ fd e ]} /\ nfds s' = Z.max (nfds s) (fd e + 1)) \/
     (forall i, (i < MAX_FD_EVENTS)%nat -> exists a, watch_table s !! i = Some (Some a)) /\ s' = s).
Proof.
  intros Hw He Hfd Hfr. destruct (ril_event_add_run s ev e Hw He Hfd Hfr) as [(i & Hi & Hb & Hr & Hw')|[Hfull Hr]].
  - exists (watched s i ev e). split; [done|]. split; [done|]. left. by exists i.
  - exists s. split_and!; try done. by right.
Qed.

(** [ril_event_del] of a watched event clears exactly its entry and its
    descriptor and lowers [nfds] to the largest descriptor that is left. *)
Lemma event_del_unwatches (s : estate) (i ev : nat) (e : ril_event) :
  watch_ok s -> entry s i ev e ->
  exists s', ril_event_del ev s = Ret (tt, s') /\ watch_ok s' /\
    (forall j a ea, entry s' j a ea <-> j <> i /\ entry s j a ea) /\
    readFds s' = readFds s ∖ {[ fd e ]} /\ option_map index (evs s' !! ev) = Some (-1).
Proof.
  intros Hw Hen. pose proof Hen as [Hi He]. unfold ril_event_del. erewrite bind_run by (by apply load_run).
  destruct (wok_entry _ Hw _ _ Hi) as (e' & He' & Hix & _). assert (e' = e) as -> by congruence.
  pose proof (lookup_lt_Some _ _ _ Hi) as Hil. rewrite (wok_length _ Hw) in Hil. rewrite Hix.
  destruct (Z.ltb_spec (Z.of_nat i) 0); [lia|]. destruct (Z.leb_spec (Z.of_nat MAX_FD_EVENTS) (Z.of_nat i)); [lia|].
  simpl. rewrite Nat2Z.id. destruct (removeWatch_run s i ev e Hw Hen) as (n & Hr & Hw').
  exists (unwatched s i ev e n). split; [done|]. split; [done|]. split; [intros j a ea; by apply unwatched_entry|].
  split; [done|]. simpl. by rewrite lookup_insert_eq.
Qed.

(** ** Concrete runs *)

Section Runs.

Definition ev0 : ril_event := Ev None None 0 (-1) false (TV 0 0) 7 7.

(** After [ril_event_init]: the heads and four events that are set up. *)
Definition boot : estate :=
  match ril_event_init (ES {[ 0%nat := zero_event; 1%nat := zero_event; 2%nat := ev0; 3%nat := ev0;
                              4%nat := with_fd 5 ev0; 5%nat := with_fd 9 ev0 ]} ∅ 0 []) with
  | Ret (_, s) => s
  | _ => ES ∅ ∅ 0 []
  end.

(** Two timers due at 11 s and at 12 s, and a watch on descriptor 5. *)
Definition armed : estate :=
  match (ril_timer_add 9 (TV 10 0) 2 (Some (TV 2 0));; ril_timer_add 9 (TV 10 0) 3 (Some (TV 1 0));;
         ril_event_add 4) boot with
  | Ret (_, s) => s
  | _ => ES ∅ ∅ 0 []
  end.

#[local] Instance quiet_callback : Callback (fun _ _ _ => mret tt).
Proof. intros f d p s ps Hd. by exists s. Qed.

Lemma no_entry (t : list (option nat)) i a : Forall (fun o => o = None) t -> t !! i <> Some (Some a).
Proof. intros Hf Hi. rewrite Forall_lookup in Hf. by specialize (Hf _ _ Hi). Qed.

Lemma empty_watch_ok s : length (watch_table s) = MAX_FD_EVENTS -> Forall (fun o => o = None) (watch_table s) -> readFds s = ∅ -> nfds s <= 1 -> watch_ok s.
Proof.
  intros Hl Hf Hr Hn. assert (He : forall i a, watch_table s !! i <> Some (Some a)) by (intros i a; by apply no_entry).
  split; [done| | | |by left].
  - intros i a Hi. by destruct (He i a).
  - intros f. rewrite Hr. split; [by intros ?%elem_of_empty|]. intros (i & a & e & [Hi _] & _). by destruct (He i a).
  - intros i j a b ea eb [Hi _]. by destruct (He i a).
Qed.

Lemma boot_watch_ok : watch_ok boot.
Proof. by apply empty_watch_ok; [|repeat constructor|..]. Qed.

Lemma boot_lists_ok : lists_ok (evs boot) [] [].
Proof. by split; [split; [apply NoDup_singleton|]|split; [apply NoDup_singleton|]|apply (bool_decide_unpack (NoDup [timer_list; pending_list])); vm_compute]. Qed.

Lemma armed_lists_ok : lists_ok (evs armed) [3%nat; 2%nat] [].
Proof.
  split; [split; [by apply (bool_decide_unpack (NoDup [timer_list; 3%nat; 2%nat])); vm_compute|by vm_compute]|
    split; [apply NoDup_singleton|by vm_compute]|
    by apply (bool_decide_unpack (NoDup [timer_list; pending_list; 3%nat; 2%nat])); vm_compute].
Qed.

Lemma armed_sorted : timers_sorted (evs armed) [3%nat; 2%nat].
Proof.
  constructor; [repeat constructor|]. constructor; [|constructor].
  intros ta tb Ha Hb. vm_compute in Ha, Hb. by simplify_eq.
Qed.

Lemma armed_entry i a : watch_table armed !! i = Some (Some a) -> i = 0%nat /\ a = 4%nat.
Proof.
  intros Hi. destruct i as [|i]; [vm_compute in Hi; by simplify_eq|].
  exfalso. apply (no_entry (replicate 7 None) i a); [by repeat constructor|done].
Qed.

Lemma armed_watch_ok : watch_ok armed.
Proof.
  split.
  - done.
  - intros i a [-> ->]%armed_entry. eexists. split; [by vm_compute|]. by vm_compute.
  - intros f. assert (readFds armed = {[5]}) as -> by (by vm_compute). rewrite elem_of_singleton. split.
    + intros ->. exists 0%nat, 4%nat. eexists. split; [split; [done|by vm_compute]|done].
    + intros (i & a & e & [Hi He] & <-). apply armed_entry in Hi as [-> ->]. vm_compute in He. by simplify_eq.
  - intros i j a b ea eb [Hi _] [Hj _] _. apply armed_entry in Hi as [-> _]. apply armed_entry in Hj as [-> _]. done.
  - right. exists 0%nat, 4%nat. eexists. split; [split; [done|by vm_compute]|done].
Qed.

Lemma armed_loop_ok : loop_ok armed [3%nat; 2%nat].
Proof.
  split; [apply armed_lists_ok|apply armed_sorted|apply armed_watch_ok|].
  intros j a [-> ->]%armed_entry. apply (bool_decide_unpack (4%nat ∉ [timer_list; pending_list; 3%nat; 2%nat])). by vm_compute.
Qed.

Lemma round_fires_due_events_witness :
  exists k s1 s2,
    let ready_now := ready_from (evs armed) {[5]} 1 (watch_table armed) in
    loop_round (fun _ _ _ => mret tt) 20 (TV 11 1) {[5]} 1 armed = Ret (tt, s2) /\
    fire_all (fun _ _ _ => mret tt) (take k [3%nat; 2%nat] ++ ready_now) s1 = Ret (tt, s2) /\
    Forall (due (evs armed) (TV 11 1)) (take k [3%nat; 2%nat]) /\
    (forall a t, a ∈ [3%nat; 2%nat] -> deadline (evs armed) a = Some t -> timer_lt t (TV 11 1) = true ->
       a ∈ take k [3%nat; 2%nat]) /\
    (Forall (fun a => deadline (evs armed) a <> Some (TV 11 1)) [3%nat; 2%nat] ->
     Forall (fun a => ~ due (evs armed) (TV 11 1) a) (drop k [3%nat; 2%nat])) /\
    lists_ok (evs s1) (drop k [3%nat; 2%nat]) (take k [3%nat; 2%nat] ++ ready_now) /\
    watch_ok s1 /\ same_data (evs armed) (evs s1) /\ fired_table armed ready_now s1 /\
    dlist (evs s2) pending_list [].
Proof.
  apply (round_fires_due_events (fun _ _ _ => mret tt) 20 (TV 11 1) {[5]} 1 armed [3%nat; 2%nat]);
    [apply armed_loop_ok|simpl; unfold MAX_FD_EVENTS; lia].
Defined.

Lemma timer_add_keeps_deadline_order_witness :
  exists k m', ril_timer_add 9 (TV 10 0) 5 (Some (TV 1 500000)) armed = Ret (tt, with_evs armed m') /\
    lists_ok m' (take k [3%nat; 2%nat] ++ 5%nat :: drop k [3%nat; 2%nat]) [] /\
    timers_sorted m' (take k [3%nat; 2%nat] ++ 5%nat :: drop k [3%nat; 2%nat]) /\
    deadline m' 5 = Some (timeradd (TV 10 0) (TV 1 500000)) /\
    (forall a, a <> 5%nat -> payload <$> m' !! a = payload <$> evs armed !! a).
Proof.
  apply (timer_add_keeps_deadline_order 9 (TV 10 0) armed [3%nat; 2%nat] [] 5 (with_fd 9 ev0));
    [apply armed_lists_ok|apply armed_sorted|simpl; lia|by vm_compute|].
  apply (bool_decide_unpack (5%nat ∉ [timer_list; pending_list; 3%nat; 2%nat])). by vm_compute.
Defined.

Lemma next_timeout_is_earliest_deadline_witness :
  exists r, calcNextTimeout (TV 10 700000) armed = Ret (r, armed) /\
    match r with
    | None => [3%nat; 2%nat] = []
    | Some wait => exists a t, a ∈ [3%nat; 2%nat] /\ deadline (evs armed) a = Some t /\
        (forall b tb, b ∈ [3%nat; 2%nat] -> deadline (evs armed) b = Some tb -> timer_le t tb) /\
        (timer_lt (TV 10 700000) t = true -> timeradd (TV 10 700000) wait = t) /\
        (timer_le t (TV 10 700000) -> wait = TV 0 0)
    end.
Proof.
  apply (next_timeout_is_earliest_deadline (TV 10 700000) armed [3%nat; 2%nat] []);
    [apply armed_lists_ok|apply armed_sorted|unfold normalised; simpl; lia|].
  intros a t Ha Ht. apply elem_of_cons in Ha as [->| ->%list_elem_of_singleton]; vm_compute in Ht; simplify_eq;
    unfold normalised; simpl; lia.
Defined.

Lemma event_add_watches_or_drops_witness :
  exists s', ril_event_add 5 armed = Ret (tt, s') /\ watch_ok s' /\
    ((exists i, watch_table armed !! i = Some None /\ (forall j, (j < i)%nat -> watch_table armed !! j <> Some None) /\
        watch_table s' = <[i := Some 5%nat]> (watch_table armed) /\
        evs s' = <[5%nat := with_index (Z.of_nat i) (with_fd 9 ev0)]> (evs armed) /\
        readFds s' = readFds armed ∪ {[ 9 ]} /\ nfds s' = Z.max (nfds armed) (9 + 1)) \/
     (forall i, (i < MAX_FD_EVENTS)%nat -> exists a, watch_table armed !! i = Some (Some a)) /\ s' = armed).
Proof.
  apply (event_add_watches_or_drops armed 5 (with_fd 9 ev0)); [apply armed_watch_ok|by vm_compute|done|].
  intros j a ea [Hj Hea]. apply armed_entry in Hj as [-> ->]. vm_compute in Hea. by simplify_eq.
Defined.

Lemma event_del_unwatches_example :
  exists e s', ril_event_del 4 armed = Ret (tt, s') /\ watch_ok s' /\
    (forall j a ea, entry s' j a ea <-> j <> 0%nat /\ entry armed j a ea) /\
    readFds s' = readFds armed ∖ {[ fd e ]} /\ option_map index (evs s' !! 4%nat) = Some (-1).
Proof.
  exists (with_index 0 (with_fd 5 ev0)).
  apply (event_del_unwatches armed 0 4); [apply armed_watch_ok|]. split; [done|by vm_compute].
Defined.

(** At the very instant of its deadline a timer is not fired ([>], where the
    comment says [now >= ev->timeout]), while the wait computed for it is
    already zero: the loop spins until the clock moves. *)
Theorem timer_not_fired_at_deadline :
  calcNextTimeout (TV 11 0) armed = Ret (Some (TV 0 0), armed) /\
  processTimeouts 9 (TV 11 0) armed = Ret (tt, armed).
Proof. split; vm_compute; reflexivity. Qed.

End Runs.
