(* ===== verification/RilEventLoop.v ===== *)
(** * libril/ril_event.cpp: the whole loop

    [ril_event_loop] computes the time-out, waits in [select] and handles what
    is due, until [select] fails.  What [select] answers, the times of the
    clock and what the callbacks are told by the system are inputs; the
    arguments of the calls of [select] are outputs.  Before a round other
    threads may add events.

    The theorem is about any specification that the callbacks of the program
    follow, an instance of the classes below. *)

From S2P Require Import Prelude RilEvent RilEventSpec RilEventProps.

(** ** The loop *)

(** A round: the clock before [select], the result of [select], whether [errno]
    is [EINTR], the descriptors that are ready, the clock after it, and the
    input of other threads and of the callbacks. *)
Record select_answer (input : Type) : Type := SelectAnswer {
  before : timeval; n_ready : Z; eintr : bool; ready_fds : gset Z; after : timeval; inputs : input
}.
Arguments SelectAnswer {input}.
Arguments before {input}.
Arguments n_ready {input}.
Arguments eintr {input}.
Arguments ready_fds {input}.
Arguments after {input}.
Arguments inputs {input}.

(** The arguments of [select]: no time-out is [None]. *)
Record select_call : Type := SelectCall { s_nfds : Z; s_rfds : gset Z; s_timeout : option timeval }.

Inductive loop_end : Type := Returned | Waiting.

Definition select_args (now : timeval) : E select_call :=
  tv ← calcNextTimeout now;
  s ← get;
  mret (SelectCall (nfds s) (readFds s) tv).

(** More steps than a round has events. *)
Definition round_fuel (s : estate) : nat := S (size (evs s) + MAX_FD_EVENTS).

(** [ril_event_loop] on the answers that [select] has given so far: it has
    returned, or waits for the next one. *)
Fixpoint ril_event_loop {input} (others : input -> E unit) (call : input -> Z -> Z -> Z -> E unit) (answers : list (select_answer input)) :
    E (loop_end * list select_call) :=
  match answers with
  | [] => mret (Waiting, [])
  | r :: rest =>
      others (inputs r);;
      c ← select_args (before r);
      if n_ready r <? 0 then
        if eintr r then x ← ril_event_loop others call rest; mret (x.1, c :: x.2)
        else mret (Returned, [c])
      else
        s ← get;
        loop_round (call (inputs r)) (round_fuel s) (after r) (ready_fds r) (n_ready r);;
        x ← ril_event_loop others call rest; mret (x.1, c :: x.2)
  end.

(** [printReadies], compiled with [DEBUG]: the descriptors of the watched
    events that are in the set. *)
Definition printReadies (rfds : gset Z) (s : estate) : list Z :=
  omap (fun o => a ← o; e ← evs s !! a; if bool_decide (fd e ∈ rfds) then Some (fd e) else None) (watch_table s).

(** ** Invariants *)

(** The lists and the watch table are right, with the events [ps] still to
    fire. *)
Definition steady (ts ps : list nat) (s : estate) : Prop :=
  lists_ok (evs s) ts ps /\ timers_sorted (evs s) ts /\ watch_ok s /\
  (forall j a, watch_table s !! j = Some (Some a) -> a ∉ timer_list :: pending_list :: ts).

(** An invariant [I ps s] of the states with the events [ps] still to fire, for
    which the lists are right. *)
Class LoopInvariant (I : list nat -> estate -> Prop) : Prop :=
  inv_steady : forall ps s, I ps s -> exists ts, steady ts ps s.

(** Taking the first event from the list and calling its function. *)
Definition fire_first (call : Z -> Z -> Z -> E unit) (ev : nat) : E unit :=
  removeFromList ev;;
  e ← load ev;
  call (func e) (fd e) (param e).

(** What the loop needs of the callbacks: the invariant is kept. *)
Class Fires (I : list nat -> estate -> Prop) (call : Z -> Z -> Z -> E unit) : Prop :=
  fires : forall ev ps s, I (ev :: ps) s -> exists s', fire_first call ev s = Ret (tt, s') /\ I ps s'.

Lemma steady_loop_ok ts s : steady ts [] s <-> loop_ok s ts.
Proof.
  split.
  - intros (H1 & H2 & H3 & H4). done.
  - intros [H1 H2 H3 H4]. done.
Qed.

(** No list is longer than there are events. *)
Lemma timers_few ts ps s : steady ts ps s -> (length ts <= size (evs s))%nat.
Proof.
  intros (Hl & _). rewrite <- (size_dom (D := gset nat)). transitivity (size (list_to_set ts : gset nat)).
  - rewrite size_list_to_set; [done|]. destruct (lok_timers _ _ _ Hl) as [Hn _]. by apply NoDup_cons in Hn as [_ Hn].
  - apply subseteq_size. intros a Ha%elem_of_list_to_set. apply elem_of_dom.
    destruct (dlist_present _ _ _ a (lok_timers _ _ _ Hl)) as [e He]; [by apply list_elem_of_further|by eexists].
Qed.

(** The first pending event leaves the list. *)
Lemma drop_pending s ts ps p : steady ts (p :: ps) s ->
  exists m, removeFromList p s = Ret (tt, with_evs s m) /\ same_payload (evs s) m /\ steady ts ps (with_evs s m).
Proof.
  intros (Hl & Hs & Hw & Ha). pose proof Hl as [Ht Hp Hnd].
  destruct (removeFromList_dlist s pending_list [] ps p Hp) as (m & Hr & Hpay & Hd & _ & Hf).
  exists m. split; [done|]. split; [done|]. split; [|by split; [eapply timers_sorted_same|split; [apply watch_ok_same|]]].
  split; [|done|].
  - eapply dlist_frame; [exact Ht|]. intros x Hx. apply Hf. by apply (lists_apart _ _ _ x Hl).
  - rewrite <- Permutation_middle in Hnd.
    apply (sublist_NoDup _ (timer_list :: pending_list :: p :: ts ++ ps)); [done|by do 2 apply sublist_skip; apply sublist_cons].
Qed.

(** Deadlines do not change with the links and indices. *)
Lemma sorted_same_data m m' ts : same_data m m' -> timers_sorted m ts -> timers_sorted m' ts.
Proof.
  intros Hd. assert (He : forall a, deadline m' a = deadline m a).
  { intros a. unfold deadline. specialize (Hd a). unfold data in Hd. destruct (m' !! a), (m !! a); simplify_eq/=; congruence. }
  unfold timers_sorted. induction 1 as [|a ts Hs IH Hf]; constructor; [done|].
  eapply Forall_impl; [exact Hf|]. intros b Hb ta tb. rewrite !He. apply Hb.
Qed.

Lemma steady_collected s ts k rs s1 : loop_ok s ts -> collected s ts k rs s1 -> steady (drop k ts) (take k ts ++ rs) s1.
Proof.
  intros Hok (Hl & Hw & Hd & Ht). split; [exact Hl|]. split; [|split; [done|]].
  - eapply sorted_same_data; [exact Hd|]. pose proof (loop_sorted _ _ Hok) as Hso. unfold timers_sorted in *.
    rewrite <- (take_drop k ts) in Hso.
    by apply StronglySorted_app_1_r in Hso.
  - intros j a Hj. apply Ht in Hj as [Hj _]. pose proof (loop_apart _ _ Hok j a Hj) as Hap. rewrite !elem_of_cons in *.
    intros [?|[?|Hin]]; [tauto|tauto|]. apply Hap. right. right. rewrite <- (take_drop k ts), elem_of_app. by right.
Qed.

Lemma pending_head m ps : dlist m pending_list ps ->
  exists eh ev, m !! pending_list = Some eh /\ next eh = Some ev /\ head (ps ++ [pending_list]) = Some ev.
Proof.
  intros Hd. destruct (head (ps ++ [pending_list])) as [ev|] eqn:Eh; [|by destruct ps].
  assert (Hn : nxt m pending_list = Some ev) by (by apply (dlist_cut _ pending_list [] ps)).
  destruct (nxt_Some _ _ _ Hn) as (e & He & Ene). by exists e, ev.
Qed.

Section Loop.
Context (I : list nat -> estate -> Prop) {LI : LoopInvariant I}.

(** The events of a round fire one after the other. *)
Lemma fire_loop_fires call {F : Fires I call} ps : forall fuel s ev,
  I ps s -> head (ps ++ [pending_list]) = Some ev -> (length ps < fuel)%nat ->
  exists s', fire_loop call fuel ev s = Ret (tt, s') /\ I [] s'.
Proof.
  induction ps as [|p ps IH]; intros [|fuel] s ev Hs Hh Hf; simpl in Hf; try lia; cbn [fire_loop].
  { injection Hh as <-. rewrite bool_decide_eq_true_2 by done. by exists s. }
  injection Hh as <-. destruct (inv_steady _ _ Hs) as (ts & Hl & _). pose proof (lok_pending _ _ _ Hl) as Hd.
  assert (Hne : p <> pending_list).
  { intros ->. destruct Hd as [Hnd _]. apply NoDup_cons in Hnd as [Hnd _]. apply Hnd, list_elem_of_here. }
  rewrite bool_decide_eq_false_2 by done.
  destruct (dlist_succ _ _ _ _ Hd) as (y & Hy & Hyh). destruct (nxt_Some _ _ _ Hy) as (e & He & Ene).
  erewrite bind_run by (by apply load_run). rewrite Ene. erewrite bind_run by done.
  destruct (fires p ps s Hs) as (s1 & Hr & H1). destruct (IH fuel s1 y H1 Hyh ltac:(lia)) as (s' & Hr' & H'). exists s'.
  split; [|done].
  revert Hr. unfold fire_first, mbind, M_bind. destruct (removeFromList p s) as [[[] s2]| |]; [|done|done].
  destruct (load p s2) as [[e2 s3]| |]; [|done|done]. intros ->. exact Hr'.
Qed.

(** A round fires what it collects, when the invariant holds for that. *)
Lemma loop_round_fires call {F : Fires I call} now rfds n s ts : loop_ok s ts ->
  (forall k s1, collected s ts k (ready_from (evs s) rfds n (watch_table s)) s1 ->
     I (take k ts ++ ready_from (evs s) rfds n (watch_table s)) s1) ->
  exists s', loop_round call (round_fuel s) now rfds n s = Ret (tt, s') /\ I [] s'.
Proof.
  intros Hok Hcol. pose proof Hok as Hst%steady_loop_ok.
  pose proof (timers_few _ _ _ Hst) as Hfew.
  destruct (collect_run (round_fuel s) now rfds n s ts Hok) as (k & s1 & Hr & _ & _ & Hc); [unfold round_fuel; lia|].
  pose proof (due_length s ts k rfds n (loop_watch _ _ Hok)) as Hlen. pose proof (Hcol k s1 Hc) as H1.
  destruct Hc as (Hl & _). destruct (pending_head _ _ (lok_pending _ _ _ Hl)) as (eh & ev & Heh & Hn & Hhead).
  destruct (fire_loop_fires call _ (round_fuel s) s1 ev H1 Hhead) as (s2 & Hr2 & H2); [unfold round_fuel; lia|]. exists s2.
  split; [|done].
  unfold loop_round. revert Hr. unfold mbind, M_bind. destruct (processTimeouts _ now s) as [[[] s0]| |]; [|done|done]. intros ->.
  change (firePending call (round_fuel s) s1 = Ret (tt, s2)). unfold firePending.
  erewrite bind_run by (by apply load_run). rewrite Hn. by erewrite bind_run by done.
Qed.

End Loop.

(** ** Rounds *)

(** A time in microseconds. *)
Definition micros (t : timeval) : Z := tv_sec t * 1000000 + tv_usec t.

Lemma timersub_micros a b : micros (timersub a b) = micros a - micros b.
Proof. unfold timersub, micros. case_match; simpl; lia. Qed.

(** The arguments of [select] in a state: all the watched descriptors, and the
    time until the earliest deadline. *)
Definition waits_right (c : select_call) (now : timeval) (s0 : estate) : Prop :=
  s_nfds c = nfds s0 /\ s_rfds c = readFds s0 /\ (forall f, f ∈ s_rfds c -> 0 <= f < s_nfds c) /\
  exists ts, loop_ok s0 ts /\
    match s_timeout c with
    | None => ts = []
    | Some tv => exists a t, a ∈ ts /\ deadline (evs s0) a = Some t /\ 
        micros tv = (if timer_lt now t then micros t - micros now else 0) /\
        forall b tb, b ∈ ts -> deadline (evs s0) b = Some tb -> timer_le t tb
    end.

Lemma select_args_run now s ts : loop_ok s ts -> exists c, select_args now s = Ret (c, s) /\ waits_right c now s.
Proof.
  intros Hok. unfold select_args.
  assert (Hf : forall f, f ∈ readFds s -> 0 <= f < nfds s).
  { intros f (i & a & e & [Hi He] & <-)%(wok_fds _ (loop_watch _ _ Hok)).
    destruct (wok_entry _ (loop_watch _ _ Hok) i a Hi) as (e' & He' & _ & Hr). by simplify_eq. }
  destruct (calcNextTimeout_run now s ts [] (loop_lists _ _ Hok) (loop_sorted _ _ Hok)) as [[-> Hr]|(a & t & Ha & Ht & Hr & Hmin)];
    rewrite (bind_run _ _ _ _ _ Hr); eexists; (split; [reflexivity|]); (split; [done|]); (split; [done|]); (split; [exact Hf|]).
  - by exists [].
  - exists ts. split; [done|]. exists a, t. split; [destruct ts; simplify_eq/=; apply list_elem_of_here|].
    split; [done|]. split; [|done]. case_match; [apply timersub_micros|done].
Qed.

(** [select] failed, other than by a signal. *)
Definition fails {input} (r : select_answer input) : bool := (n_ready r <? 0) && negb (eintr r).

(** ** Specifications *)

Section Spec.
Context {input A : Type} (next : A -> select_answer input -> A).

(** The states of a specification that changes with the answers: when [select]
    is called, with its answer, and at the end. *)
Definition spec_step (a : A) (r : select_answer input) : A := if n_ready r <? 0 then a else next a r.

Fixpoint spec_rounds (a : A) (answers : list (select_answer input)) : list (A * select_answer input) :=
  match answers with
  | [] => []
  | r :: rest => (a, r) :: (if fails r then [] else spec_rounds (spec_step a r) rest)
  end.

Fixpoint spec_end (a : A) (answers : list (select_answer input)) : A :=
  match answers with
  | [] => a
  | r :: rest => if fails r then a else spec_end (spec_step a r) rest
  end.

Context (others : input -> E unit) (call : input -> Z -> Z -> Z -> E unit) (possible : select_answer input -> Prop) (J : A -> estate -> Prop).

(** What the loop needs of a program: its states follow the specification in
    what other threads do and in a round. *)
Class LoopRefines : Prop := {
  ref_steady a s : J a s -> exists ts, loop_ok s ts;
  ref_others r a s : possible r -> J a s -> exists s', others (inputs r) s = Ret (tt, s') /\ J a s';
  ref_round r a s : possible r -> 0 <= n_ready r -> J a s ->
    exists s', loop_round (call (inputs r)) (round_fuel s) (after r) (ready_fds r) (n_ready r) s = Ret (tt, s') /\ J (next a r) s'
}.

(** [s0] is the state in which the loop, started in [s], calls [select] for the
    answer [k]: the rounds before have run, and so have the other threads. *)
Definition at_select (answers : list (select_answer input)) (s : estate) (k : nat) (s0 : estate) : Prop :=
  exists r cs sk, answers !! k = Some r /\ ril_event_loop others call (take k answers) s = Ret ((Waiting, cs), sk) /\
    others (inputs r) sk = Ret (tt, s0).

(** One round more at the front. *)
Lemma at_select_cons r rest s s1 s2 c k s0 :
  others (inputs r) s = Ret (tt, s1) -> select_args (before r) s1 = Ret (c, s1) -> fails r = false ->
  (n_ready r < 0 /\ s2 = s1 \/ 0 <= n_ready r /\
   loop_round (call (inputs r)) (round_fuel s1) (after r) (ready_fds r) (n_ready r) s1 = Ret (tt, s2)) ->
  at_select rest s2 k s0 -> at_select (r :: rest) s (S k) s0.
Proof.
  intros Ho Hc Hf Hround (r' & cs & sk & Hk & Hl & Ho'). exists r', (c :: cs), sk. split; [done|]. split; [|done].
  cbn [take ril_event_loop]. rewrite (bind_run _ _ _ _ _ Ho), (bind_run _ _ _ _ _ Hc). unfold fails in Hf.
  destruct Hround as [[Hn ->]|[Hn Hr]].
  - rewrite (proj2 (Z.ltb_lt _ _) Hn) in *. destruct (eintr r); [|done]. by rewrite (bind_run _ _ _ _ _ Hl).
  - rewrite (proj2 (Z.ltb_ge _ _) Hn) in *. rewrite (bind_run _ _ _ s1 s1) by done.
    rewrite (bind_run _ _ _ _ _ Hr). by rewrite (bind_run _ _ _ _ _ Hl).
Qed.

(** Whatever [select] answers, the loop runs without touching a wrong event and
    follows the specification.  It returns exactly when [select] fails other
    than by a signal; until then each round waits for all the descriptors that
    are watched in that state of the run, and no longer than until the earliest
    deadline in it. *)
Lemma event_loop_refines {LR : LoopRefines} answers : Forall possible answers -> forall a s, J a s ->
  exists e calls s', ril_event_loop others call answers s = Ret ((e, calls), s') /\ J (spec_end a answers) s' /\
    (e = Returned <-> Exists (fun r => fails r = true) answers) /\
    Forall2 (fun c x => exists s0, J x.1 s0 /\ waits_right c (before x.2) s0) calls (spec_rounds a answers) /\
    forall k c r, calls !! k = Some c -> answers !! k = Some r ->
      exists s0, at_select answers s k s0 /\ waits_right c (before r) s0.
Proof.
  induction 1 as [|r rest Hr _ IH]; intros a s0 Hs0; cbn [ril_event_loop spec_rounds spec_end].
  { exists Waiting, [], s0. split_and!; [done|done| |constructor|done]. split; [done|]. by intros ?%Exists_nil. }
  destruct (ref_others r a s0 Hr Hs0) as (s & Ho & Hs). rewrite (bind_run _ _ _ _ _ Ho). destruct (ref_steady a s Hs) as [ts Hok].
  destruct (select_args_run (before r) s ts Hok) as (c & Hc & Hw). rewrite (bind_run _ _ _ _ _ Hc). setoid_rewrite Exists_cons.
  assert (H0 : exists s1, at_select (r :: rest) s0 0 s1 /\ waits_right c (before r) s1) by (exists s; split; [by exists r, [], s0|done]).
  assert (Hgo : forall s1, J (spec_step a r) s1 -> fails r = false ->
    (n_ready r < 0 /\ s1 = s \/ 0 <= n_ready r /\
     loop_round (call (inputs r)) (round_fuel s) (after r) (ready_fds r) (n_ready r) s = Ret (tt, s1)) -> exists e calls s',
    (x ← ril_event_loop others call rest; mret (x.1, c :: x.2)) s1 = Ret ((e, calls), s') /\ J (spec_end (spec_step a r) rest) s' /\
    (e = Returned <-> fails r = true \/ Exists (fun r => fails r = true) rest) /\
    Forall2 (fun c x => exists s0, J x.1 s0 /\ waits_right c (before x.2) s0) calls ((a, r) :: spec_rounds (spec_step a r) rest) /\
    forall k c' r', calls !! k = Some c' -> (r :: rest) !! k = Some r' ->
      exists s2, at_select (r :: rest) s0 k s2 /\ waits_right c' (before r') s2).
  { intros s1 H1 Hf Hround. destruct (IH _ s1 H1) as (e & calls & s' & Hl & Hs' & He & Hall & Hat). exists e, (c :: calls), s'.
    rewrite (bind_run _ _ _ _ _ Hl). split; [done|]. split; [done|].
    split; [rewrite He, Hf; split; [by right|by intros [?|?]]|]. split; [constructor; [by exists s|done]|].
    intros [|k] c' r' Hk Hk'; simpl in Hk, Hk'; [by simplify_eq|]. destruct (Hat k c' r' Hk Hk') as (s2 & Hs2 & Hw2).
    exists s2. split; [|done]. by eapply at_select_cons. }
  destruct (fails r) eqn:Ef; unfold fails in Ef; [|specialize (fun s1 H1 => Hgo s1 H1 eq_refl)]; unfold spec_step in Hgo |- *.
  - apply andb_true_iff in Ef as [-> Ee]. destruct (eintr r); [done|].
    exists Returned, [c], s. split_and!; [done|done|split; [by left|done]|by constructor; [exists s|constructor]|].
    by intros [|k] c' r' Hk Hk'; simplify_eq/=.
  - destruct (Z.ltb_spec (n_ready r) 0); [destruct (eintr r); [by apply Hgo; [done|left]|done]|]. rewrite (bind_run _ _ _ s s) by done.
    destruct (ref_round r a s Hr ltac:(lia) Hs) as (s1 & Hl & H1). rewrite (bind_run _ _ _ _ _ Hl). by apply Hgo; [done|right].
Qed.

End Spec.

(** ** An example *)

(** The least invariant, for callbacks that do nothing. *)
Definition steady_some (ps : list nat) (s : estate) : Prop := exists ts, steady ts ps s.

#[local] Instance steady_invariant : LoopInvariant steady_some.
Proof. by intros ps s. Qed.

Definition idle (x : unit) : E unit := mret tt.
Definition idle_callback (x : unit) (f d p : Z) : E unit := mret tt.

#[local] Instance idle_fires x : Fires steady_some (idle_callback x).
Proof.
  intros ev ps s (ts & Hs). destruct (drop_pending s ts ps ev Hs) as (m & Hr & Hpay & H1). exists (with_evs s m).
  split; [|by exists ts]. unfold fire_first. rewrite (bind_run _ _ _ _ _ Hr). destruct Hs as (Hl & _).
  destruct (dlist_present _ _ _ ev (lok_pending _ _ _ Hl)) as [e He]; [apply list_elem_of_further, list_elem_of_here|].
  specialize (Hpay ev). rewrite He in Hpay. destruct (m !! ev) as [e'|] eqn:Em; [|done].
  by rewrite (bind_run _ _ _ _ _ (load_run (with_evs s m) ev e' Em)).
Qed.

Definition ignore (a : unit) (r : select_answer unit) : unit := a.

#[local] Instance idle_refines : LoopRefines ignore idle idle_callback (fun _ => True) (fun _ => steady_some []).
Proof.
  split.
  - intros _ s (ts & Hok%steady_loop_ok). by exists ts.
  - intros r _ s _ Hs. by exists s.
  - intros r _ s _ _ (ts & Hok%steady_loop_ok). apply (loop_round_fires steady_some _ _ _ _ s ts Hok).
    intros k s1 Hc. exists (drop k ts). by apply (steady_collected s).
Qed.

(** A signal, two rounds, and a failure. *)
Definition sample_answers : list (select_answer unit) :=
  [SelectAnswer (TV 10 0) (-1) true ∅ (TV 10 0) tt; SelectAnswer (TV 10 1) 1 false {[5]} (TV 10 2) tt;
   SelectAnswer (TV 10 3) 0 false ∅ (TV 11 1) tt; SelectAnswer (TV 11 2) (-1) false ∅ (TV 11 2) tt].

Lemma event_loop_example : exists e calls s', ril_event_loop idle idle_callback sample_answers armed = Ret ((e, calls), s') /\ e = Returned.
Proof.
  destruct (event_loop_refines ignore idle idle_callback (fun _ => True) (fun _ => steady_some []) sample_answers) with (a := tt) (s := armed)
    as (e & calls & s' & Hr & _ & He & _).
  - by repeat constructor.
  - exists [3%nat; 2%nat]. apply steady_loop_ok, armed_loop_ok.
  - exists e, calls, s'. split; [exact Hr|]. apply He. do 3 apply Exists_cons_tl. by apply Exists_cons_hd.
Qed.
