(* ===== verification/RilDaemonEvents.v ===== *)
(** * libril/ril.cpp: the events of the daemon

    What the callbacks of ril.cpp do to the events of ril_event.cpp: the event
    of the listening socket fires once and is added again when the connection
    is refused or closed, that of the connection stays until it is closed, and
    timers are allocated when they are requested and freed when they have
    fired.  [rilEventAddWakeup] is [ril_event_add]: the byte in the wake-up pipe
    is in [RilStartup].  The parameters of callbacks that are pointers to the
    socket are 0.  What the callbacks do to the rest of the daemon is in
    [RilCore]. *)

From S2P Require Import Prelude RilEvent RilEventLoop.

(** ** Events *)

(** [s_wakeupfd_event], [s_listen_event], [s_commands_event] and
    [s_debug_event]. *)
Definition s_wakeupfd_event : nat := 2.
Definition s_listen_event : nat := 3.
Definition s_commands_event : nat := 4.
Definition s_debug_event : nat := 5.

(** The callbacks, as the numbers in the field [func]. *)
Definition fn_wakeup : Z := 1.
Definition fn_listen : Z := 2.
Definition fn_commands : Z := 3.
Definition fn_debug : Z := 4.
Definition fn_timer : Z := 5.

(** The events before [ril_event_init]: two list heads and the four globals. *)
Definition static_events : estate :=
  ES (list_to_map (map (fun a => (a, zero_event)) (seq 0 6))) ∅ 0 [].

(** The events that [eventLoop], [startListen] and [RIL_register] add. *)
Definition start_events (wfd lfd dfd : Z) : E unit :=
  ril_event_init;;
  ril_event_set s_wakeupfd_event wfd true fn_wakeup 0;;
  ril_event_add s_wakeupfd_event;;
  ril_event_set s_listen_event lfd false fn_listen 0;;
  ril_event_add s_listen_event;;
  ril_event_set s_debug_event dfd true fn_debug 0;;
  ril_event_add s_debug_event.

(** ** Timers *)

(** [malloc] of a [UserCallbackInfo]: an address that is not used. *)
Definition malloc_event : E nat := fun s =>
  let a := fresh (dom (evs s)) in
  Ret (a, ES (<[a := zero_event]> (evs s)) (readFds s) (nfds s) (watch_table s)).

Definition free_event (a : nat) : E unit := fun s =>
  match evs s !! a with
  | Some _ => Ret (tt, ES (delete a (evs s)) (readFds s) (nfds s) (watch_table s))
  | None => Fault
  end.

(** [internalRequestTimedCallback]: no time is time 0.  The list of timers is
    not longer than the number of events. *)
Definition internalRequestTimedCallback (now : timeval) (relativeTime : option timeval) : E unit :=
  let myRelativeTime := default (TV 0 0) relativeTime in
  a ← malloc_event;
  ril_event_set a (-1) false fn_timer (Z.of_nat a);;
  s ← get;
  ril_timer_add (S (size (evs s))) now a (Some myRelativeTime).

Fixpoint request_timers (now : timeval) (times : list (option timeval)) : E unit :=
  match times with
  | [] => mret tt
  | tv :: rest => internalRequestTimedCallback now tv;; request_timers now rest
  end.

(** ** Callbacks *)

(** [accepted]: what [accept] returns; [is_phone_socket]: the peer is the phone
    process; [closed]: the connection has ended; [timers]: the timers that the
    callback with this parameter requests; [requested]: those of other
    threads. *)
Record daemon_input : Type := DaemonInput {
  accepted : Z; is_phone_socket : bool; closed : bool; clock : timeval; timers : Z -> Z -> list (option timeval); requested : list (option timeval)
}.

Definition listenCallback (x : daemon_input) (p : Z) : E unit :=
  if accepted x <? 0 then ril_event_add s_listen_event
  else if negb (is_phone_socket x) then ril_event_add s_listen_event
  else
    ril_event_set s_commands_event (accepted x) true fn_commands 0;;
    ril_event_add s_commands_event;;
    request_timers (clock x) (timers x fn_listen p).

Definition processCommandsCallback (x : daemon_input) (p : Z) : E unit :=
  request_timers (clock x) (timers x fn_commands p);;
  if closed x then
    ril_event_del s_commands_event;;
    ril_event_add s_listen_event
  else mret tt.

(** Closing the command socket at a debug power-off (modelled in [RilDebug])
    changes no event: the descriptor stays watched. *)
Definition debugCallback (x : daemon_input) (p : Z) : E unit := request_timers (clock x) (timers x fn_debug p).

Definition userTimerCallback (x : daemon_input) (p : Z) : E unit :=
  request_timers (clock x) (timers x fn_timer p);;
  free_event (Z.to_nat p).

Definition daemon_call (x : daemon_input) (f d p : Z) : E unit :=
  if f =? fn_wakeup then mret tt
  else if f =? fn_listen then listenCallback x p
  else if f =? fn_commands then processCommandsCallback x p
  else if f =? fn_debug then debugCallback x p
  else if f =? fn_timer then userTimerCallback x p
  else fault.

Definition daemon_others (x : daemon_input) : E unit := request_timers (clock x) (requested x).

(** The daemon from the start on. *)
Definition daemon_loop (wfd lfd dfd : Z) (answers : list (select_answer daemon_input)) : E (loop_end * list select_call) :=
  start_events wfd lfd dfd;;
  ril_event_loop daemon_others daemon_call answers.
