(* ===== verification/RilDaemonProps.v ===== *)
(** * The event loop and the callbacks of the daemon together

    The invariant of the events of the daemon: the wake-up pipe and the debug
    socket are always watched, and so is either the listening socket or the
    connection, unless the event of the listening socket is about to fire;
    every other event is a timer, which is freed when it has fired. *)

From S2P Require Import Prelude RilEvent RilEventSpec RilEventProps RilEventLoop RilDaemonEvents.

(** ** Frames *)

(** An event that is neither in a list nor in the table may change. *)
Lemma steady_frame ts ps s m : steady ts ps s ->
  (forall a, a ∈ timer_list :: pending_list :: ts ++ ps -> m !! a = evs s !! a) ->
  (forall i a, watch_table s !! i = Some (Some a) -> m !! a = evs s !! a) -> steady ts ps (with_evs s m).
Proof.
  intros (Hl & Hs & Hw & Ha) Hm Ht. pose proof Hl as [H1 H2 H3].
  assert (Hlinks : forall a, a ∈ timer_list :: pending_list :: ts ++ ps -> nxt m a = nxt (evs s) a /\ prv m a = prv (evs s) a).
  { intros a Hin. unfold nxt, prv. by rewrite (Hm a Hin). }
  split; [split; [| |done]|split; [|split; [|done]]].
  - eapply dlist_frame; [exact H1|]. intros a Hin. apply Hlinks. rewrite !elem_of_cons, elem_of_app in *. tauto.
  - eapply dlist_frame; [exact H2|]. intros a Hin. apply Hlinks. rewrite !elem_of_cons, elem_of_app in *. tauto.
  - assert (Hd : forall a, a ∈ ts -> deadline m a = deadline (evs s) a).
    { intros a Hin. unfold deadline. rewrite Hm; [done|]. rewrite !elem_of_cons, elem_of_app. tauto. }
    clear -Hs Hd. simpl. unfold timers_sorted in *. induction Hs as [|a ts Hs IH Hf]; constructor.
    + apply IH. intros b Hb. apply Hd. by apply list_elem_of_further.
    + rewrite Forall_forall in *. intros b Hb ta tb.
      rewrite !Hd; [by apply Hf|by apply list_elem_of_further|apply list_elem_of_here].
  - apply watch_ok_frame; [done|]. intros i a Hi. by rewrite (Ht i a Hi).
Qed.

(** Two steps before others. *)
Lemma then_run {A} (c1 c2 : E unit) (k : E A) s s' : (c1;; c2) s = Ret (tt, s') -> (c1;; c2;; k) s = k s'.
Proof. unfold mbind, M_bind. destruct (c1 s) as [[[] s1]| |]; [|done|done]. by intros ->. Qed.

(** What the invariant says of events and of the table. *)
Definition event_data (s : estate) (a : nat) : option (Z * bool * timeval * Z * Z) := data <$> evs s !! a.
Definition on_table (s : estate) (a : nat) : Prop := exists j, watch_table s !! j = Some (Some a).

Section Daemon.
Context (wfd lfd dfd : Z).

Definition is_event (D : nat -> option (Z * bool * timeval * Z * Z)) (a : nat) (f d : Z) (p : bool) : Prop :=
  exists tv pm, D a = Some (d, p, tv, f, pm).
Definition is_timer (D : nat -> option (Z * bool * timeval * Z * Z)) (a : nat) : Prop :=
  (6 <= a)%nat /\ exists d p tv, D a = Some (d, p, tv, fn_timer, Z.of_nat a).
Definition fixed_event (a : nat) : Prop :=
  a = s_wakeupfd_event \/ a = s_listen_event \/ a = s_commands_event \/ a = s_debug_event.

(** [qs]: the events to fire, and the one whose callback runs. *)
Record core (ts qs : list nat) (D : nat -> option (Z * bool * timeval * Z * Z)) (T : nat -> Prop) : Prop := Core {
  f_timers : forall a, a ∈ ts -> is_timer D a;
  f_pending : forall a, a ∈ qs -> is_timer D a \/ fixed_event a;
  f_store : forall a, is_Some (D a) -> (a < 6)%nat \/ a ∈ ts \/ a ∈ qs;
  f_wakeup : is_event D s_wakeupfd_event fn_wakeup wfd true;
  f_listen : is_event D s_listen_event fn_listen lfd false;
  f_debug : is_event D s_debug_event fn_debug dfd true;
  f_commands : is_Some (D s_commands_event);
  f_connection : T s_commands_event -> exists f, 0 <= f /\ (f ∉ [wfd; lfd; dfd]) /\ is_event D s_commands_event fn_commands f true;
  f_table : forall a, T a -> fixed_event a;
  f_always : T s_wakeupfd_event /\ T s_debug_event
}.

(** Either the listening socket or the connection is watched, unless a new
    connection is about to be accepted. *)
Record facts (ts qs : list nat) (D : nat -> option (Z * bool * timeval * Z * Z)) (T : nat -> Prop) : Prop := Facts {
  f_core : core ts qs D T;
  f_pending_commands : s_commands_event ∈ qs -> T s_commands_event;
  f_one : (T s_listen_event /\ ~ T s_commands_event /\ s_listen_event ∉ qs) \/
    (T s_commands_event /\ ~ T s_listen_event /\ s_listen_event ∉ qs) \/
    (~ T s_listen_event /\ ~ T s_commands_event /\ s_listen_event ∈ qs)
}.

(** With the events [fl] in flight: taken from the list, and not done. *)
Definition mid (ts fl ps : list nat) (s : estate) : Prop :=
  steady ts ps s /\ facts ts (fl ++ ps) (event_data s) (on_table s) /\ Forall (fun p => p ∉ timer_list :: pending_list :: ts ++ ps) fl.

Definition daemon_ok (ps : list nat) (s : estate) : Prop := exists ts, mid ts [] ps s.

(** The same facts for the same data and table. *)
Lemma facts_ext ts qs D D' (T T' : nat -> Prop) :
  (forall a, D' a = D a) -> (forall a, T' a <-> T a) -> facts ts qs D T -> facts ts qs D' T'.
Proof.
  intros HD HT [[H1 H2 H3 H4 H5 H6 H7 H8 H9 H10] H11 H12]. unfold is_timer, is_event in *.
  split; [split|..]; unfold is_timer, is_event; try setoid_rewrite HD; try setoid_rewrite HT; done.
Qed.

(** The event in flight is done, and is one that stays. *)
Lemma core_pop ts p qs D T : core ts (p :: qs) D T -> (p < 6)%nat -> core ts qs D T.
Proof.
  intros [H1 H2 H3 H4 H5 H6 H7 H8 H9 H10] Hp. split; try done.
  - intros a Ha. apply H2. by apply list_elem_of_further.
  - intros a Ha. destruct (H3 a Ha) as [?|[?|[->|?]%elem_of_cons]]; auto.
Qed.

Lemma facts_pop ts p qs D T : facts ts (p :: qs) D T -> (p < 6)%nat -> p <> s_listen_event -> facts ts qs D T.
Proof.
  intros [H0 H11 H12] Hp Hl. split; [by apply (core_pop ts p)|..].
  - intros Ha. apply H11. by apply list_elem_of_further.
  - rewrite elem_of_cons in H12. naive_solver.
Qed.

(** The connection: the descriptor of the event of the commands, when it is
    watched. *)
Definition connected (s : estate) (c : option Z) : Prop :=
  match c with
  | None => ~ on_table s s_commands_event
  | Some f => on_table s s_commands_event /\ is_event (event_data s) s_commands_event fn_commands f true
  end.

(** The event of the commands is the same and is watched as before. *)
Definition same_conn (s s' : estate) : Prop :=
  event_data s' s_commands_event = event_data s s_commands_event /\ (on_table s' s_commands_event <-> on_table s s_commands_event).

#[local] Instance same_conn_preorder : PreOrder same_conn.
Proof. split; [done|]. intros s1 s2 s3 [H1 H2] [H3 H4]. split; [congruence|by rewrite H4]. Qed.

Lemma connected_same s s' c : same_conn s s' -> connected s c -> connected s' c.
Proof. intros [H1 H2]. destruct c as [f|]; simpl; [|by rewrite H2]. unfold is_event. by rewrite H1, H2. Qed.

(** ** Timers *)

Lemma on_table_with_evs s m a : on_table (with_evs s m) a <-> on_table s a.
Proof. done. Qed.

(** What is allocated is new. *)
Lemma fresh_event (s : estate) : evs s !! fresh (dom (evs s)) = None.
Proof. apply not_elem_of_dom, is_fresh. Qed.

Lemma lists_present ts ps s a : steady ts ps s -> a ∈ timer_list :: pending_list :: ts ++ ps -> is_Some (evs s !! a).
Proof.
  intros ([H1 H2 _] & _) Ha. rewrite !elem_of_cons, elem_of_app in Ha.
  destruct Ha as [->|[->|[Ha|Ha]]]; [eapply dlist_present; [exact H1|apply list_elem_of_here]|eapply dlist_present; [exact H2|apply list_elem_of_here]|
    eapply dlist_present; [exact H1|by apply list_elem_of_further]|eapply dlist_present; [exact H2|by apply list_elem_of_further]].
Qed.

Lemma table_present ts ps s i a : steady ts ps s -> watch_table s !! i = Some (Some a) -> is_Some (evs s !! a).
Proof. intros (_ & _ & Hw & _) Hi. destruct (wok_entry _ Hw i a Hi) as (e & He & _). by exists e. Qed.

Lemma fixed_present ts qs ps s a : steady ts ps s -> facts ts qs (event_data s) (on_table s) -> (a < 6)%nat -> is_Some (evs s !! a).
Proof.
  intros Hs [Hc _ _] Ha.
  destruct a as [|[|a]]; [apply (lists_present _ _ _ _ Hs), list_elem_of_here|apply (lists_present _ _ _ _ Hs), list_elem_of_further, list_elem_of_here|].
  apply (fmap_is_Some data). change (is_Some (event_data s (S (S a)))). destruct a as [|[|[|[|a]]]]; [| | | |lia].
  - destruct (f_wakeup _ _ _ _ Hc) as (? & ? & E). by eexists.
  - destruct (f_listen _ _ _ _ Hc) as (? & ? & E). by eexists.
  - apply (f_commands _ _ _ _ Hc).
  - destruct (f_debug _ _ _ _ Hc) as (? & ? & E). by eexists.
Qed.

(** The allocated event with its fields set. *)
Definition with_timer_event (a : nat) (s : estate) : estate :=
  with_evs s (<[a := Ev None None (-1) (-1) false (TV 0 0) fn_timer (Z.of_nat a)]> (evs s)).

Lemma new_timer_steady ts ps s a : evs s !! a = None -> steady ts ps s -> steady ts ps (with_timer_event a s).
Proof.
  intros Ha Hs. apply steady_frame; [done| |].
  - intros b Hb. rewrite lookup_insert_ne; [done|]. intros ->. destruct (lists_present _ _ _ _ Hs Hb). congruence.
  - intros i b Hb. rewrite lookup_insert_ne; [done|]. intros ->. destruct (table_present _ _ _ _ _ Hs Hb). congruence.
Qed.

(** A new timer among the others. *)
Lemma facts_timer ts qs D D' T a k : D a = None -> (6 <= a)%nat ->
  (exists d p tv, D' a = Some (d, p, tv, fn_timer, Z.of_nat a)) -> (forall b, b <> a -> D' b = D b) ->
  facts ts qs D T -> facts (take k ts ++ a :: drop k ts) qs D' T.
Proof.
  intros Ha H6 Hn HD [[H1 H2 H3 H4 H5 H6' H7 H8 H9 H10] H11 H12].
  assert (Hev : forall b f d p, is_event D b f d p -> is_event D' b f d p).
  { intros b f d p (tv & pm & E). exists tv, pm. rewrite HD; [done|]. intros ->. congruence. }
  assert (Hti : forall b, is_timer D b -> is_timer D' b).
  { intros b (Hb & d & p & tv & E). split; [done|]. exists d, p, tv. rewrite HD; [done|]. intros ->. congruence. }
  split; [split|..]; auto.
  - intros b. rewrite elem_of_app, elem_of_cons.
    intros [Hb|[->|Hb]]; [|by split|]; apply Hti, H1; rewrite <- (take_drop k ts), elem_of_app; tauto.
  - intros b Hb. destruct (H2 b Hb); auto.
  - intros b Hb. rewrite elem_of_app, elem_of_cons. destruct (decide (b = a)) as [->|Hne]; [tauto|]. rewrite HD in Hb by done.
    destruct (H3 b Hb) as [?|[Hin|?]]; [tauto| |tauto]. rewrite <- (take_drop k ts), elem_of_app in Hin. tauto.
  - destruct H7 as [x Hx]. exists x. rewrite HD; [done|]. intros <-. congruence.
  - intros Ht. destruct (H8 Ht) as (f & Hf & Hn' & He). exists f. auto.
Qed.

Lemma timer_run ts fl ps s now tv : mid ts fl ps s ->
  exists ts' s', internalRequestTimedCallback now tv s = Ret (tt, s') /\ mid ts' fl ps s' /\ same_conn s s'.
Proof.
  intros (Hs & Hf & Hfl). set (a := fresh (dom (evs s))). pose proof (fresh_event s : evs s !! a = None) as Ha.
  pose proof (new_timer_steady ts ps s a Ha Hs) as H1.
  assert (H6 : (6 <= a)%nat).
  { destruct (decide (6 <= a)%nat) as [|Hlt]; [done|exfalso]. destruct (fixed_present _ _ _ _ a Hs Hf) as [? E]; [lia|].
    congruence. }
  assert (Hev : evs (with_timer_event a s) !! a = Some (Ev None None (-1) (-1) false (TV 0 0) fn_timer (Z.of_nat a))) by apply lookup_insert_eq.
  assert (Hnew : a ∉ timer_list :: pending_list :: ts ++ ps).
  { intros Hin. destruct (lists_present _ _ _ _ Hs Hin). congruence. }
  pose proof (timers_few _ _ _ H1) as Hfew. destruct H1 as (Hl1 & Hs1 & Hw1 & Ha1).
  destruct (ril_timer_add_run (S (size (evs (with_timer_event a s)))) now _ ts ps a _ (default (TV 0 0) tv) Hl1 Hs1 ltac:(lia) Hev Hnew)
    as (k & m & Hr & Hl & Hso & _ & Hpay).
  assert (HD : forall b, b <> a -> event_data (with_evs (with_timer_event a s) m) b = event_data s b).
  { intros b Hb. pose proof (same_payload_data _ _ Hpay b) as E. simpl in E. rewrite !lookup_insert_ne in E by done. exact E. }
  exists (take k ts ++ a :: drop k ts), (with_evs (with_timer_event a s) m).
  split; [|split; [|split; [apply HD; unfold s_commands_event; lia|done]]; split; [|split]].
  - unfold internalRequestTimedCallback, malloc_event. fold a. erewrite bind_run by reflexivity. unfold ril_event_set.
    erewrite bind_run by (apply update_run; apply lookup_insert_eq). cbn [evs readFds nfds watch_table]. rewrite insert_insert_eq.
    erewrite bind_run by reflexivity. exact Hr.
  - split; [done|]. split; [done|]. split.
    + apply watch_ok_frame; [done|]. intros i b Hb. rewrite (Hpay b). rewrite lookup_insert_ne; [done|].
      intros ->. destruct (table_present _ _ _ _ _ Hs Hb). congruence.
    + intros j b Hb. specialize (Ha1 j b Hb). rewrite !elem_of_cons, elem_of_app, elem_of_cons in *.
      rewrite <- (take_drop k ts), elem_of_app in Ha1.
      intros [?|[?|[?|[->|?]]]]; try tauto. destruct (table_present _ _ _ _ _ Hs Hb). congruence.
  - apply (facts_ext _ _ (event_data (with_evs s m)) _ (on_table s)); [done|done|].
    apply (facts_timer ts (fl ++ ps) (event_data s)); [| | | |done].
    + unfold event_data. by rewrite Ha.
    + done.
    + pose proof (same_payload_data _ _ Hpay a) as E. rewrite lookup_insert_eq in E. unfold event_data. simpl. rewrite E.
      by eexists _, _, _.
    + exact HD.
  - rewrite Forall_forall in *. intros p Hp. specialize (Hfl p Hp). assert (p <> a).
    { intros ->. destruct (f_pending _ _ _ _ (f_core _ _ _ _ Hf) a) as [(_ & d & q & t & E)|Hfx]; [apply elem_of_app; by left| |].
      - unfold event_data in E. by rewrite Ha in E.
      - unfold fixed_event, s_wakeupfd_event, s_listen_event, s_commands_event, s_debug_event in Hfx. lia. }
    rewrite !elem_of_cons, !elem_of_app, !elem_of_cons in *. rewrite <- (take_drop k ts), elem_of_app in Hfl. tauto.
Qed.

Lemma timers_run ts fl ps s now times : mid ts fl ps s ->
  exists ts' s', request_timers now times s = Ret (tt, s') /\ mid ts' fl ps s' /\ same_conn s s'.
Proof.
  revert ts s. induction times as [|tv times IH]; intros ts s Hs; cbn [request_timers]; [by exists ts, s|].
  destruct (timer_run ts fl ps s now tv Hs) as (ts1 & s1 & Hr & H1 & Hc1). rewrite (bind_run _ _ _ _ _ Hr).
  destruct (IH ts1 s1 H1) as (ts2 & s2 & Hr2 & H2 & Hc2). exists ts2, s2. split; [done|]. split; [done|]. by etransitivity.
Qed.

(** ** The table *)

(** Eight entries are enough for four events. *)
Lemma table_not_full s : watch_ok s -> (forall a, on_table s a -> fixed_event a) ->
  ~ forall i, (i < MAX_FD_EVENTS)%nat -> exists a, watch_table s !! i = Some (Some a).
Proof.
  intros Hw Hfix Hfull. destruct (Hfull 0%nat) as [a0 H0]; [unfold MAX_FD_EVENTS; lia|].
  destruct (Hfull 1%nat) as [a1 H1]; [unfold MAX_FD_EVENTS; lia|].
  destruct (Hfull 2%nat) as [a2 H2]; [unfold MAX_FD_EVENTS; lia|].
  destruct (Hfull 3%nat) as [a3 H3]; [unfold MAX_FD_EVENTS; lia|].
  destruct (Hfull 4%nat) as [a4 H4]; [unfold MAX_FD_EVENTS; lia|].
  assert (Hne : forall i j a b, i <> j -> watch_table s !! i = Some (Some a) -> watch_table s !! j = Some (Some b) -> a <> b).
  { intros i j a b Hij Hi Hj ->. by apply Hij, (entry_unique s i j b). }
  assert (Hin : forall i a, watch_table s !! i = Some (Some a) -> a = 2%nat \/ a = 3%nat \/ a = 4%nat \/ a = 5%nat) by (intros i a Hi; apply Hfix; by exists i).
  assert (Hnd : NoDup [a0; a1; a2; a3; a4]).
  { repeat (apply NoDup_cons; split; [rewrite ?elem_of_cons, elem_of_nil; intros Hor; repeat (destruct Hor as [Hor|Hor]; [revert Hor; eapply Hne; [|eassumption|eassumption]; lia|]); done|]).
    by apply NoDup_nil. }
  assert (Hincl : [a0; a1; a2; a3; a4] ⊆ [2%nat; 3%nat; 4%nat; 5%nat]).
  { intros a Ha. revert a Ha. apply Forall_forall.
    repeat apply Forall_cons_2; [apply (Hin 0%nat) in H0|apply (Hin 1%nat) in H1|apply (Hin 2%nat) in H2|apply (Hin 3%nat) in H3|apply (Hin 4%nat) in H4|constructor]; rewrite !elem_of_cons; tauto.
    }
  apply NoDup_submseteq in Hincl; [|done]. apply submseteq_length in Hincl. simpl in Hincl. lia.
Qed.

Lemma event_data_index s a b e n : evs s !! a = Some e -> data <$> (<[a := with_index n e]> (evs s)) !! b = event_data s b.
Proof. intros He. apply (same_data_index _ _ _ n He b). Qed.

Lemma add_run ts ps s ev e : steady ts ps s -> (forall a, on_table s a -> fixed_event a) ->
  ev ∉ timer_list :: pending_list :: ts -> ~ on_table s ev -> evs s !! ev = Some e -> 0 <= fd e ->
  (forall j a ea, entry s j a ea -> fd ea <> fd e) ->
  exists s', ril_event_add ev s = Ret (tt, s') /\ steady ts ps s' /\ (forall a, event_data s' a = event_data s a) /\
    (forall a, on_table s' a <-> on_table s a \/ a = ev).
Proof.
  intros (Hl & Hs & Hw & Ha) Hfix Hev Hnt He Hfd Hfr.
  destruct (ril_event_add_run s ev e Hw He Hfd) as [(i & Hi & _ & Hr & Hw')|[Hfull _]].
  { intros j a ea Hen. split; [|by eapply Hfr]. intros ->. apply Hnt. exists j. apply Hen. }
  2: { by destruct (table_not_full s Hw Hfix). }
  pose proof (lookup_lt_Some _ _ _ Hi) as Hil.
  assert (HT : forall a, on_table (watched s i ev e) a <-> on_table s a \/ a = ev).
  { intros a. unfold on_table. simpl. split.
    - intros [j Hj]. destruct (decide (j = i)) as [->|Hne]; [rewrite list_lookup_insert_eq in Hj by done; right; congruence|].
      rewrite list_lookup_insert_ne in Hj by done. left. by exists j.
    - intros [[j Hj]| ->]; [|exists i; by rewrite list_lookup_insert_eq]. exists j. rewrite list_lookup_insert_ne; [done|].
      intros ->. congruence. }
  exists (watched s i ev e). split; [done|]. split; [|split; [intros a; by apply event_data_index|done]].
  split; [by apply lists_ok_index|]. split; [by eapply sorted_same_data; [apply same_data_index|]|]. split; [done|].
  intros j a Hj. assert (Hon : on_table (watched s i ev e) a) by by exists j.
  apply HT in Hon as [[j' Hj']| ->]; [by apply (Ha j')|done].
Qed.

Lemma del_run ts ps s ev : steady ts ps s -> on_table s ev ->
  exists s', ril_event_del ev s = Ret (tt, s') /\ steady ts ps s' /\ (forall a, event_data s' a = event_data s a) /\
    (forall a, on_table s' a <-> on_table s a /\ a <> ev).
Proof.
  intros (Hl & Hs & Hw & Ha) [i Hi]. destruct (wok_entry _ Hw i ev Hi) as (e & He & Hix & _).
  pose proof (lookup_lt_Some _ _ _ Hi) as Hil. rewrite (wok_length _ Hw) in Hil. unfold ril_event_del.
  erewrite bind_run by (by apply load_run). rewrite Hix.
  destruct (Z.ltb_spec (Z.of_nat i) 0); [lia|]. destruct (Z.leb_spec (Z.of_nat MAX_FD_EVENTS) (Z.of_nat i)); [lia|].
  simpl. rewrite Nat2Z.id. destruct (removeWatch_run s i ev e Hw ltac:(done)) as (n & Hr & Hw').
  assert (HT : forall a, on_table (unwatched s i ev e n) a <-> on_table s a /\ a <> ev).
  { intros a. unfold on_table. simpl. split.
    - intros [j Hj].
      destruct (decide (j = i)) as [->|Hne]; [by rewrite list_lookup_insert_eq in Hj by (rewrite (wok_length _ Hw); lia)|].
      rewrite list_lookup_insert_ne in Hj by done. split; [by exists j|]. intros ->. by apply Hne, (entry_unique s j i ev).
    - intros [[j Hj] Hne]. exists j. rewrite list_lookup_insert_ne; [done|]. intros ->. congruence. }
  exists (unwatched s i ev e n). split; [done|]. split; [|split; [intros a; by apply event_data_index|done]].
  split; [by apply lists_ok_index|]. split; [by eapply sorted_same_data; [apply same_data_index|]|]. split; [done|].
  intros j a Hj. assert (Hon : on_table (unwatched s i ev e n) a) by by exists j. apply HT in Hon as [[j' Hj'] _].
  by apply (Ha j').
Qed.

(** An event gets its fields and is watched. *)
Lemma set_add_run ts ps s ev f p fn : steady ts ps s -> (forall a, on_table s a -> fixed_event a) ->
  ev ∉ timer_list :: pending_list :: ts ++ ps -> ~ on_table s ev -> is_Some (evs s !! ev) -> 0 <= f ->
  (forall j a ea, entry s j a ea -> fd ea <> f) ->
  exists s', (ril_event_set ev f p fn 0;; ril_event_add ev) s = Ret (tt, s') /\ steady ts ps s' /\
    event_data s' ev = Some (f, p, TV 0 0, fn, 0) /\ (forall a, a <> ev -> event_data s' a = event_data s a) /\
    (forall a, on_table s' a <-> on_table s a \/ a = ev).
Proof.
  intros Hs Hfix Hev Hnt [e0 He0] Hf Hfr. set (e := Ev None None f (-1) p (TV 0 0) fn 0).
  set (s1 := with_evs s (<[ev := e]> (evs s))).
  assert (Hs1 : steady ts ps s1).
  { apply steady_frame; [done| |].
    - intros a Ha. apply lookup_insert_ne. congruence.
    - intros i a Ha. apply lookup_insert_ne. intros <-. apply Hnt. by exists i. }
  destruct (add_run ts ps s1 ev e Hs1 Hfix) as (s' & Hr & Hs' & HD & HT); [|done|apply lookup_insert_eq|done| |].
  { intros Hin. apply Hev. rewrite !elem_of_cons, elem_of_app in *. tauto. }
  { intros j a ea [Hj Ha]. apply (Hfr j a ea). split; [done|]. simpl in Ha. rewrite lookup_insert_ne in Ha; [done|].
    intros ->. apply Hnt. by exists j. }
  exists s'. split; [unfold ril_event_set; erewrite bind_run by (by apply update_run); exact Hr|]. split; [done|].
  split; [|split; [|done]].
  - rewrite HD. unfold event_data. simpl. by rewrite lookup_insert_eq.
  - intros a Ha. rewrite HD. unfold event_data. simpl. by rewrite lookup_insert_ne.
Qed.

(** ** Connections *)

Hypothesis fds_differ : NoDup [wfd; lfd; dfd].
Hypothesis fds_open : 0 <= wfd /\ 0 <= lfd /\ 0 <= dfd.

Lemma event_of s a d p tv f pm : event_data s a = Some (d, p, tv, f, pm) ->
  exists e, evs s !! a = Some e /\ fd e = d /\ persist e = p /\ func e = f /\ param e = pm.
Proof. unfold event_data, data. destruct (evs s !! a) as [e|]; [|done]. simpl. intros [= <- <- _ <- <-]. by exists e. Qed.

(** The descriptor of an entry of the table. *)
Definition fd_of (a : nat) (d : Z) : Prop :=
  (a = s_wakeupfd_event /\ d = wfd) \/ (a = s_listen_event /\ d = lfd) \/
  (a = s_commands_event /\ 0 <= d /\ (d ∉ [wfd; lfd; dfd])) \/ (a = s_debug_event /\ d = dfd).

Lemma entry_fd ts qs s j a ea : core ts qs (event_data s) (on_table s) -> entry s j a ea -> fd_of a (fd ea).
Proof.
  intros Hc [Hj Ha]. assert (Hon : on_table s a) by by exists j. pose proof (f_table _ _ _ _ Hc a Hon) as Hfix.
  assert (Hfd : forall f d p, is_event (event_data s) a f d p -> fd ea = d).
  { intros f d p (tv & pm & E). destruct (event_of _ _ _ _ _ _ _ E) as (e & He & <- & _). congruence. }
  unfold fd_of. destruct Hfix as [->|[->|[->| ->]]].
  - left. split; [done|]. eapply Hfd, f_wakeup, Hc.
  - right; left. split; [done|]. eapply Hfd, f_listen, Hc.
  - right; right; left. destruct (f_connection _ _ _ _ Hc Hon) as (f & Hf & Hn & He). rewrite (Hfd _ _ _ He). done.
  - right; right; right. split; [done|]. eapply Hfd, f_debug, Hc.
Qed.

Lemma fixed_not_timer ts qs D T a : core ts qs D T -> (1 < a < 6)%nat -> a ∉ timer_list :: pending_list :: ts.
Proof.
  intros Hc Ha. rewrite !elem_of_cons. unfold timer_list, pending_list. intros [?|[?|Hin]]; [lia|lia|].
  apply (f_timers _ _ _ _ Hc) in Hin as [? _]. lia.
Qed.

(** The table with another event. *)
Lemma core_add ts qs D D' (T T' : nat -> Prop) a : core ts qs D T -> (forall b, D' b = D b) -> (forall b, T' b <-> T b \/ b = a) -> fixed_event a ->
  (a = s_commands_event -> exists f, 0 <= f /\ (f ∉ [wfd; lfd; dfd]) /\ is_event D a fn_commands f true) -> core ts qs D' T'.
Proof.
  intros [H1 H2 H3 H4 H5 H6 H7 H8 H9 H10] HD HT Hfix Hcom. unfold is_timer, is_event in *.
  split; unfold is_timer, is_event; try setoid_rewrite HD; try done.
  - rewrite HT. intros [Ht| <-]; [by apply H8|]. by apply Hcom.
  - intros b [Hb| ->]%HT; [by apply H9|done].
  - rewrite !HT. tauto.
Qed.

(** The listening socket is watched again. *)
Lemma listen_again ts ps s : steady ts ps s -> core ts ps (event_data s) (on_table s) ->
  ~ on_table s s_listen_event -> ~ on_table s s_commands_event -> s_listen_event ∉ ps -> s_commands_event ∉ ps ->
  exists s', ril_event_add s_listen_event s = Ret (tt, s') /\ mid ts [] ps s' /\ connected s' None.
Proof.
  intros Hs Hc H3 H4 P3 P4. destruct (f_listen _ _ _ _ Hc) as (tv & pm & E).
  destruct (event_of _ _ _ _ _ _ _ E) as (e & He & Hfd & _).
  destruct (add_run ts ps s s_listen_event e Hs (f_table _ _ _ _ Hc)) as (s' & Hr & Hs' & HD & HT); [|done|done|lia| |].
  { eapply fixed_not_timer; [exact Hc|unfold s_listen_event; lia]. }
  { intros j a ea Hen Heq. pose proof (entry_fd _ _ _ _ _ _ Hc Hen) as Hfo. rewrite Heq, Hfd in Hfo.
    rewrite !NoDup_cons, !elem_of_cons in fds_differ. unfold fd_of in Hfo. rewrite !elem_of_cons in Hfo.
    destruct Hfo as [[-> ?]|[[-> ?]|[[-> ?]|[-> ?]]]]; try tauto.
    - destruct fds_differ as [Hd _]. apply Hd. auto.
    - apply H3. exists j. apply Hen. }
  exists s'. split; [done|]. split; [|simpl; rewrite HT; by intros [?|?]]. split; [done|]. split; [|done]. split.
  - eapply core_add; [exact Hc|exact HD|exact HT|right; by left|done].
  - intros Hin. by destruct P4.
  - left. rewrite !HT. split; [by right|]. split; [|done]. intros [?|?]; done.
Qed.

(** A connection is watched. *)
Lemma connect ts ps s f : steady ts ps s -> core ts ps (event_data s) (on_table s) ->
  ~ on_table s s_listen_event -> ~ on_table s s_commands_event -> s_listen_event ∉ ps -> s_commands_event ∉ ps -> 0 <= f -> f ∉ [wfd; lfd; dfd] ->
  exists s', (ril_event_set s_commands_event f true fn_commands 0;; ril_event_add s_commands_event) s = Ret (tt, s') /\
    mid ts [] ps s' /\ connected s' (Some f).
Proof.
  intros Hs Hc H3 H4 P3 P4 Hf Hfn. destruct (f_commands _ _ _ _ Hc) as [dt Hdt].
  assert (H4t : s_commands_event ∉ timer_list :: pending_list :: ts) by (eapply fixed_not_timer; [exact Hc|unfold s_commands_event; lia]).
  destruct (set_add_run ts ps s s_commands_event f true fn_commands Hs (f_table _ _ _ _ Hc)) as (s' & Hr & Hs' & HD4 & HD & HT); [|done| |done| |].
  { rewrite !elem_of_cons, elem_of_app in *. tauto. }
  { unfold event_data in Hdt. destruct (evs s !! s_commands_event); [by eexists|done]. }
  { intros j a ea Hen Heq. pose proof (entry_fd _ _ _ _ _ _ Hc Hen) as Hfo. rewrite Heq in Hfo. rewrite !elem_of_cons in Hfn.
    unfold fd_of in Hfo.
    destruct Hfo as [[-> ?]|[[-> ?]|[[-> ?]|[-> ?]]]]; try tauto. apply H4. exists j. apply Hen. }
  exists s'. split; [done|]. split; [|split; [rewrite HT; by right|by eexists _, _]]. split; [done|]. split; [|done]. split.
  - destruct Hc as [C1 C2 C3 C4 C5 C6 C7 C8 C9 C10]. unfold is_event in *.
    assert (Hti : forall b, is_timer (event_data s) b -> is_timer (event_data s') b).
    { intros b [Hb Hx]. split; [done|]. rewrite HD; [done|]. unfold s_commands_event. lia. }
    split; unfold is_event; rewrite ?(HD s_wakeupfd_event), ?(HD s_listen_event), ?(HD s_debug_event) by done; try assumption.
    + intros b Hb. auto.
    + intros b Hb. destruct (C2 b Hb); auto.
    + intros b Hb. destruct (decide (b = s_commands_event)) as [->|Hne]; [left; unfold s_commands_event; lia|].
      rewrite HD in Hb by done. auto.
    + rewrite HD4. by eexists.
    + intros _. exists f. split; [done|]. split; [done|]. by eexists _, _.
    + intros b [?| ->]%HT; [auto|right; right; by left].
    + rewrite !HT. tauto.
  - intros Hin. by destruct P4.
  - right; left. rewrite !HT. split; [by right|]. split; [|done]. intros [?|?]; done.
Qed.

(** ** Callbacks *)

(** What [accept] may return: the descriptors of the daemon are in use. *)
Definition possible_input (x : daemon_input) : Prop := 0 <= accepted x -> accepted x ∉ [wfd; lfd; dfd].

(** The event of the listening socket is in flight. *)
Lemma listening_in_flight ts ps s : mid ts [s_listen_event] ps s ->
  core ts ps (event_data s) (on_table s) /\ ~ on_table s s_listen_event /\ ~ on_table s s_commands_event /\ (s_listen_event ∉ ps) /\ s_commands_event ∉ ps.
Proof.
  intros (Hs & [Hc P4 H1] & Hfl). apply Forall_cons in Hfl as [Hfl _]. rewrite !elem_of_cons, elem_of_app in Hfl.
  assert (H3 : s_listen_event ∈ [s_listen_event] ++ ps) by apply list_elem_of_here.
  split; [by apply (core_pop ts s_listen_event); [|unfold s_listen_event; lia]|].
  destruct H1 as [(_ & _ & ?)|[(_ & _ & ?)|(? & ? & _)]]; [done|done|]. split; [done|]. split; [done|]. split; [tauto|].
  intros Hin. apply H0, P4, elem_of_app. by right.
Qed.

(** What becomes of a new connection. *)
Definition accept_conn (x : daemon_input) : option Z :=
  if (accepted x <? 0) || negb (is_phone_socket x) then None else Some (accepted x).

Lemma listen_run ts ps s x p : possible_input x -> mid ts [s_listen_event] ps s ->
  exists s', listenCallback x p s = Ret (tt, s') /\ daemon_ok ps s' /\ connected s' (accept_conn x).
Proof.
  intros Hx Hm. destruct (listening_in_flight _ _ _ Hm) as (Hc & H3 & H4 & P3 & P4). destruct Hm as (Hs & _).
  destruct (listen_again ts ps s Hs Hc H3 H4 P3 P4) as (s1 & Hr1 & H1 & Hc1). unfold listenCallback, accept_conn.
  destruct (Z.ltb_spec (accepted x) 0); [exists s1; split; [done|split; [by exists ts|done]]|].
  destruct (is_phone_socket x); [|exists s1; split; [done|split; [by exists ts|done]]].
  destruct (connect ts ps s (accepted x) Hs Hc H3 H4 P3 P4) as (s2 & Hr2 & H2 & Hc2); [done|by apply Hx|]. simpl.
  destruct (timers_run ts [] ps s2 (clock x) (timers x fn_listen p) H2) as (ts3 & s3 & Hr3 & H3' & Hc3). exists s3.
  split; [|split; [by exists ts3|by apply (connected_same s2 s3 (Some _))]].
  rewrite (then_run _ _ _ _ _ Hr2). exact Hr3.
Qed.

Lemma commands_run ts ps s x p : mid ts [s_commands_event] ps s ->
  exists s', processCommandsCallback x p s = Ret (tt, s') /\ daemon_ok ps s' /\ if closed x then connected s' None else same_conn s s'.
Proof.
  intros Hm. destruct (timers_run ts _ ps s (clock x) (timers x fn_commands p) Hm) as (ts1 & s1 & Hr1 & (Hs & Hf & Hfl) & Hsc).
  unfold processCommandsCallback. rewrite (bind_run _ _ _ _ _ Hr1). apply Forall_cons in Hfl as [Hfl _].
  rewrite !elem_of_cons, elem_of_app in Hfl.
  assert (Hin : s_commands_event ∈ [s_commands_event] ++ ps) by apply list_elem_of_here.
  pose proof (f_pending_commands _ _ _ _ Hf Hin) as H4.
  destruct (closed x).
  - destruct (f_one _ _ _ _ Hf) as [(_ & ? & _)|[(_ & H3 & P3)|(_ & ? & _)]]; [done| |done].
    destruct (del_run ts1 ps s1 s_commands_event Hs H4) as (s2 & Hr2 & Hs2 & HD & HT). rewrite (bind_run _ _ _ _ _ Hr2).
    destruct (listen_again ts1 ps s2 Hs2) as (s3 & Hr3 & H3' & Hc3);
      [|rewrite HT; tauto|rewrite HT; tauto| |tauto|by exists s3; split; [|split; [exists ts1|]]].
    + destruct (core_pop _ _ _ _ _ (f_core _ _ _ _ Hf)) as [C1 C2 C3 C4 C5 C6 C7 C8 C9 C10]; [unfold s_commands_event; lia|].
      unfold is_timer, is_event in *. split; unfold is_timer, is_event; try setoid_rewrite HD; try done.
      * intros [_ ?]%HT. done.
      * intros a [? _]%HT. by apply C9.
      * rewrite !HT. by destruct C10 as [? ?]; repeat split.
    + intros Hp. apply P3, elem_of_app. by right.
  - exists s1. split; [done|]. split; [|done]. exists ts1. split; [done|]. split; [|done].
    by apply (facts_pop _ s_commands_event); [|unfold s_commands_event; lia|].
Qed.

Lemma timer_fires ts ps s x p : mid ts [p] ps s -> is_timer (event_data s) p ->
  exists s', userTimerCallback x (Z.of_nat p) s = Ret (tt, s') /\ daemon_ok ps s' /\ same_conn s s'.
Proof.
  intros Hm [H6 _].
  destruct (timers_run ts _ ps s (clock x) (timers x fn_timer (Z.of_nat p)) Hm) as (ts1 & s1 & Hr1 & (Hs & [Hc P4 H1] & Hfl) & Hsc).
  unfold userTimerCallback. rewrite (bind_run _ _ _ _ _ Hr1), Nat2Z.id. apply Forall_cons in Hfl as [Hfl _].
  assert (Hfx : ~ fixed_event p) by (unfold fixed_event, s_wakeupfd_event, s_listen_event, s_commands_event, s_debug_event; lia).
  destruct (f_pending _ _ _ _ Hc p) as [(_ & d & q & tv & Hd)|?]; [apply list_elem_of_here| |done].
  unfold event_data in Hd. destruct (evs s1 !! p) as [e|] eqn:Ee; [|done]. unfold free_event. rewrite Ee. eexists.
  split; [reflexivity|].
  assert (HD : forall a, a <> p -> event_data (with_evs s1 (delete p (evs s1))) a = event_data s1 a).
  { intros a Ha. unfold event_data. simpl. by rewrite lookup_delete_ne. }
  assert (Hp : forall a, (a < 6)%nat -> a <> p) by (intros a Ha; lia).
  split; [|etransitivity; [exact Hsc|split; [apply HD, Hp; unfold s_commands_event; lia|done]]].
  exists ts1. split; [|split; [|done]].
  - apply (steady_frame ts1 ps s1 (delete p (evs s1)) Hs).
    + intros a Ha. apply lookup_delete_ne. congruence.
    + intros i a Ha. apply lookup_delete_ne. intros <-. apply Hfx, (f_table _ _ _ _ Hc). by exists i.
  - apply (facts_ext ts1 ps (event_data (with_evs s1 (delete p (evs s1)))) _ (on_table s1)); [done|done|].
    destruct Hc as [C1 C2 C3 C4 C5 C6 C7 C8 C9 C10]. rewrite !elem_of_cons, elem_of_app in Hfl. split; [split|..].
    + intros a Ha. destruct (C1 a Ha) as [Ha6 Hx]. split; [done|]. rewrite HD; [done|]. intros ->. tauto.
    + intros a Ha. destruct (C2 a) as [[Ha6 Hx]|?]; [by apply list_elem_of_further| |by right]. left. split; [done|].
      rewrite HD; [done|]. intros ->. tauto.
    + intros a Ha. destruct (decide (a = p)) as [->|Hne].
      { unfold event_data in Ha. simpl in Ha. rewrite lookup_delete_eq in Ha. by destruct Ha. }
      rewrite HD in Ha by done. destruct (C3 a Ha) as [?|[?|[?|?]%elem_of_cons]]; auto; done.
    + unfold is_event. by rewrite HD by (apply Hp; unfold s_wakeupfd_event; lia).
    + unfold is_event. by rewrite HD by (apply Hp; unfold s_listen_event; lia).
    + unfold is_event. by rewrite HD by (apply Hp; unfold s_debug_event; lia).
    + by rewrite HD by (apply Hp; unfold s_commands_event; lia).
    + unfold is_event. by rewrite HD by (apply Hp; unfold s_commands_event; lia).
    + done.
    + done.
    + intros Ha. apply P4. by apply list_elem_of_further.
    + assert (s_listen_event <> p) by (apply Hp; unfold s_listen_event; lia). simpl in H1. rewrite elem_of_cons in H1.
      naive_solver.
Qed.

(** An event that is about to fire leaves the list. *)
Lemma take_flight ts ps s p : mid ts [] (p :: ps) s ->
  exists s', removeFromList p s = Ret (tt, s') /\ mid ts [p] ps s' /\ same_conn s s'.
Proof.
  intros (Hs & Hf & _). destruct (drop_pending s ts ps p Hs) as (m & Hr & Hpay & H1). exists (with_evs s m). split; [done|].
  split; [|split; [exact (same_payload_data _ _ Hpay _)|done]]. split; [done|]. split.
  - eapply facts_ext; [|intros a; apply on_table_with_evs|exact Hf]. exact (same_payload_data _ _ Hpay).
  - apply Forall_singleton. destruct Hs as (Hl & _). pose proof (lok_apart _ _ _ Hl) as Hnd. rewrite <- Permutation_middle in Hnd.
    rewrite !NoDup_cons, !elem_of_cons, !elem_of_app in *. destruct Hnd as (N1 & N2 & N3 & _). intros [->|[->|?]]; tauto.
Qed.

(** What the connection will be when the events [ps] have fired. *)
Definition heads_for (x : daemon_input) (c' : option Z) (ps : list nat) (s : estate) : Prop :=
  (s_listen_event ∈ ps /\ c' = accept_conn x) \/
  ((s_listen_event ∉ ps) /\ exists c, connected s c /\ c' = if bool_decide (s_commands_event ∈ ps) && closed x then None else c).

Definition daemon_inv (x : daemon_input) (c' : option Z) (ps : list nat) (s : estate) : Prop := daemon_ok ps s /\ heads_for x c' ps s.

(** An event that leaves the connection alone. *)
Lemma heads_for_same x c' p ps s s' : heads_for x c' (p :: ps) s -> same_conn s s' -> p <> s_listen_event -> p <> s_commands_event -> heads_for x c' ps s'.
Proof.
  intros Hh Hsc N3 N4. unfold heads_for in *. rewrite !elem_of_cons in Hh.
  assert (bool_decide (s_commands_event ∈ p :: ps) = bool_decide (s_commands_event ∈ ps)) as E by (apply bool_decide_ext; rewrite elem_of_cons; naive_solver).
  rewrite E in Hh. destruct Hh as [[[?|?] ->]|[Hn (c & Hc & ->)]]; [done|by left|right]. split; [tauto|]. exists c.
  split; [by apply (connected_same s)|done].
Qed.

(** Each callback keeps the invariant. *)
#[local] Instance daemon_fires x c' : possible_input x -> Fires (daemon_inv x c') (daemon_call x).
Proof.
  intros Hx p ps s [[ts Hs] Hh]. destruct (take_flight ts ps s p Hs) as (s1 & Hr & Hm & Hsc). unfold fire_first.
  rewrite (bind_run _ _ _ _ _ Hr).
  pose proof Hm as (_ & Hf & Hfl). pose proof (f_core _ _ _ _ Hf) as Hc. apply Forall_cons in Hfl as [Hfl _].
  rewrite !elem_of_cons, elem_of_app in Hfl.
  assert (Hin : p ∈ [p] ++ ps) by apply list_elem_of_here.
  assert (Hload : forall d q tv f pm (Q : estate -> Prop), event_data s1 p = Some (d, q, tv, f, pm) ->
    (exists s', daemon_call x f d pm s1 = Ret (tt, s') /\ Q s') ->
    exists s', (e ← load p; daemon_call x (func e) (fd e) (param e)) s1 = Ret (tt, s') /\ Q s').
  { intros d q tv f pm Q E HQ. destruct (event_of _ _ _ _ _ _ _ E) as (e & He & <- & _ & <- & <-).
    by rewrite (bind_run _ _ _ _ _ (load_run _ _ _ He)). }
  destruct (f_pending _ _ _ _ Hc p Hin) as [Ht|[->|[->|[->| ->]]]].
  - destruct (timer_fires ts ps s1 x p Hm Ht) as (s' & Hr' & H' & Hc'). pose proof Ht as [H6 (d & q & tv & E)].
    apply (Hload _ _ _ _ _ _ E). exists s'. split; [done|]. split; [done|].
    apply (heads_for_same x c' p ps s); [done|by etransitivity| |]; unfold s_listen_event, s_commands_event; lia.
  - destruct (f_wakeup _ _ _ _ Hc) as (tv & pm & E). apply (Hload _ _ _ _ _ _ E). exists s1. split; [done|].
    split; [|by apply (heads_for_same x c' s_wakeupfd_event ps s)]. exists ts.
    destruct Hm as (? & _). split; [done|]. split; [|done].
    by apply (facts_pop _ s_wakeupfd_event); [|unfold s_wakeupfd_event; lia|].
  - destruct (f_listen _ _ _ _ Hc) as (tv & pm & E). apply (Hload _ _ _ _ _ _ E).
    destruct (listening_in_flight _ _ _ Hm) as (_ & _ & _ & P3 & P4).
    destruct (listen_run ts ps s1 x pm Hx Hm) as (s' & Hr' & H' & Hc'). exists s'. split; [done|]. split; [done|]. right.
    split; [done|].
    exists (accept_conn x). split; [done|]. rewrite bool_decide_eq_false_2 by done.
    destruct Hh as [[_ ->]|[Hn _]]; [done|]. destruct Hn. apply list_elem_of_here.
  - pose proof (f_pending_commands _ _ _ _ Hf Hin) as H4.
    destruct (f_connection _ _ _ _ Hc H4) as (f & _ & _ & tv & pm & E). apply (Hload _ _ _ _ _ _ E).
    destruct (commands_run ts ps s1 x pm Hm) as (s' & Hr' & H' & Hc'). exists s'. split; [done|]. split; [done|].
    destruct (f_one _ _ _ _ Hf) as [(_ & ? & _)|[(_ & _ & P3)|(_ & ? & _)]]; [done| |done]. simpl in P3.
    rewrite elem_of_cons in P3.
    destruct Hh as [[?%elem_of_cons _]|[_ (c & Hc0 & ->)]]; [done|]. rewrite bool_decide_eq_true_2 by apply list_elem_of_here.
    right.
    split; [tauto|]. rewrite bool_decide_eq_false_2 by tauto. simpl. destruct (closed x); [by exists None|]. exists c.
    split; [|done].
    apply (connected_same s); [by etransitivity|done].
  - destruct (f_debug _ _ _ _ Hc) as (tv & pm & E). apply (Hload _ _ _ _ _ _ E).
    destruct (timers_run ts _ ps s1 (clock x) (timers x fn_debug pm) Hm) as (ts2 & s2 & Hr2 & (Hs2 & Hf2 & _) & Hc2). exists s2.
    split; [done|]. split; [|by apply (heads_for_same x c' s_debug_event ps s); [|etransitivity|..]].
    exists ts2. split; [done|]. split; [|done]. by apply (facts_pop _ s_debug_event); [|unfold s_debug_event; lia|].
Qed.

Lemma others_keep x s c : daemon_ok [] s -> connected s c -> exists s', daemon_others x s = Ret (tt, s') /\ daemon_ok [] s' /\ connected s' c.
Proof.
  intros [ts Hs] Hc. destruct (timers_run ts [] [] s (clock x) (requested x) Hs) as (ts' & s' & Hr & H' & Hsc). exists s'.
  split; [done|]. split; [by exists ts'|by apply (connected_same s)].
Qed.

(** ** Rounds *)

Lemma ready_on_table s rfds n a : a ∈ ready_from (evs s) rfds n (watch_table s) -> on_table s a.
Proof.
  intros Ha. assert (Hin : a ∈ filter (ready (evs s) rfds) (omap id (watch_table s))).
  { rewrite <- (take_drop (Z.to_nat n) (filter _ _)), elem_of_app. by left. }
  apply list_elem_of_filter in Hin as [_ (o & Ho & Hid)%list_elem_of_omap]. simpl in Hid. subst o.
  by apply list_elem_of_lookup in Ho.
Qed.

Lemma persists s a f d : is_event (event_data s) a f d true -> ~ oneshot (evs s) a.
Proof. intros (tv & pm & E). destruct (event_of _ _ _ _ _ _ _ E) as (e & He & _ & Hp & _). unfold oneshot. rewrite He. simpl. congruence. Qed.

(** What a round collects: timers, and events of the table, of which only that
    of the listening socket leaves it. *)
Lemma facts_collected ts k rs s s1 : facts ts [] (event_data s) (on_table s) -> (forall a, a ∈ rs -> on_table s a) ->
  same_data (evs s) (evs s1) -> fired_table s rs s1 -> facts (drop k ts) (take k ts ++ rs) (event_data s1) (on_table s1).
Proof.
  intros [Hc P4 H1] Hrs Hd Hft.
  assert (HT : forall a, on_table s1 a <-> on_table s a /\ ~ (a ∈ rs /\ oneshot (evs s) a)).
  { intros a. unfold on_table. setoid_rewrite (Hft _ a). naive_solver. }
  assert (Hts : forall a, a ∈ ts <-> a ∈ take k ts \/ a ∈ drop k ts) by (intros a; by rewrite <- elem_of_app, take_drop).
  assert (Hno : forall a, (a < 6)%nat -> a ∉ take k ts).
  { intros a Ha Hin. assert (a ∈ ts) as [? _]%(f_timers _ _ _ _ Hc) by (apply Hts; by left). lia. }
  assert (H4 : on_table s s_commands_event -> on_table s1 s_commands_event).
  { intros Hon. apply HT. split; [done|]. destruct (f_connection _ _ _ _ Hc Hon) as (f & _ & _ & He%persists). tauto. }
  assert (H3 : oneshot (evs s) s_listen_event).
  { destruct (f_listen _ _ _ _ Hc) as (tv & pm & E). destruct (event_of _ _ _ _ _ _ _ E) as (e & He & _ & Hp & _). unfold oneshot.
    rewrite He. simpl. congruence. }
  apply (facts_ext _ _ (event_data s) _ (on_table s1)); [exact Hd|done|]. split.
  - pose proof (persists _ _ _ _ (f_wakeup _ _ _ _ Hc)) as W2. pose proof (persists _ _ _ _ (f_debug _ _ _ _ Hc)) as W5.
    destruct Hc as [C1 C2 C3 C4 C5 C6 C7 C8 C9 C10]. split; try assumption.
    + intros a Ha. apply C1, Hts. by right.
    + intros a [Ha|Ha]%elem_of_app; [left; apply C1, Hts; by left|right; auto].
    + intros a Ha. rewrite elem_of_app. destruct (C3 a Ha) as [?|[?%Hts|?%elem_of_nil]]; tauto.
    + intros [? _]%HT. auto.
    + intros a [? _]%HT. auto.
    + rewrite !HT. tauto.
  - intros [?|?]%elem_of_app; [by destruct (Hno s_commands_event); [unfold s_commands_event; lia|]|auto].
  - rewrite elem_of_app. assert (s_listen_event ∉ take k ts) by (apply Hno; unfold s_listen_event; lia).
    rewrite (HT s_listen_event).
    assert (on_table s1 s_commands_event -> on_table s s_commands_event) by (by intros [? _]%HT). specialize (Hrs s_listen_event).
    destruct H1 as [(? & ? & _)|[(? & ? & _)|(_ & _ & ?%elem_of_nil)]]; [destruct (decide (s_listen_event ∈ rs)); tauto|tauto|done].
Qed.

#[local] Instance daemon_invariant x c' : LoopInvariant (daemon_inv x c').
Proof. intros ps s [(ts & Hs & _) _]. by exists ts. Qed.

(** The events of the table are different, and so are their descriptors. *)
Lemma table_nodup (tbl : list (option nat)) : (forall i j a, tbl !! i = Some (Some a) -> tbl !! j = Some (Some a) -> i = j) -> NoDup (omap id tbl).
Proof.
  induction tbl as [|[x|] tbl IH]; intros Hu; [by apply NoDup_nil| |].
  - change (NoDup (x :: omap id tbl)). apply NoDup_cons. split.
    + intros (o & Ho & Hid)%list_elem_of_omap. simpl in Hid. subst o. apply list_elem_of_lookup in Ho as [j Hj].
      by specialize (Hu 0%nat (S j) x eq_refl Hj).
    + apply IH. intros i j a Hi Hj. specialize (Hu (S i) (S j) a Hi Hj). lia.
  - apply IH. intros i j a Hi Hj. specialize (Hu (S i) (S j) a Hi Hj). lia.
Qed.

Lemma ready_few s rfds : watch_ok s -> (length (filter (ready (evs s) rfds) (omap id (watch_table s))) <= size rfds)%nat.
Proof.
  intros Hw. set (l := filter _ _). set (g := fun a => default 0 (fd <$> evs s !! a)).
  assert (Hin : forall a, a ∈ l -> exists j e, entry s j a e /\ g a = fd e /\ fd e ∈ rfds).
  { intros a Ha. apply list_elem_of_filter in Ha as [Hr (o & Ho & Hid)%list_elem_of_omap]. simpl in Hid. subst o.
    apply list_elem_of_lookup in Ho as [j Hj]. unfold ready in Hr. destruct (evs s !! a) as [e|] eqn:Ee; [|done]. exists j, e.
    split; [done|]. split; [|done]. unfold g. by rewrite Ee. }
  assert (Hnd : NoDup (g <$> l)).
  { apply NoDup_fmap_2_strong.
    - intros a b Ha Hb E. destruct (Hin a Ha) as (i & ea & Ea & Ga & _). destruct (Hin b Hb) as (j & eb & Eb & Gb & _).
      assert (i = j) by (apply (wok_distinct _ Hw i j a b ea eb); congruence). subst j. destruct Ea as [Ea _], Eb as [Eb _].
      congruence.
    - apply NoDup_filter, table_nodup. intros i j a. by apply entry_unique. }
  rewrite <- (length_fmap g), <- (size_list_to_set (C := gset Z) _ Hnd). apply subseteq_size. intros f Hf%elem_of_list_to_set.
  apply list_elem_of_fmap in Hf as (a & -> & Ha). destruct (Hin a Ha) as (j & e & _ & -> & ?). done.
Qed.

(** When [select] counts all the descriptors, a round collects all of them. *)
Lemma ready_all s rfds n a : watch_ok s -> Z.of_nat (size rfds) <= n ->
  a ∈ ready_from (evs s) rfds n (watch_table s) <-> on_table s a /\ ready (evs s) rfds a.
Proof.
  intros Hw Hn. pose proof (ready_few s rfds Hw) as Hf. unfold ready_from. rewrite take_ge by lia. rewrite list_elem_of_filter.
  assert (a ∈ omap id (watch_table s) <-> on_table s a) as ->; [|tauto]. rewrite list_elem_of_omap. unfold on_table.
  setoid_rewrite <- list_elem_of_lookup. split.
  - intros (o & Ho & Hid). simpl in Hid. by subst o.
  - intros Ho. by exists (Some a).
Qed.

Lemma ready_event s a f d p rfds : is_event (event_data s) a f d p -> ready (evs s) rfds a <-> d ∈ rfds.
Proof. intros (tv & pm & E). destruct (event_of _ _ _ _ _ _ _ E) as (e & He & <- & _). unfold ready. by rewrite He. Qed.

(** The specification: who is connected after a round. *)
Definition next_conn (c : option Z) (r : select_answer daemon_input) : option Z :=
  match c with
  | None => if bool_decide (lfd ∈ ready_fds r) then accept_conn (inputs r) else None
  | Some f => if bool_decide (f ∈ ready_fds r) && closed (inputs r) then None else Some f
  end.

Lemma collected_heads_for r s ts k s1 c : facts ts [] (event_data s) (on_table s) -> watch_ok s -> connected s c ->
  Z.of_nat (size (ready_fds r)) <= n_ready r ->
  collected s ts k (ready_from (evs s) (ready_fds r) (n_ready r) (watch_table s)) s1 ->
  heads_for (inputs r) (next_conn c r) (take k ts ++ ready_from (evs s) (ready_fds r) (n_ready r) (watch_table s)) s1.
Proof.
  intros [Hc _ H1] Hw Hcon Hn (_ & _ & Hd & Hft). set (rs := ready_from _ _ _ _) in *.
  assert (Hrs : forall a, a ∈ rs <-> on_table s a /\ ready (evs s) (ready_fds r) a) by (intros a; by apply ready_all).
  assert (Hmem : forall a, (a < 6)%nat -> a ∈ take k ts ++ rs <-> a ∈ rs).
  { intros a Ha. rewrite elem_of_app. split; [|by right]. intros [Hin|?]; [|done].
    assert (a ∈ ts) as [? _]%(f_timers _ _ _ _ Hc); [|lia].
    rewrite <- (take_drop k ts), elem_of_app. by left. }
  assert (HT : on_table s1 s_commands_event <-> on_table s s_commands_event /\ ~ (s_commands_event ∈ rs /\ oneshot (evs s) s_commands_event)).
  { unfold on_table. setoid_rewrite (Hft _ s_commands_event). naive_solver. }
  pose proof (ready_event s _ _ _ _ (ready_fds r) (f_listen _ _ _ _ Hc)) as Hl.
  unfold heads_for, next_conn. rewrite (Hmem s_listen_event) by (unfold s_listen_event; lia). rewrite Hrs, Hl.
  assert (E4 : bool_decide (s_commands_event ∈ take k ts ++ rs) = bool_decide (s_commands_event ∈ rs)).
  { apply bool_decide_ext, Hmem. unfold s_commands_event. lia. }
  rewrite E4. destruct H1 as [(T3 & T4 & _)|[(T4 & T3 & _)|(_ & _ & ?%elem_of_nil)]]; [| |done].
  - destruct c as [f|]; [by destruct Hcon|]. destruct (decide (lfd ∈ ready_fds r)) as [Hlf|Hlf];
      [rewrite (bool_decide_eq_true_2 _ Hlf); by left|rewrite (bool_decide_eq_false_2 _ Hlf); right]. split; [tauto|].
      exists None.
    split; [simpl; rewrite HT; tauto|]. by destruct (bool_decide (s_commands_event ∈ rs) && closed (inputs r)).
  - destruct c as [f|]; [|done]. destruct Hcon as [_ He]. right. split; [tauto|]. exists (Some f). split.
    + split; [rewrite HT; pose proof (persists _ _ _ _ He); tauto|]. destruct He as (tv & pm & E). exists tv, pm. rewrite <- E.
      exact (Hd _).
    + assert (bool_decide (s_commands_event ∈ rs) = bool_decide (f ∈ ready_fds r)) as ->; [|done].
      apply bool_decide_ext. rewrite Hrs, (ready_event s _ _ _ _ _ He). tauto.
Qed.

(** ** The start *)

(** After [ril_event_init]. *)
Definition initial_events : estate :=
  match ril_event_init static_events with Ret (_, s) => s | _ => static_events end.

Lemma initial_run : ril_event_init static_events = Ret (tt, initial_events).
Proof. reflexivity. Qed.

Lemma initial_table a : ~ on_table initial_events a.
Proof. intros [j Hj]. by apply no_entry in Hj; [|repeat constructor]. Qed.

Lemma initial_steady : steady [] [] initial_events.
Proof.
  split; [|split; [constructor|split; [by apply empty_watch_ok; [|repeat constructor|..]|]]].
  - by split; [split; [apply NoDup_singleton|]|split; [apply NoDup_singleton|]|apply (bool_decide_unpack (NoDup [timer_list; pending_list])); vm_compute].
  - intros j a Hj. destruct (initial_table a). by exists j.
Qed.

Lemma initial_data a : is_Some (event_data initial_events a) <-> (a < 6)%nat.
Proof.
  split.
  - intros Ha. do 6 (destruct a as [|a]; [lia|]). exfalso. revert Ha. unfold event_data.
    assert (evs initial_events !! S (S (S (S (S (S a))))) = None) as ->; [|by intros [? ?]].
    apply not_elem_of_dom. assert (dom (evs initial_events) = list_to_set (seq 0 6)) as -> by (by vm_compute).
    rewrite elem_of_list_to_set, elem_of_seq. lia.
  - intros Ha. do 6 (destruct a as [|a]; [by eexists|]). lia.
Qed.

(** An event of the start: none of the table has its descriptor. *)
Lemma start_add s ev f p fn (l : list (nat * Z)) : steady [] [] s -> (forall a, on_table s a <-> a ∈ l.*1) -> (forall a, a ∈ ev :: l.*1 -> fixed_event a) ->
  (forall a d, (a, d) ∈ l -> exists q tv g pm, event_data s a = Some (d, q, tv, g, pm)) -> ev ∉ l.*1 -> is_Some (event_data s ev) -> 0 <= f -> f ∉ l.*2 ->
  exists s', (ril_event_set ev f p fn 0;; ril_event_add ev) s = Ret (tt, s') /\ steady [] [] s' /\
    event_data s' ev = Some (f, p, TV 0 0, fn, 0) /\ (forall a, a <> ev -> event_data s' a = event_data s a) /\
    (forall a, on_table s' a <-> a ∈ ((ev, f) :: l).*1).
Proof.
  intros Hs HT Hfix Hl Hnl Hev Hf Hfl.
  destruct (set_add_run [] [] s ev f p fn Hs) as (s' & Hr & Hs' & HD1 & HD & HT'); [| | | |done| |].
  - intros a Ha. apply Hfix, list_elem_of_further. by apply HT.
  - pose proof (Hfix ev ltac:(apply list_elem_of_here)) as Hfx.
    unfold fixed_event, s_wakeupfd_event, s_listen_event, s_commands_event, s_debug_event in Hfx.
    rewrite !elem_of_cons, elem_of_nil. unfold timer_list, pending_list. simpl. lia.
  - by rewrite HT.
  - unfold event_data in Hev. by apply fmap_is_Some in Hev.
  - intros j a ea [Hj He] <-. assert (Ha : a ∈ l.*1) by (apply HT; by exists j).
    apply list_elem_of_fmap in Ha as ([a' d] & -> & Hin).
    destruct (Hl _ _ Hin) as (q & tv & g & pm & E). destruct (event_of _ _ _ _ _ _ _ E) as (e & He' & <- & _). simpl in He.
    apply Hfl, list_elem_of_fmap.
    exists (a', fd e). split; [simpl; congruence|done].
  - exists s'. split; [done|]. split; [done|]. split; [done|]. split; [done|]. intros a. rewrite HT', HT, fmap_cons, elem_of_cons.
    tauto.
Qed.

Lemma daemon_start_ok : exists s, start_events wfd lfd dfd static_events = Ret (tt, s) /\ daemon_ok [] s /\ connected s None.
Proof.
  unfold start_events. rewrite (bind_run _ _ _ _ _ initial_run). rewrite !NoDup_cons, !elem_of_cons in fds_differ.
  destruct fds_differ as (N1 & N2 & _).
  destruct (start_add initial_events s_wakeupfd_event wfd true fn_wakeup [] initial_steady) as (s1 & R1 & S1 & E1 & D1 & T1).
  { intros a. split; [by intros ?%initial_table|by intros ?%elem_of_nil]. } { intros a ->%list_elem_of_singleton. by left.
    } { by intros a d ?%elem_of_nil. }
  { apply not_elem_of_nil. } { apply initial_data. unfold s_wakeupfd_event. lia. } { tauto. } { apply not_elem_of_nil. }
  rewrite (then_run _ _ _ _ _ R1).
  destruct (start_add s1 s_listen_event lfd false fn_listen [(s_wakeupfd_event, wfd)] S1 T1) as (s2 & R2 & S2 & E2 & D2 & T2).
  { intros a [->| ->%list_elem_of_singleton]%elem_of_cons; [right; by left|by left]. }
  { intros a d [= -> ->]%list_elem_of_singleton. by eexists _, _, _, _. } { by intros ?%list_elem_of_singleton. }
  { rewrite D1 by done. apply initial_data. unfold s_listen_event. lia. } { tauto. } { intros ?%list_elem_of_singleton.
    simpl in *. apply N1. auto. }
  rewrite (then_run _ _ _ _ _ R2).
  destruct (start_add s2 s_debug_event dfd true fn_debug [(s_listen_event, lfd); (s_wakeupfd_event, wfd)] S2 T2) as (s3 & R3 & S3 & E3 & D3 & T3).
  { intros a [->|[->| ->%list_elem_of_singleton]%elem_of_cons]%elem_of_cons; [right; right; by right|right; by left|by left]. }
  { intros a d [[= -> ->]|[= -> ->]%list_elem_of_singleton]%elem_of_cons; [by eexists _, _, _, _|]. rewrite D2 by done.
    by eexists _, _, _, _. }
  { by intros [?|?%list_elem_of_singleton]%elem_of_cons. } { rewrite D2, D1 by done. apply initial_data. unfold s_debug_event.
    lia. } { tauto. }
  { simpl. rewrite !elem_of_cons. intros [?|[?|?]]; [apply N2; auto|apply N1; auto|by apply elem_of_nil in H]. }
  simpl in T3. setoid_rewrite elem_of_cons in T3. setoid_rewrite elem_of_cons in T3. setoid_rewrite list_elem_of_singleton in T3.
  exists s3. split; [exact R3|].
  split; [|simpl; rewrite T3; unfold s_commands_event, s_debug_event, s_listen_event, s_wakeupfd_event; lia].
  exists []. split; [done|]. split; [|done]. split; [split|..].
  - by intros a ?%elem_of_nil.
  - by intros a ?%elem_of_nil.
  - intros a Ha. left. destruct (decide (a < 6)%nat) as [|Hge]; [done|].
    rewrite D3, D2, D1 in Ha by (unfold s_debug_event, s_listen_event, s_wakeupfd_event; lia). by apply initial_data.
  - eexists _, _. rewrite D3, D2 by done. exact E1.
  - eexists _, _. rewrite D3 by done. exact E2.
  - eexists _, _. exact E3.
  - rewrite D3, D2, D1 by done. apply initial_data. unfold s_commands_event. lia.
  - rewrite T3. unfold s_commands_event, s_debug_event, s_listen_event, s_wakeupfd_event. lia.
  - intros a. rewrite T3. unfold fixed_event. tauto.
  - rewrite !T3. tauto.
  - by intros ?%elem_of_nil.
  - left. rewrite !T3. split; [tauto|]. split; [|by intros ?%elem_of_nil].
    unfold s_commands_event, s_debug_event, s_listen_event, s_wakeupfd_event. lia.
Qed.

(** ** The daemon *)

(** What is watched between two rounds. *)
Lemma watched_fds s c : daemon_ok [] s -> connected s c -> readFds s = {[wfd; dfd; default lfd c]}.
Proof.
  intros (ts & (_ & _ & Hw & _) & [Hc _ H1] & _) Hcon. simpl in Hc.
  assert (Hfd : forall a f d p, on_table s a -> is_event (event_data s) a f d p -> exists i e, entry s i a e /\ fd e = d).
  { intros a f d p [j Hj] (tv & pm & E). destruct (event_of _ _ _ _ _ _ _ E) as (e & He & Hd & _). by exists j, e. }
  destruct (f_always _ _ _ _ Hc) as [A2 A5]. destruct (Hfd _ _ _ _ A2 (f_wakeup _ _ _ _ Hc)) as (i2 & e2 & En2 & F2).
  destruct (Hfd _ _ _ _ A5 (f_debug _ _ _ _ Hc)) as (i5 & e5 & En5 & F5).
  assert (Hset : forall a f, on_table s a -> (exists i e, entry s i a e /\ fd e = f) -> (forall b, on_table s b -> b = s_wakeupfd_event \/ b = s_debug_event \/ b = a) ->
    readFds s = {[wfd; dfd; f]}).
  { intros a f Ha (i & e & Hen & Hf) Hall. apply set_eq. intros x. rewrite (wok_fds _ Hw), !elem_of_union, !elem_of_singleton.
    split.
    - intros (j & b & eb & [Hj Hb] & <-). destruct (Hall b ltac:(by exists j)) as [->|[->| ->]]; [left; left|left; right|right];
        [destruct En2|destruct En5|destruct Hen]; congruence.
    - intros [[->| ->]| ->]; [by exists i2, s_wakeupfd_event, e2|by exists i5, s_debug_event, e5|by exists i, a, e]. }
  destruct H1 as [(T3 & T4 & _)|[(T4 & T3 & _)|(_ & _ & ?%elem_of_nil)]]; [| |done].
  - destruct c as [f|]; [by destruct Hcon|]. apply (Hset s_listen_event); [done|by apply (Hfd _ _ _ _ T3 (f_listen _ _ _ _ Hc))|].
    intros b Hb. destruct (f_table _ _ _ _ Hc b Hb) as [->|[->|[->| ->]]]; tauto.
  - destruct c as [f|]; [|done]. destruct Hcon as [_ He]. apply (Hset s_commands_event); [done|by apply (Hfd _ _ _ _ T4 He)|].
    intros b Hb. destruct (f_table _ _ _ _ Hc b Hb) as [->|[->|[->| ->]]]; tauto.
Qed.

(** [accept] returns a descriptor that is not in use, and [select] the number of
    descriptors in its set. *)
Definition possible_answer (r : select_answer daemon_input) : Prop :=
  possible_input (inputs r) /\ (0 <= n_ready r -> Z.of_nat (size (ready_fds r)) <= n_ready r).

Definition follows (c : option Z) (s : estate) : Prop := daemon_ok [] s /\ connected s c.

#[local] Instance daemon_refines : LoopRefines next_conn daemon_others daemon_call possible_answer follows.
Proof.
  split.
  - intros c s [(ts & Hs & _) _]. exists ts. by apply steady_loop_ok.
  - intros r c s _ [Hs Hc]. by apply others_keep.
  - intros r c s [Hx Hn] Hpos [(ts & Hs & Hf & _) Hc]. apply steady_loop_ok in Hs as Hok.
    pose proof (daemon_fires (inputs r) (next_conn c r) Hx) as HF.
    destruct (loop_round_fires (daemon_inv (inputs r) (next_conn c r)) (daemon_call (inputs r)) (after r) (ready_fds r) (n_ready r) s ts Hok)
      as (s' & Hr & Hd & Hh).
    + intros k s1 Hcol.
      split; [|apply (collected_heads_for r s ts k s1 c); [done|by destruct Hs as (_ & _ & ? & _)|done|by apply Hn|done]].
      exists (drop k ts). split; [by apply (steady_collected s)|]. split; [|done]. destruct Hcol as (_ & _ & Hd & Hft).
      apply (facts_collected ts k _ s); [done| |done|done]. intros a. apply ready_on_table.
    + exists s'. split; [done|]. split; [done|]. destruct Hh as [[?%elem_of_nil _]|[_ (c0 & Hc0 & ->)]]; [done|].
      by rewrite bool_decide_eq_false_2 by apply not_elem_of_nil.
Qed.

(** C10: whatever [select] answers, whoever connects, however connections end
    and whatever timers the callbacks and other threads request, the daemon
    never faults and follows the specification [next_conn] of who is connected:
    a phone process that connects stays until its connection ends, and then the
    next one is served.  In every round the daemon waits for its wake-up pipe,
    its debug socket and the connection, or the listening socket when there is
    none, and exactly until the earliest deadline of the timers that are set in
    the state in which the run has arrived at this call of [select] (not at all
    when that has passed, for ever when there is no timer); and between rounds
    nothing is allocated but the timers that have not fired.  The descriptors
    are distinct, [accept] returns a new one and [select] does not count less
    than it sets.  (When a descriptor is closed elsewhere while it is watched,
    as by a debug command, [select] answers with a failure.) *)
Theorem daemon_serves_connections answers : Forall possible_answer answers ->
  exists e calls s', daemon_loop wfd lfd dfd answers static_events = Ret ((e, calls), s') /\
    (e = Returned <-> Exists (fun r => fails r = true) answers) /\
    Forall2 (fun call x => s_rfds call = {[wfd; dfd; default lfd x.1]}) calls (spec_rounds next_conn None answers) /\
    (exists s, start_events wfd lfd dfd static_events = Ret (tt, s) /\
       forall k call r, calls !! k = Some call -> answers !! k = Some r ->
         exists s0, at_select daemon_others daemon_call answers s k s0 /\ waits_right call (before r) s0) /\
    connected s' (spec_end next_conn None answers) /\
    exists ts, loop_ok s' ts /\ forall a, is_Some (evs s' !! a) <-> (a < 6)%nat \/ a ∈ ts.
Proof.
  intros Hp. destruct daemon_start_ok as (s0 & Hr0 & H0 & Hc0). unfold daemon_loop. rewrite (bind_run _ _ _ _ _ Hr0).
  destruct (event_loop_refines next_conn daemon_others daemon_call possible_answer follows answers Hp None s0 (conj H0 Hc0))
    as (e & calls & s' & Hr & [(ts & Hs & Hf & _) Hc] & He & Hall & Hat).
  exists e, calls, s'. split; [done|]. split; [done|]. split; [|split; [by exists s0|split; [done|]]].
  - eapply Forall2_impl; [exact Hall|]. intros c [cn r] (s & [Hok Hcs] & Hw). destruct Hw as (_ & -> & _).
    by apply watched_fds.
  - exists ts. split; [by apply steady_loop_ok|]. intros a. split.
    + intros [e' He']. destruct (f_store _ _ _ _ (f_core _ _ _ _ Hf) a) as [?|[?|?%elem_of_nil]]; [|by left|by right|done].
      unfold event_data. rewrite He'. by eexists.
    + intros [Ha|Ha]; [by apply (fixed_present _ _ _ _ _ Hs Hf)|]. apply (lists_present _ _ _ _ Hs).
      rewrite !elem_of_cons, elem_of_app. tauto.
Qed.

End Daemon.

(** A connection is made, requests a timer, and ends; the timer fires; a
    stranger is turned away. *)
Definition day (acc : Z) (phone close : bool) (ts : list (option timeval)) : daemon_input :=
  DaemonInput acc phone close (TV 10 0) (fun f _ => if f =? fn_commands then ts else []) [].

Definition sample_day : list (select_answer daemon_input) :=
  [SelectAnswer (TV 10 0) 1 false {[7]} (TV 10 0) (day 12 true false []);
   SelectAnswer (TV 10 0) 1 false {[12]} (TV 10 0) (day (-1) true true [Some (TV 1 0)]);
   SelectAnswer (TV 10 1) 1 false {[7]} (TV 12 0) (day 12 false false []);
   SelectAnswer (TV 12 0) (-1) false ∅ (TV 12 0) (day (-1) false false [])].

Lemma daemon_serves_connections_witness : exists calls s', daemon_loop 5 7 9 sample_day static_events = Ret ((Returned, calls), s') /\
  map s_rfds calls = [{[5; 9; 7]}; {[5; 9; 12]}; {[5; 9; 7]}; {[5; 9; 7]}] /\ map s_timeout calls = [None; None; Some (TV 0 999999); None].
Proof.
  destruct (daemon_serves_connections 5 7 9) with (answers := sample_day) as (e & calls & s' & Hr & He & _).
  - apply (bool_decide_unpack (NoDup [5; 7; 9])). by vm_compute.
  - lia.
  - repeat constructor; intros ?; first [apply (bool_decide_unpack (_ ∉ [5; 7; 9])); by vm_compute|by vm_compute].
  - exists calls, s'. assert (e = Returned) as -> by (apply He; do 3 apply Exists_cons_tl; by apply Exists_cons_hd).
    split; [exact Hr|].
    vm_compute in Hr. injection Hr as <- <-. by vm_compute.
Defined.
