(* ===== verification/RilStartup.v ===== *)
(** * libril/ril.cpp: the event thread, its start and its wake-up pipe

    [RIL_startEventLoop] starts the thread of [eventLoop] and waits on a
    condition variable until it has initialised the event lists.  Any thread
    may add descriptors and timers, at any time: [rilEventAddWakeup] and
    [internalRequestTimedCallback] change the lists and then write a byte to
    the pipe that ends the [select] of the event thread.  The steps of the
    threads interleave.

    The lists are reduced to the sets of descriptors and timers they hold
    ([RilEvent] has them in full); the table has eight entries, one for each
    descriptor. *)

From S2P Require Import Prelude.

(** The two threads that take part in the start. *)
Inductive who : Type := MainThread | EventThread.

(** Where [RIL_startEventLoop] is. *)
Inductive main_pc : Type := MStart | MLock | MCreate | MCheck | MWait | MUnlock | MDone.

#[export] Instance who_eq_dec : EqDecision who.
Proof. solve_decision. Defined.
#[export] Instance main_pc_eq_dec : EqDecision main_pc.
Proof. solve_decision. Defined.

(** Where [eventLoop] and [ril_event_loop] are; [ECalc] has the copy of
    [readFds], [ESelect] also the timers that determined the time-out. *)
Inductive event_pc : Type :=
| ENone | EInit | ELock | ESet | EUnlock | EPipe | EFds | EAdd | ELoop
| ECalc (rfds : gset nat) | ESelect (rfds ts : gset nat) | EDispatch | EExit.

#[export] Instance event_pc_eq_dec : EqDecision event_pc.
Proof. solve_decision. Defined.

(** A descriptor or a timer that was added and whose byte is not written yet. *)
Inductive item : Type := Fd (fd : nat) | Timer (t : nat).

(** [pipe_set]: [s_fdWakeupRead] and [s_fdWakeupWrite] are the two ends of the
    pipe, of which the read end is the descriptor 0 of the model; before that
    they are zero, and a byte goes to the standard input, [stray].
    [dropped]: the descriptors for which the table had no entry; [crashed]: a
    timer was added to a list that is not initialised, a null pointer. *)
Record startup : Type := Startup {
  mpc : main_pc; epc : event_pc; s_started : bool; s_startupMutex : option who; signalled : bool; inited : bool;
  pipe_set : bool; pipe_bytes : nat; stray : nat; readFds : gset nat; timer_list : gset nat; triggers : list item;
  dropped : list nat; crashed : bool
}.

Definition wake_fd : nat := 0.

Definition before_start : startup := Startup MStart ENone false None false false false 0 0 ∅ ∅ [] [] false.

Definition at_main (p : main_pc) (m : option who) (s : startup) : startup :=
  Startup p (epc s) (s_started s) m (signalled s) (inited s) (pipe_set s) (pipe_bytes s) (stray s) (readFds s) (timer_list s) (triggers s) (dropped s) (crashed s).
Definition at_event (p : event_pc) (s : startup) : startup :=
  Startup (mpc s) p (s_started s) (s_startupMutex s) (signalled s) (inited s) (pipe_set s) (pipe_bytes s) (stray s) (readFds s) (timer_list s) (triggers s) (dropped s) (crashed s).
Definition with_mutex (m : option who) (s : startup) : startup := at_main (mpc s) m s.
Definition with_started (b sig : bool) (s : startup) : startup :=
  Startup (mpc s) (epc s) b (s_startupMutex s) sig (inited s) (pipe_set s) (pipe_bytes s) (stray s) (readFds s) (timer_list s) (triggers s) (dropped s) (crashed s).
Definition with_lists (i : bool) (fds ts : gset nat) (s : startup) : startup :=
  Startup (mpc s) (epc s) (s_started s) (s_startupMutex s) (signalled s) i (pipe_set s) (pipe_bytes s) (stray s) fds ts (triggers s) (dropped s) (crashed s).
Definition with_pipe (set : bool) (bytes str : nat) (s : startup) : startup :=
  Startup (mpc s) (epc s) (s_started s) (s_startupMutex s) (signalled s) (inited s) set bytes str (readFds s) (timer_list s) (triggers s) (dropped s) (crashed s).
Definition with_triggers (l : list item) (s : startup) : startup :=
  Startup (mpc s) (epc s) (s_started s) (s_startupMutex s) (signalled s) (inited s) (pipe_set s) (pipe_bytes s) (stray s) (readFds s) (timer_list s) l (dropped s) (crashed s).

Definition with_dropped (l : list nat) (c : bool) (s : startup) : startup :=
  Startup (mpc s) (epc s) (s_started s) (s_startupMutex s) (signalled s) (inited s) (pipe_set s) (pipe_bytes s) (stray s) (readFds s) (timer_list s) (triggers s) l c.

(** ** Adding events *)

Definition MAX_FD_EVENTS : nat := 8.

(** [ril_event_add] drops the event when the table is full; [ril_timer_add]
    follows the pointers of the list. *)
Definition add_item (i : item) (s : startup) : startup :=
  match i with
  | Fd fd =>
      if decide (size (readFds s) < MAX_FD_EVENTS)%nat then with_lists (inited s) (readFds s ∪ {[fd]}) (timer_list s) s
      else with_dropped (fd :: dropped s) (crashed s) s
  | Timer t =>
      if inited s then with_lists (inited s) (readFds s) (timer_list s ∪ {[t]}) s
      else with_dropped (dropped s) true s
  end.

(** [rilEventAddWakeup] and [internalRequestTimedCallback], first part. *)
Definition rilEventAdd (i : item) (s : startup) : startup := with_triggers (i :: triggers s) (add_item i s).

(** [triggerEvLoop] in another thread than the event thread. *)
Definition triggerEvLoop (s : startup) : startup :=
  if pipe_set s then with_pipe true (S (pipe_bytes s)) (stray s) s
  else with_pipe false (pipe_bytes s) (S (stray s)) s.

(** ** RIL_startEventLoop *)

(** The next step of the thread; [None] while it is blocked or has returned.
    [created]: [pthread_create] succeeds. *)
Definition RIL_startEventLoop (created : bool) (s : startup) : option startup :=
  match mpc s with
  | MStart => Some (at_main MLock (s_startupMutex s) (with_started false (signalled s) s))
  | MLock => if bool_decide (s_startupMutex s = None) then Some (at_main MCreate (Some MainThread) s) else None
  | MCreate => Some (if created then at_event EInit (at_main MCheck (s_startupMutex s) s) else at_main MUnlock (s_startupMutex s) s)
  | MCheck => Some (if s_started s then at_main MUnlock (s_startupMutex s) s else with_started false false (at_main MWait None s))
  | MWait =>
      if signalled s && bool_decide (s_startupMutex s = None) then Some (at_main MCheck (Some MainThread) s) else None
  | MUnlock => Some (at_main MDone None s)
  | MDone => None
  end.

(** ** eventLoop *)

(** The next step of the thread; [piped]: [pipe] succeeds; [failed]: [select]
    fails, which ends the process. *)
Definition eventLoop (piped failed : bool) (s : startup) : option startup :=
  match epc s with
  | ENone | EExit => None
  | EInit => Some (at_event ELock (with_lists true ∅ ∅ s))
  | ELock => if bool_decide (s_startupMutex s = None) then Some (at_event ESet (with_mutex (Some EventThread) s)) else None
  | ESet => Some (at_event EUnlock (with_started true (signalled s || bool_decide (mpc s = MWait)) s))
  | EUnlock => Some (at_event EPipe (with_mutex None s))
  | EPipe => Some (at_event (if piped then EFds else EExit) s)
  | EFds => Some (at_event EAdd (with_pipe true (pipe_bytes s) (stray s) s))
  | EAdd => Some (at_event ELoop (add_item (Fd wake_fd) s))
  | ELoop => Some (at_event (ECalc (readFds s)) s)
  | ECalc rfds => Some (at_event (ESelect rfds (timer_list s)) s)
  | ESelect _ _ => Some (at_event (if failed then EExit else EDispatch) s)
  | EDispatch => Some (at_event ELoop s)
  end.

(** [processWakeupCallback] empties the pipe. *)
Definition processWakeupCallback (s : startup) : startup := with_pipe (pipe_set s) 0 (stray s) s.

(** ** Steps *)

Inductive startup_step : startup -> startup -> Prop :=
| main_steps created s s' : RIL_startEventLoop created s = Some s' -> startup_step s s'
| event_steps piped failed s s' : eventLoop piped failed s = Some s' -> startup_step s s'
(** [pthread_cond_wait] may return without a signal. *)
| spurious_wakeup s : mpc s = MWait -> startup_step s (with_started (s_started s) true s)
(** While the events are dispatched, descriptors that are not persistent and
    timers that have expired are removed, the pipe may be emptied, and the
    callbacks may add events. *)
| dispatch_removes s fds ts :
    epc s = EDispatch -> wake_fd ∉ fds -> startup_step s (with_lists (inited s) (readFds s ∖ fds) (timer_list s ∖ ts) s)
| dispatch_wakes s : epc s = EDispatch -> startup_step s (processWakeupCallback s)
| dispatch_adds s i : epc s = EDispatch -> startup_step s (add_item i s)
(** Other threads. *)
| thread_adds s i : startup_step s (rilEventAdd i s)
| thread_triggers s i l1 l2 :
    triggers s = l1 ++ i :: l2 -> startup_step s (with_triggers (l1 ++ l2) (triggerEvLoop s)).
