(* ===== verification/RilStartupProps.v ===== *)
(** * The start of the event thread: no event is missed

    The invariant of the interleavings follows the program counters of the two
    threads; from it follow the order of initialisation and use, the return of
    [RIL_startEventLoop], and that [select] never sleeps on an event that was
    added. *)

From S2P Require Import Prelude RilStartup.

(** ** Phases *)

Definition main_holds (p : main_pc) : bool := match p with MCreate | MCheck | MUnlock => true | _ => false end.
Definition event_holds (p : event_pc) : bool := match p with ESet | EUnlock => true | _ => false end.
(** The event thread has not been created, has not initialised the lists, has
    not announced its start, has no pipe, or is not in its loop. *)
Definition not_created (p : event_pc) : bool := match p with ENone => true | _ => false end.
Definition not_inited (p : event_pc) : bool := match p with ENone | EInit => true | _ => false end.
Definition not_started (p : event_pc) : bool := match p with ENone | EInit | ELock | ESet => true | _ => false end.
Definition has_pipe (p : event_pc) : bool :=
  match p with EAdd | ELoop | ECalc _ | ESelect _ _ | EDispatch => true | _ => false end.
Definition in_loop (p : event_pc) : bool := match p with ELoop | ECalc _ | ESelect _ _ | EDispatch => true | _ => false end.
Definition not_yet_created (p : main_pc) : bool := match p with MStart | MLock | MCreate => true | _ => false end.
Definition leaves (p : main_pc) : bool := match p with MUnlock | MDone => true | _ => false end.

(** What was added since a copy was made has its byte in the pipe or still to
    come. *)
Definition covers (s : startup) (copy lst : gset nat) (f : nat -> item) : Prop :=
  (0 < pipe_bytes s)%nat \/ forall x, x ∈ lst -> x ∈ copy \/ f x ∈ triggers s.

Definition watched (s : startup) : Prop :=
  match epc s with
  | ECalc rfds => (wake_fd ∈ rfds \/ wake_fd ∈ dropped s) /\ covers s rfds (readFds s) Fd
  | ESelect rfds ts => (wake_fd ∈ rfds \/ wake_fd ∈ dropped s) /\ covers s rfds (readFds s) Fd /\ covers s ts (timer_list s) Timer
  | _ => True
  end.

Record startup_inv (s : startup) : Prop := StartupInv {
  v_main : s_startupMutex s = Some MainThread <-> main_holds (mpc s) = true;
  v_event : s_startupMutex s = Some EventThread <-> event_holds (epc s) = true;
  v_created : not_yet_created (mpc s) = true -> epc s = ENone;
  v_started : s_started s = negb (not_started (epc s));
  v_inited : inited s = negb (not_inited (epc s));
  v_wait : mpc s = MWait -> not_created (epc s) = false /\ (s_started s = true -> signalled s = true);
  v_check : mpc s = MCheck -> not_created (epc s) = false;
  v_leaves : leaves (mpc s) = true -> not_created (epc s) = true \/ s_started s = true;
  v_pipe : has_pipe (epc s) = true -> pipe_set s = true;
  v_wake : in_loop (epc s) = true -> wake_fd ∈ readFds s \/ wake_fd ∈ dropped s;
  v_watched : watched s
}.

Lemma before_inv : startup_inv before_start.
Proof. split; try done. Qed.

Ltac phases := simpl in *; unfold watched, covers in *; simpl in *; intuition (try congruence; try done).

Lemma main_inv created s s' : RIL_startEventLoop created s = Some s' -> startup_inv s -> startup_inv s'.
Proof.
  destruct s as [m e st mu sg i ps pb sr fds ts tr dr cr]. unfold RIL_startEventLoop. simpl.
  intros E [A B C D F G G' K L N Q]; simpl in *.
  destruct m; try discriminate E.
  - injection E as <-. specialize (C eq_refl) as ->. subst st. split; phases.
  - case_bool_decide; [|done]. injection E as <-. specialize (C eq_refl) as ->. split; phases.
  - injection E as <-. specialize (C eq_refl) as ->. destruct created; split; phases.
  - injection E as <-. specialize (G' eq_refl). destruct st; split; phases.
  - destruct sg; [|done]. case_bool_decide; [|done]. injection E as <-. destruct (G eq_refl). split; phases.
  - injection E as <-. split; phases.
Qed.

(** What adding an event leaves as it is. *)
Lemma add_item_frame i s :
  let s' := add_item i s in
  mpc s' = mpc s /\ epc s' = epc s /\ s_started s' = s_started s /\ s_startupMutex s' = s_startupMutex s /\ signalled s' = signalled s /\
  inited s' = inited s /\ pipe_set s' = pipe_set s /\ pipe_bytes s' = pipe_bytes s /\ triggers s' = triggers s /\
  readFds s ⊆ readFds s' /\ dropped s ⊆ dropped s'.
Proof. destruct i as [fd|t]; simpl; [destruct (decide _)|destruct (inited s) eqn:E]; simpl; rewrite ?E; split_and!; try done; set_solver. Qed.

(** The event thread adds the pipe. *)
Lemma add_pipe_inv s : epc s = EAdd -> startup_inv s -> startup_inv (at_event ELoop (add_item (Fd wake_fd) s)).
Proof.
  intros He [A B C D F G G' K L N Q]. rewrite He in *. simpl in *.
  unfold add_item. destruct (decide _); split; simpl; try done; try (intros Hy; by specialize (C Hy)); intros _.
  - left. apply elem_of_union_r, elem_of_singleton. done.
  - right. apply list_elem_of_here.
Qed.

Lemma event_inv piped failed s s' : eventLoop piped failed s = Some s' -> startup_inv s -> startup_inv s'.
Proof.
  destruct (decide (epc s = EAdd)) as [Hadd|Hadd].
  { unfold eventLoop. rewrite Hadd. intros [= <-]. by apply add_pipe_inv. }
  revert Hadd. destruct s as [m e st mu sg i ps pb sr fds ts tr dr cr]. unfold eventLoop. simpl.
  intros Hadd E [A B C D F G G' K L N Q]; simpl in *.
  assert (Hm : not_created e = false -> not_yet_created m = false) by (intros H; destruct (not_yet_created m); [by rewrite (C eq_refl) in H|done]).
  destruct e; try discriminate E; try done; specialize (Hm eq_refl); clear Hadd.
  - injection E as <-. split; phases.
  - case_bool_decide; [|done]. subst mu. injection E as <-. split; phases.
  - injection E as <-. split; phases.
    + by rewrite orb_true_iff, bool_decide_eq_true; right.
  - injection E as <-. split; phases.
  - injection E as <-. destruct piped; split; phases.
  - injection E as <-. split; phases.
  - injection E as <-. split; phases.
  - injection E as <-. split; phases.
  - injection E as <-. destruct failed; split; phases.
  - injection E as <-. split; phases.
Qed.

(** An event that is added keeps what was covered, when its byte is to come or
    the lists are not being watched. *)
Lemma covers_more s s' copy lst lst' f :
  pipe_bytes s' = pipe_bytes s -> covers s copy lst f -> (forall x, x ∈ lst' -> x ∈ lst \/ f x ∈ triggers s') ->
  (forall i, i ∈ triggers s -> i ∈ triggers s') -> covers s' copy lst' f.
Proof.
  unfold covers. intros -> [Hb|Hc] Hl Ht; [by left|right]. intros x Hx. destruct (Hl x Hx) as [Hx'|?]; [|by right].
  destruct (Hc x Hx') as [?|?]; [by left|right; auto].
Qed.

(** What it adds is the item. *)
Lemma add_item_lists i s x :
  (x ∈ readFds (add_item i s) -> x ∈ readFds s \/ i = Fd x) /\ (x ∈ timer_list (add_item i s) -> x ∈ timer_list s \/ i = Timer x).
Proof. destruct i as [fd|t]; simpl; [destruct (decide _)|destruct (inited s)]; simpl; set_solver. Qed.

Lemma watched_add i s : watched s -> watched (rilEventAdd i s).
Proof.
  destruct (add_item_frame i s) as (_ & E2 & _ & _ & _ & _ & _ & E8 & E9 & E10 & E11).
  assert (Hf : forall copy, covers s copy (readFds s) Fd -> covers (rilEventAdd i s) copy (readFds (rilEventAdd i s)) Fd).
  { intros copy H. apply (covers_more s _ copy (readFds s)); simpl; [done|done| |by intros; apply list_elem_of_further].
    intros x Hx. destruct (add_item_lists i s x) as [Hl _]. destruct (Hl Hx) as [?|<-]; [by left|right; apply list_elem_of_here]. }
  assert (Ht : forall copy, covers s copy (timer_list s) Timer -> covers (rilEventAdd i s) copy (timer_list (rilEventAdd i s)) Timer).
  { intros copy H. apply (covers_more s _ copy (timer_list s)); simpl; [done|done| |by intros; apply list_elem_of_further].
    intros x Hx. destruct (add_item_lists i s x) as [_ Hl]. destruct (Hl Hx) as [?|<-]; [by left|right; apply list_elem_of_here]. }
  unfold watched. change (epc (rilEventAdd i s)) with (epc (add_item i s)). rewrite E2.
  change (dropped (rilEventAdd i s)) with (dropped (add_item i s)). destruct (epc s); try done.
  - intros [[Hw|Hw] Hc]; (split; [|by apply Hf]); [by left|right; by apply E11].
  - intros ([Hw|Hw] & Hc & Hc2); (split; [|split; [by apply Hf|by apply Ht]]); [by left|right; by apply E11].
Qed.

Lemma add_inv i s : startup_inv s -> startup_inv (rilEventAdd i s).
Proof.
  intros [A B C D F G G' K L N Q]. pose proof (watched_add i s Q) as Hw.
  destruct (add_item_frame i s) as (E1 & E2 & E3 & E4 & E5 & E6 & E7 & E8 & E9 & E10 & E11).
  split; try exact Hw; cbn [rilEventAdd with_triggers mpc epc s_started s_startupMutex signalled inited pipe_set readFds dropped];
    rewrite ?E1, ?E2, ?E3, ?E4, ?E5, ?E6, ?E7; try done.
  intros H'. destruct (N H') as [?|?]; [left; by apply E10|right; by apply E11].
Qed.

(** Once the pipe is set every trigger leaves a byte in it. *)
Lemma trigger_inv s i l1 l2 : triggers s = l1 ++ i :: l2 -> startup_inv s -> startup_inv (with_triggers (l1 ++ l2) (triggerEvLoop s)).
Proof.
  intros Ht [A B C D F G G' K L N Q]. unfold triggerEvLoop.
  destruct (pipe_set s) eqn:Ep; split; simpl in *; try done; try (by rewrite Ep in L; intros H; specialize (L H)).
  - unfold watched in *. simpl. destruct (epc s); try done.
    + destruct Q as [Qw _]. split; [done|]. left. simpl. lia.
    + destruct Q as [Qw _]. split; [done|]. split; left; simpl; lia.
  - unfold watched. simpl. destruct (epc s); try done; by discriminate (L eq_refl).
Qed.

Lemma dispatch_inv s s' :
  epc s = EDispatch -> startup_inv s ->
  mpc s' = mpc s -> epc s' = epc s -> s_started s' = s_started s -> s_startupMutex s' = s_startupMutex s -> signalled s' = signalled s ->
  inited s' = inited s -> pipe_set s' = pipe_set s -> triggers s' = triggers s -> (wake_fd ∈ readFds s' \/ wake_fd ∈ dropped s') -> startup_inv s'.
Proof.
  intros He [A B C D F G G' K L N Q] E1 E2 E3 E4 E5 E6 E7 E8 Hw.
  split; rewrite ?E1, ?E2, ?E3, ?E4, ?E5, ?E6, ?E7, ?E8; try done.
  unfold watched. by rewrite E2, He.
Qed.

Lemma startup_step_inv s s' : startup_step s s' -> startup_inv s -> startup_inv s'.
Proof.
  intros [created a b E|piped failed a b E|a Hm|a fds ts He Hf|a He|a i He|a i|a i l1 l2 Ht] Hi.
  - by eapply main_inv.
  - by eapply event_inv.
  - destruct Hi as [A B C D F G G' K L N Q]. split; simpl in *; try done. intros _. by destruct (G Hm).
  - apply (dispatch_inv a); try done. simpl. pose proof (v_wake _ Hi) as Hw. rewrite He in Hw. specialize (Hw eq_refl).
    destruct Hw as [?|?]; [left; set_solver|by right].
  - apply (dispatch_inv a); try done. simpl. apply (v_wake _ Hi). by rewrite He.
  - pose proof (v_wake _ Hi) as Hw. rewrite He in Hw. specialize (Hw eq_refl).
    destruct (add_item_frame i a) as (? & ? & ? & ? & ? & ? & ? & ? & ? & E10 & E11).
    apply (dispatch_inv a); try done. destruct Hw as [?|?]; [left; by apply E10|right; by apply E11].
  - by apply add_inv.
  - by eapply trigger_inv.
Qed.

Lemma startup_reach s : rtc startup_step before_start s -> startup_inv s.
Proof.
  assert (Hg : forall x y, rtc startup_step x y -> startup_inv x -> startup_inv y).
  { induction 1 as [|x y z Hxy _ IH]; [done|]. intros Hx. by eapply IH, startup_step_inv. }
  intros Hr. eapply Hg; [exact Hr|apply before_inv].
Qed.

(** ** Theorems *)

(** Steps that [RIL_startEventLoop] and the start of [eventLoop] have left. *)
Definition startup_left (s : startup) : nat :=
  (match mpc s with MStart => 11 | MLock => 10 | MCreate => 9 | MCheck => if s_started s then 2 else 4 | MWait => 3 | MUnlock => 1 | MDone => 0 end +
   match epc s with EInit => 4 | ELock => 3 | ESet => 2 | EUnlock => 1 | _ => 0 end)%nat.

(** C13: however the threads interleave, and whenever other threads add events,
    when the event thread is in [select] every descriptor that is in the table
    is in its copy of [readFds], or there is a byte in the pipe, or the thread
    that added the descriptor has not written its byte yet; the same holds for
    the timers and the time-out; and the pipe is in the copy, so that a byte in
    it ends the [select], unless the table was full when the event thread added
    the pipe ([wake_pipe_dropped]).  When [RIL_startEventLoop] has returned and
    the thread could be created, the lists are initialised: what is added from
    then on is not wiped by the initialisation, and a timer that is added then
    follows no null pointer.  (When it could not be created they are not:
    [failed_start_crashes].) *)
Theorem no_event_is_missed s :
  rtc startup_step before_start s ->
  (forall rfds ts, epc s = ESelect rfds ts ->
    (wake_fd ∈ rfds \/ wake_fd ∈ dropped s) /\
    (forall fd, fd ∈ readFds s -> fd ∈ rfds \/ (0 < pipe_bytes s)%nat \/ Fd fd ∈ triggers s) /\
    (forall t, t ∈ timer_list s -> t ∈ ts \/ (0 < pipe_bytes s)%nat \/ Timer t ∈ triggers s)) /\
  (mpc s = MDone -> epc s <> ENone -> inited s = true /\ epc s <> EInit /\ forall i, crashed (rilEventAdd i s) = crashed s).
Proof.
  intros Hi%startup_reach. split.
  - intros rfds ts He. pose proof (v_watched _ Hi) as Hw. unfold watched in Hw. rewrite He in Hw. destruct Hw as (Hw & Hf & Ht).
    split; [done|]. split.
    + intros fd Hx. destruct Hf as [?|Hf]; [by right; left|]. destruct (Hf fd Hx); [by left|by right; right].
    + intros t Hx. destruct Ht as [?|Ht]; [by right; left|]. destruct (Ht t Hx); [by left|by right; right].
  - intros Hm He. pose proof (v_leaves _ Hi) as Hl. rewrite Hm in Hl. pose proof (v_started _ Hi) as Hs.
    pose proof (v_inited _ Hi) as Hn.
    assert (Hin : inited s = true).
    { destruct (Hl eq_refl) as [Hc|Hc]; [by destruct (epc s)|]. rewrite Hn. rewrite Hc in Hs. by destruct (epc s). }
    split; [done|]. split; [intros E; rewrite E in Hn; simpl in Hn; congruence|].
    intros [fd|t]; simpl; [by destruct (decide _)|by rewrite Hin].
Qed.

Ltac main_goes :=
  eexists; split; [eapply (main_steps true); unfold RIL_startEventLoop; simpl; rewrite ?bool_decide_true by done; reflexivity|]; unfold startup_left; simpl.

(** In every reachable state one of the two threads can take a step that
    brings [RIL_startEventLoop] closer to its end. *)
Lemma startup_progress s :
  rtc startup_step before_start s -> mpc s <> MDone ->
  exists s', startup_step s s' /\ (startup_left s' < startup_left s)%nat.
Proof.
  intros [A B C D F G G' K L N Q]%startup_reach Hm. destruct s as [m e st mu sg i ps pb sr fds ts tr dr cr]. simpl in *.
  assert (Hev : st = false -> not_created e = false -> (e = ELock -> mu = None) ->
    exists s', startup_step (Startup m e st mu sg i ps pb sr fds ts tr dr cr) s' /\
      (startup_left s' < startup_left (Startup m e st mu sg i ps pb sr fds ts tr dr cr))%nat).
  { intros -> Hc Hl.
    destruct e; try done; eexists; (split; [eapply (event_steps true false); unfold eventLoop; simpl; try rewrite (Hl eq_refl), bool_decide_true by done; reflexivity|]);
      unfold startup_left; simpl; destruct m; simpl; lia. }
  destruct m; try done.
  - main_goes. lia.
  - rewrite (C eq_refl) in *. destruct mu as [[]|]; [discriminate (proj1 A eq_refl)|discriminate (proj1 B eq_refl)|].
    main_goes. lia.
  - rewrite (C eq_refl) in *. main_goes. destruct st; lia.
  - main_goes. destruct st; simpl; lia.
  - destruct (G eq_refl) as [Hc Hs]. destruct st.
    + rewrite (Hs eq_refl). destruct mu as [[]|].
      * discriminate (proj1 A eq_refl).
      * pose proof (proj1 B eq_refl). destruct e; try done. eexists. split; [eapply (event_steps true false); reflexivity|].
        unfold startup_left. simpl. lia.
      * main_goes. lia.
    + apply Hev; [done|done|]. intros ->.
      destruct mu as [[]|]; [discriminate (proj1 A eq_refl)|discriminate (proj1 B eq_refl)|done].
  - main_goes. lia.
Qed.

(** So it can always return, after at most 15 more steps. *)
Lemma startup_returns s :
  rtc startup_step before_start s -> exists s', rtc startup_step s s' /\ mpc s' = MDone.
Proof.
  remember (startup_left s) as n eqn:Hn. revert s Hn. induction n as [n IH] using lt_wf_ind. intros s -> Hr.
  destruct (decide (mpc s = MDone)) as [Hm|Hm]; [by exists s|]. destruct (startup_progress s Hr Hm) as (s1 & Hs & Hlt).
  destruct (IH _ Hlt s1 eq_refl) as (s2 & Hs2 & Hm2); [by eapply rtc_r|]. exists s2. split; [by eapply rtc_l|done].
Qed.

(** ** Runs *)

Ltac by_main := eapply rtc_l; [apply (main_steps true); vm_compute; reflexivity|].
Ltac by_event := eapply rtc_l; [apply (event_steps true false); vm_compute; reflexivity|].

Lemma rtc_same (s s' : startup) : s = s' -> rtc startup_step s s'.
Proof. intros ->. apply rtc_refl. Qed.

(** The event thread announces its start; the main thread goes on and adds a
    descriptor before the pipe exists, and its byte goes to the standard
    input. *)
Definition stray_state : startup := Startup MDone EPipe true None true true false 0 1 {[5%nat]} ∅ [] [] false.

Lemma stray_reached : rtc startup_step before_start stray_state.
Proof.
  do 4 by_main. do 4 by_event. do 3 by_main.
  eapply rtc_l; [apply (thread_adds _ (Fd 5))|].
  eapply rtc_l; [apply (thread_triggers _ (Fd 5) [] []); reflexivity|].
  apply rtc_same. vm_compute. reflexivity.
Qed.

(** The descriptor is watched all the same: [select] starts after it. *)
Definition selecting : startup := Startup MDone (ESelect {[5%nat; wake_fd]} ∅) true None true true true 0 1 {[5%nat; wake_fd]} ∅ [] [] false.

Lemma selecting_reached : rtc startup_step before_start selecting.
Proof.
  etrans; [exact stray_reached|]. do 5 by_event. apply rtc_same. vm_compute. reflexivity.
Qed.

Lemma no_event_is_missed_witness : 5%nat ∈ readFds selecting /\ (5%nat ∈ ({[5%nat; wake_fd]} : gset nat) \/ (0 < 0)%nat \/ Fd 5 ∈ ([] : list item)).
Proof.
  split; [vm_compute; reflexivity|].
  destruct (no_event_is_missed selecting selecting_reached) as [Hs _]. destruct (Hs _ _ eq_refl) as (_ & Hf & _). apply Hf.
  vm_compute. reflexivity.
Defined.

(** When the thread cannot be created [RIL_startEventLoop] returns all the same,
    and the first timer follows a null pointer. *)
Lemma failed_start_crashes : exists s, rtc startup_step before_start s /\ mpc s = MDone /\ crashed s = false /\
  crashed (rilEventAdd (Timer 1) s) = true.
Proof.
  eexists. split; [|split; [|split]].
  - do 4 (eapply rtc_l; [apply (main_steps false); vm_compute; reflexivity|]). apply rtc_refl.
  - reflexivity.
  - reflexivity.
  - reflexivity.
Qed.

(** Eight descriptors that are added before the pipe leave no entry for it: a
    timer that is added while the event thread is in [select] waits for another
    event although its byte is written. *)
Lemma wake_pipe_dropped : exists s rfds ts, rtc startup_step before_start s /\ epc s = ESelect rfds ts /\
  (wake_fd ∉ rfds) /\ (0 < pipe_bytes s)%nat /\ (1%nat ∈ timer_list s) /\ (1%nat ∉ ts) /\ triggers s = [].
Proof.
  eexists _, _, _. split.
  - etrans; [exact stray_reached|].
    do 7 (eapply rtc_l; [match goal with |- startup_step ?s _ => eapply (thread_adds s (Fd (6 + size (readFds s)))) end|];
          eapply rtc_l; [eapply (thread_triggers _ _ [] []); reflexivity|]).
    do 5 by_event. eapply rtc_l; [apply (thread_adds _ (Timer 1))|]. eapply rtc_l; [eapply (thread_triggers _ _ [] []); reflexivity|].
    apply rtc_refl.
  - vm_compute. split_and!; try reflexivity; try lia; apply (bool_decide_unpack _); vm_compute; reflexivity.
Qed.
