(* ===== verification/Parcel.v ===== *)
(** * Parcels and strings

    [android::Parcel] (libbinder) and the UTF conversions of libcutils are not
    part of the repository: the class [ParcelOps] has the encodings the RIL
    uses, [ParcelLaws] the documented round trips, and the instance at the end
    the layout of Android's wire format.  A parcel that is read is the list of
    bytes behind the read position; a parcel that is written is the list of
    bytes before the write position.

    A C string is [None] for a null pointer. *)

From S2P Require Import Prelude.

Abbreviation bytes := (list Z).
Abbreviation cstr := (option (list Z)).

Class ParcelOps := {
  enc32 : Z -> bytes;
  (** [readInt32]: the value and the rest, or [None] when data is missing. *)
  dec32 : bytes -> option (Z * bytes);
  enc64 : Z -> bytes;
  (** [writeString16] and [readString16Inplace], on UTF-16 code units. *)
  enc_str : option (list Z) -> bytes;
  dec_str : bytes -> option (list Z) * bytes;
  (** [write] and [readInplace] of raw bytes, padded to four. *)
  enc_raw : bytes -> bytes;
  dec_raw : Z -> bytes -> option bytes * bytes;
  (** [strdup8to16] and [strndup16to8], and the strings they preserve. *)
  to16 : list Z -> list Z;
  to8 : list Z -> list Z;
  str_ok : list Z -> Prop
}.

(** What [writeString16] can represent: 16-bit units and a length that fits. *)
Definition units_ok (s : option (list Z)) : Prop :=
  match s with
  | None => True
  | Some u => Forall (fun c => 0 <= c < 2 ^ 16) u /\ Z.of_nat (length u) < 2 ^ 30
  end.

Class ParcelLaws (P : ParcelOps) : Prop := {
  enc32_length : forall x, length (enc32 x) = 4%nat;
  dec32_enc32 : forall x r, dec32 (enc32 x ++ r) = Some (s32 x, r);
  dec32_range : forall b x r, dec32 b = Some (x, r) -> - 2 ^ 31 <= x < 2 ^ 31;
  dec32_short : forall b, (length b < 4)%nat -> dec32 b = None;
  dec_str_enc_str : forall s r, units_ok s -> dec_str (enc_str s ++ r) = (s, r);
  dec_str_nil : dec_str [] = (None, []);
  dec_raw_enc_raw : forall b r, dec_raw (Z.of_nat (length b)) (enc_raw b ++ r) = (Some b, r);
  dec_raw_short : forall n b, Z.of_nat (length b) < n -> dec_raw n b = (None, b);
  dec_raw_length : forall n b x r, dec_raw n b = (Some x, r) -> Z.of_nat (length x) = n;
  to16_units : forall s, str_ok s -> units_ok (Some (to16 s));
  to8_to16 : forall s, str_ok s -> to8 (to16 s) = s
}.

(** ** Reading *)

Definition NOT_ENOUGH_DATA : Z := -61.
Definition NO_ERROR : Z := 0.
Definition NO_MEMORY : Z := -12.

Section Read.
Context {P : ParcelOps}.

Abbreviation R := (M bytes).

(** [p.readInt32(&t)]: the status, and [t], which keeps its old value when
    the read fails. *)
Definition readInt32 (t : Z) : R (Z * Z) := fun b =>
  match dec32 b with
  | Some (x, r) => Ret ((NO_ERROR, x), r)
  | None => Ret ((NOT_ENOUGH_DATA, t), b)
  end.

(** [int32_t x = p.readInt32()]: zero when the read fails. *)
Definition readInt32_value : R Z := r ← readInt32 0; mret r.2.

(** [p.read(&ut, sizeof(uint8_t))]. *)
Definition read_uint8 (ut : Z) : R (Z * Z) := fun b =>
  match dec_raw 1 b with
  | (Some [x], r) => Ret ((NO_ERROR, x), r)
  | (_, r) => Ret ((NOT_ENOUGH_DATA, ut), r)
  end.

(** [p.read(&x, sizeof(int32_t))] has the layout of [readInt32]. *)
Definition read_int32_object (t : Z) : R (Z * Z) := readInt32 t.

Definition readInplace (n : Z) : R (option bytes) := fun b => Ret (dec_raw n b).

Definition strdupReadString : R cstr := fun b =>
  let '(s16, r) := dec_str b in Ret (to8 <$> s16, r).

(** [readStringFromParcelInplace(p, str, maxLen)]: the status and what the
    array [str] then holds.  [strncpy16to8] is given the length of the UTF-8
    string as the number of UTF-16 units to convert: when that is more than the
    string has, it reads past its end. *)
Definition readStringFromParcelInplace (old : list Z) (maxLen : Z) : R (Z * list Z) := fun b =>
  match dec_str b with
  | (None, r) => Ret ((NO_MEMORY, old), r)
  | (Some s16, r) =>
      let s := to8 s16 in
      if maxLen <? Z.of_nat (length s) + 1 then Ret ((NO_MEMORY, old), r)
      else if (length s16 <? length s)%nat then Fault
      else Ret ((NO_ERROR, s ++ 0 :: drop (S (length s)) old), r)
  end.

(** [n] objects read one after the other by the same code. *)
Fixpoint read_list {A} (n : nat) (item : R A) : R (list A) :=
  match n with
  | O => mret []
  | S n' => x ← item; xs ← read_list n' item; mret (x :: xs)
  end.

(** ** Writing *)

Definition write (bs : bytes) : M bytes unit := fun b => Ret (tt, b ++ bs).
Definition writeInt32 (x : Z) : M bytes unit := write (enc32 x).
Definition writeInt64 (x : Z) : M bytes unit := write (enc64 x).
Definition writeString16 (s : option (list Z)) : M bytes unit := write (enc_str s).
Definition writeStringToParcel (s : cstr) : M bytes unit := writeString16 (to16 <$> s).

Fixpoint write_list {A} (item : A -> M bytes unit) (xs : list A) : M bytes unit :=
  match xs with
  | [] => mret tt
  | x :: xs' => item x;; write_list item xs'
  end.

End Read.

(** ** Laws of the operations *)

Section Laws.
Context {P : ParcelOps} {PL : ParcelLaws P}.

(** A string that survives the conversion to UTF-16 and back. *)
Definition cstr_ok (s : cstr) : Prop := match s with Some x => str_ok x | None => True end.

Lemma readInt32_run t x r : readInt32 t (enc32 x ++ r) = Ret ((NO_ERROR, s32 x), r).
Proof. unfold readInt32. by rewrite dec32_enc32. Qed.

Lemma readInt32_fail t b : (length b < 4)%nat -> readInt32 t b = Ret ((NOT_ENOUGH_DATA, t), b).
Proof. intros H. unfold readInt32. by rewrite dec32_short. Qed.

Lemma readInt32_value_run x r : readInt32_value (enc32 x ++ r) = Ret (s32 x, r).
Proof. unfold readInt32_value. by rewrite (bind_run _ _ _ _ _ (readInt32_run 0 x r)). Qed.

Lemma strdupReadString_run s r : cstr_ok s -> strdupReadString (enc_str (to16 <$> s) ++ r) = Ret (s, r).
Proof.
  intros Hs. unfold strdupReadString. rewrite dec_str_enc_str by (destruct s; [by apply to16_units|done]).
  destruct s as [s|]; [|done]. simpl. by rewrite to8_to16.
Qed.

Lemma read_uint8_run t x r : read_uint8 t (enc_raw [x] ++ r) = Ret ((NO_ERROR, x), r).
Proof. unfold read_uint8. change 1 with (Z.of_nat (length [x])). by rewrite dec_raw_enc_raw. Qed.

Lemma readInplace_run b r : readInplace (Z.of_nat (length b)) (enc_raw b ++ r) = Ret (Some b, r).
Proof. unfold readInplace. by rewrite dec_raw_enc_raw. Qed.

Lemma read_list_run {A B} (item : M bytes A) (enc : B -> bytes) (dec : B -> A) xs r :
  (forall x r, x ∈ xs -> item (enc x ++ r) = Ret (dec x, r)) ->
  read_list (length xs) item (concat (map enc xs) ++ r) = Ret (map dec xs, r).
Proof.
  revert r. induction xs as [|x xs IH]; intros r Hi; [done|]. simpl. rewrite <- app_assoc.
  erewrite bind_run by (apply Hi, list_elem_of_here). erewrite bind_run; [done|].
  apply IH. intros y r' Hy. apply Hi. by apply list_elem_of_further.
Qed.

Lemma write_list_run {A} (item : A -> M bytes unit) (enc : A -> bytes) xs b :
  (forall x b, x ∈ xs -> item x b = Ret (tt, b ++ enc x)) ->
  write_list item xs b = Ret (tt, b ++ concat (map enc xs)).
Proof.
  revert b. induction xs as [|x xs IH]; intros b Hi; [by rewrite app_nil_r|]. simpl.
  erewrite bind_run by (apply Hi, list_elem_of_here). rewrite IH, app_assoc; [done|].
  intros y b' Hy. apply Hi. by apply list_elem_of_further.
Qed.

End Laws.

(** ** Android's layout *)

Module Wire.

Definition byte_at (x : Z) (i : Z) : Z := Z.land (Z.shiftr x (8 * i)) 255.
Definition le32 (x : Z) : bytes := [byte_at x 0; byte_at x 1; byte_at x 2; byte_at x 3].
Definition le64 (x : Z) : bytes := le32 x ++ le32 (Z.shiftr x 32).
Definition un32 (b : bytes) : option (Z * bytes) :=
  match b with
  | b0 :: b1 :: b2 :: b3 :: r => Some (s32 (b0 + 256 * b1 + 65536 * b2 + 16777216 * b3), r)
  | _ => None
  end.

Definition padding (n : Z) : nat := Z.to_nat ((4 - n mod 4) mod 4).

Definition raw (b : bytes) : bytes := b ++ replicate (padding (Z.of_nat (length b))) 0.
Definition unraw (n : Z) (b : bytes) : option bytes * bytes :=
  if (n <? 0) || (Z.of_nat (length b) <? n + Z.of_nat (padding n)) then (None, b)
  else (Some (take (Z.to_nat n) b), drop (Z.to_nat n + padding n) b).

(** UTF-16 code units, two bytes each; the terminator is counted in the
    padded size but not in the length word. *)
Definition units (s : list Z) : bytes := concat (map (fun c => [byte_at c 0; byte_at c 1]) s).
Fixpoint ununits (b : bytes) : list Z :=
  match b with
  | b0 :: b1 :: r => b0 + 256 * b1 :: ununits r
  | _ => []
  end.

Definition str16 (s : option (list Z)) : bytes :=
  match s with
  | None => le32 (-1)
  | Some s => le32 (Z.of_nat (length s)) ++ raw (units s ++ [0; 0])
  end.

Definition unstr16 (b : bytes) : option (list Z) * bytes :=
  match un32 b with
  | None => (None, b)
  | Some (n, r) =>
      if n <? 0 then (None, r) else
      match unraw (2 * (n + 1)) r with
      | (Some us, r') => (Some (ununits (take (Z.to_nat (2 * n)) us)), r')
      | (None, r') => (None, r')
      end
  end.

Lemma byte_at_div x i : 0 <= i -> byte_at x i = (x / 2 ^ (8 * i)) mod 256.
Proof.
  intros Hi. unfold byte_at. change 255 with (Z.ones 8). rewrite Z.land_ones by lia.
  by rewrite Z.shiftr_div_pow2 by lia.
Qed.

Lemma le32_sum x :
  byte_at x 0 + 256 * byte_at x 1 + 65536 * byte_at x 2 + 16777216 * byte_at x 3 = x mod 2 ^ 32.
Proof.
  rewrite !byte_at_div by lia. change (2 ^ (8 * 0)) with 1. change (2 ^ (8 * 1)) with 256.
  change (2 ^ (8 * 2)) with 65536. change (2 ^ (8 * 3)) with 16777216. change (2 ^ 32) with 4294967296.
  Z.to_euclidean_division_equations. lia.
Qed.

Lemma s32_mod x : s32 (x mod 2 ^ 32) = s32 x.
Proof. unfold s32. by rewrite Zplus_mod_idemp_l. Qed.

Lemma un32_le32 x r : un32 (le32 x ++ r) = Some (s32 x, r).
Proof. unfold un32, le32. cbn [app]. by rewrite le32_sum, s32_mod. Qed.

Lemma padding_bound n : (padding n < 4)%nat.
Proof. unfold padding. pose proof (Z.mod_pos_bound (4 - n mod 4) 4 ltac:(lia)). lia. Qed.

Lemma unraw_raw b r : unraw (Z.of_nat (length b)) (raw b ++ r) = (Some b, r).
Proof.
  unfold unraw, raw. rewrite !length_app, length_replicate.
  destruct (Z.ltb_spec (Z.of_nat (length b)) 0); [lia|]. set (k := padding _).
  destruct (Z.ltb_spec (Z.of_nat (length b + k + length r)) (Z.of_nat (length b) + Z.of_nat k)); [lia|]. simpl.
  rewrite Nat2Z.id, <- app_assoc, take_app_length. f_equal. rewrite <- drop_drop, drop_app_length.
  by rewrite drop_app_length' by (by rewrite length_replicate).
Qed.

Lemma ununits_units s : Forall (fun c => 0 <= c < 2 ^ 16) s -> ununits (units s) = s.
Proof.
  induction 1 as [|c s Hc _ IH]; [done|]. simpl. unfold units in IH. rewrite IH. f_equal.
  rewrite !byte_at_div by lia. change (2 ^ (8 * 0)) with 1. change (2 ^ (8 * 1)) with 256.
  change (2 ^ 16) with 65536 in Hc. Z.to_euclidean_division_equations. lia.
Qed.

Lemma length_units s : length (units s) = (2 * length s)%nat.
Proof. induction s as [|c s IH]; [done|]. simpl. unfold units in IH. rewrite IH. lia. Qed.

Lemma unstr16_str16 s r : units_ok s -> unstr16 (str16 s ++ r) = (s, r).
Proof.
  unfold unstr16, str16. destruct s as [s|]; [|by rewrite un32_le32]. intros [Hf Hl].
  rewrite <- app_assoc, un32_le32, s32_small by lia. destruct (Z.ltb_spec (Z.of_nat (length s)) 0); [lia|].
  pose proof (length_units s) as Hu.
  replace (2 * (Z.of_nat (length s) + 1)) with (Z.of_nat (length (units s ++ [0; 0])))
    by (rewrite length_app, Hu; simpl; lia).
  rewrite unraw_raw. replace (Z.to_nat (2 * Z.of_nat (length s))) with (length (units s)) by lia.
  by rewrite take_app_length, ununits_units.
Qed.

(** Plain ASCII strings, for which both conversions keep every character. *)
#[export] Instance android_parcel : ParcelOps := {|
  enc32 := le32; dec32 := un32; enc64 := le64; enc_str := str16; dec_str := unstr16;
  enc_raw := raw; dec_raw := unraw; to16 := id; to8 := id;
  str_ok := fun s => Forall (fun c => 0 < c < 128) s /\ Z.of_nat (length s) < 2 ^ 30
|}.

#[export] Instance android_parcel_laws : ParcelLaws android_parcel.
Proof.
  split; simpl.
  - done.
  - apply un32_le32.
  - intros [|b0 [|b1 [|b2 [|b3 b]]]] x r; try done. intros [= <- _]. apply s32_range.
  - intros [|b0 [|b1 [|b2 [|b3 b]]]]; simpl; try done; lia.
  - apply unstr16_str16.
  - done.
  - apply unraw_raw.
  - intros n b Hn. unfold unraw. destruct (Z.ltb_spec n 0); [done|].
    destruct (Z.ltb_spec (Z.of_nat (length b)) (n + Z.of_nat (padding n))); [done|lia].
  - intros n b x r. unfold unraw. destruct (Z.ltb_spec n 0); [done|].
    destruct (Z.ltb_spec (Z.of_nat (length b)) (n + Z.of_nat (padding n))); [done|]. intros [= <- _].
    rewrite length_take. lia.
  - intros s [Hf Hl]. split; [|done]. eapply Forall_impl; [exact Hf|]. simpl. intros c Hc. lia.
  - done.
Qed.

End Wire.
