(* ===== verification/RilTypes.v ===== *)
(** * The interface between libril and the vendor RIL

    [telephony/ril.h] and [telephony/ril_cdma_sms.h] are not part of the
    repository.  Their enumerators and macros, and the sizes of their structs,
    are the functions of the class [RilHeader], by name; the structs
    themselves are records with the members that libril touches.  A structure
    that the vendor library passes to libril is a [response], the data that
    libril passes to it a [request_data]; [libril/ril_v3.h] has the structs
    of the old interface. *)

From S2P Require Import Prelude Parcel.

Class RilHeader := {
  (** The value of an enumerator or macro. *)
  ril : string -> Z;
  (** [sizeof] a struct. *)
  sizeof : string -> Z
}.

(** The sizes of the 32-bit target. *)
Definition sizeof_int : Z := 4.
Definition sizeof_ptr : Z := 4.
Definition INT_MAX : Z := 2 ^ 31 - 1.

(** ** Structs of [telephony/ril.h] *)

Record RIL_UUS_Info : Type := UUS {
  uusType : Z; uusDcs : Z; uusLength : Z;
  (** [None] is a null pointer. *)
  uusData : option bytes
}.

Record RIL_Call : Type := Call {
  call_state : Z; call_index : Z; call_toa : Z; isMpty : Z; isMT : Z; als : Z; isVoice : Z;
  isVoicePrivacy : Z; call_number : cstr; numberPresentation : Z; call_name : cstr;
  namePresentation : Z; call_uusInfo : option RIL_UUS_Info
}.

Record RIL_Dial : Type := Dial { address : cstr; clir : Z; uusInfo : option RIL_UUS_Info }.

Record RIL_CallForwardInfo : Type := CallForward {
  cf_status : Z; cf_reason : Z; cf_serviceClass : Z; cf_toa : Z; cf_number : cstr; cf_timeSeconds : Z
}.

Record RIL_SMS_WriteArgs : Type := SmsWriteArgs { sms_status : Z; sms_pdu : cstr; sms_smsc : cstr }.

Record RIL_SMS_Response : Type := SmsResponse { messageRef : Z; ackPDU : cstr; errorCode : Z }.

Record RIL_SIM_APDU : Type := SimApdu {
  apdu_sessionid : Z; apdu_cla : Z; apdu_instruction : Z; apdu_p1 : Z; apdu_p2 : Z; apdu_p3 : Z;
  apdu_data : cstr
}.

Record RIL_SIM_IO_Response : Type := SimIoResponse { sw1 : Z; sw2 : Z; simResponse : cstr }.

(** The digit arrays have the sizes of the header; [uint8_t] elements. *)
Record RIL_CDMA_SMS_Address : Type := CdmaAddress {
  digit_mode : Z; number_mode : Z; number_type : Z; number_plan : Z; number_of_digits : Z; digits : list Z
}.
Record RIL_CDMA_SMS_Subaddress : Type := CdmaSubaddress {
  subaddressType : Z; odd : Z; sub_number_of_digits : Z; sub_digits : list Z
}.
Record RIL_CDMA_SMS_Message : Type := CdmaMessage {
  uTeleserviceID : Z; bIsServicePresent : Z; uServicecategory : Z; sAddress : RIL_CDMA_SMS_Address;
  sSubAddress : RIL_CDMA_SMS_Subaddress; uBearerDataLen : Z; aBearerData : list Z
}.

Record RIL_GSM_BroadcastSmsConfigInfo : Type := GsmBci {
  fromServiceId : Z; toServiceId : Z; fromCodeScheme : Z; toCodeScheme : Z; gsm_selected : Z
}.
Record RIL_CDMA_BroadcastSmsConfigInfo : Type := CdmaBci {
  service_category : Z; language : Z; cdma_selected : Z
}.

Record RIL_DataProfileInfo : Type := DataProfile {
  profileId : Z; dp_apn : cstr; dp_protocol : cstr; dp_authType : Z; dp_user : cstr; dp_password : cstr;
  dp_type : Z; maxConnsTime : Z; maxConns : Z; waitTime : Z; enabled : Z
}.

(** [logicalModemUuid] is an array of [MAX_UUID_LENGTH] characters. *)
Record RIL_RadioCapability : Type := RadioCapability {
  rc_version : Z; rc_session : Z; rc_phase : Z; rc_rat : Z; logicalModemUuid : list Z; rc_status : Z
}.

Record RIL_Data_Call_Response_v4 : Type := DataCall4 {
  dc4_cid : Z; dc4_active : Z; dc4_type : cstr; dc4_apn : cstr; dc4_address : cstr
}.
(** The versions 6, 9 and 11 add [pcscf] and [mtu]. *)
Record RIL_Data_Call_Response : Type := DataCall {
  dc_status : Z; suggestedRetryTime : Z; dc_cid : Z; dc_active : Z; dc_type : cstr; dc_ifname : cstr;
  dc_addresses : cstr; dc_dnses : cstr; dc_gateways : cstr; dc_pcscf : cstr; dc_mtu : Z
}.

Record RIL_SuppSvcNotification : Type := Ssn {
  notificationType : Z; ssn_code : Z; ssn_index : Z; ssn_type : Z; ssn_number : cstr
}.

Record RIL_NeighboringCell : Type := NeighboringCell { cell_cid : cstr; rssi : Z }.

Record RIL_CDMA_SignalInfoRecord : Type := SignalInfo {
  isPresent : Z; signalType : Z; alertPitch : Z; signal : Z
}.

Record RIL_CDMA_NumberInfoRecord : Type := NumberInfo {
  num_len : Z; num_buf : list Z; num_type : Z; num_plan : Z; num_pi : Z; num_si : Z
}.

(** The union [rec] of [RIL_CDMA_InformationRecord]. *)
Inductive info_rec : Type :=
| Display (alpha_len : Z) (alpha_buf : list Z)
| Number (number : RIL_CDMA_NumberInfoRecord)
| Signal (signal : RIL_CDMA_SignalInfoRecord)
| Redirecting (redirectingNumber : RIL_CDMA_NumberInfoRecord) (redirectingReason : Z)
| LineCtrl (polarityIncluded toggle reverse powerDenial : Z)
| Clir (cause : Z)
| AudioCtrl (upLink downLink : Z).

Record RIL_CDMA_InformationRecord : Type := InfoRec { info_name : Z; info : info_rec }.
Record RIL_CDMA_InformationRecords : Type := InfoRecs {
  numberOfInfoRecs : Z; infoRec : list RIL_CDMA_InformationRecord
}.

Record RIL_LTE_SignalStrength : Type := LteSignal {
  lte_signalStrength : Z; rsrp : Z; rsrq : Z; rssnr : Z; cqi : Z; timingAdvance : Z
}.
(** [RIL_SignalStrength_v10]; the versions 5 and 6 are its prefixes. *)
Record RIL_SignalStrength : Type := SignalStrength {
  gw_signalStrength : Z; gw_bitErrorRate : Z; cdma_dbm : Z; cdma_ecio : Z; evdo_dbm : Z; evdo_ecio : Z;
  evdo_snr : Z; LTE_SignalStrength : RIL_LTE_SignalStrength; td_rscp : Z
}.

Record RIL_CDMA_CallWaiting_v6 : Type := CallWaiting {
  cw_number : cstr; cw_numberPresentation : Z; cw_name : cstr; signalInfoRecord : RIL_CDMA_SignalInfoRecord;
  cw_number_type : Z; cw_number_plan : Z
}.

Record RIL_SimRefreshResponse_v7 : Type := SimRefresh { refresh_result : Z; ef_id : Z; refresh_aid : cstr }.

(** The union [CellInfo] of [RIL_CellInfo]; the members are listed in the
    order in which libril sends them. *)
Inductive cell_info : Type :=
| Gsm (mcc mnc lac cid signalStrength bitErrorRate : Z)
| Wcdma (mcc mnc lac cid psc signalStrength bitErrorRate : Z)
| Cdma (networkId systemId basestationId longitude latitude dbm ecio evdo_dbm evdo_ecio snr : Z)
| Lte (mcc mnc ci pci tac : Z) (lte : RIL_LTE_SignalStrength)
| Tdscdma (mcc mnc lac cid cpid rscp : Z).

Record RIL_CellInfo : Type := CellInfo {
  cellInfoType : Z; registered : Z; timeStampType : Z; timeStamp : Z; cell : cell_info
}.

Inductive hw_cfg : Type :=
| Modem (rat maxVoice maxData maxStandby : Z)
| Sim (modemUuid : list Z).
Record RIL_HardwareConfig : Type := HardwareConfig {
  hw_type : Z; hw_uuid : list Z; hw_state : Z; hw : hw_cfg
}.

Record RIL_StkCcUnsolSsResponse : Type := SsResponse {
  serviceType : Z; requestType : Z; teleserviceType : Z; ss_serviceClass : Z; ss_result : Z;
  (** The two members of its union. *)
  numValidIndexes : Z; cfInfo : list RIL_CallForwardInfo; ssInfo : list Z
}.

Record RIL_AppStatus : Type := AppStatus {
  app_type : Z; app_state : Z; perso_substate : Z; aid_ptr : cstr; app_label_ptr : cstr;
  pin1_replaced : Z; pin1 : Z; pin2 : Z
}.

Record RIL_DcRtInfo : Type := DcRtInfo { dcrt_time : Z; powerState : Z }.
Record RIL_LceStatusInfo : Type := LceStatus { lce_status : Z; actual_interval_ms : Z }.
Record RIL_LceDataInfo : Type := LceData {
  last_hop_capacity_kbps : Z; confidence_level : Z; lce_suspended : Z
}.
Record RIL_ActivityStatsInfo : Type := ActivityStats {
  sleep_mode_time_ms : Z; idle_mode_time_ms : Z; tx_mode_time_ms : list Z; rx_mode_time_ms : Z
}.

(** ** Structs of [libril/ril_v3.h] *)

Definition RIL_VERSION_V3 : Z := 6.
Definition RIL_MAX_NETWORKS : nat := 2.
Definition RIL_CARD_MAX_APPS : nat := 8.
Definition RIL_MAX_CARDS : nat := 1.

Record RIL_RegistrationStateRecord_v3 : Type := RegRecord { numElements : Z; regState : list cstr }.
(** [records] has [RIL_MAX_NETWORKS] elements. *)
Record RIL_RegistrationStates_v3 : Type := RegStates { records : list RIL_RegistrationStateRecord_v3 }.

Record RIL_SimPin_v3 : Type := SimPin { sp_slot : Z; sp_aidPtr : cstr; sp_pin : cstr }.
Record RIL_SimPuk_v3 : Type := SimPuk { spk_slot : Z; spk_aidPtr : cstr; spk_puk : cstr; spk_newPin : cstr }.
Record RIL_SimPinSet_v3 : Type := SimPinSet { sps_slot : Z; sps_aidPtr : cstr; sps_pin : cstr; sps_newPin : cstr }.

Record RIL_SIM_IO_v3 : Type := SimIo {
  io_slot : Z; io_aidPtr : cstr; io_command : Z; io_fileid : Z; io_path : cstr; io_p1 : Z; io_p2 : Z; io_p3 : Z;
  io_data : cstr; io_pin2 : cstr
}.

(** The index arrays and [applications] have [RIL_CARD_MAX_APPS] elements. *)
Record RIL_CardStatus_v3 : Type := CardStatus {
  card_state : Z; universal_pin_state : Z; num_current_3gpp_indexes : Z; subscription_3gpp_app_index : list Z;
  num_current_3gpp2_indexes : Z; subscription_3gpp2_app_index : list Z; num_applications : Z;
  applications : list RIL_AppStatus
}.
Record RIL_CardList_v3 : Type := CardList { num_cards : Z; card : list RIL_CardStatus_v3 }.

Record RIL_RequestImsi_v3 : Type := RequestImsi { imsi_slot : Z; imsi_aid_ptr : cstr }.

(** ** What crosses the interface *)

(** The data of [onRequest]. *)
Inductive request_data : Type :=
| D_null
| D_string (s : cstr)
| D_strings (pStrings : option (list cstr))
| D_ints (pInts : list Z)
| D_raw (data : option bytes)
| D_smsWrite (args : RIL_SMS_WriteArgs)
| D_simPin (args : RIL_SimPin_v3)
| D_simPuk (args : RIL_SimPuk_v3)
| D_simPinSet (args : RIL_SimPinSet_v3)
| D_dial (dial : RIL_Dial)
| D_simIo (args : RIL_SIM_IO_v3)
| D_simApdu (args : RIL_SIM_APDU)
| D_callForward (args : RIL_CallForwardInfo)
| D_cdmaSms (rcsm : RIL_CDMA_SMS_Message)
| D_imsCdma (tech retry messageRef : Z) (rcsm : RIL_CDMA_SMS_Message)
| D_imsGsm (tech retry messageRef : Z) (pStrings : option (list cstr))
| D_cdmaSmsAck (uErrorClass uSMSCauseCode : Z)
| D_gsmBrSmsCnf (cnf : list RIL_GSM_BroadcastSmsConfigInfo)
| D_cdmaBrSmsCnf (cnf : list RIL_CDMA_BroadcastSmsConfigInfo)
| D_cdmaSmsWrite (status : Z) (rcsm : RIL_CDMA_SMS_Message)
| D_requestImsi (args : RIL_RequestImsi_v3)
| D_initialAttachApn (apn protocol : cstr) (authtype : Z) (username password : cstr)
| D_nvRead (itemID : Z)
| D_nvWrite (itemID : Z) (value : cstr)
| D_uiccSub (slot app_index sub_type act_status : Z)
| D_simAuth (authContext : Z) (authData aid : cstr)
| D_dataProfile (profiles : list RIL_DataProfileInfo)
| D_radioCapability (rc : RIL_RadioCapability).

(** The [response] of [RIL_onRequestComplete] and the [data] of
    [RIL_onUnsolicitedResponse]: what the pointer refers to. *)
Inductive response : Type :=
| R_null
| R_ints (l : list Z)
| R_failCause (cause_code : Z) (vendor_cause : cstr)
| R_strings (l : list cstr)
| R_string (s : list Z)
| R_calls (l : list RIL_Call)
| R_sms (r : RIL_SMS_Response)
| R_dataCalls4 (l : list RIL_Data_Call_Response_v4)
| R_dataCalls (version : Z) (l : list RIL_Data_Call_Response)
| R_raw (b : bytes)
| R_simIo (r : RIL_SIM_IO_Response)
| R_callForwards (l : list RIL_CallForwardInfo)
| R_ssn (r : RIL_SuppSvcNotification)
| R_cells (l : list RIL_NeighboringCell)
| R_infoRecs (r : RIL_CDMA_InformationRecords)
| R_signalStrength (r : RIL_SignalStrength)
| R_signalInfo (r : RIL_CDMA_SignalInfoRecord)
| R_callWaiting (r : RIL_CDMA_CallWaiting_v6)
| R_simRefresh (r : RIL_SimRefreshResponse_v7)
| R_cellInfos (l : list RIL_CellInfo)
| R_hardwareConfigs (l : list RIL_HardwareConfig)
| R_radioCapability (rc : RIL_RadioCapability)
| R_ssData (r : RIL_StkCcUnsolSsResponse)
| R_cardList (r : RIL_CardList_v3)
| R_regStates (r : RIL_RegistrationStates_v3)
| R_gsmBrSmsCnf (l : list RIL_GSM_BroadcastSmsConfigInfo)
| R_cdmaBrSmsCnf (l : list RIL_CDMA_BroadcastSmsConfigInfo)
| R_cdmaSms (rcsm : RIL_CDMA_SMS_Message)
| R_dcRtInfo (r : RIL_DcRtInfo)
| R_lceStatus (r : RIL_LceStatusInfo)
| R_lceData (r : RIL_LceDataInfo)
| R_activity (r : RIL_ActivityStatsInfo).

Definition is_null (r : response) : bool := match r with R_null => true | _ => false end.
