(* ===== verification/RilResponse.v ===== *)
(** * libril/ril.cpp: the response functions

    Each function writes a vendor response into a parcel and returns 0 or
    [RIL_ERRNO_INVALID_RESPONSE]; what it wrote before an error stays in the
    parcel.  The payload is the memory the vendor's pointer refers to, and
    [responselen] the length the vendor gives; reading past the payload, or as
    another type, is a fault. *)

From S2P Require Import Prelude Parcel RilTypes.

Definition RIL_ERRNO_INVALID_RESPONSE : Z := -1.

Section Responses.
Context {P : ParcelOps} {H : RilHeader}.
(** [s_callbacks.version]. *)
Variable version : Z.

Abbreviation W := (M bytes).

(** The first [n] elements of an array. *)
Definition prefix {A} (l : list A) (n : Z) : W (list A) :=
  if n <=? Z.of_nat (length l) then mret (take (Z.to_nat n) l) else fault.

(** [for (i = 0; i < n; i++)] over an array. *)
Definition each {A} (n : Z) (l : list A) (item : A -> W unit) : W unit :=
  xs ← prefix l n; write_list item xs.

(** The null-terminated string in a character array. *)
Fixpoint c_string (a : list Z) : W (list Z) :=
  match a with
  | [] => fault
  | c :: a' => if c =? 0 then mret [] else s ← c_string a'; mret (c :: s)
  end.

Definition writeArrayToParcel (a : list Z) : W unit := s ← c_string a; writeStringToParcel (Some s).

(** [response == NULL && responselen != 0]. *)
Definition null_mismatch (r : response) (responselen : Z) : bool :=
  is_null r && negb (responselen =? 0).

(** ** Integers and strings *)

(** A null pointer is an array without elements. *)
Definition as_ints (r : response) : W (list Z) :=
  match r with R_ints l => mret l | R_null => mret [] | _ => fault end.
Definition as_strings (r : response) : W (list cstr) :=
  match r with R_strings l => mret l | _ => fault end.

Definition responseInts (r : response) (responselen : Z) : W Z :=
  if null_mismatch r responselen then mret RIL_ERRNO_INVALID_RESPONSE else
  if negb (responselen mod sizeof_int =? 0) then mret RIL_ERRNO_INVALID_RESPONSE else
  p_int ← as_ints r;
  let numInts := responselen / sizeof_int in
  writeInt32 numInts;;
  each numInts p_int writeInt32;;
  mret 0.

Definition responseFailCause (r : response) (responselen : Z) : W Z :=
  if null_mismatch r responselen then mret RIL_ERRNO_INVALID_RESPONSE else
  if responselen =? sizeof_int then
    p_int ← as_ints r;
    each 1 p_int writeInt32;;
    mret 0
  else if responselen =? sizeof "RIL_LastCallFailCauseInfo" then
    match r with
    | R_failCause cause_code vendor_cause =>
        writeInt32 cause_code;;
        writeStringToParcel vendor_cause;;
        mret 0
    | _ => fault
    end
  else mret RIL_ERRNO_INVALID_RESPONSE.

Definition responseStrings (r : response) (responselen : Z) : W Z :=
  if null_mismatch r responselen then mret RIL_ERRNO_INVALID_RESPONSE else
  if negb (responselen mod sizeof_ptr =? 0) then mret RIL_ERRNO_INVALID_RESPONSE else
  if is_null r then writeInt32 0;; mret 0 else
  p_cur ← as_strings r;
  let numStrings := responselen / sizeof_ptr in
  writeInt32 numStrings;;
  each numStrings p_cur writeStringToParcel;;
  mret 0.

Definition responseStringsWithVersion (v : Z) (r : response) (responselen : Z) : W Z :=
  writeInt32 v;;
  responseStrings r responselen.

Definition responseString (r : response) (responselen : Z) : W Z :=
  match r with
  | R_null => writeStringToParcel None;; mret 0
  | R_string s => writeStringToParcel (Some s);; mret 0
  | _ => fault
  end.

Definition responseVoid (r : response) (responselen : Z) : W Z := mret 0.

Definition responseRaw (r : response) (responselen : Z) : W Z :=
  if null_mismatch r responselen then mret RIL_ERRNO_INVALID_RESPONSE else
  match r with
  | R_null => writeInt32 (-1);; mret 0
  | R_raw b =>
      writeInt32 responselen;;
      bs ← prefix b responselen;
      write (enc_raw bs);;
      mret 0
  | _ => fault
  end.

(** Every fifth string is left out. *)
Fixpoint networks_loop (i : Z) (l : list cstr) : W unit :=
  match l with
  | [] => mret tt
  | s :: l' =>
      (if (i + 1) mod 5 =? 0 then mret tt else writeStringToParcel s);;
      networks_loop (i + 1) l'
  end.

Definition responseAvailableNetworks (r : response) (responselen : Z) : W Z :=
  if null_mismatch r responselen then mret RIL_ERRNO_INVALID_RESPONSE else
  if negb (responselen mod sizeof_ptr =? 0) then mret RIL_ERRNO_INVALID_RESPONSE else
  if is_null r then writeInt32 0;; mret 0 else
  p_cur ← as_strings r;
  let numStrings := responselen / sizeof_ptr in
  let finalQANelements := numStrings / 5 * 4 in
  writeInt32 finalQANelements;;
  strings ← prefix p_cur numStrings;
  networks_loop 0 strings;;
  mret 0.

(** ** Calls and messages *)

Definition write_call (p_cur : RIL_Call) : W unit :=
  writeInt32 (call_state p_cur);;
  writeInt32 (call_index p_cur);;
  writeInt32 (call_toa p_cur);;
  writeInt32 (isMpty p_cur);;
  writeInt32 (isMT p_cur);;
  writeInt32 (als p_cur);;
  writeInt32 (isVoice p_cur);;
  writeInt32 (isVoicePrivacy p_cur);;
  writeStringToParcel (call_number p_cur);;
  writeInt32 (numberPresentation p_cur);;
  writeStringToParcel (call_name p_cur);;
  writeInt32 (namePresentation p_cur);;
  match (if version <? 3 then None else call_uusInfo p_cur) with
  | Some (UUS ty dcs len (Some data)) =>
      writeInt32 1;;
      writeInt32 ty;;
      writeInt32 dcs;;
      writeInt32 len;;
      bs ← prefix data len;
      write (enc_raw bs)
  | _ => writeInt32 0
  end.

Definition responseCallList (r : response) (responselen : Z) : W Z :=
  if null_mismatch r responselen then mret RIL_ERRNO_INVALID_RESPONSE else
  if negb (responselen mod sizeof_ptr =? 0) then mret RIL_ERRNO_INVALID_RESPONSE else
  let num := responselen / sizeof_ptr in
  writeInt32 num;;
  calls ← match r with R_calls l => mret l | R_null => mret [] | _ => fault end;
  each num calls write_call;;
  mret 0.

Definition responseSMS (r : response) (responselen : Z) : W Z :=
  if is_null r then mret RIL_ERRNO_INVALID_RESPONSE else
  if negb (responselen =? sizeof "RIL_SMS_Response") then mret RIL_ERRNO_INVALID_RESPONSE else
  match r with
  | R_sms p_cur =>
      writeInt32 (messageRef p_cur);;
      writeStringToParcel (ackPDU p_cur);;
      writeInt32 (errorCode p_cur);;
      mret 0
  | _ => fault
  end.

Definition write_callForward (p_cur : RIL_CallForwardInfo) : W unit :=
  writeInt32 (cf_status p_cur);;
  writeInt32 (cf_reason p_cur);;
  writeInt32 (cf_serviceClass p_cur);;
  writeInt32 (cf_toa p_cur);;
  writeStringToParcel (cf_number p_cur);;
  writeInt32 (cf_timeSeconds p_cur).

Definition responseCallForwards (r : response) (responselen : Z) : W Z :=
  if null_mismatch r responselen then mret RIL_ERRNO_INVALID_RESPONSE else
  if negb (responselen mod sizeof_ptr =? 0) then mret RIL_ERRNO_INVALID_RESPONSE else
  let num := responselen / sizeof_ptr in
  writeInt32 num;;
  infos ← match r with R_callForwards l => mret l | R_null => mret [] | _ => fault end;
  each num infos write_callForward;;
  mret 0.

Definition responseSsn (r : response) (responselen : Z) : W Z :=
  if is_null r then mret RIL_ERRNO_INVALID_RESPONSE else
  if negb (responselen =? sizeof "RIL_SuppSvcNotification") then mret RIL_ERRNO_INVALID_RESPONSE else
  match r with
  | R_ssn p_cur =>
      writeInt32 (notificationType p_cur);;
      writeInt32 (ssn_code p_cur);;
      writeInt32 (ssn_index p_cur);;
      writeInt32 (ssn_type p_cur);;
      writeStringToParcel (ssn_number p_cur);;
      mret 0
  | _ => fault
  end.

Definition responseSIM_IO (r : response) (responselen : Z) : W Z :=
  if is_null r then mret RIL_ERRNO_INVALID_RESPONSE else
  if negb (responselen =? sizeof "RIL_SIM_IO_Response") then mret RIL_ERRNO_INVALID_RESPONSE else
  match r with
  | R_simIo p_cur =>
      writeInt32 (sw1 p_cur);;
      writeInt32 (sw2 p_cur);;
      writeStringToParcel (simResponse p_cur);;
      mret 0
  | _ => fault
  end.

Definition responseCellList (r : response) (responselen : Z) : W Z :=
  if null_mismatch r responselen then mret RIL_ERRNO_INVALID_RESPONSE else
  if negb (responselen mod sizeof_ptr =? 0) then mret RIL_ERRNO_INVALID_RESPONSE else
  let num := responselen / sizeof_ptr in
  writeInt32 num;;
  cells ← match r with R_cells l => mret l | R_null => mret [] | _ => fault end;
  each num cells (fun p_cur => writeInt32 (rssi p_cur);; writeStringToParcel (cell_cid p_cur));;
  mret 0.

(** ** Data calls *)

Definition write_dataCall4 (c : RIL_Data_Call_Response_v4) : W unit :=
  writeInt32 (dc4_cid c);;
  writeInt32 (dc4_active c);;
  writeStringToParcel (dc4_type c);;
  writeStringToParcel (dc4_address c).

Definition responseDataCallListV4 (r : response) (responselen : Z) : W Z :=
  if null_mismatch r responselen then mret RIL_ERRNO_INVALID_RESPONSE else
  if negb (responselen mod sizeof "RIL_Data_Call_Response_v4" =? 0) then mret RIL_ERRNO_INVALID_RESPONSE else
  writeInt32 4;;
  let num := responselen / sizeof "RIL_Data_Call_Response_v4" in
  writeInt32 num;;
  p_cur ← match r with R_dataCalls4 l => mret l | R_null => mret [] | _ => fault end;
  each num p_cur write_dataCall4;;
  mret 0.

(** An array of data call records of the given version. *)
Definition as_dataCalls (v : Z) (r : response) : W (list RIL_Data_Call_Response) :=
  match r with
  | R_dataCalls v' l => if v' =? v then mret l else fault
  | R_null => mret []
  | _ => fault
  end.

Definition write_dataCall6 (c : RIL_Data_Call_Response) : W unit :=
  writeInt32 (dc_status c);;
  writeInt32 (suggestedRetryTime c);;
  writeInt32 (dc_cid c);;
  writeInt32 (dc_active c);;
  writeStringToParcel (dc_type c);;
  writeStringToParcel (dc_ifname c);;
  writeStringToParcel (dc_addresses c);;
  writeStringToParcel (dc_dnses c);;
  writeStringToParcel (dc_gateways c).

Definition write_dataCall9 (c : RIL_Data_Call_Response) : W unit :=
  write_dataCall6 c;;
  writeStringToParcel (dc_pcscf c).

Definition write_dataCall11 (c : RIL_Data_Call_Response) : W unit :=
  write_dataCall9 c;;
  writeInt32 (dc_mtu c).

Definition responseDataCallListV6 (r : response) (responselen : Z) : W Z :=
  if null_mismatch r responselen then mret RIL_ERRNO_INVALID_RESPONSE else
  if negb (responselen mod sizeof "RIL_Data_Call_Response_v6" =? 0) then mret RIL_ERRNO_INVALID_RESPONSE else
  writeInt32 6;;
  let num := responselen / sizeof "RIL_Data_Call_Response_v6" in
  writeInt32 num;;
  p_cur ← as_dataCalls 6 r;
  each num p_cur write_dataCall6;;
  mret 0.

Definition responseDataCallListV9 (r : response) (responselen : Z) : W Z :=
  if null_mismatch r responselen then mret RIL_ERRNO_INVALID_RESPONSE else
  if negb (responselen mod sizeof "RIL_Data_Call_Response_v9" =? 0) then mret RIL_ERRNO_INVALID_RESPONSE else
  writeInt32 10;;
  let num := responselen / sizeof "RIL_Data_Call_Response_v9" in
  writeInt32 num;;
  p_cur ← as_dataCalls 9 r;
  each num p_cur write_dataCall9;;
  mret 0.

Definition responseDataCallList (r : response) (responselen : Z) : W Z :=
  if version <? 5 then responseDataCallListV4 r responselen
  else if responselen mod sizeof "RIL_Data_Call_Response_v6" =? 0 then responseDataCallListV6 r responselen
  else if responselen mod sizeof "RIL_Data_Call_Response_v9" =? 0 then responseDataCallListV9 r responselen
  else
  if null_mismatch r responselen then mret RIL_ERRNO_INVALID_RESPONSE else
  if negb (responselen mod sizeof "RIL_Data_Call_Response_v11" =? 0) then mret RIL_ERRNO_INVALID_RESPONSE else
  writeInt32 11;;
  let num := responselen / sizeof "RIL_Data_Call_Response_v11" in
  writeInt32 num;;
  p_cur ← as_dataCalls 11 r;
  each num p_cur write_dataCall11;;
  mret 0.

Definition responseSetupDataCall (r : response) (responselen : Z) : W Z :=
  if version <? 5 then responseStringsWithVersion version r responselen
  else responseDataCallList r responselen.

(** ** CDMA information records *)

Definition marshallSignalInfoRecord (s : RIL_CDMA_SignalInfoRecord) : W unit :=
  writeInt32 (isPresent s);;
  writeInt32 (signalType s);;
  writeInt32 (alertPitch s);;
  writeInt32 (signal s).

(** The copy into [string8] and its conversion: the string ends at the first
    null character. *)
Definition write_buffer (len : Z) (buf : list Z) : W unit :=
  s ← prefix buf len;
  writeArrayToParcel (s ++ [0]).

Definition write_number (n : RIL_CDMA_NumberInfoRecord) : W unit :=
  write_buffer (num_len n) (num_buf n);;
  writeInt32 (num_type n);;
  writeInt32 (num_plan n);;
  writeInt32 (num_pi n);;
  writeInt32 (num_si n).

Definition one_of (x : Z) (names : list string) : bool := existsb (fun n => x =? ril n) names.

Definition write_infoRec (i : RIL_CDMA_InformationRecord) : W Z :=
  writeInt32 (info_name i);;
  let name := info_name i in
  if one_of name ["RIL_CDMA_DISPLAY_INFO_REC"; "RIL_CDMA_EXTENDED_DISPLAY_INFO_REC"]%string then
    match info i with
    | Display alpha_len alpha_buf =>
        if ril "CDMA_ALPHA_INFO_BUFFER_LENGTH" <? alpha_len then mret RIL_ERRNO_INVALID_RESPONSE
        else write_buffer alpha_len alpha_buf;; mret 0
    | _ => fault
    end
  else if one_of name ["RIL_CDMA_CALLED_PARTY_NUMBER_INFO_REC"; "RIL_CDMA_CALLING_PARTY_NUMBER_INFO_REC";
                       "RIL_CDMA_CONNECTED_NUMBER_INFO_REC"]%string then
    match info i with
    | Number n =>
        if ril "CDMA_NUMBER_INFO_BUFFER_LENGTH" <? num_len n then mret RIL_ERRNO_INVALID_RESPONSE
        else write_number n;; mret 0
    | _ => fault
    end
  else if one_of name ["RIL_CDMA_SIGNAL_INFO_REC"]%string then
    match info i with Signal s => marshallSignalInfoRecord s;; mret 0 | _ => fault end
  else if one_of name ["RIL_CDMA_REDIRECTING_NUMBER_INFO_REC"]%string then
    match info i with
    | Redirecting n reason =>
        if ril "CDMA_NUMBER_INFO_BUFFER_LENGTH" <? num_len n then mret RIL_ERRNO_INVALID_RESPONSE
        else write_number n;; writeInt32 reason;; mret 0
    | _ => fault
    end
  else if one_of name ["RIL_CDMA_LINE_CONTROL_INFO_REC"]%string then
    match info i with
    | LineCtrl a b c d => writeInt32 a;; writeInt32 b;; writeInt32 c;; writeInt32 d;; mret 0
    | _ => fault
    end
  else if one_of name ["RIL_CDMA_T53_CLIR_INFO_REC"]%string then
    match info i with Clir cause => writeInt32 cause;; mret 0 | _ => fault end
  else if one_of name ["RIL_CDMA_T53_AUDIO_CONTROL_INFO_REC"]%string then
    match info i with AudioCtrl up down => writeInt32 up;; writeInt32 down;; mret 0 | _ => fault end
  else mret RIL_ERRNO_INVALID_RESPONSE.

(** The loop returns at the first record that cannot be written. *)
Fixpoint infoRecs_loop (l : list RIL_CDMA_InformationRecord) : W Z :=
  match l with
  | [] => mret 0
  | i :: l' => ret ← write_infoRec i; if ret =? 0 then infoRecs_loop l' else mret ret
  end.

Definition responseCdmaInformationRecords (r : response) (responselen : Z) : W Z :=
  if null_mismatch r responselen then mret RIL_ERRNO_INVALID_RESPONSE else
  if negb (responselen =? sizeof "RIL_CDMA_InformationRecords") then mret RIL_ERRNO_INVALID_RESPONSE else
  match r with
  | R_infoRecs p_cur =>
      let num := Z.min (numberOfInfoRecs p_cur) (ril "RIL_CDMA_MAX_NUMBER_OF_INFO_RECS") in
      writeInt32 num;;
      recs ← prefix (infoRec p_cur) num;
      infoRecs_loop recs
  | _ => fault
  end.

(** ** Signal strength *)

(** The remapping of LTE values for old vendor libraries; the negation wraps. *)
Definition fixup_lte (l : RIL_LTE_SignalStrength) : RIL_LTE_SignalStrength :=
  LteSignal
    (if lte_signalStrength l =? -1 then 99 else lte_signalStrength l)
    (if rsrp l =? -1 then INT_MAX else if rsrp l <? -1 then s32 (- rsrp l) else rsrp l)
    (if rsrq l =? -1 then INT_MAX else rsrq l)
    (if rssnr l =? 0 then INT_MAX else rssnr l)
    (if cqi l =? -1 then INT_MAX else cqi l)
    (timingAdvance l).

Definition responseRilSignalStrength (r : response) (responselen : Z) : W Z :=
  if null_mismatch r responselen then mret RIL_ERRNO_INVALID_RESPONSE else
  if sizeof "RIL_SignalStrength_v5" <=? responselen then
    match r with
    | R_signalStrength p_cur =>
        writeInt32 (gw_signalStrength p_cur);;
        writeInt32 (gw_bitErrorRate p_cur);;
        writeInt32 (cdma_dbm p_cur);;
        writeInt32 (cdma_ecio p_cur);;
        writeInt32 (evdo_dbm p_cur);;
        writeInt32 (evdo_ecio p_cur);;
        writeInt32 (evdo_snr p_cur);;
        (if sizeof "RIL_SignalStrength_v6" <=? responselen then
           let lte := if version <=? 6 then fixup_lte (LTE_SignalStrength p_cur) else LTE_SignalStrength p_cur in
           writeInt32 (lte_signalStrength lte);;
           writeInt32 (rsrp lte);;
           writeInt32 (rsrq lte);;
           writeInt32 (rssnr lte);;
           writeInt32 (cqi lte);;
           writeInt32 (if sizeof "RIL_SignalStrength_v10" <=? responselen then td_rscp p_cur else INT_MAX)
         else
           writeInt32 99;;
           writeInt32 INT_MAX;; writeInt32 INT_MAX;; writeInt32 INT_MAX;; writeInt32 INT_MAX;;
           writeInt32 INT_MAX);;
        mret 0
    | _ => fault
    end
  else mret RIL_ERRNO_INVALID_RESPONSE.

Definition responseCdmaSignalInfoRecord (r : response) (responselen : Z) : W Z :=
  if is_null r || (responselen =? 0) then mret RIL_ERRNO_INVALID_RESPONSE else
  if negb (responselen =? sizeof "RIL_CDMA_SignalInfoRecord") then mret RIL_ERRNO_INVALID_RESPONSE else
  match r with R_signalInfo p_cur => marshallSignalInfoRecord p_cur;; mret 0 | _ => fault end.

Definition responseCallRing (r : response) (responselen : Z) : W Z :=
  if is_null r || (responselen =? 0) then responseVoid r responselen
  else responseCdmaSignalInfoRecord r responselen.

Definition responseCdmaCallWaiting (r : response) (responselen : Z) : W Z :=
  if null_mismatch r responselen then mret RIL_ERRNO_INVALID_RESPONSE else
  match r with
  | R_callWaiting p_cur =>
      writeStringToParcel (cw_number p_cur);;
      writeInt32 (cw_numberPresentation p_cur);;
      writeStringToParcel (cw_name p_cur);;
      marshallSignalInfoRecord (signalInfoRecord p_cur);;
      (if sizeof "RIL_CDMA_CallWaiting_v6" <=? responselen then
         writeInt32 (cw_number_type p_cur);;
         writeInt32 (cw_number_plan p_cur)
       else
         writeInt32 0;;
         writeInt32 0);;
      mret 0
  | _ => fault
  end.

Definition responseSimRefresh (r : response) (responselen : Z) : W Z :=
  if null_mismatch r responselen then mret RIL_ERRNO_INVALID_RESPONSE else
  if version =? 7 then
    match r with
    | R_simRefresh p_cur =>
        writeInt32 (refresh_result p_cur);;
        writeInt32 (ef_id p_cur);;
        writeStringToParcel (refresh_aid p_cur);;
        mret 0
    | _ => fault
    end
  else
    p_cur ← as_ints r;
    each 2 p_cur writeInt32;;
    writeStringToParcel None;;
    mret 0.

(** ** Cells, hardware, capabilities *)

(** The body of the [switch] on the cell type. *)
Definition write_cell (ty : Z) (c : cell_info) : W unit :=
  if ty =? ril "RIL_CELL_INFO_TYPE_GSM" then
    match c with
    | Gsm mcc mnc lac cid ss ber => write_list writeInt32 [mcc; mnc; lac; cid; ss; ber]
    | _ => fault
    end
  else if ty =? ril "RIL_CELL_INFO_TYPE_WCDMA" then
    match c with
    | Wcdma mcc mnc lac cid psc ss ber => write_list writeInt32 [mcc; mnc; lac; cid; psc; ss; ber]
    | _ => fault
    end
  else if ty =? ril "RIL_CELL_INFO_TYPE_CDMA" then
    match c with
    | Cdma nid sid bid lon lat dbm ecio edbm eecio snr =>
        write_list writeInt32 [nid; sid; bid; lon; lat; dbm; ecio; edbm; eecio; snr]
    | _ => fault
    end
  else if ty =? ril "RIL_CELL_INFO_TYPE_LTE" then
    match c with
    | Lte mcc mnc ci pci tac l =>
        write_list writeInt32 [mcc; mnc; ci; pci; tac];;
        write_list writeInt32 [lte_signalStrength l; rsrp l; rsrq l; rssnr l; cqi l; timingAdvance l]
    | _ => fault
    end
  else if ty =? ril "RIL_CELL_INFO_TYPE_TD_SCDMA" then
    match c with
    | Tdscdma mcc mnc lac cid cpid rscp => write_list writeInt32 [mcc; mnc; lac; cid; cpid; rscp]
    | _ => fault
    end
  else mret tt.

Definition write_cellInfo (c : RIL_CellInfo) : W unit :=
  writeInt32 (cellInfoType c);;
  writeInt32 (registered c);;
  writeInt32 (timeStampType c);;
  writeInt64 (timeStamp c);;
  write_cell (cellInfoType c) (cell c).

Definition responseCellInfoList (r : response) (responselen : Z) : W Z :=
  if null_mismatch r responselen then mret RIL_ERRNO_INVALID_RESPONSE else
  if negb (responselen mod sizeof "RIL_CellInfo" =? 0) then mret RIL_ERRNO_INVALID_RESPONSE else
  let num := responselen / sizeof "RIL_CellInfo" in
  writeInt32 num;;
  p_cur ← match r with R_cellInfos l => mret l | R_null => mret [] | _ => fault end;
  each num p_cur write_cellInfo;;
  mret 0.

Definition write_hardwareConfig (c : RIL_HardwareConfig) : W unit :=
  if hw_type c =? ril "RIL_HARDWARE_CONFIG_MODEM" then
    match hw c with
    | Modem rat maxVoice maxData maxStandby =>
        writeArrayToParcel (hw_uuid c);;
        writeInt32 (hw_state c);;
        write_list writeInt32 [rat; maxVoice; maxData; maxStandby]
    | _ => fault
    end
  else if hw_type c =? ril "RIL_HARDWARE_CONFIG_SIM" then
    match hw c with
    | Sim modemUuid =>
        writeArrayToParcel (hw_uuid c);;
        writeInt32 (hw_state c);;
        writeArrayToParcel modemUuid
    | _ => fault
    end
  else mret tt.

Definition responseHardwareConfig (r : response) (responselen : Z) : W Z :=
  if null_mismatch r responselen then mret RIL_ERRNO_INVALID_RESPONSE else
  if negb (responselen mod sizeof "RIL_HardwareConfig" =? 0) then mret RIL_ERRNO_INVALID_RESPONSE else
  let num := responselen / sizeof "RIL_HardwareConfig" in
  writeInt32 num;;
  p_cur ← match r with R_hardwareConfigs l => mret l | R_null => mret [] | _ => fault end;
  each num p_cur write_hardwareConfig;;
  mret 0.

Definition responseRadioCapability (r : response) (responselen : Z) : W Z :=
  if is_null r then mret RIL_ERRNO_INVALID_RESPONSE else
  if negb (responselen =? sizeof "RIL_RadioCapability") then mret RIL_ERRNO_INVALID_RESPONSE else
  match r with
  | R_radioCapability p_cur =>
      writeInt32 (rc_version p_cur);;
      writeInt32 (rc_session p_cur);;
      writeInt32 (rc_phase p_cur);;
      writeInt32 (rc_rat p_cur);;
      writeArrayToParcel (logicalModemUuid p_cur);;
      writeInt32 (rc_status p_cur);;
      mret 0
  | _ => fault
  end.

Definition isServiceTypeCfQuery (serType reqType : Z) : bool :=
  (reqType =? ril "SS_INTERROGATION") &&
  one_of serType ["SS_CFU"; "SS_CF_BUSY"; "SS_CF_NO_REPLY"; "SS_CF_NOT_REACHABLE"; "SS_CF_ALL";
                  "SS_CF_ALL_CONDITIONAL"]%string.

Definition responseSSData (r : response) (responselen : Z) : W Z :=
  if null_mismatch r responselen then mret RIL_ERRNO_INVALID_RESPONSE else
  if negb (responselen =? sizeof "RIL_StkCcUnsolSsResponse") then mret RIL_ERRNO_INVALID_RESPONSE else
  match r with
  | R_ssData p_cur =>
      writeInt32 (serviceType p_cur);;
      writeInt32 (requestType p_cur);;
      writeInt32 (teleserviceType p_cur);;
      writeInt32 (ss_serviceClass p_cur);;
      writeInt32 (ss_result p_cur);;
      (if isServiceTypeCfQuery (serviceType p_cur) (requestType p_cur) then
         let n := if ril "NUM_SERVICE_CLASSES" <? numValidIndexes p_cur then ril "NUM_SERVICE_CLASSES"
                  else numValidIndexes p_cur in
         writeInt32 n;;
         each n (cfInfo p_cur) write_callForward
       else
         writeInt32 (ril "SS_INFO_MAX");;
         each (ril "SS_INFO_MAX") (ssInfo p_cur) writeInt32);;
      mret 0
  | _ => fault
  end.

(** ** SIM status and registration *)

Definition sendSimStatusAppInfo (num_apps : Z) (appStatus : list RIL_AppStatus) : W unit :=
  writeInt32 num_apps;;
  each num_apps appStatus (fun a =>
    writeInt32 (app_type a);;
    writeInt32 (app_state a);;
    writeInt32 (perso_substate a);;
    writeStringToParcel (aid_ptr a);;
    writeStringToParcel (app_label_ptr a);;
    writeInt32 (pin1_replaced a);;
    writeInt32 (pin1 a);;
    writeInt32 (pin2 a)).

(** The first index of a subscription, -1 without one. *)
Definition write_app_index (num_indexes : Z) (indexes : list Z) : W unit :=
  if num_indexes <=? 0 then writeInt32 (-1) else each 1 indexes writeInt32.

Definition responseSimStatus (r : response) (responselen : Z) : W Z :=
  if null_mismatch r responselen then mret RIL_ERRNO_INVALID_RESPONSE else
  if negb (responselen =? sizeof "RIL_CardList_v3") then mret RIL_ERRNO_INVALID_RESPONSE else
  match r with
  | R_cardList p_cur =>
      if num_cards p_cur =? 0 then
        write_list writeInt32 [0; 0; -1; -1; -1; 0];;
        mret 0
      else
        match card p_cur with
        | [] => fault
        | p_card :: _ =>
            writeInt32 (card_state p_card);;
            writeInt32 (universal_pin_state p_card);;
            write_app_index (num_current_3gpp_indexes p_card) (subscription_3gpp_app_index p_card);;
            write_app_index (num_current_3gpp2_indexes p_card) (subscription_3gpp2_app_index p_card);;
            writeInt32 (-1);;
            sendSimStatusAppInfo (num_applications p_card) (applications p_card);;
            mret 0
        end
  | _ => fault
  end.

Definition responseRegState (r : response) (responselen : Z) : W Z :=
  if is_null r then mret RIL_ERRNO_INVALID_RESPONSE else
  if negb (responselen =? sizeof "RIL_RegistrationStates_v3") then mret RIL_ERRNO_INVALID_RESPONSE else
  match r with
  | R_regStates p_cur =>
      each (Z.of_nat RIL_MAX_NETWORKS) (records p_cur) (fun rec =>
        writeInt32 (numElements rec);;
        each (numElements rec) (regState rec) writeStringToParcel);;
      mret 0
  | _ => fault
  end.

(** ** Broadcast and CDMA messages *)

Definition write_gsmBci (c : RIL_GSM_BroadcastSmsConfigInfo) : W unit :=
  writeInt32 (fromServiceId c);;
  writeInt32 (toServiceId c);;
  writeInt32 (fromCodeScheme c);;
  writeInt32 (toCodeScheme c);;
  writeInt32 (gsm_selected c).

Definition responseGsmBrSmsCnf (r : response) (responselen : Z) : W Z :=
  let num := responselen / sizeof_ptr in
  writeInt32 num;;
  p_cur ← match r with R_gsmBrSmsCnf l => mret l | R_null => mret [] | _ => fault end;
  each num p_cur write_gsmBci;;
  mret 0.

Definition write_cdmaBci (c : RIL_CDMA_BroadcastSmsConfigInfo) : W unit :=
  writeInt32 (service_category c);;
  writeInt32 (language c);;
  writeInt32 (cdma_selected c).

Definition responseCdmaBrSmsCnf (r : response) (responselen : Z) : W Z :=
  let num := responselen / sizeof_ptr in
  writeInt32 num;;
  p_cur ← match r with R_cdmaBrSmsCnf l => mret l | R_null => mret [] | _ => fault end;
  each num p_cur write_cdmaBci;;
  mret 0.

(** [p.write(&x, sizeof(uct))]. *)
Definition write_uint8 (x : Z) : W unit := write (enc_raw [x]).

Definition responseCdmaSms (r : response) (responselen : Z) : W Z :=
  if null_mismatch r responselen then mret RIL_ERRNO_INVALID_RESPONSE else
  if negb (responselen =? sizeof "RIL_CDMA_SMS_Message") then mret RIL_ERRNO_INVALID_RESPONSE else
  match r with
  | R_cdmaSms p_cur =>
      writeInt32 (uTeleserviceID p_cur);;
      write_uint8 (bIsServicePresent p_cur);;
      writeInt32 (uServicecategory p_cur);;
      writeInt32 (digit_mode (sAddress p_cur));;
      writeInt32 (number_mode (sAddress p_cur));;
      writeInt32 (number_type (sAddress p_cur));;
      writeInt32 (number_plan (sAddress p_cur));;
      write_uint8 (number_of_digits (sAddress p_cur));;
      each (Z.min (number_of_digits (sAddress p_cur)) (ril "RIL_CDMA_SMS_ADDRESS_MAX"))
        (digits (sAddress p_cur)) write_uint8;;
      writeInt32 (subaddressType (sSubAddress p_cur));;
      write_uint8 (odd (sSubAddress p_cur));;
      write_uint8 (sub_number_of_digits (sSubAddress p_cur));;
      each (Z.min (sub_number_of_digits (sSubAddress p_cur)) (ril "RIL_CDMA_SMS_SUBADDRESS_MAX"))
        (sub_digits (sSubAddress p_cur)) write_uint8;;
      writeInt32 (uBearerDataLen p_cur);;
      each (Z.min (uBearerDataLen p_cur) (ril "RIL_CDMA_SMS_BEARER_DATA_MAX")) (aBearerData p_cur) write_uint8;;
      mret 0
  | _ => fault
  end.

(** ** Statistics *)

Definition responseDcRtInfo (r : response) (responselen : Z) : W Z :=
  let num := responselen / sizeof "RIL_DcRtInfo" in
  if negb (responselen mod sizeof "RIL_DcRtInfo" =? 0) || negb (num =? 1) then mret RIL_ERRNO_INVALID_RESPONSE else
  match r with
  | R_dcRtInfo pDcRtInfo =>
      writeInt64 (dcrt_time pDcRtInfo);;
      writeInt32 (powerState pDcRtInfo);;
      mret 0
  | _ => fault
  end.

Definition responseLceStatus (r : response) (responselen : Z) : W Z :=
  if is_null r || negb (responselen =? sizeof "RIL_LceStatusInfo") then mret RIL_ERRNO_INVALID_RESPONSE else
  match r with
  | R_lceStatus p_cur =>
      write_uint8 (lce_status p_cur);;
      writeInt32 (actual_interval_ms p_cur);;
      mret 0
  | _ => fault
  end.

Definition responseLceData (r : response) (responselen : Z) : W Z :=
  if is_null r || negb (responselen =? sizeof "RIL_LceDataInfo") then mret RIL_ERRNO_INVALID_RESPONSE else
  match r with
  | R_lceData p_cur =>
      writeInt32 (last_hop_capacity_kbps p_cur);;
      write_uint8 (confidence_level p_cur);;
      write_uint8 (lce_suspended p_cur);;
      mret 0
  | _ => fault
  end.

Definition responseActivityData (r : response) (responselen : Z) : W Z :=
  if is_null r || negb (responselen =? sizeof "RIL_ActivityStatsInfo") then mret RIL_ERRNO_INVALID_RESPONSE else
  match r with
  | R_activity p_cur =>
      writeInt32 (sleep_mode_time_ms p_cur);;
      writeInt32 (idle_mode_time_ms p_cur);;
      each (ril "RIL_NUM_TX_POWER_LEVELS") (tx_mode_time_ms p_cur) writeInt32;;
      writeInt32 (rx_mode_time_ms p_cur);;
      mret 0
  | _ => fault
  end.

End Responses.
