(* ===== verification/RilTables.v ===== *)
(** * libril/ril_commands.h and libril/ril_unsol_commands.h: the tables

    [s_commands] is indexed by the request number of the telephony framework;
    the request number of an entry is the one the vendor library is given.
    The function pointers of the source are the names of the functions here:
    [call_response] and, in [RilDispatch], [call_dispatch] call them. *)

From S2P Require Import Prelude Parcel RilTypes RilResponse.

(** ** Requests and notifications of the old interface (libril/ril_v3.h) *)

Definition RIL_REQUEST_VOICE_RADIO_TECH_V3 : Z := 104.
Definition RIL_REQUEST_CDMA_GET_SUBSCRIPTION_SOURCE_V3 : Z := 105.
Definition RIL_REQUEST_CDMA_PRL_VERSION_V3 : Z := 106.
Definition RIL_REQUEST_IMS_REGISTRATION_STATE_V3 : Z := 107.
Definition RIL_REQUEST_IMS_SEND_SMS_V3 : Z := 108.
Definition RIL_UNSOL_VOICE_RADIO_TECH_CHANGED_V3 : Z := 1031.
Definition RIL_UNSOL_RESPONSE_TETHERED_MODE_STATE_CHANGED_V3 : Z := 1032.
Definition RIL_UNSOL_RESPONSE_DATA_NETWORK_STATE_CHANGED_V3 : Z := 1033.
Definition RIL_UNSOL_CDMA_SUBSCRIPTION_SOURCE_CHANGED_V3 : Z := 1034.
Definition RIL_UNSOL_CDMA_PRL_CHANGED_V3 : Z := 1035.
Definition RIL_UNSOL_RESPONSE_IMS_NETWORK_STATE_CHANGED_V3 : Z := 1036.
Definition RIL_UNSOL_EXIT_EMERGENCY_CALLBACK_MODE_V3 : Z := 1037.
Definition RIL_UNSOL_RIL_CONNECTED_V3 : Z := 1040.

(** ** Function names *)

Inductive dispatch_fn : Type :=
| DispatchVoid
| DispatchString
| DispatchStrings
| DispatchInts
| DispatchSimPin
| DispatchSimPuk
| DispatchSimPinSet
| DispatchDial
| DispatchSIM_IO
| DispatchSIM_APDU
| DispatchCallForward
| DispatchQueryFacility
| DispatchSetFacility
| DispatchRaw
| DispatchSmsWrite
| DispatchRequestImsi
| DispatchDataCall
| DispatchVoiceRadioTech
| DispatchSetInitialAttachApn
| DispatchCdmaSubscriptionSource
| DispatchCdmaSms
| DispatchImsSms
| DispatchCdmaSmsAck
| DispatchGsmBrSmsCnf
| DispatchCdmaBrSmsCnf
| DispatchRilCdmaSmsWriteArgs
| DispatchNVReadItem
| DispatchNVWriteItem
| DispatchUiccSubscripton
| DispatchSimAuthentication
| DispatchDataProfile
| DispatchRadioCapability
| DispatchNetworkManual.

Inductive response_fn : Type :=
| ResponseInts
| ResponseFailCause
| ResponseStrings
| ResponseString
| ResponseVoid
| ResponseCallList
| ResponseSMS
| ResponseSIM_IO
| ResponseCallForwards
| ResponseAvailableNetworks
| ResponseDataCallList
| ResponseSetupDataCall
| ResponseRaw
| ResponseSsn
| ResponseSimStatus
| ResponseRegState
| ResponseGsmBrSmsCnf
| ResponseCdmaBrSmsCnf
| ResponseCdmaSms
| ResponseCellList
| ResponseCdmaInformationRecords
| ResponseRilSignalStrength
| ResponseCallRing
| ResponseCdmaSignalInfoRecord
| ResponseCdmaCallWaiting
| ResponseSimRefresh
| ResponseCellInfoList
| ResponseHardwareConfig
| ResponseDcRtInfo
| ResponseRadioCapability
| ResponseSSData
| ResponseLceStatus
| ResponseLceData
| ResponseActivityData.

#[export] Instance dispatch_fn_eq_dec : EqDecision dispatch_fn.
Proof. solve_decision. Defined.
#[export] Instance response_fn_eq_dec : EqDecision response_fn.
Proof. solve_decision. Defined.

Inductive WakeType : Type := DONT_WAKE | WAKE_PARTIAL.

(** ** The tables *)

(** A null function pointer is [None]. *)
Record CommandInfo : Type := Cmd {
  requestNumber : Z;
  dispatchFunction : option dispatch_fn;
  responseFunction : option response_fn
}.

Record UnsolResponseInfo : Type := Unsol {
  unsolNumber : Z;
  unsolFunction : response_fn;
  wakeType : WakeType
}.

Section Tables.
Context {P : ParcelOps} {H : RilHeader}.

(** [version] is [s_callbacks.version]. *)
Definition call_response (version : Z) (f : response_fn) : response -> Z -> M bytes Z :=
  match f with
  | ResponseInts => responseInts
  | ResponseFailCause => responseFailCause
  | ResponseStrings => responseStrings
  | ResponseString => responseString
  | ResponseVoid => responseVoid
  | ResponseCallList => responseCallList version
  | ResponseSMS => responseSMS
  | ResponseSIM_IO => responseSIM_IO
  | ResponseCallForwards => responseCallForwards
  | ResponseAvailableNetworks => responseAvailableNetworks
  | ResponseDataCallList => responseDataCallList version
  | ResponseSetupDataCall => responseSetupDataCall version
  | ResponseRaw => responseRaw
  | ResponseSsn => responseSsn
  | ResponseSimStatus => responseSimStatus
  | ResponseRegState => responseRegState
  | ResponseGsmBrSmsCnf => responseGsmBrSmsCnf
  | ResponseCdmaBrSmsCnf => responseCdmaBrSmsCnf
  | ResponseCdmaSms => responseCdmaSms
  | ResponseCellList => responseCellList
  | ResponseCdmaInformationRecords => responseCdmaInformationRecords
  | ResponseRilSignalStrength => responseRilSignalStrength version
  | ResponseCallRing => responseCallRing
  | ResponseCdmaSignalInfoRecord => responseCdmaSignalInfoRecord
  | ResponseCdmaCallWaiting => responseCdmaCallWaiting
  | ResponseSimRefresh => responseSimRefresh version
  | ResponseCellInfoList => responseCellInfoList
  | ResponseHardwareConfig => responseHardwareConfig
  | ResponseDcRtInfo => responseDcRtInfo
  | ResponseRadioCapability => responseRadioCapability
  | ResponseSSData => responseSSData
  | ResponseLceStatus => responseLceStatus
  | ResponseLceData => responseLceData
  | ResponseActivityData => responseActivityData
  end.

Definition s_commands : list CommandInfo := [
  Cmd 0 None None;
  Cmd (ril "RIL_REQUEST_GET_SIM_STATUS") (Some DispatchVoid) (Some ResponseSimStatus);
  Cmd (ril "RIL_REQUEST_ENTER_SIM_PIN") (Some DispatchSimPin) (Some ResponseInts);
  Cmd (ril "RIL_REQUEST_ENTER_SIM_PUK") (Some DispatchSimPuk) (Some ResponseInts);
  Cmd (ril "RIL_REQUEST_ENTER_SIM_PIN2") (Some DispatchSimPin) (Some ResponseInts);
  Cmd (ril "RIL_REQUEST_ENTER_SIM_PUK2") (Some DispatchSimPuk) (Some ResponseInts);
  Cmd (ril "RIL_REQUEST_CHANGE_SIM_PIN") (Some DispatchSimPinSet) (Some ResponseInts);
  Cmd (ril "RIL_REQUEST_CHANGE_SIM_PIN2") (Some DispatchSimPinSet) (Some ResponseInts);
  Cmd (ril "RIL_REQUEST_ENTER_NETWORK_DEPERSONALIZATION") (Some DispatchStrings) (Some ResponseInts);
  Cmd (ril "RIL_REQUEST_GET_CURRENT_CALLS") (Some DispatchVoid) (Some ResponseCallList);
  Cmd (ril "RIL_REQUEST_DIAL") (Some DispatchDial) (Some ResponseVoid);
  Cmd (ril "RIL_REQUEST_GET_IMSI") (Some DispatchRequestImsi) (Some ResponseString);
  Cmd (ril "RIL_REQUEST_HANGUP") (Some DispatchInts) (Some ResponseVoid);
  Cmd (ril "RIL_REQUEST_HANGUP_WAITING_OR_BACKGROUND") (Some DispatchVoid) (Some ResponseVoid);
  Cmd (ril "RIL_REQUEST_HANGUP_FOREGROUND_RESUME_BACKGROUND") (Some DispatchVoid) (Some ResponseVoid);
  Cmd (ril "RIL_REQUEST_SWITCH_WAITING_OR_HOLDING_AND_ACTIVE") (Some DispatchVoid) (Some ResponseVoid);
  Cmd (ril "RIL_REQUEST_CONFERENCE") (Some DispatchVoid) (Some ResponseVoid);
  Cmd (ril "RIL_REQUEST_UDUB") (Some DispatchVoid) (Some ResponseVoid);
  Cmd (ril "RIL_REQUEST_LAST_CALL_FAIL_CAUSE") (Some DispatchVoid) (Some ResponseFailCause);
  Cmd (ril "RIL_REQUEST_SIGNAL_STRENGTH") (Some DispatchVoid) (Some ResponseRilSignalStrength);
  Cmd (ril "RIL_REQUEST_VOICE_REGISTRATION_STATE") (Some DispatchVoid) (Some ResponseRegState);
  Cmd (ril "RIL_REQUEST_DATA_REGISTRATION_STATE") (Some DispatchVoid) (Some ResponseRegState);
  Cmd (ril "RIL_REQUEST_OPERATOR") (Some DispatchVoid) (Some ResponseStrings);
  Cmd (ril "RIL_REQUEST_RADIO_POWER") (Some DispatchInts) (Some ResponseVoid);
  Cmd (ril "RIL_REQUEST_DTMF") (Some DispatchString) (Some ResponseVoid);
  Cmd (ril "RIL_REQUEST_SEND_SMS") (Some DispatchStrings) (Some ResponseSMS);
  Cmd (ril "RIL_REQUEST_SEND_SMS_EXPECT_MORE") (Some DispatchStrings) (Some ResponseSMS);
  Cmd (ril "RIL_REQUEST_SETUP_DATA_CALL") (Some DispatchDataCall) (Some ResponseSetupDataCall);
  Cmd (ril "RIL_REQUEST_SIM_IO") (Some DispatchSIM_IO) (Some ResponseSIM_IO);
  Cmd (ril "RIL_REQUEST_SEND_USSD") (Some DispatchString) (Some ResponseVoid);
  Cmd (ril "RIL_REQUEST_CANCEL_USSD") (Some DispatchVoid) (Some ResponseVoid);
  Cmd (ril "RIL_REQUEST_GET_CLIR") (Some DispatchVoid) (Some ResponseInts);
  Cmd (ril "RIL_REQUEST_SET_CLIR") (Some DispatchInts) (Some ResponseVoid);
  Cmd (ril "RIL_REQUEST_QUERY_CALL_FORWARD_STATUS") (Some DispatchCallForward) (Some ResponseCallForwards);
  Cmd (ril "RIL_REQUEST_SET_CALL_FORWARD") (Some DispatchCallForward) (Some ResponseVoid);
  Cmd (ril "RIL_REQUEST_QUERY_CALL_WAITING") (Some DispatchInts) (Some ResponseInts);
  Cmd (ril "RIL_REQUEST_SET_CALL_WAITING") (Some DispatchInts) (Some ResponseVoid);
  Cmd (ril "RIL_REQUEST_SMS_ACKNOWLEDGE") (Some DispatchInts) (Some ResponseVoid);
  Cmd (ril "RIL_REQUEST_GET_IMEI") (Some DispatchVoid) (Some ResponseString);
  Cmd (ril "RIL_REQUEST_GET_IMEISV") (Some DispatchVoid) (Some ResponseString);
  Cmd (ril "RIL_REQUEST_ANSWER") (Some DispatchVoid) (Some ResponseVoid);
  Cmd (ril "RIL_REQUEST_DEACTIVATE_DATA_CALL") (Some DispatchStrings) (Some ResponseVoid);
  Cmd (ril "RIL_REQUEST_QUERY_FACILITY_LOCK") (Some DispatchQueryFacility) (Some ResponseInts);
  Cmd (ril "RIL_REQUEST_SET_FACILITY_LOCK") (Some DispatchSetFacility) (Some ResponseInts);
  Cmd (ril "RIL_REQUEST_CHANGE_BARRING_PASSWORD") (Some DispatchStrings) (Some ResponseVoid);
  Cmd (ril "RIL_REQUEST_QUERY_NETWORK_SELECTION_MODE") (Some DispatchVoid) (Some ResponseInts);
  Cmd (ril "RIL_REQUEST_SET_NETWORK_SELECTION_AUTOMATIC") (Some DispatchNetworkManual) (Some ResponseVoid);
  Cmd (ril "RIL_REQUEST_SET_NETWORK_SELECTION_MANUAL") (Some DispatchNetworkManual) (Some ResponseVoid);
  Cmd (ril "RIL_REQUEST_QUERY_AVAILABLE_NETWORKS") (Some DispatchVoid) (Some ResponseAvailableNetworks);
  Cmd (ril "RIL_REQUEST_DTMF_START") (Some DispatchString) (Some ResponseVoid);
  Cmd (ril "RIL_REQUEST_DTMF_STOP") (Some DispatchVoid) (Some ResponseVoid);
  Cmd (ril "RIL_REQUEST_BASEBAND_VERSION") (Some DispatchVoid) (Some ResponseString);
  Cmd (ril "RIL_REQUEST_SEPARATE_CONNECTION") (Some DispatchInts) (Some ResponseVoid);
  Cmd (ril "RIL_REQUEST_SET_MUTE") (Some DispatchInts) (Some ResponseVoid);
  Cmd (ril "RIL_REQUEST_GET_MUTE") (Some DispatchVoid) (Some ResponseInts);
  Cmd (ril "RIL_REQUEST_QUERY_CLIP") (Some DispatchVoid) (Some ResponseInts);
  Cmd (ril "RIL_REQUEST_LAST_DATA_CALL_FAIL_CAUSE") (Some DispatchVoid) (Some ResponseInts);
  Cmd (ril "RIL_REQUEST_DATA_CALL_LIST") (Some DispatchVoid) (Some ResponseDataCallList);
  Cmd (ril "RIL_REQUEST_RESET_RADIO") (Some DispatchVoid) (Some ResponseVoid);
  Cmd (ril "RIL_REQUEST_OEM_HOOK_RAW") (Some DispatchRaw) (Some ResponseRaw);
  Cmd (ril "RIL_REQUEST_OEM_HOOK_STRINGS") (Some DispatchStrings) (Some ResponseStrings);
  Cmd (ril "RIL_REQUEST_SCREEN_STATE") (Some DispatchInts) (Some ResponseVoid);
  Cmd (ril "RIL_REQUEST_SET_SUPP_SVC_NOTIFICATION") (Some DispatchInts) (Some ResponseVoid);
  Cmd (ril "RIL_REQUEST_WRITE_SMS_TO_SIM") (Some DispatchSmsWrite) (Some ResponseInts);
  Cmd (ril "RIL_REQUEST_DELETE_SMS_ON_SIM") (Some DispatchInts) (Some ResponseVoid);
  Cmd (ril "RIL_REQUEST_SET_BAND_MODE") (Some DispatchInts) (Some ResponseVoid);
  Cmd (ril "RIL_REQUEST_QUERY_AVAILABLE_BAND_MODE") (Some DispatchVoid) (Some ResponseInts);
  Cmd (ril "RIL_REQUEST_STK_GET_PROFILE") (Some DispatchVoid) (Some ResponseString);
  Cmd (ril "RIL_REQUEST_STK_SET_PROFILE") (Some DispatchString) (Some ResponseVoid);
  Cmd (ril "RIL_REQUEST_STK_SEND_ENVELOPE_COMMAND") (Some DispatchString) (Some ResponseString);
  Cmd (ril "RIL_REQUEST_STK_SEND_TERMINAL_RESPONSE") (Some DispatchString) (Some ResponseVoid);
  Cmd (ril "RIL_REQUEST_STK_HANDLE_CALL_SETUP_REQUESTED_FROM_SIM") (Some DispatchInts) (Some ResponseVoid);
  Cmd (ril "RIL_REQUEST_EXPLICIT_CALL_TRANSFER") (Some DispatchVoid) (Some ResponseVoid);
  Cmd (ril "RIL_REQUEST_SET_PREFERRED_NETWORK_TYPE") (Some DispatchInts) (Some ResponseVoid);
  Cmd (ril "RIL_REQUEST_GET_PREFERRED_NETWORK_TYPE") (Some DispatchVoid) (Some ResponseInts);
  Cmd (ril "RIL_REQUEST_GET_NEIGHBORING_CELL_IDS") (Some DispatchVoid) (Some ResponseCellList);
  Cmd (ril "RIL_REQUEST_SET_LOCATION_UPDATES") (Some DispatchInts) (Some ResponseVoid);
  Cmd (ril "RIL_REQUEST_CDMA_SET_SUBSCRIPTION_SOURCE") (Some DispatchInts) (Some ResponseVoid);
  Cmd (ril "RIL_REQUEST_CDMA_SET_ROAMING_PREFERENCE") (Some DispatchInts) (Some ResponseVoid);
  Cmd (ril "RIL_REQUEST_CDMA_QUERY_ROAMING_PREFERENCE") (Some DispatchVoid) (Some ResponseInts);
  Cmd (ril "RIL_REQUEST_SET_TTY_MODE") (Some DispatchInts) (Some ResponseVoid);
  Cmd (ril "RIL_REQUEST_QUERY_TTY_MODE") (Some DispatchVoid) (Some ResponseInts);
  Cmd (ril "RIL_REQUEST_CDMA_SET_PREFERRED_VOICE_PRIVACY_MODE") (Some DispatchInts) (Some ResponseVoid);
  Cmd (ril "RIL_REQUEST_CDMA_QUERY_PREFERRED_VOICE_PRIVACY_MODE") (Some DispatchVoid) (Some ResponseInts);
  Cmd (ril "RIL_REQUEST_CDMA_FLASH") (Some DispatchString) (Some ResponseVoid);
  Cmd (ril "RIL_REQUEST_CDMA_BURST_DTMF") (Some DispatchStrings) (Some ResponseVoid);
  Cmd (ril "RIL_REQUEST_CDMA_VALIDATE_AND_WRITE_AKEY") (Some DispatchString) (Some ResponseVoid);
  Cmd (ril "RIL_REQUEST_CDMA_SEND_SMS") (Some DispatchCdmaSms) (Some ResponseSMS);
  Cmd (ril "RIL_REQUEST_CDMA_SMS_ACKNOWLEDGE") (Some DispatchCdmaSmsAck) (Some ResponseVoid);
  Cmd (ril "RIL_REQUEST_GSM_GET_BROADCAST_SMS_CONFIG") (Some DispatchVoid) (Some ResponseGsmBrSmsCnf);
  Cmd (ril "RIL_REQUEST_GSM_SET_BROADCAST_SMS_CONFIG") (Some DispatchGsmBrSmsCnf) (Some ResponseVoid);
  Cmd (ril "RIL_REQUEST_GSM_SMS_BROADCAST_ACTIVATION") (Some DispatchInts) (Some ResponseVoid);
  Cmd (ril "RIL_REQUEST_CDMA_GET_BROADCAST_SMS_CONFIG") (Some DispatchVoid) (Some ResponseCdmaBrSmsCnf);
  Cmd (ril "RIL_REQUEST_CDMA_SET_BROADCAST_SMS_CONFIG") (Some DispatchCdmaBrSmsCnf) (Some ResponseVoid);
  Cmd (ril "RIL_REQUEST_CDMA_SMS_BROADCAST_ACTIVATION") (Some DispatchInts) (Some ResponseVoid);
  Cmd (ril "RIL_REQUEST_CDMA_SUBSCRIPTION") (Some DispatchVoid) (Some ResponseStrings);
  Cmd (ril "RIL_REQUEST_CDMA_WRITE_SMS_TO_RUIM") (Some DispatchRilCdmaSmsWriteArgs) (Some ResponseInts);
  Cmd (ril "RIL_REQUEST_CDMA_DELETE_SMS_ON_RUIM") (Some DispatchInts) (Some ResponseVoid);
  Cmd (ril "RIL_REQUEST_DEVICE_IDENTITY") (Some DispatchVoid) (Some ResponseStrings);
  Cmd (ril "RIL_REQUEST_EXIT_EMERGENCY_CALLBACK_MODE") (Some DispatchVoid) (Some ResponseVoid);
  Cmd (ril "RIL_REQUEST_GET_SMSC_ADDRESS") (Some DispatchVoid) (Some ResponseString);
  Cmd (ril "RIL_REQUEST_SET_SMSC_ADDRESS") (Some DispatchString) (Some ResponseVoid);
  Cmd (ril "RIL_REQUEST_REPORT_SMS_MEMORY_STATUS") (Some DispatchInts) (Some ResponseVoid);
  Cmd (ril "RIL_REQUEST_REPORT_STK_SERVICE_IS_RUNNING") (Some DispatchVoid) (Some ResponseVoid);
  Cmd RIL_REQUEST_CDMA_GET_SUBSCRIPTION_SOURCE_V3 (Some DispatchCdmaSubscriptionSource) (Some ResponseInts);
  Cmd 0 (Some DispatchVoid) (Some ResponseVoid);
  Cmd 0 (Some DispatchVoid) (Some ResponseVoid);
  Cmd 0 (Some DispatchVoid) (Some ResponseVoid);
  Cmd RIL_REQUEST_VOICE_RADIO_TECH_V3 (Some DispatchVoiceRadioTech) (Some ResponseInts);
  Cmd 0 (Some DispatchVoid) (Some ResponseVoid);
  Cmd 0 (Some DispatchVoid) (Some ResponseVoid);
  Cmd 0 (Some DispatchVoid) (Some ResponseVoid);
  Cmd 0 (Some DispatchVoid) (Some ResponseInts);
  Cmd RIL_REQUEST_IMS_SEND_SMS_V3 (Some DispatchImsSms) (Some ResponseSMS)
].

Definition s_unsolResponses : list UnsolResponseInfo := [
  Unsol (ril "RIL_UNSOL_RESPONSE_RADIO_STATE_CHANGED") ResponseVoid WAKE_PARTIAL;
  Unsol (ril "RIL_UNSOL_RESPONSE_CALL_STATE_CHANGED") ResponseVoid WAKE_PARTIAL;
  Unsol (ril "RIL_UNSOL_RESPONSE_VOICE_NETWORK_STATE_CHANGED") ResponseVoid WAKE_PARTIAL;
  Unsol (ril "RIL_UNSOL_RESPONSE_NEW_SMS") ResponseString WAKE_PARTIAL;
  Unsol (ril "RIL_UNSOL_RESPONSE_NEW_SMS_STATUS_REPORT") ResponseString WAKE_PARTIAL;
  Unsol (ril "RIL_UNSOL_RESPONSE_NEW_SMS_ON_SIM") ResponseInts WAKE_PARTIAL;
  Unsol (ril "RIL_UNSOL_ON_USSD") ResponseStrings WAKE_PARTIAL;
  Unsol (ril "RIL_UNSOL_ON_USSD_REQUEST") ResponseVoid DONT_WAKE;
  Unsol (ril "RIL_UNSOL_NITZ_TIME_RECEIVED") ResponseString WAKE_PARTIAL;
  Unsol (ril "RIL_UNSOL_SIGNAL_STRENGTH") ResponseRilSignalStrength DONT_WAKE;
  Unsol (ril "RIL_UNSOL_DATA_CALL_LIST_CHANGED") ResponseDataCallList WAKE_PARTIAL;
  Unsol (ril "RIL_UNSOL_SUPP_SVC_NOTIFICATION") ResponseSsn WAKE_PARTIAL;
  Unsol (ril "RIL_UNSOL_STK_SESSION_END") ResponseVoid WAKE_PARTIAL;
  Unsol (ril "RIL_UNSOL_STK_PROACTIVE_COMMAND") ResponseString WAKE_PARTIAL;
  Unsol (ril "RIL_UNSOL_STK_EVENT_NOTIFY") ResponseString WAKE_PARTIAL;
  Unsol (ril "RIL_UNSOL_STK_CALL_SETUP") ResponseInts WAKE_PARTIAL;
  Unsol (ril "RIL_UNSOL_SIM_SMS_STORAGE_FULL") ResponseVoid WAKE_PARTIAL;
  Unsol (ril "RIL_UNSOL_SIM_REFRESH") ResponseSimRefresh WAKE_PARTIAL;
  Unsol (ril "RIL_UNSOL_CALL_RING") ResponseCallRing WAKE_PARTIAL;
  Unsol (ril "RIL_UNSOL_RESPONSE_SIM_STATUS_CHANGED") ResponseVoid WAKE_PARTIAL;
  Unsol (ril "RIL_UNSOL_RESPONSE_CDMA_NEW_SMS") ResponseCdmaSms WAKE_PARTIAL;
  Unsol (ril "RIL_UNSOL_RESPONSE_NEW_BROADCAST_SMS") ResponseRaw WAKE_PARTIAL;
  Unsol (ril "RIL_UNSOL_CDMA_RUIM_SMS_STORAGE_FULL") ResponseVoid WAKE_PARTIAL;
  Unsol (ril "RIL_UNSOL_RESTRICTED_STATE_CHANGED") ResponseInts WAKE_PARTIAL;
  Unsol (ril "RIL_UNSOL_ENTER_EMERGENCY_CALLBACK_MODE") ResponseVoid WAKE_PARTIAL;
  Unsol (ril "RIL_UNSOL_CDMA_CALL_WAITING") ResponseCdmaCallWaiting WAKE_PARTIAL;
  Unsol (ril "RIL_UNSOL_CDMA_OTA_PROVISION_STATUS") ResponseInts WAKE_PARTIAL;
  Unsol (ril "RIL_UNSOL_CDMA_INFO_REC") ResponseCdmaInformationRecords WAKE_PARTIAL;
  Unsol (ril "RIL_UNSOL_OEM_HOOK_RAW") ResponseRaw WAKE_PARTIAL;
  Unsol (ril "RIL_UNSOL_RINGBACK_TONE") ResponseInts WAKE_PARTIAL;
  Unsol (ril "RIL_UNSOL_RESEND_INCALL_MUTE") ResponseVoid WAKE_PARTIAL;
  Unsol (ril "RIL_UNSOL_CDMA_SUBSCRIPTION_SOURCE_CHANGED") ResponseInts WAKE_PARTIAL;
  Unsol (ril "RIL_UNSOL_CDMA_PRL_CHANGED") ResponseInts WAKE_PARTIAL;
  Unsol (ril "RIL_UNSOL_EXIT_EMERGENCY_CALLBACK_MODE") ResponseVoid WAKE_PARTIAL;
  Unsol (ril "RIL_UNSOL_RIL_CONNECTED") ResponseInts WAKE_PARTIAL;
  Unsol (ril "RIL_UNSOL_VOICE_RADIO_TECH_CHANGED") ResponseInts WAKE_PARTIAL;
  Unsol (ril "RIL_UNSOL_CELL_INFO_LIST") ResponseCellInfoList WAKE_PARTIAL;
  Unsol (ril "RIL_UNSOL_RESPONSE_IMS_NETWORK_STATE_CHANGED") ResponseVoid WAKE_PARTIAL;
  Unsol (ril "RIL_UNSOL_UICC_SUBSCRIPTION_STATUS_CHANGED") ResponseInts WAKE_PARTIAL;
  Unsol (ril "RIL_UNSOL_SRVCC_STATE_NOTIFY") ResponseInts WAKE_PARTIAL;
  Unsol (ril "RIL_UNSOL_HARDWARE_CONFIG_CHANGED") ResponseHardwareConfig WAKE_PARTIAL;
  Unsol (ril "RIL_UNSOL_DC_RT_INFO_CHANGED") ResponseDcRtInfo WAKE_PARTIAL;
  Unsol (ril "RIL_UNSOL_RADIO_CAPABILITY") ResponseRadioCapability WAKE_PARTIAL;
  Unsol (ril "RIL_UNSOL_ON_SS") ResponseSSData WAKE_PARTIAL;
  Unsol (ril "RIL_UNSOL_STK_CC_ALPHA_NOTIFY") ResponseString WAKE_PARTIAL;
  Unsol (ril "RIL_UNSOL_LCEDATA_RECV") ResponseLceData WAKE_PARTIAL
].

End Tables.
