(* ===== verification/RilCore.v ===== *)
(** * libril/ril.cpp: pending requests, the command socket, notifications

    The state has the globals of ril.cpp for one SIM ([SIM_COUNT] is 1): the
    heap of [RequestInfo] blocks with the list of pending requests linked
    through [p_next], the command socket, the vendor calls issued so far, and
    the bookkeeping for the wake lock.  Each function is a
    computation of its own, run without interruption; the interleavings of the
    threads are in [RilReplyRace] (completions, the socket) and [RilWakeRace]
    (the wake lock).
    A vendor call is an entry of [calls]: [onRequest] hands the request over,
    its completion is a later call of [RIL_onRequestComplete].

    [calloc] and [malloc] succeed and may return any address that is not in
    use, freed ones included. *)

From S2P Require Import Prelude Parcel RilTypes RilResponse RilTables.

Abbreviation addr := nat (only parsing).

(** An allocator: some address outside the given set. *)
Class Heap := { fresh_addr : gset nat -> addr }.
Class HeapLaws (HP : Heap) : Prop := { fresh_addr_new : forall X, fresh_addr X ∉ X }.

Definition MAX_COMMAND_BYTES : Z := 8 * 1024.
Definition RESPONSE_SOLICITED : Z := 0.
Definition RESPONSE_UNSOLICITED : Z := 1.

(** ** State *)

(** [pCI] is the index of the entry of [s_commands] it points to. *)
Record RequestInfo : Type := RI {
  token : Z; pCI : nat; p_next : option addr; cancelled : bool; local : bool
}.

(** What a [write] on the command socket does next: take up to [n] bytes, fail
    with [EINTR] or [EAGAIN], or fail otherwise.  After the listed results the
    socket takes everything. *)
Inductive write_result : Type := Wrote (n : nat) | Again | Failed.

(** [fd_open] becomes false when [blockingWrite] closes the descriptor; [wire]
    is what the client can read on this connection. *)
Record socket : Type := Sock {
  fdCommand : Z; fd_open : bool; wire : bytes; io : list write_result
}.

Record vendor_call : Type := VendorCall {
  vc_request : Z; vc_data : request_data; vc_datalen : Z; vc_token : addr
}.

Inductive timed_callback : Type := wakeTimeoutCallback | VendorCallback (f : Z).

(** [userParam] is zero for a null pointer. *)
Record UserCallbackInfo : Type := UserCallback { p_callback : timed_callback; userParam : Z }.

(** [timed] has the callbacks whose timer event has not fired yet;
    [vendor_state] and [now] are what [onStateRequest] and [elapsedRealtime]
    return; [timer_calls] are the vendor callbacks that were run. *)
Record rstate : Type := RS {
  reqs : gmap addr RequestInfo;
  s_pendingRequests : option addr;
  sock : socket;
  listening : bool;
  calls : list vendor_call;
  s_registerCalled : bool;
  version : Z;
  voiceRadioTech : Z;
  cdmaSubscriptionSource : Z;
  simRuimStatus : Z;
  s_lastNITZTimeData : option bytes;
  wake_lock : bool;
  timed : gmap addr UserCallbackInfo;
  s_last_wake_timeout_info : option addr;
  timer_calls : list (Z * Z);
  vendor_state : Z;
  now : Z
}.

Abbreviation R := (M rstate).

Definition modify (f : rstate -> rstate) : R unit := fun s => Ret (tt, f s).

Definition with_reqs (m : gmap addr RequestInfo) (h : option addr) (s : rstate) : rstate :=
  RS m h (sock s) (listening s) (calls s) (s_registerCalled s) (version s) (voiceRadioTech s)
    (cdmaSubscriptionSource s) (simRuimStatus s) (s_lastNITZTimeData s) (wake_lock s) (timed s)
    (s_last_wake_timeout_info s) (timer_calls s) (vendor_state s) (now s).
Definition with_sock (k : socket) (l : bool) (s : rstate) : rstate :=
  RS (reqs s) (s_pendingRequests s) k l (calls s) (s_registerCalled s) (version s) (voiceRadioTech s)
    (cdmaSubscriptionSource s) (simRuimStatus s) (s_lastNITZTimeData s) (wake_lock s) (timed s)
    (s_last_wake_timeout_info s) (timer_calls s) (vendor_state s) (now s).
Definition with_calls (c : list vendor_call) (s : rstate) : rstate :=
  RS (reqs s) (s_pendingRequests s) (sock s) (listening s) c (s_registerCalled s) (version s) (voiceRadioTech s)
    (cdmaSubscriptionSource s) (simRuimStatus s) (s_lastNITZTimeData s) (wake_lock s) (timed s)
    (s_last_wake_timeout_info s) (timer_calls s) (vendor_state s) (now s).
Definition with_register (r : bool) (v : Z) (s : rstate) : rstate :=
  RS (reqs s) (s_pendingRequests s) (sock s) (listening s) (calls s) r v (voiceRadioTech s)
    (cdmaSubscriptionSource s) (simRuimStatus s) (s_lastNITZTimeData s) (wake_lock s) (timed s)
    (s_last_wake_timeout_info s) (timer_calls s) (vendor_state s) (now s).
Definition with_radio (tech src sim : Z) (s : rstate) : rstate :=
  RS (reqs s) (s_pendingRequests s) (sock s) (listening s) (calls s) (s_registerCalled s) (version s) tech
    src sim (s_lastNITZTimeData s) (wake_lock s) (timed s)
    (s_last_wake_timeout_info s) (timer_calls s) (vendor_state s) (now s).
Definition with_nitz (n : option bytes) (s : rstate) : rstate :=
  RS (reqs s) (s_pendingRequests s) (sock s) (listening s) (calls s) (s_registerCalled s) (version s)
    (voiceRadioTech s) (cdmaSubscriptionSource s) (simRuimStatus s) n (wake_lock s) (timed s)
    (s_last_wake_timeout_info s) (timer_calls s) (vendor_state s) (now s).
Definition with_wake (w : bool) (t : gmap addr UserCallbackInfo) (l : option addr) (c : list (Z * Z))
    (s : rstate) : rstate :=
  RS (reqs s) (s_pendingRequests s) (sock s) (listening s) (calls s) (s_registerCalled s) (version s)
    (voiceRadioTech s) (cdmaSubscriptionSource s) (simRuimStatus s) (s_lastNITZTimeData s) w t l c
    (vendor_state s) (now s).

Definition with_next (n : option addr) (r : RequestInfo) : RequestInfo :=
  RI (token r) (pCI r) n (cancelled r) (local r).
Definition with_cancelled (r : RequestInfo) : RequestInfo :=
  RI (token r) (pCI r) (p_next r) true (local r).

Section Core.
Context {P : ParcelOps} {H : RilHeader} {HP : Heap}.

(** A parcel operation on the parcel [p]. *)
Definition on_parcel {A} (m : M bytes A) (p : bytes) : R (A * bytes) := fun s =>
  match m p with
  | Ret r => Ret (r, s)
  | Abort => Abort
  | Fault => Fault
  end.

(** ** The heap of requests *)

Definition load_req (a : addr) : R RequestInfo := fun s =>
  match reqs s !! a with Some r => Ret (r, s) | None => Fault end.

Definition update_req (a : addr) (f : RequestInfo -> RequestInfo) : R unit := fun s =>
  match reqs s !! a with
  | Some r => Ret (tt, with_reqs (<[a := f r]> (reqs s)) (s_pendingRequests s) s)
  | None => Fault
  end.

(** [free] of a [RequestInfo]. *)
Definition free_req (a : addr) : R unit := fun s =>
  match reqs s !! a with
  | Some _ => Ret (tt, with_reqs (delete a (reqs s)) (s_pendingRequests s) s)
  | None => Fault
  end.

(** [calloc], the members set by the caller, and the push on the list. *)
Definition push_request (tok : Z) (ci : nat) (loc : bool) : R addr := fun s =>
  let a := fresh_addr (dom (reqs s)) in
  Ret (a, with_reqs (<[a := RI tok ci (s_pendingRequests s) false loc]> (reqs s)) (Some a) s).

(** [CALL_ONREQUEST]. *)
Definition onRequest (request : Z) (data : request_data) (datalen : Z) (t : addr) : R unit :=
  modify (fun s => with_calls (calls s ++ [VendorCall request data datalen t]) s).

Definition issueLocalRequest (request : nat) (data : request_data) (len : Z) : R unit :=
  pRI ← push_request (s32 4294967295) request true;
  onRequest (Z.of_nat request) data len pRI.

(** ** The command socket *)

(** The loop of [blockingWrite]: its result, the bytes written and the
    results of [write] that are left. *)
Fixpoint write_loop (results : list write_result) (buffer : bytes) : Z * bytes * list write_result :=
  match buffer with
  | [] => (0, [], results)
  | _ =>
      match results with
      | [] => (0, buffer, [])
      | Again :: rest => write_loop rest buffer
      | Wrote n :: rest =>
          let '(ret, done, rest') := write_loop rest (drop n buffer) in (ret, take n buffer ++ done, rest')
      | Failed :: rest => (-1, [], rest)
      end
  end.

(** A failed write closes the descriptor; a closed one cannot be written. *)
Definition blockingWrite (buffer : bytes) : R Z := fun s =>
  let k := sock s in
  if fd_open k then
    let '(ret, done, rest) := write_loop (io k) buffer in
    Ret (ret, with_sock (Sock (fdCommand k) (ret =? 0) (wire k ++ done) rest) (listening s) s)
  else
    match buffer with [] => Ret (0, s) | _ => Ret (-1, s) end.

(** [htonl]: most significant byte first. *)
Definition htonl (x : Z) : bytes :=
  [Wire.byte_at x 3; Wire.byte_at x 2; Wire.byte_at x 1; Wire.byte_at x 0].

Definition sendResponseRaw (data : bytes) : R Z :=
  s ← get;
  if fdCommand (sock s) <? 0 then mret (-1) else
  let dataSize := Z.of_nat (length data) in
  if MAX_COMMAND_BYTES <? dataSize then mret (-1) else
  ret ← blockingWrite (htonl dataSize);
  if ret <? 0 then mret ret else
  ret ← blockingWrite data;
  if ret <? 0 then mret ret else
  mret 0.

Definition sendResponse (p : bytes) : R Z := sendResponseRaw p.

(** ** Completion of requests *)

(** The pointer that [ppCur] refers to: the head or the [p_next] of a block. *)
Definition read_link (pp : option addr) : R (option addr) :=
  match pp with
  | None => s ← get; mret (s_pendingRequests s)
  | Some a => r ← load_req a; mret (p_next r)
  end.

Definition write_link (pp : option addr) (n : option addr) : R unit :=
  match pp with
  | None => modify (fun s => with_reqs (reqs s) n s)
  | Some a => update_req a (with_next n)
  end.

Fixpoint dequeue_loop (fuel : nat) (pRI : addr) (ppCur : option addr) : R bool :=
  match fuel with
  | O => fault
  | S fuel' =>
      cur ← read_link ppCur;
      match cur with
      | None => mret false
      | Some c =>
          if bool_decide (pRI = c) then
            r ← load_req c;
            write_link ppCur (p_next r);;
            mret true
          else dequeue_loop fuel' pRI (Some c)
      end
  end.

(** The list cannot be longer than the heap. *)
Definition checkAndDequeueRequestInfo (pRI : option addr) : R bool :=
  match pRI with
  | None => mret false
  | Some a => s ← get; dequeue_loop (S (size (reqs s))) a None
  end.

(** [setDataPosition(off)] and a write of [bs] there. *)
Definition overwrite (off : nat) (bs : bytes) (p : bytes) : bytes :=
  take off p ++ bs ++ drop (off + length bs) p.

(** The parcel of a solicited response. *)
Definition response_parcel (v : Z) (tok : Z) (f : option response_fn) (e : Z) (r : response) (responselen : Z)
  : M bytes unit :=
  writeInt32 RESPONSE_SOLICITED;;
  writeInt32 tok;;
  p ← get;
  let errorOffset := length p in
  writeInt32 e;;
  if is_null r then mret tt else
  match f with
  | None => fault
  | Some f =>
      ret ← call_response v f r responselen;
      if negb (ret =? 0) then p ← get; put (overwrite errorOffset (enc32 ret) p) else mret tt
  end.

Definition RIL_onRequestComplete (t : option addr) (e : Z) (r : response) (responselen : Z) : R unit :=
  found ← checkAndDequeueRequestInfo t;
  match t, found with
  | Some a, true =>
      pRI ← load_req a;
      (if local pRI then mret tt
       else if cancelled pRI then mret tt
       else
         s ← get;
         match s_commands !! pCI pRI with
         | None => fault
         | Some ci =>
             '(_, p) ← on_parcel (response_parcel (version s) (token pRI) (responseFunction ci) e r responselen) [];
             sendResponse p;;
             mret tt
         end);;
      free_req a
  | _, _ => mret tt
  end.

(** ** Closing the socket *)

Fixpoint cancel_loop (fuel : nat) (p_cur : option addr) : R unit :=
  match fuel with
  | O => fault
  | S fuel' =>
      match p_cur with
      | None => mret tt
      | Some a =>
          update_req a with_cancelled;;
          r ← load_req a;
          cancel_loop fuel' (p_next r)
      end
  end.

Definition onCommandsSocketClosed : R unit :=
  s ← get; cancel_loop (S (size (reqs s))) (s_pendingRequests s).

(** ** Radio state of old vendor libraries *)

Definition decodeVoiceRadioTechnology (radioState : Z) : Z :=
  if one_of radioState ["RADIO_STATE_SIM_NOT_READY"; "RADIO_STATE_SIM_LOCKED_OR_ABSENT";
                        "RADIO_STATE_SIM_READY"]%string then ril "RADIO_TECH_UMTS"
  else if one_of radioState ["RADIO_STATE_RUIM_NOT_READY"; "RADIO_STATE_RUIM_READY";
                             "RADIO_STATE_RUIM_LOCKED_OR_ABSENT"; "RADIO_STATE_NV_NOT_READY";
                             "RADIO_STATE_NV_READY"]%string then ril "RADIO_TECH_1xRTT"
  else -1.

Definition decodeCdmaSubscriptionSource (radioState : Z) : Z :=
  if one_of radioState ["RADIO_STATE_SIM_NOT_READY"; "RADIO_STATE_SIM_LOCKED_OR_ABSENT";
                        "RADIO_STATE_SIM_READY"; "RADIO_STATE_RUIM_NOT_READY"; "RADIO_STATE_RUIM_READY";
                        "RADIO_STATE_RUIM_LOCKED_OR_ABSENT"]%string then ril "CDMA_SUBSCRIPTION_SOURCE_RUIM_SIM"
  else if one_of radioState ["RADIO_STATE_NV_NOT_READY"; "RADIO_STATE_NV_READY"]%string
  then ril "CDMA_SUBSCRIPTION_SOURCE_NV"
  else -1.

Definition decodeSimStatus (radioState : Z) : Z :=
  if one_of radioState ["RADIO_STATE_SIM_NOT_READY"; "RADIO_STATE_RUIM_NOT_READY"; "RADIO_STATE_NV_NOT_READY";
                        "RADIO_STATE_NV_READY"]%string then -1
  else if one_of radioState ["RADIO_STATE_SIM_LOCKED_OR_ABSENT"; "RADIO_STATE_SIM_READY";
                             "RADIO_STATE_RUIM_READY"; "RADIO_STATE_RUIM_LOCKED_OR_ABSENT"]%string then radioState
  else -1.

Definition is3gpp2 (radioTech : Z) : bool :=
  one_of radioTech ["RADIO_TECH_IS95A"; "RADIO_TECH_IS95B"; "RADIO_TECH_1xRTT"; "RADIO_TECH_EVDO_0";
                    "RADIO_TECH_EVDO_A"; "RADIO_TECH_EVDO_B"; "RADIO_TECH_EHRPD"]%string.

(** [unsol] is [RIL_onUnsolicitedResponse]. *)
Definition processRadioState (unsol : Z -> response -> Z -> R unit) (newRadioState : Z) : R Z :=
  if (ril "RADIO_STATE_UNAVAILABLE" <? newRadioState) && (newRadioState <? ril "RADIO_STATE_ON") then
    let newVoiceRadioTech := decodeVoiceRadioTechnology newRadioState in
    s ← get;
    (if negb (newVoiceRadioTech =? voiceRadioTech s) then
       modify (with_radio newVoiceRadioTech (cdmaSubscriptionSource s) (simRuimStatus s));;
       unsol (ril "RIL_UNSOL_VOICE_RADIO_TECH_CHANGED") (R_ints [newVoiceRadioTech]) sizeof_int
     else mret tt);;
    (if is3gpp2 newVoiceRadioTech then
       let newCdmaSubscriptionSource := decodeCdmaSubscriptionSource newRadioState in
       s ← get;
       if negb (newCdmaSubscriptionSource =? cdmaSubscriptionSource s) then
         modify (with_radio (voiceRadioTech s) newCdmaSubscriptionSource (simRuimStatus s));;
         unsol (ril "RIL_UNSOL_CDMA_SUBSCRIPTION_SOURCE_CHANGED") (R_ints [newCdmaSubscriptionSource]) sizeof_int
       else mret tt
     else mret tt);;
    let newSimStatus := decodeSimStatus newRadioState in
    s ← get;
    (if negb (newSimStatus =? simRuimStatus s) then
       modify (with_radio (voiceRadioTech s) (cdmaSubscriptionSource s) newSimStatus);;
       unsol (ril "RIL_UNSOL_RESPONSE_SIM_STATUS_CHANGED") R_null 0
     else mret tt);;
    mret (ril "RADIO_STATE_ON")
  else mret newRadioState.

(** ** Timers and the wake lock *)

Definition grabPartialWakeLock : R unit :=
  modify (fun s => with_wake true (timed s) (s_last_wake_timeout_info s) (timer_calls s) s).
Definition releaseWakeLock : R unit :=
  modify (fun s => with_wake false (timed s) (s_last_wake_timeout_info s) (timer_calls s) s).

Definition internalRequestTimedCallback (callback : timed_callback) (param : Z) : R addr := fun s =>
  let a := fresh_addr (dom (timed s)) in
  Ret (a, with_wake (wake_lock s) (<[a := UserCallback callback param]> (timed s))
            (s_last_wake_timeout_info s) (timer_calls s) s).

(** The two callbacks that a timer can run. *)
Definition run_callback (c : timed_callback) (param : Z) : R unit :=
  match c with
  | wakeTimeoutCallback => if param =? 0 then releaseWakeLock else mret tt
  | VendorCallback f =>
      modify (fun s => with_wake (wake_lock s) (timed s) (s_last_wake_timeout_info s) (timer_calls s ++ [(f, param)]) s)
  end.

Definition userTimerCallback (a : addr) : R unit :=
  s ← get;
  match timed s !! a with
  | None => fault
  | Some p_info =>
      run_callback (p_callback p_info) (userParam p_info);;
      modify (fun s =>
        with_wake (wake_lock s) (delete a (timed s))
          (if bool_decide (s_last_wake_timeout_info s = Some a) then None else s_last_wake_timeout_info s)
          (timer_calls s) s)
  end.

(** The end of [RIL_onUnsolicitedResponse]: cancel the last release of the
    wake lock and schedule another. *)
Definition scheduleWakeTimeout : R unit :=
  s ← get;
  (match s_last_wake_timeout_info s with
   | None => mret tt
   | Some a =>
       match timed s !! a with
       | None => fault
       | Some i =>
           modify (with_wake (wake_lock s) (<[a := UserCallback (p_callback i) 1]> (timed s))
                     (s_last_wake_timeout_info s) (timer_calls s))
       end
   end);;
  a ← internalRequestTimedCallback wakeTimeoutCallback 0;
  modify (fun s => with_wake (wake_lock s) (timed s) (Some a) (timer_calls s) s).

(** ** Unsolicited responses *)

(** [unsolResponse_conv]: old code, current code. *)
Definition unsolResponse_conv : list (Z * Z) := [
  (RIL_UNSOL_VOICE_RADIO_TECH_CHANGED_V3, ril "RIL_UNSOL_VOICE_RADIO_TECH_CHANGED");
  (RIL_UNSOL_RESPONSE_TETHERED_MODE_STATE_CHANGED_V3, 0);
  (RIL_UNSOL_RESPONSE_DATA_NETWORK_STATE_CHANGED_V3, 0);
  (RIL_UNSOL_CDMA_SUBSCRIPTION_SOURCE_CHANGED_V3, ril "RIL_UNSOL_CDMA_SUBSCRIPTION_SOURCE_CHANGED");
  (RIL_UNSOL_CDMA_PRL_CHANGED_V3, ril "RIL_UNSOL_CDMA_PRL_CHANGED");
  (RIL_UNSOL_RESPONSE_IMS_NETWORK_STATE_CHANGED_V3, ril "RIL_UNSOL_RESPONSE_IMS_NETWORK_STATE_CHANGED");
  (RIL_UNSOL_EXIT_EMERGENCY_CALLBACK_MODE_V3, ril "RIL_UNSOL_EXIT_EMERGENCY_CALLBACK_MODE");
  (RIL_UNSOL_RIL_CONNECTED_V3, ril "RIL_UNSOL_RIL_CONNECTED")
].

(** The first entry for the code, or the code itself; zero if unsupported. *)
Definition convert_unsol (code : Z) : Z :=
  match find (fun c => c.1 =? code) unsolResponse_conv with
  | Some c => c.2
  | None => code
  end.

(** Is the code listed with an unsupported meaning. *)
Definition conv_unsupported (code : Z) : bool :=
  match find (fun c => c.1 =? code) unsolResponse_conv with
  | Some c => c.2 =? 0
  | None => false
  end.

(** "some things get more payload": [unsol] is [RIL_onUnsolicitedResponse]. *)
Definition more_payload (unsol : Z -> response -> Z -> R unit) (unsolResponse timeReceived : Z) (p : bytes) : R bytes :=
  if unsolResponse =? ril "RIL_UNSOL_RESPONSE_RADIO_STATE_CHANGED" then
    s ← get;
    newState ← processRadioState unsol (vendor_state s);
    '(_, p) ← on_parcel (writeInt32 newState) p;
    mret p
  else if unsolResponse =? ril "RIL_UNSOL_NITZ_TIME_RECEIVED" then
    '(_, p) ← on_parcel (writeInt64 timeReceived) p;
    mret p
  else mret p.

(** Send the parcel; a time message that cannot be sent is kept. *)
Definition deliver (unsolResponse : Z) (p : bytes) (shouldScheduleTimeout : bool) : R unit :=
  ret ← sendResponse p;
  (if negb (ret =? 0) && (unsolResponse =? ril "RIL_UNSOL_NITZ_TIME_RECEIVED") then modify (with_nitz (Some p))
   else mret tt);;
  if shouldScheduleTimeout then scheduleWakeTimeout else mret tt.

Definition wakes (t : WakeType) : bool := match t with WAKE_PARTIAL => true | DONT_WAKE => false end.

(** [fuel] bounds the nesting through [processRadioState]. *)
Fixpoint unsolicited (fuel : nat) (unsolResponse : Z) (data : response) (datalen : Z) : R unit :=
  match fuel with
  | O => fault
  | S fuel' =>
      if conv_unsupported unsolResponse then mret tt else
      let unsolResponse := convert_unsol unsolResponse in
      s ← get;
      if negb (s_registerCalled s) then mret tt else
      let unsolResponseIndex := unsolResponse - ril "RIL_UNSOL_RESPONSE_BASE" in
      if (unsolResponseIndex <? 0) || (Z.of_nat (length s_unsolResponses) <=? unsolResponseIndex) then mret tt else
      match s_unsolResponses !! Z.to_nat unsolResponseIndex with
      | None => fault
      | Some info =>
          let shouldScheduleTimeout := wakes (wakeType info) in
          (if shouldScheduleTimeout then grabPartialWakeLock else mret tt);;
          let timeReceived := if unsolResponse =? ril "RIL_UNSOL_NITZ_TIME_RECEIVED" then now s else 0 in
          '(ret, p) ← on_parcel (writeInt32 RESPONSE_UNSOLICITED;; writeInt32 unsolResponse;;
                                  call_response (version s) (unsolFunction info) data datalen) [];
          if negb (ret =? 0) then if shouldScheduleTimeout then releaseWakeLock else mret tt else
          p ← more_payload (unsolicited fuel') unsolResponse timeReceived p;
          deliver unsolResponse p shouldScheduleTimeout
      end
  end.

(** A notification of a changed radio state nests once. *)
Definition RIL_onUnsolicitedResponse : Z -> response -> Z -> R unit := unsolicited 2.

(** ** Connections *)

Definition onNewCommandConnect : R unit :=
  s ← get;
  RIL_onUnsolicitedResponse RIL_UNSOL_RIL_CONNECTED_V3 (R_ints [version s]) sizeof_int;;
  RIL_onUnsolicitedResponse (ril "RIL_UNSOL_RESPONSE_RADIO_STATE_CHANGED") R_null 0;;
  s ← get;
  match s_lastNITZTimeData s with
  | None => mret tt
  | Some d => sendResponseRaw d;; modify (with_nitz None)
  end.

(** [rilEventAddWakeup(listen_event)]: wait for another connection. *)
Definition listen_again : R unit := modify (fun s => with_sock (sock s) true s).

(** [listenCallback] for the command socket: the result of [accept], whether
    the peer is the phone process, and what the new socket does with writes. *)
Definition listenCallback (accepted : Z) (is_phone_socket : bool) (results : list write_result) : R unit :=
  modify (fun s => with_sock (sock s) false s);;
  if accepted <? 0 then listen_again
  else if negb is_phone_socket then onCommandsSocketClosed;; listen_again
  else
    modify (fun s => with_sock (Sock accepted true [] results) (listening s) s);;
    onNewCommandConnect.

End Core.
