(* ===== verification/RilDispatch.v ===== *)
(** * libril/ril.cpp: the dispatch functions

    A dispatch function reads the payload of a command from the parcel behind
    the request header and hands it to the vendor library; [parseX] is the
    reading part of [dispatchX], with the data and the length of the vendor
    call, or [None] at the label [invalid].  [junk] is what an uninitialised
    local variable holds.  Arrays on the stack are a fault when their size is
    negative or above [stack_limit], which is below 2^32.  Strings are
    values here; [RilDispatchMemory] has the blocks that hold them. *)

From S2P Require Import Prelude Parcel RilTypes RilResponse RilTables RilCore.

(** The characters of a literal. *)
Definition lit (s : string) : list Z :=
  map (fun a => Z.of_N (Strings.Ascii.N_of_ascii a)) (Strings.String.list_ascii_of_string s).

Section Dispatch.
Context {P : ParcelOps} {H : RilHeader} {HP : Heap}.
Variable junk : Z.
Variable stack_limit : Z.

Abbreviation RD := (M bytes).

(** [alloca] or a variable length array. *)
Definition stack_array (size : Z) : RD unit :=
  if (size <? 0) || (stack_limit <? size) then fault else mret tt.

Definition ok (status : Z) : bool := status =? NO_ERROR.

(** ** Calling the vendor library *)

Definition invalidCommandBlock (pRI : addr) : R unit := load_req pRI;; mret tt.

(** [CALL_ONREQUEST(pRI->pCI->requestNumber, data, datalen, pRI, ...)]. *)
Definition CALL_ONREQUEST (pRI : addr) (data : request_data) (datalen : Z) : R unit :=
  r ← load_req pRI;
  match s_commands !! pCI r with
  | None => fault
  | Some ci => onRequest (requestNumber ci) data datalen pRI
  end.

Definition dispatch_parsed (d : option (request_data * Z)) (pRI : addr) : R unit :=
  match d with
  | None => invalidCommandBlock pRI
  | Some (data, datalen) => CALL_ONREQUEST pRI data datalen
  end.

(** Read the payload, then call. *)
Definition dispatch_with (parse : RD (option (request_data * Z))) (p : bytes) (pRI : addr) : R unit :=
  '(d, _) ← on_parcel parse p;
  dispatch_parsed d pRI.

(** ** Plain payloads *)

Definition dispatchVoid (p : bytes) (pRI : addr) : R unit := CALL_ONREQUEST pRI D_null 0.

Definition parseString : RD (option (request_data * Z)) :=
  string8 ← strdupReadString;
  mret (Some (D_string string8, sizeof_ptr)).
Definition dispatchString : bytes -> addr -> R unit := dispatch_with parseString.

(** The array of strings after its count; [None] for the count -1. *)
Definition read_strings (countStrings : Z) : RD (option (list cstr) * Z) :=
  if countStrings =? 0 then mret (Some [], 0)
  else if countStrings =? -1 then mret (None, 0)
  else
    stack_array (sizeof_ptr * countStrings);;
    pStrings ← read_list (Z.to_nat countStrings) strdupReadString;
    mret (Some pStrings, sizeof_ptr * countStrings).

Definition parseStrings : RD (option (request_data * Z)) :=
  '(status, countStrings) ← readInt32 junk;
  if negb (ok status) then mret None else
  '(pStrings, datalen) ← read_strings countStrings;
  mret (Some (D_strings pStrings, datalen)).
Definition dispatchStrings : bytes -> addr -> R unit := dispatch_with parseStrings.

Definition parseNetworkManual : RD (option (request_data * Z)) :=
  s ← strdupReadString;
  mret (Some (D_strings (Some [s; Some (lit "NOCHANGE")]), sizeof_ptr * 2)).
Definition dispatchNetworkManual : bytes -> addr -> R unit := dispatch_with parseNetworkManual.

(** The loop over the integers, which ends at the first failed read. *)
Fixpoint read_ints (n : nat) : RD (option (list Z)) :=
  match n with
  | O => mret (Some [])
  | S n' =>
      '(status, t) ← readInt32 junk;
      if negb (ok status) then mret None else
      l ← read_ints n';
      mret (cons t <$> l)
  end.

Definition parseInts : RD (option (request_data * Z)) :=
  '(status, count) ← readInt32 junk;
  if negb (ok status) || (count =? 0) then mret None else
  stack_array (sizeof_int * count);;
  pInts ← read_ints (Z.to_nat count);
  mret ((fun l => (D_ints l, sizeof_int * count)) <$> pInts).
Definition dispatchInts : bytes -> addr -> R unit := dispatch_with parseInts.

Definition parseRaw : RD (option (request_data * Z)) :=
  '(status, len) ← readInt32 junk;
  if negb (ok status) then mret None else
  let len := if len =? -1 then 0 else len in
  data ← readInplace len;
  mret (Some (D_raw data, u32 len)).
Definition dispatchRaw : bytes -> addr -> R unit := dispatch_with parseRaw.

(** ** Messages, SIM and calls *)

Definition parseSmsWrite : RD (option (request_data * Z)) :=
  '(status, t) ← readInt32 junk;
  pdu ← strdupReadString;
  if negb (ok status) || bool_decide (pdu = None) then mret None else
  smsc ← strdupReadString;
  mret (Some (D_smsWrite (SmsWriteArgs t pdu smsc), sizeof "RIL_SMS_WriteArgs")).
Definition dispatchSmsWrite : bytes -> addr -> R unit := dispatch_with parseSmsWrite.

Definition parseSimPin : RD (option (request_data * Z)) :=
  _count ← readInt32_value;
  pin ← strdupReadString;
  aidPtr ← strdupReadString;
  mret (Some (D_simPin (SimPin 0 aidPtr pin), sizeof "RIL_SimPin_v3")).
Definition dispatchSimPin : bytes -> addr -> R unit := dispatch_with parseSimPin.

Definition parseSimPuk : RD (option (request_data * Z)) :=
  _count ← readInt32_value;
  puk ← strdupReadString;
  newPin ← strdupReadString;
  aidPtr ← strdupReadString;
  mret (Some (D_simPuk (SimPuk 0 aidPtr puk newPin), sizeof "RIL_SimPuk_v3")).
Definition dispatchSimPuk : bytes -> addr -> R unit := dispatch_with parseSimPuk.

Definition parseSimPinSet : RD (option (request_data * Z)) :=
  _count ← readInt32_value;
  pin ← strdupReadString;
  newPin ← strdupReadString;
  aidPtr ← strdupReadString;
  mret (Some (D_simPinSet (SimPinSet 0 aidPtr pin newPin), sizeof "RIL_SimPinSet_v3")).
Definition dispatchSimPinSet : bytes -> addr -> R unit := dispatch_with parseSimPinSet.

(** The user-to-user information of a dial command. *)
Definition read_uusInfo (t : Z) : RD (option (option RIL_UUS_Info)) :=
  '(status, uusPresent) ← readInt32 junk;
  if negb (ok status) then mret None else
  if uusPresent =? 0 then mret (Some None) else
  '(_, t) ← readInt32 t;
  '(_, t') ← readInt32 t;
  '(status, len) ← readInt32 junk;
  if negb (ok status) then mret None else
  if len =? -1 then mret (Some (Some (UUS t t' 0 None))) else
  data ← readInplace len;
  mret (Some (Some (UUS t t' len data))).

Definition parseDial (v : Z) : RD (option (request_data * Z)) :=
  address ← strdupReadString;
  '(status, t) ← readInt32 junk;
  if negb (ok status) || bool_decide (address = None) then mret None else
  if v <? 3 then mret (Some (D_dial (Dial address t None), sizeof "RIL_Dial" - sizeof_ptr)) else
  uus ← read_uusInfo t;
  mret ((fun u => (D_dial (Dial address t u), sizeof "RIL_Dial")) <$> uus).
Definition dispatchDial (p : bytes) (pRI : addr) : R unit :=
  s ← get; dispatch_with (parseDial (version s)) p pRI.

(** [strcmp(a, b) == 0] with a literal. *)
Definition strcmp_eq (a : cstr) (b : string) : R bool :=
  match a with None => fault | Some a => mret (bool_decide (a = lit b)) end.

Definition read_simIO : RD (Z * RIL_SIM_IO_v3) :=
  '(_, t) ← readInt32 junk;
  let command := t in
  '(_, t) ← readInt32 t;
  let fileid := t in
  path ← strdupReadString;
  '(_, t) ← readInt32 t;
  let p1 := t in
  '(_, t) ← readInt32 t;
  let p2 := t in
  '(status, t) ← readInt32 t;
  let p3 := t in
  data ← strdupReadString;
  pin2 ← strdupReadString;
  aidPtr ← strdupReadString;
  mret (status, SimIo 0 aidPtr command fileid path p1 p2 p3 data pin2).

(** Reading the size and the contents of the ICC ID file is answered here. *)
Definition dispatchSIM_IO (p : bytes) (pRI : addr) : R unit :=
  '((status, simIO), _) ← on_parcel read_simIO p;
  if negb (ok status) then invalidCommandBlock pRI else
  mf ← strcmp_eq (io_path simIO) "3F00";
  if mf && (io_command simIO =? 192) then
    RIL_onRequestComplete (Some pRI) (ril "RIL_E_SUCCESS")
      (R_simIo (SimIoResponse 144 0 (Some (lit "0000000a2fe2040000000005020000")))) (sizeof "RIL_SIM_IO_Response")
  else if mf && (io_command simIO =? 176) then
    RIL_onRequestComplete (Some pRI) (ril "RIL_E_SUCCESS")
      (R_simIo (SimIoResponse 144 0 (Some (lit "00000000000000000010")))) (sizeof "RIL_SIM_IO_Response")
  else CALL_ONREQUEST pRI (D_simIo simIO) (sizeof "RIL_SIM_IO_v3").

Definition parseSIM_APDU : RD (option (request_data * Z)) :=
  '(_, sessionid) ← readInt32 junk;
  '(_, cla) ← readInt32 sessionid;
  '(_, instruction) ← readInt32 cla;
  '(_, p1) ← readInt32 instruction;
  '(_, p2) ← readInt32 p1;
  '(status, p3) ← readInt32 p2;
  data ← strdupReadString;
  if negb (ok status) then mret None else
  mret (Some (D_simApdu (SimApdu sessionid cla instruction p1 p2 p3 data), sizeof "RIL_SIM_APDU")).
Definition dispatchSIM_APDU : bytes -> addr -> R unit := dispatch_with parseSIM_APDU.

Definition parseCallForward : RD (option (request_data * Z)) :=
  '(_, st) ← readInt32 junk;
  '(_, reason) ← readInt32 st;
  '(_, serviceClass) ← readInt32 reason;
  '(_, toa) ← readInt32 serviceClass;
  number ← strdupReadString;
  '(status, timeSeconds) ← readInt32 toa;
  if negb (ok status) then mret None else
  let number := if bool_decide (number = Some []) then None else number in
  mret (Some (D_callForward (CallForward st reason serviceClass toa number timeSeconds),
              sizeof "RIL_CallForwardInfo")).
Definition dispatchCallForward : bytes -> addr -> R unit := dispatch_with parseCallForward.

(** The payload is rewritten for the old interface and dispatched as strings:
    a parcel with the same header and the new strings. *)
Definition facility_slot (appId : cstr) : R (list Z) :=
  none ← strcmp_eq appId ""; mret (if (none : bool) then lit "" else lit "0").

Definition strings_parcel (l : list cstr) : RD unit :=
  writeInt32 (Z.of_nat (length l));;
  write_list writeStringToParcel l.

Definition dispatchQueryFacility (p : bytes) (pRI : addr) : R unit :=
  '(args, _) ← on_parcel (_count ← readInt32_value; read_list 4 strdupReadString) p;
  match args with
  | [facility; password; serviceClass; appId] =>
      slot ← facility_slot appId;
      '(_, p2) ← on_parcel (strings_parcel [Some slot; appId; facility; password; serviceClass]) [];
      dispatchStrings p2 pRI
  | _ => fault
  end.

Definition dispatchSetFacility (p : bytes) (pRI : addr) : R unit :=
  '(args, _) ← on_parcel (_count ← readInt32_value; read_list 5 strdupReadString) p;
  match args with
  | [facility; lockString; password; serviceClass; appId] =>
      slot ← facility_slot appId;
      '(_, p2) ← on_parcel (strings_parcel [Some slot; appId; facility; lockString; password; serviceClass]) [];
      dispatchStrings p2 pRI
  | _ => fault
  end.

(** ** CDMA and IMS messages *)

(** [n] single bytes; the status and the variable of the last read. *)
Fixpoint read_digits (n : nat) (status ut : Z) : RD (Z * Z * list Z) :=
  match n with
  | O => mret (status, ut, [])
  | S n' =>
      '(status, ut) ← read_uint8 ut;
      '(status', ut', ds) ← read_digits n' status ut;
      mret (status', ut', ut :: ds)
  end.

(** An array of [size] zeros whose first elements are [ds]. *)
Definition filled (size : Z) (ds : list Z) : list Z := ds ++ replicate (Z.to_nat size - length ds) 0.

(** The message; [limit k max] is how many of [max] array elements are read
    when the length field is [k]. *)
Definition read_cdmaSms (limit : Z -> Z -> Z) : RD (Z * RIL_CDMA_SMS_Message) :=
  '(_, t) ← readInt32 junk;
  let teleservice := t in
  '(_, ut) ← read_uint8 junk;
  let present := ut in
  '(_, t) ← readInt32 t;
  let category := t in
  '(_, t) ← readInt32 t;
  let mode := t in
  '(_, t) ← readInt32 t;
  let nmode := t in
  '(_, t) ← readInt32 t;
  let ntype := t in
  '(_, t) ← readInt32 t;
  let nplan := t in
  '(status, ut) ← read_uint8 ut;
  let ndigits := ut in
  '(_, ut, ds) ← read_digits (Z.to_nat (limit ndigits (ril "RIL_CDMA_SMS_ADDRESS_MAX"))) status ut;
  '(_, t) ← readInt32 t;
  let stype := t in
  '(_, ut) ← read_uint8 ut;
  let sodd := ut in
  '(status, ut) ← read_uint8 ut;
  let sndigits := ut in
  '(_, ut, sds) ← read_digits (Z.to_nat (limit sndigits (ril "RIL_CDMA_SMS_SUBADDRESS_MAX"))) status ut;
  '(status, t) ← readInt32 t;
  let len := t in
  '(status, _, data) ← read_digits (Z.to_nat (limit len (ril "RIL_CDMA_SMS_BEARER_DATA_MAX"))) status ut;
  mret (status, CdmaMessage teleservice present category
    (CdmaAddress mode nmode ntype nplan ndigits (filled (ril "RIL_CDMA_SMS_ADDRESS_MAX") ds))
    (CdmaSubaddress stype sodd sndigits (filled (ril "RIL_CDMA_SMS_SUBADDRESS_MAX") sds))
    len (filled (ril "RIL_CDMA_SMS_BEARER_DATA_MAX") data)).

Definition constructCdmaSms : RD (Z * RIL_CDMA_SMS_Message) := read_cdmaSms Z.min.

Definition parseCdmaSms : RD (option (request_data * Z)) :=
  '(status, rcsm) ← constructCdmaSms;
  if negb (ok status) then mret None else
  mret (Some (D_cdmaSms rcsm, sizeof "RIL_CDMA_SMS_Message")).
Definition dispatchCdmaSms : bytes -> addr -> R unit := dispatch_with parseCdmaSms.

(** The length of the common part of a [RIL_IMS_SMS_Message]. *)
Definition ims_header_len : Z := sizeof "RIL_RadioTechnologyFamily" + 1 + 4.

Definition parseImsCdmaSms (retry messageRef : Z) : RD (option (request_data * Z)) :=
  '(status, rcsm) ← constructCdmaSms;
  if negb (ok status) then mret None else
  mret (Some (D_imsCdma (ril "RADIO_TECH_3GPP2") retry messageRef rcsm,
              ims_header_len + sizeof "RIL_CDMA_SMS_Message")).
Definition dispatchImsCdmaSms (retry messageRef : Z) : bytes -> addr -> R unit :=
  dispatch_with (parseImsCdmaSms retry messageRef).

Definition parseImsGsmSms (retry messageRef : Z) : RD (option (request_data * Z)) :=
  '(status, countStrings) ← readInt32 junk;
  if negb (ok status) then mret None else
  '(pStrings, datalen) ← read_strings countStrings;
  mret (Some (D_imsGsm (ril "RADIO_TECH_3GPP") retry messageRef pStrings, ims_header_len + datalen)).
Definition dispatchImsGsmSms (retry messageRef : Z) : bytes -> addr -> R unit :=
  dispatch_with (parseImsGsmSms retry messageRef).

(** The format, the retry flag and the message reference. *)
Definition read_ims_header : RD (option (Z * Z * Z)) :=
  '(status, format) ← readInt32 junk;
  if negb (ok status) then mret None else
  '(status, retry) ← read_uint8 junk;
  if negb (ok status) then mret None else
  '(status, messageRef) ← read_int32_object junk;
  if negb (ok status) then mret None else
  mret (Some (format, retry, messageRef)).

Definition dispatchImsSms (p : bytes) (pRI : addr) : R unit :=
  '(h, p') ← on_parcel read_ims_header p;
  match h with
  | None => invalidCommandBlock pRI
  | Some (format, retry, messageRef) =>
      if ril "RADIO_TECH_3GPP" =? format then dispatchImsGsmSms retry messageRef p' pRI
      else if ril "RADIO_TECH_3GPP2" =? format then dispatchImsCdmaSms retry messageRef p' pRI
      else mret tt
  end.

Definition parseCdmaSmsAck : RD (option (request_data * Z)) :=
  '(_, errorClass) ← readInt32 junk;
  '(status, causeCode) ← readInt32 errorClass;
  if negb (ok status) then mret None else
  mret (Some (D_cdmaSmsAck errorClass causeCode, sizeof "RIL_CDMA_SMS_Ack")).
Definition dispatchCdmaSmsAck : bytes -> addr -> R unit := dispatch_with parseCdmaSmsAck.

(** ** Arrays of structs *)

(** The loops keep the status of the last read. *)
Fixpoint read_structs {A} (n : nat) (status t : Z) (item : Z -> RD (Z * Z * A)) : RD (Z * list A) :=
  match n with
  | O => mret (status, [])
  | S n' =>
      '(status, t, x) ← item t;
      '(status', xs) ← read_structs n' status t item;
      mret (status', x :: xs)
  end.

Definition read_gsmBci (t : Z) : RD (Z * Z * RIL_GSM_BroadcastSmsConfigInfo) :=
  '(_, from) ← readInt32 t;
  '(_, to) ← readInt32 from;
  '(_, fromScheme) ← readInt32 to;
  '(_, toScheme) ← readInt32 fromScheme;
  '(status, t) ← readInt32 toScheme;
  mret (status, t, GsmBci from to fromScheme toScheme (u8 t)).

Definition parseGsmBrSmsCnf : RD (option (request_data * Z)) :=
  '(status, num) ← readInt32 junk;
  if negb (ok status) then mret None else
  stack_array (num * (sizeof "RIL_GSM_BroadcastSmsConfigInfo" + sizeof_ptr));;
  '(status, gsmBci) ← read_structs (Z.to_nat num) status junk read_gsmBci;
  if negb (ok status) then mret None else
  mret (Some (D_gsmBrSmsCnf gsmBci, num * sizeof_ptr)).
Definition dispatchGsmBrSmsCnf : bytes -> addr -> R unit := dispatch_with parseGsmBrSmsCnf.

Definition read_cdmaBci (t : Z) : RD (Z * Z * RIL_CDMA_BroadcastSmsConfigInfo) :=
  '(_, category) ← readInt32 t;
  '(_, lang) ← readInt32 category;
  '(status, t) ← readInt32 lang;
  mret (status, t, CdmaBci category lang (u8 t)).

Definition parseCdmaBrSmsCnf : RD (option (request_data * Z)) :=
  '(status, num) ← readInt32 junk;
  if negb (ok status) then mret None else
  stack_array (num * (sizeof "RIL_CDMA_BroadcastSmsConfigInfo" + sizeof_ptr));;
  '(status, cdmaBci) ← read_structs (Z.to_nat num) status junk read_cdmaBci;
  if negb (ok status) then mret None else
  mret (Some (D_cdmaBrSmsCnf cdmaBci, num * sizeof_ptr)).
Definition dispatchCdmaBrSmsCnf : bytes -> addr -> R unit := dispatch_with parseCdmaBrSmsCnf.

(** All elements of the arrays are in the parcel, whatever the lengths say. *)
Definition parseRilCdmaSmsWriteArgs : RD (option (request_data * Z)) :=
  '(_, st) ← readInt32 junk;
  '(status, rcsm) ← read_cdmaSms (fun _ max => max);
  if negb (ok status) then mret None else
  mret (Some (D_cdmaSmsWrite st rcsm, sizeof "RIL_CDMA_SMS_WriteArgs")).
Definition dispatchRilCdmaSmsWriteArgs : bytes -> addr -> R unit := dispatch_with parseRilCdmaSmsWriteArgs.

Definition read_dataProfile (t : Z) : RD (Z * Z * RIL_DataProfileInfo) :=
  '(_, id) ← readInt32 t;
  apn ← strdupReadString;
  protocol ← strdupReadString;
  '(_, auth) ← readInt32 id;
  user ← strdupReadString;
  password ← strdupReadString;
  '(_, type) ← readInt32 auth;
  '(_, connsTime) ← readInt32 type;
  '(_, conns) ← readInt32 connsTime;
  '(_, wait) ← readInt32 conns;
  '(status, en) ← readInt32 wait;
  mret (status, en, DataProfile id apn protocol auth user password type connsTime conns wait en).

Definition parseDataProfile : RD (option (request_data * Z)) :=
  '(status, num) ← readInt32 junk;
  if negb (ok status) then mret None else
  stack_array (num * (sizeof "RIL_DataProfileInfo" + sizeof_ptr));;
  '(status, profiles) ← read_structs (Z.to_nat num) status junk read_dataProfile;
  if negb (ok status) then mret None else
  mret (Some (D_dataProfile profiles, num * sizeof_ptr)).
Definition dispatchDataProfile : bytes -> addr -> R unit := dispatch_with parseDataProfile.

(** ** Identity, data calls, radio technology *)

Definition parseRequestImsi : RD (option (request_data * Z)) :=
  _count ← readInt32_value;
  aid ← strdupReadString;
  mret (Some (D_requestImsi (RequestImsi 0 aid), sizeof "RIL_RequestImsi_v3")).
Definition dispatchRequestImsi : bytes -> addr -> R unit := dispatch_with parseRequestImsi.

Definition numParamsRilV3 : Z := 6.

(** [p2.writeString16(p.readString16())] for the parameters that are kept. *)
Fixpoint copy_strings (n : nat) (p p2 : bytes) : bytes :=
  match n with
  | O => p2
  | S n' => let '(s16, p') := dec_str p in copy_strings n' p' (p2 ++ enc_str (Some (default [] s16)))
  end.

(** Vendor libraries before version 4 do not know the seventh parameter. *)
Definition dispatchDataCall (p : bytes) (pRI : addr) : R unit :=
  '(numParams, p') ← on_parcel readInt32_value p;
  s ← get;
  if (version s <? 4) && (numParamsRilV3 <? numParams) then
    dispatchStrings (copy_strings (Z.to_nat numParamsRilV3) p' (enc32 numParamsRilV3)) pRI
  else dispatchStrings p pRI.

Definition radio_unavailable (state : Z) : bool :=
  (ril "RADIO_STATE_UNAVAILABLE" =? state) || (ril "RADIO_STATE_OFF" =? state).

Definition dispatchVoiceRadioTech (p : bytes) (pRI : addr) : R unit :=
  s ← get;
  let state := vendor_state s in
  (if radio_unavailable state then RIL_onRequestComplete (Some pRI) (ril "RIL_E_RADIO_NOT_AVAILABLE") R_null 0
   else mret tt);;
  if ril "RADIO_STATE_ON" =? state then dispatchVoid p pRI else
  let tech := decodeVoiceRadioTechnology state in
  modify (fun s => with_radio tech (cdmaSubscriptionSource s) (simRuimStatus s) s);;
  if tech <? 0 then RIL_onRequestComplete (Some pRI) (ril "RIL_E_GENERIC_FAILURE") R_null 0
  else RIL_onRequestComplete (Some pRI) (ril "RIL_E_SUCCESS") (R_ints [tech]) sizeof_int.

Definition dispatchCdmaSubscriptionSource (p : bytes) (pRI : addr) : R unit :=
  s ← get;
  let state := vendor_state s in
  (if radio_unavailable state then RIL_onRequestComplete (Some pRI) (ril "RIL_E_RADIO_NOT_AVAILABLE") R_null 0
   else mret tt);;
  if ril "RADIO_STATE_ON" =? state then dispatchVoid p pRI else
  let source := decodeCdmaSubscriptionSource state in
  modify (fun s => with_radio (voiceRadioTech s) source (simRuimStatus s) s);;
  if source <? 0 then RIL_onRequestComplete (Some pRI) (ril "RIL_E_GENERIC_FAILURE") R_null 0
  else RIL_onRequestComplete (Some pRI) (ril "RIL_E_SUCCESS") (R_ints [source]) sizeof_int.

Definition parseSetInitialAttachApn : RD (option (request_data * Z)) :=
  apn ← strdupReadString;
  protocol ← strdupReadString;
  '(status, authtype) ← readInt32 junk;
  username ← strdupReadString;
  password ← strdupReadString;
  if negb (ok status) then mret None else
  mret (Some (D_initialAttachApn apn protocol authtype username password, sizeof "RIL_InitialAttachApn")).
Definition dispatchSetInitialAttachApn : bytes -> addr -> R unit := dispatch_with parseSetInitialAttachApn.

Definition parseNVReadItem : RD (option (request_data * Z)) :=
  '(status, itemID) ← readInt32 junk;
  if negb (ok status) then mret None else
  mret (Some (D_nvRead itemID, sizeof "RIL_NV_ReadItem")).
Definition dispatchNVReadItem : bytes -> addr -> R unit := dispatch_with parseNVReadItem.

Definition parseNVWriteItem : RD (option (request_data * Z)) :=
  '(status, itemID) ← readInt32 junk;
  value ← strdupReadString;
  if negb (ok status) || bool_decide (value = None) then mret None else
  mret (Some (D_nvWrite itemID value, sizeof "RIL_NV_WriteItem")).
Definition dispatchNVWriteItem : bytes -> addr -> R unit := dispatch_with parseNVWriteItem.

(** Four integers, each checked before the next is read. *)
Definition parseUiccSubscripton : RD (option (request_data * Z)) :=
  l ← read_ints 4;
  match l with
  | Some [slot; app_index; sub_type; act_status] =>
      mret (Some (D_uiccSub slot app_index sub_type act_status, sizeof "RIL_SelectUiccSub"))
  | _ => mret None
  end.
Definition dispatchUiccSubscripton : bytes -> addr -> R unit := dispatch_with parseUiccSubscripton.

Definition parseSimAuthentication : RD (option (request_data * Z)) :=
  '(status, authContext) ← readInt32 junk;
  authData ← strdupReadString;
  aid ← strdupReadString;
  if negb (ok status) then mret None else
  mret (Some (D_simAuth authContext authData aid, sizeof "RIL_SimAuthentication")).
Definition dispatchSimAuthentication : bytes -> addr -> R unit := dispatch_with parseSimAuthentication.

Definition parseRadioCapability : RD (option (request_data * Z)) :=
  l ← read_ints 4;
  match l with
  | Some [v; session; phase; rat] =>
      '(status, uuid) ← readStringFromParcelInplace (filled (ril "MAX_UUID_LENGTH") []) (ril "MAX_UUID_LENGTH");
      if negb (ok status) then mret None else
      '(status, st) ← readInt32 rat;
      if negb (ok status) then mret None else
      mret (Some (D_radioCapability (RadioCapability v session phase rat uuid st), sizeof "RIL_RadioCapability"))
  | _ => mret None
  end.
Definition dispatchRadioCapability : bytes -> addr -> R unit := dispatch_with parseRadioCapability.

(** ** Calls through [dispatchFunction] *)

Definition call_dispatch (f : dispatch_fn) : bytes -> addr -> R unit :=
  match f with
  | DispatchVoid => dispatchVoid
  | DispatchString => dispatchString
  | DispatchStrings => dispatchStrings
  | DispatchInts => dispatchInts
  | DispatchSimPin => dispatchSimPin
  | DispatchSimPuk => dispatchSimPuk
  | DispatchSimPinSet => dispatchSimPinSet
  | DispatchDial => dispatchDial
  | DispatchSIM_IO => dispatchSIM_IO
  | DispatchSIM_APDU => dispatchSIM_APDU
  | DispatchCallForward => dispatchCallForward
  | DispatchQueryFacility => dispatchQueryFacility
  | DispatchSetFacility => dispatchSetFacility
  | DispatchRaw => dispatchRaw
  | DispatchSmsWrite => dispatchSmsWrite
  | DispatchRequestImsi => dispatchRequestImsi
  | DispatchDataCall => dispatchDataCall
  | DispatchVoiceRadioTech => dispatchVoiceRadioTech
  | DispatchSetInitialAttachApn => dispatchSetInitialAttachApn
  | DispatchCdmaSubscriptionSource => dispatchCdmaSubscriptionSource
  | DispatchCdmaSms => dispatchCdmaSms
  | DispatchImsSms => dispatchImsSms
  | DispatchCdmaSmsAck => dispatchCdmaSmsAck
  | DispatchGsmBrSmsCnf => dispatchGsmBrSmsCnf
  | DispatchCdmaBrSmsCnf => dispatchCdmaBrSmsCnf
  | DispatchRilCdmaSmsWriteArgs => dispatchRilCdmaSmsWriteArgs
  | DispatchNVReadItem => dispatchNVReadItem
  | DispatchNVWriteItem => dispatchNVWriteItem
  | DispatchUiccSubscripton => dispatchUiccSubscripton
  | DispatchSimAuthentication => dispatchSimAuthentication
  | DispatchDataProfile => dispatchDataProfile
  | DispatchRadioCapability => dispatchRadioCapability
  | DispatchNetworkManual => dispatchNetworkManual
  end.

(** ** Commands *)

Definition NUM_COMMANDS : Z := Z.of_nat (length s_commands).

(** The first two words; the status is that of the second. *)
Definition read_header : RD (Z * Z * Z) :=
  '(_, request) ← readInt32 junk;
  '(status, tok) ← readInt32 junk;
  mret (status, request, tok).

(** The answer to an unsupported request. *)
Definition reject (tok : Z) : R unit :=
  '(_, pErr) ← on_parcel (writeInt32 RESPONSE_SOLICITED;; writeInt32 tok;; writeInt32 (ril "RIL_E_GENERIC_FAILURE")) [];
  sendResponse pErr;;
  mret tt.

Definition processCommandBuffer (buffer : bytes) : R unit :=
  '((status, request, tok), p) ← on_parcel read_header buffer;
  if negb (ok status) then mret tt else
  if (request <? 1) || (NUM_COMMANDS <=? request) then reject tok else
  match s_commands !! Z.to_nat request with
  | None => fault
  | Some ci =>
      if requestNumber ci =? 0 then reject tok else
      pRI ← push_request tok (Z.to_nat request) false;
      match dispatchFunction ci with
      | None => fault
      | Some f => call_dispatch f p pRI
      end
  end.

End Dispatch.
