(* ===== verification/RilFacts.v ===== *)
(** * Facts about requests, frames and parcels

    The lemmas behind the properties of the RIL: response functions only
    append to the parcel; the pending list is a chain of blocks; a write on
    the socket puts a whole frame on the wire or closes the descriptor. *)

From S2P Require Import Prelude Parcel RilTypes RilResponse RilTables RilCore.

(** ** Inverting runs *)

Lemma bind_inv {S A B} (m : M S A) (k : A -> M S B) s b s' :
  (m ≫= k) s = Ret (b, s') -> exists a s1, m s = Ret (a, s1) /\ k a s1 = Ret (b, s').
Proof. unfold mbind, M_bind. destruct (m s) as [[a s1]| |]; [|done|done]. eauto. Qed.

Lemma ret_inv {S A} (a b : A) (s s' : S) : (mret a : M S A) s = Ret (b, s') -> a = b /\ s = s'.
Proof. by intros [= -> ->]. Qed.

(** Take a run apart, from the first computation on. *)
Ltac run_inv H :=
  first
    [ apply bind_inv in H; let a := fresh "a" in let s := fresh "s" in let Hm := fresh "Hm" in
      destruct H as (a & s & Hm & H)
    | apply ret_inv in H; let E := fresh in destruct H as [E H]; subst ].

Tactic Notation "split_run" hyp(H) "as" simple_intropattern(a) ident(s) simple_intropattern(Hm) :=
  apply bind_inv in H; destruct H as (a & s & Hm & H).

(** ** Response functions append *)

(** Run on the parcel [b], the computation appends what it writes to an empty
    parcel. *)
Definition appends {A} (m : M bytes A) : Prop := forall b,
  m b = match m [] with Ret (a, w) => Ret (a, b ++ w) | Abort => Abort | Fault => Fault end.

Lemma appends_ret {A} (a : A) : appends (mret a : M bytes A).
Proof. intros b. unfold mret, M_ret. by rewrite app_nil_r. Qed.

Lemma appends_fault {A} : appends (@fault bytes A).
Proof. done. Qed.

Lemma appends_write bs : appends (write bs).
Proof. done. Qed.

Lemma appends_bind {A B} (m : M bytes A) (k : A -> M bytes B) :
  appends m -> (forall a, appends (k a)) -> appends (m ≫= k).
Proof.
  intros Hm Hk b. unfold mbind, M_bind. rewrite (Hm b). destruct (m []) as [[a w]| |]; [|done|done].
  rewrite (Hk a (b ++ w)), (Hk a w). destruct (k a []) as [[c w']| |]; [by rewrite app_assoc|done|done].
Qed.

Lemma appends_if {A} (c : bool) (m1 m2 : M bytes A) : appends m1 -> appends m2 -> appends (if c then m1 else m2).
Proof. by destruct c. Qed.

Lemma appends_write_list {A} (item : A -> M bytes unit) l :
  (forall x, appends (item x)) -> appends (write_list item l).
Proof. intros Hi. induction l; simpl; [apply appends_ret|by apply appends_bind]. Qed.

Create HintDb appends.
#[export] Hint Resolve appends_ret appends_fault appends_write appends_bind appends_if appends_write_list : appends.

(** Splits on every scrutinee that blocks the structure of the computation. *)
Ltac appends_tac :=
  repeat first
    [ apply appends_bind; [|intros ?] | apply appends_if | apply appends_write_list; intros ?
    | progress eauto 1 with appends | match goal with |- appends (match ?x with _ => _ end) => destruct x end ].

Section Appends.
Context {P : ParcelOps} {H : RilHeader}.

Lemma appends_writeInt32 x : appends (writeInt32 x).
Proof. apply appends_write. Qed.
Lemma appends_writeInt64 x : appends (writeInt64 x).
Proof. apply appends_write. Qed.
Lemma appends_writeString s : appends (writeStringToParcel s).
Proof. apply appends_write. Qed.
Lemma appends_write_uint8 x : appends (write_uint8 x).
Proof. apply appends_write. Qed.

Lemma appends_prefix {A} (l : list A) n : appends (prefix l n).
Proof. unfold prefix. appends_tac. Qed.

Lemma appends_each {A} n (l : list A) item : (forall x, appends (item x)) -> appends (each n l item).
Proof. intros Hi. unfold each. apply appends_bind; [apply appends_prefix|]. intros xs. by apply appends_write_list. Qed.

Lemma appends_c_string a : appends (c_string a).
Proof. induction a as [|c a IH]; simpl; appends_tac. Qed.

Lemma appends_writeArray a : appends (writeArrayToParcel a).
Proof. apply appends_bind; [apply appends_c_string|]. intros s. apply appends_writeString. Qed.

Hint Resolve appends_writeInt32 appends_writeInt64 appends_writeString appends_write_uint8 appends_prefix
  appends_writeArray appends_c_string appends_each : appends.

Lemma appends_networks_loop i l : appends (networks_loop i l).
Proof. revert i. induction l as [|s l IH]; intros i; simpl; appends_tac. Qed.

Lemma appends_infoRec i : appends (write_infoRec i).
Proof. unfold write_infoRec, write_number, write_buffer, marshallSignalInfoRecord. appends_tac. Qed.

Lemma appends_infoRecs l : appends (infoRecs_loop l).
Proof. induction l as [|i l IH]; simpl; [apply appends_ret|]. apply appends_bind; [apply appends_infoRec|]. intros r. appends_tac. Qed.

Lemma appends_call_response v f r len : appends (call_response v f r len).
Proof.
  destruct f; simpl;
    unfold responseInts, responseFailCause, responseStrings, responseString, responseVoid, responseCallList, responseSMS,
      responseSIM_IO, responseCallForwards, responseAvailableNetworks, responseDataCallList, responseSetupDataCall,
      responseRaw, responseSsn, responseSimStatus, responseRegState, responseGsmBrSmsCnf, responseCdmaBrSmsCnf,
      responseCdmaSms, responseCellList, responseCdmaInformationRecords, responseRilSignalStrength, responseCallRing,
      responseCdmaSignalInfoRecord, responseCdmaCallWaiting, responseSimRefresh, responseCellInfoList,
      responseHardwareConfig, responseDcRtInfo, responseRadioCapability, responseSSData, responseLceStatus,
      responseLceData, responseActivityData, responseStringsWithVersion, responseDataCallListV4, responseDataCallListV6,
      responseDataCallListV9, responseStrings, responseVoid, responseCdmaSignalInfoRecord, as_ints, as_strings,
      as_dataCalls, sendSimStatusAppInfo, write_app_index, marshallSignalInfoRecord;
    repeat first
      [ apply appends_bind; [|intros ?] | apply appends_if | apply appends_write_list; intros ?
      | apply appends_each; intros ? | apply appends_networks_loop | apply appends_infoRecs
      | progress eauto 1 with appends
      | match goal with
        | |- appends (write_call _ _) => unfold write_call
        | |- appends (write_callForward _) => unfold write_callForward
        | |- appends (write_dataCall4 _) => unfold write_dataCall4
        | |- appends (write_dataCall6 _) => unfold write_dataCall6
        | |- appends (write_dataCall9 _) => unfold write_dataCall9
        | |- appends (write_dataCall11 _) => unfold write_dataCall11
        | |- appends (write_cellInfo _) => unfold write_cellInfo, write_cell
        | |- appends (write_hardwareConfig _) => unfold write_hardwareConfig
        | |- appends (write_gsmBci _) => unfold write_gsmBci
        | |- appends (write_cdmaBci _) => unfold write_cdmaBci
        | |- appends (as_dataCalls _ _) => unfold as_dataCalls
        | |- appends (match ?x with _ => _ end) => destruct x
        end ].
Qed.


(** What the response function writes and returns. *)
Definition payload_of (v : Z) (f : option response_fn) (r : response) (len : Z) : outcome (Z * bytes) :=
  if is_null r then Ret (0, []) else match f with None => Fault | Some f => call_response v f r len [] end.

(** The parcel of a solicited response: type, token, error and payload.  When
    the response function fails, its code takes the place of the error, and
    what it has written stays behind it. *)
Lemma response_parcel_result {PL : ParcelLaws P} v tok f e r len :
  response_parcel v tok f e r len [] =
    match payload_of v f r len with
    | Ret (ret, w) =>
        Ret (tt, enc32 RESPONSE_SOLICITED ++ enc32 tok ++ enc32 (if ret =? 0 then e else ret) ++ w)
    | Abort => Abort
    | Fault => Fault
    end.
Proof.
  unfold response_parcel, payload_of. unfold writeInt32, get, put, write, mret, M_ret, mbind, M_bind, fault.
  destruct (is_null r); [by rewrite app_nil_l, app_nil_r, <- app_assoc|]. destruct f as [f|]; [|done].
  rewrite (appends_call_response v f r len _). destruct (call_response v f r len []) as [[ret w]| |]; [|done|done].
  set (hd := _ ++ enc32 tok). destruct (ret =? 0); simpl; [unfold hd; by rewrite <- !app_assoc|].
  do 2 f_equal. unfold overwrite. rewrite <- !(app_assoc hd), take_app_length, <- drop_drop, drop_app_length.
  rewrite (enc32_length ret), <- (enc32_length e), drop_app_length. unfold hd. by rewrite <- app_assoc.
Qed.

End Appends.

(** ** The chain of pending requests *)

(** [chain m h l]: the list that starts at [h] has the blocks [l]. *)
Fixpoint chain (m : gmap nat RequestInfo) (h : option nat) (l : list nat) : Prop :=
  match l with
  | [] => h = None
  | a :: l' => h = Some a /\ exists r, m !! a = Some r /\ chain m (p_next r) l'
  end.

(** What a block says about its request, links aside. *)
Definition content (r : RequestInfo) : Z * nat * bool * bool := (token r, pCI r, cancelled r, local r).

Definition same_content (m m' : gmap nat RequestInfo) : Prop := forall a, content <$> m' !! a = content <$> m !! a.

(** Every live block is on the list, once. *)
Record pending_ok (s : rstate) (l : list nat) : Prop := {
  pend_chain : chain (reqs s) (s_pendingRequests s) l;
  pend_nodup : NoDup l;
  pend_dom : dom (reqs s) = list_to_set l
}.

Lemma chain_frame m m' h l : chain m h l -> (forall a, a ∈ l -> m' !! a = m !! a) -> chain m' h l.
Proof.
  revert h. induction l as [|a l IH]; intros h; [done|]. intros (Hh & r & Hr & Hc) Hm. split; [done|]. exists r.
  rewrite Hm by apply list_elem_of_here. split; [done|]. apply IH; [done|]. intros b Hb. apply Hm. by apply list_elem_of_further.
Qed.

Lemma chain_lookup m h l a : chain m h l -> a ∈ l -> exists r, m !! a = Some r.
Proof.
  revert h. induction l as [|b l IH]; intros h; [by intros _ ?%not_elem_of_nil|]. intros (_ & r & Hr & Hc) Ha.
  apply elem_of_cons in Ha as [->|Ha]; eauto.
Qed.

Lemma pending_length s l : pending_ok s l -> length l = size (reqs s).
Proof. intros [_ Hn Hd]. by rewrite <- size_dom, Hd, size_list_to_set. Qed.

Lemma chain_content m h l : chain m h l -> forall m', same_content m m' -> forall a, a ∈ l -> is_Some (m' !! a).
Proof.
  intros Hc m' Hs a Ha. destruct (chain_lookup _ _ _ _ Hc Ha) as [r Hr]. specialize (Hs a). rewrite Hr in Hs.
  destruct (m' !! a); [eauto|done].
Qed.

Section Requests.
Context {P : ParcelOps} {H : RilHeader} {HP : Heap}.

(** The pointer that [pp] refers to, in a heap and a head. *)
Definition link (m : gmap nat RequestInfo) (h : option nat) (pp : option nat) : option nat :=
  match pp with None => h | Some b => m !! b ≫= p_next end.

Lemma load_req_run s a r : reqs s !! a = Some r -> load_req a s = Ret (r, s).
Proof. unfold load_req. by intros ->. Qed.

Lemma read_link_run s pp : (forall b, pp = Some b -> is_Some (reqs s !! b)) ->
  read_link pp s = Ret (link (reqs s) (s_pendingRequests s) pp, s).
Proof.
  intros Hb. destruct pp as [b|]; [|done]. destruct (Hb b eq_refl) as [r Hr]. unfold read_link.
  erewrite bind_run by (by apply load_req_run). simpl. by rewrite Hr.
Qed.

(** Unlinking the first of the blocks behind [pp]. *)
Lemma write_link_run s pp n :
  (forall b, pp = Some b -> is_Some (reqs s !! b)) ->
  exists m' h', write_link pp n s = Ret (tt, with_reqs m' h' s) /\ link m' h' pp = n /\
    same_content (reqs s) m' /\ (forall c, pp <> Some c -> m' !! c = reqs s !! c) /\
    (pp <> None -> h' = s_pendingRequests s).
Proof.
  intros Hb. destruct pp as [b|].
  - destruct (Hb b eq_refl) as [r Hr]. exists (<[b := with_next n r]> (reqs s)), (s_pendingRequests s).
    unfold write_link, update_req. rewrite Hr. split; [done|]. simpl. rewrite lookup_insert_eq. split; [done|].
    split_and!; [|intros c Hc; apply lookup_insert_ne; congruence|done].
    intros a. destruct (decide (a = b)) as [->|Hne]; [by rewrite lookup_insert_eq, Hr|by rewrite lookup_insert_ne].
  - by exists (reqs s), n.
Qed.

(** The walk finds the block [a] behind [l1] and unlinks it. *)
Lemma dequeue_found s fuel a pp l1 l2 :
  (length l1 < fuel)%nat -> NoDup (l1 ++ a :: l2) ->
  (forall b, pp = Some b -> is_Some (reqs s !! b) /\ b ∉ l1 ++ a :: l2) ->
  chain (reqs s) (link (reqs s) (s_pendingRequests s) pp) (l1 ++ a :: l2) ->
  exists m' h', dequeue_loop fuel a pp s = Ret (true, with_reqs m' h' s) /\
    chain m' (link m' h' pp) (l1 ++ l2) /\ same_content (reqs s) m' /\
    (forall c, c ∉ l1 -> pp <> Some c -> m' !! c = reqs s !! c) /\ (pp <> None -> h' = s_pendingRequests s).
Proof.
  revert fuel pp. induction l1 as [|c l1 IH]; intros fuel pp Hf Hnd Hpp Hc; (destruct fuel as [|fuel]; [simpl in Hf; lia|]);
    cbn [dequeue_loop]; erewrite bind_run by (apply read_link_run; intros b Hb; by apply Hpp);
    destruct Hc as (Hh & r & Hr & Hc); rewrite Hh.
  - rewrite bool_decide_true by done. erewrite bind_run by (by apply load_req_run).
    destruct (write_link_run s pp (p_next r)) as (m' & h' & Hw & Hl & Hs & Hfr & Hh'); [intros b Hb; by apply Hpp|].
    exists m', h'. erewrite bind_run by done. split; [done|]. rewrite Hl. split_and!; [|done|intros b _; by apply Hfr|done].
    eapply chain_frame; [exact Hc|]. intros b Hb. apply Hfr. intros ->. destruct (Hpp b eq_refl) as [_ Hnin].
    apply Hnin. by apply list_elem_of_further.
  - rewrite bool_decide_false by (intros ->; apply NoDup_cons in Hnd as [Hx _]; set_solver).
    apply NoDup_cons in Hnd as [Hcn Hnd]. destruct (IH fuel (Some c)) as (m' & h' & Hrun & Hc' & Hs & Hfr & Hh').
    + simpl in Hf. lia.
    + done.
    + intros b [= <-]. split; [eauto|done].
    + simpl. by rewrite Hr.
    + exists m', h'. split; [done|]. specialize (Hh' ltac:(done)). split_and!; [|done| |].
      * assert (Hm' : is_Some (m' !! c)) by (eapply (chain_content _ (Some c) (c :: l1 ++ a :: l2)); [by split; eauto|done|apply list_elem_of_here]).
        destruct Hm' as [r' Hr']. assert (Hlk : link m' h' pp = Some c).
        { destruct pp as [b|]; [|by rewrite <- Hh, Hh']. simpl in *. destruct (Hpp b eq_refl) as [_ Hnin].
          rewrite Hfr; [done|set_solver|set_solver]. }
        rewrite Hlk. split; [done|]. exists r'. split; [done|]. simpl in Hc'. by rewrite Hr' in Hc'.
      * intros b Hb Hpb. apply Hfr; [set_solver|]. intros [= ->]. set_solver.
      * done.
Qed.

Lemma dequeue_missing s fuel a pp l :
  (length l < fuel)%nat -> a ∉ l -> (forall b, pp = Some b -> is_Some (reqs s !! b)) ->
  chain (reqs s) (link (reqs s) (s_pendingRequests s) pp) l -> dequeue_loop fuel a pp s = Ret (false, s).
Proof.
  revert fuel pp. induction l as [|c l IH]; intros fuel pp Hf Ha Hpp Hc; (destruct fuel as [|fuel]; [simpl in Hf; lia|]);
    cbn [dequeue_loop]; erewrite bind_run by (by apply read_link_run).
  - simpl in Hc. by rewrite Hc.
  - destruct Hc as (Hh & r & Hr & Hc). rewrite Hh. rewrite bool_decide_false by set_solver.
    apply IH; [simpl in Hf; lia|set_solver|intros b [= <-]; eauto|]. simpl. by rewrite Hr.
Qed.

(** ** The whole operation *)

Lemma check_missing s l t : pending_ok s l -> (forall a, t = Some a -> a ∉ l) ->
  checkAndDequeueRequestInfo t s = Ret (false, s).
Proof.
  intros Hok Ht. destruct t as [a|]; [|done]. unfold checkAndDequeueRequestInfo. erewrite bind_run by done.
  eapply dequeue_missing; [|by apply Ht|done|apply (pend_chain _ _ Hok)]. rewrite (pending_length _ _ Hok). lia.
Qed.

Lemma check_found s l1 a l2 : pending_ok s (l1 ++ a :: l2) ->
  exists m' h', checkAndDequeueRequestInfo (Some a) s = Ret (true, with_reqs m' h' s) /\
    chain m' h' (l1 ++ l2) /\ same_content (reqs s) m'.
Proof.
  intros Hok. unfold checkAndDequeueRequestInfo. erewrite bind_run by done.
  destruct (dequeue_found s (S (size (reqs s))) a None l1 l2) as (m' & h' & Hr & Hc & Hs & _).
  - rewrite <- (pending_length _ _ Hok), length_app. simpl. lia.
  - apply (pend_nodup _ _ Hok).
  - done.
  - apply (pend_chain _ _ Hok).
  - eauto.
Qed.

Lemma same_content_dom m m' : same_content m m' -> dom m' = dom m.
Proof.
  intros Hs. apply set_eq. intros a. rewrite !elem_of_dom. specialize (Hs a).
  destruct (m !! a), (m' !! a); simpl in Hs; try done; split; eauto; by intros [? ?].
Qed.

(** The pending list after the block [a] was unlinked and freed. *)
Lemma pending_removed s l1 a l2 m' h' :
  pending_ok s (l1 ++ a :: l2) -> chain m' h' (l1 ++ l2) -> same_content (reqs s) m' ->
  pending_ok (with_reqs (delete a m') h' s) (l1 ++ l2).
Proof.
  intros [Hc Hn Hd] Hc' Hs. apply NoDup_app in Hn as (Hn1 & Hx & [Ha Hn2]%NoDup_cons).
  assert (Hnin : a ∉ l1 ++ l2) by (intros [?%Hx|?]%elem_of_app; set_solver).
  split; simpl.
  - eapply chain_frame; [done|]. intros b Hb. apply lookup_delete_ne. by intros ->.
  - apply NoDup_app. split_and!; [done|intros b Hb Hb2; apply (Hx b Hb); set_solver|done].
  - rewrite dom_delete_L, (same_content_dom _ _ Hs), Hd. rewrite !list_to_set_app_L. simpl. set_solver.
Qed.

End Requests.

(** ** Frames on the wire *)

Definition frame (p : bytes) : bytes := htonl (Z.of_nat (length p)) ++ p.

(** The wire has the frames of [msgs]; a truncated frame may follow only when
    the descriptor has been closed. *)
Definition stream_ok (k : socket) (msgs : list bytes) : Prop :=
  if fd_open k then wire k = concat (map frame msgs)
  else exists p part rest, part ++ rest = frame p /\ rest <> [] /\ wire k = concat (map frame msgs) ++ part.

Lemma write_loop_cases results buf ret sent rest : write_loop results buf = (ret, sent, rest) ->
  ret = 0 /\ sent = buf \/ ret = -1 /\ exists tail, tail <> [] /\ buf = sent ++ tail.
Proof.
  revert buf ret sent rest. induction results as [|[n| |] results IH]; intros [|b buf] ret sent rest; simpl;
    try (intros [= <- <- <-]; by left).
  - destruct (write_loop results (drop n (b :: buf))) as [[ret' sent'] rest'] eqn:E. intros [= <- <- <-].
    apply IH in E as [[-> ->]|[-> (tail & Ht & E)]].
    + left. split; [done|]. apply take_drop.
    + right. split; [done|]. exists tail. split; [done|]. by rewrite <- app_assoc, <- E, take_drop.
  - apply IH.
  - intros [= <- <- <-]. right. split; [done|]. by exists (b :: buf).
Qed.

Lemma with_sock_sock (s : rstate) k l : sock (with_sock k l s) = k.
Proof. done. Qed.

(** An open descriptor takes the buffer, or a part of it and is closed. *)
Lemma blockingWrite_run s buf : fd_open (sock s) = true ->
  exists ret k', blockingWrite buf s = Ret (ret, with_sock k' (listening s) s) /\ fdCommand k' = fdCommand (sock s) /\
    (ret = 0 /\ fd_open k' = true /\ wire k' = wire (sock s) ++ buf \/
     ret = -1 /\ fd_open k' = false /\ exists sent tail, tail <> [] /\ buf = sent ++ tail /\ wire k' = wire (sock s) ++ sent).
Proof.
  intros Ho. unfold blockingWrite. rewrite Ho. destruct (write_loop (io (sock s)) buf) as [[ret sent] rest] eqn:E.
  eexists ret, _. split; [done|]. split; [done|]. apply write_loop_cases in E as [[-> ->]|[-> (tail & Ht & ->)]]; [by left|].
  right. split; [done|]. split; [done|]. by exists sent, tail.
Qed.

Lemma with_sock_same s : with_sock (sock s) (listening s) s = s.
Proof. by destruct s. Qed.

Lemma sendResponseRaw_run s d msgs : stream_ok (sock s) msgs ->
  exists ret k', sendResponseRaw d s = Ret (ret, with_sock k' (listening s) s) /\ fdCommand k' = fdCommand (sock s) /\
    (ret = 0 /\ stream_ok k' (msgs ++ [d]) \/ ret = -1 /\ stream_ok k' msgs).
Proof.
  intros Hs. unfold sendResponseRaw. erewrite bind_run by done.
  assert (Hstop : exists ret k', (mret (-1) : M rstate Z) s = Ret (ret, with_sock k' (listening s) s) /\
    fdCommand k' = fdCommand (sock s) /\ (ret = 0 /\ stream_ok k' (msgs ++ [d]) \/ ret = -1 /\ stream_ok k' msgs)).
  { exists (-1), (sock s). rewrite with_sock_same. split_and!; [done|done|by right]. }
  destruct (fdCommand (sock s) <? 0); [done|]. destruct (MAX_COMMAND_BYTES <? Z.of_nat (length d)); [done|].
  unfold stream_ok in Hs. destruct (fd_open (sock s)) eqn:Ho.
  - destruct (blockingWrite_run s (htonl (Z.of_nat (length d))) Ho) as (ret & k1 & Hr & Hf1 & [(-> & Ho1 & Hw1)|(-> & Ho1 & sent & tail & Ht & He & Hw1)]);
      erewrite bind_run by done; simpl.
    + destruct (blockingWrite_run (with_sock k1 (listening s) s) d Ho1) as (ret & k2 & Hr2 & Hf2 & Hc); simpl in *.
      erewrite bind_run by done. destruct Hc as [(-> & Ho2 & Hw2)|(-> & Ho2 & sent & tail & Ht & He & Hw2)]; simpl.
      * exists 0, k2. split; [done|]. split; [by rewrite Hf2|]. left. split; [done|]. unfold stream_ok.
        rewrite Ho2, Hw2, Hw1, Hs, map_app, concat_app. simpl. by rewrite app_nil_r, <- app_assoc.
      * exists (-1), k2. split; [done|]. split; [by rewrite Hf2|]. right. split; [done|]. unfold stream_ok. rewrite Ho2.
        exists d, (htonl (Z.of_nat (length d)) ++ sent), tail. split_and!; [by rewrite <- app_assoc, <- He|done|].
        by rewrite Hw2, Hw1, Hs, <- app_assoc.
    + exists (-1), k1. split; [done|]. split; [done|]. right. split; [done|]. unfold stream_ok. rewrite Ho1.
      exists d, sent, (tail ++ d). split_and!; [by rewrite app_assoc, <- He|by destruct tail|by rewrite Hw1, Hs].
  - unfold blockingWrite. rewrite bind_run with (a := -1) (s' := s) by (by rewrite Ho). simpl.
    exists (-1), (sock s). rewrite with_sock_same. split_and!; [done|done|]. right. split; [done|]. unfold stream_ok.
    by rewrite Ho.
Qed.

(** With a healthy connection the whole frame arrives. *)
Lemma sendResponseRaw_healthy s d :
  0 <= fdCommand (sock s) -> fd_open (sock s) = true -> io (sock s) = [] -> Z.of_nat (length d) <= MAX_COMMAND_BYTES ->
  sendResponseRaw d s =
    Ret (0, with_sock (Sock (fdCommand (sock s)) true (wire (sock s) ++ frame d) []) (listening s) s).
Proof.
  intros Hf Ho Hio Hl. unfold sendResponseRaw. erewrite bind_run by done.
  destruct (Z.ltb_spec (fdCommand (sock s)) 0); [lia|]. destruct (Z.ltb_spec MAX_COMMAND_BYTES (Z.of_nat (length d))); [lia|].
  assert (Hb : forall s1 b, fd_open (sock s1) = true -> io (sock s1) = [] -> blockingWrite b s1 =
    Ret (0, with_sock (Sock (fdCommand (sock s1)) true (wire (sock s1) ++ b) []) (listening s1) s1)).
  { intros s1 b Ho1 Hio1. unfold blockingWrite. rewrite Ho1, Hio1. by destruct b. }
  erewrite bind_run by (by apply Hb). simpl. erewrite bind_run by (by apply Hb). simpl. unfold frame.
  unfold with_sock, mret, M_ret. simpl. by rewrite <- app_assoc.
Qed.

Lemma with_reqs_sock m h k l s : with_reqs m h (with_sock k l s) = with_sock k l (with_reqs m h s).
Proof. done. Qed.

Section Complete.
Context {P : ParcelOps} {H : RilHeader} {HP : Heap} {PL : ParcelLaws P}.

Lemma same_content_lookup m m' a r : same_content m m' -> m !! a = Some r -> exists r', m' !! a = Some r' /\ content r' = content r.
Proof. intros Hs Hr. specialize (Hs a). rewrite Hr in Hs. destruct (m' !! a) as [r'|]; [|done]. exists r'. split; [done|]. apply (inj Some). exact Hs. Qed.

(** A token that is not pending is ignored. *)
Lemma complete_unknown s l t e r len : pending_ok s l -> (forall a, t = Some a -> a ∉ l) ->
  RIL_onRequestComplete t e r len s = Ret (tt, s).
Proof.
  intros Hok Ht. unfold RIL_onRequestComplete. erewrite bind_run by (by eapply check_missing). by destruct t.
Qed.

(** A pending one is unlinked and freed; a response goes out unless the
    request was local or cancelled. *)
Lemma complete_pending s l1 a l2 ri e r len :
  pending_ok s (l1 ++ a :: l2) -> reqs s !! a = Some ri ->
  exists m' h', let s1 := with_reqs m' h' s in
    pending_ok (with_reqs (delete a m') h' s) (l1 ++ l2) /\ same_content (reqs s) m' /\
    RIL_onRequestComplete (Some a) e r len s =
      (if local ri || cancelled ri then Ret (tt, with_reqs (delete a m') h' s)
       else match s_commands !! pCI ri with
            | None => Fault
            | Some ci =>
                match response_parcel (version s) (token ri) (responseFunction ci) e r len [] with
                | Ret (_, p) =>
                    match sendResponse p s1 with
                    | Ret (_, s2) => free_req a s2
                    | Abort => Abort
                    | Fault => Fault
                    end
                | Abort => Abort
                | Fault => Fault
                end
            end).
Proof.
  intros Hok Hri. destruct (check_found s l1 a l2 Hok) as (m' & h' & Hr & Hc & Hs). exists m', h'. cbn zeta.
  split; [by eapply pending_removed|]. split; [done|]. unfold RIL_onRequestComplete. erewrite bind_run by done.
  destruct (same_content_lookup _ _ _ _ Hs Hri) as (ri' & Hri' & Hct). injection Hct as Ht Hp Hcn Hl.
  erewrite bind_run by (by apply load_req_run). rewrite <- Ht, <- Hp, <- Hcn, <- Hl.
  assert (Hfree : free_req a (with_reqs m' h' s) = Ret (tt, with_reqs (delete a m') h' s)).
  { unfold free_req. simpl. by rewrite Hri'. }
  destruct (local ri'); [by erewrite bind_run by done|]. destruct (cancelled ri'); [by erewrite bind_run by done|]. simpl.
  unfold mbind, M_bind, get, on_parcel. simpl. destruct (s_commands !! pCI ri') as [ci|]; [|done].
  destruct (response_parcel _ _ _ _ _ _ _) as [[[] p]| |]; [|done|done].
  by destruct (sendResponse p (with_reqs m' h' s)) as [[ret s2]| |].
Qed.

(** What any completed run did. *)
Lemma complete_inv s l t e r len s' msgs :
  pending_ok s l -> stream_ok (sock s) msgs -> RIL_onRequestComplete t e r len s = Ret (tt, s') ->
  s' = s \/
  exists l1 a l2 ri m' h' k', l = l1 ++ a :: l2 /\ reqs s !! a = Some ri /\
    s' = with_reqs (delete a m') h' (with_sock k' (listening s) s) /\ fdCommand k' = fdCommand (sock s) /\
    pending_ok s' (l1 ++ l2) /\ same_content (reqs s) m' /\
    (stream_ok k' msgs \/
     local ri = false /\ cancelled ri = false /\
     exists rest, stream_ok k' (msgs ++ [enc32 RESPONSE_SOLICITED ++ enc32 (token ri) ++ rest])).
Proof.
  intros Hok Hst Hr. destruct t as [a|]; [|left; rewrite (complete_unknown s l None) in Hr by done; congruence].
  destruct (decide (a ∈ l)) as [Ha|Ha]; [|left; rewrite (complete_unknown s l (Some a)) in Hr by (done || by intros ? [= <-]); congruence].
  right. apply list_elem_of_split in Ha as (l1 & l2 & ->).
  destruct (chain_lookup _ _ _ a (pend_chain _ _ Hok)) as [ri Hri]; [set_solver|].
  destruct (complete_pending s l1 a l2 ri e r len Hok Hri) as (m' & h' & Hok' & Hs & Hrun). rewrite Hrun in Hr.
  exists l1, a, l2, ri, m', h'. destruct (local ri || cancelled ri) eqn:Elc.
  - injection Hr as <-. exists (sock s). rewrite with_sock_same. split_and!; auto.
  - apply orb_false_elim in Elc as [El Ec]. destruct (s_commands !! pCI ri) as [ci|]; [|done].
    rewrite response_parcel_result in Hr. destruct (payload_of _ _ _ _) as [[ret w]| |]; [|done|done].
    unfold sendResponse in Hr.
    destruct (sendResponseRaw_run (with_reqs m' h' s)
      (enc32 RESPONSE_SOLICITED ++ enc32 (token ri) ++ enc32 (if ret =? 0 then e else ret) ++ w) msgs Hst)
      as (sret & k' & Hsend & Hfd & Hcase).
    rewrite Hsend in Hr. unfold free_req in Hr. simpl in Hr.
    destruct (same_content_lookup _ _ _ _ Hs Hri) as (ri' & Hri' & _). rewrite Hri' in Hr. injection Hr as <-.
    exists k'. split_and!; try done.
    + by destruct Hok'.
    + destruct Hcase as [[_ Hk]|[_ Hk]]; [right|by left]. split_and!; [done|done|]. eauto.
Qed.

(** ** Cancelling *)

Lemma cancel_loop_run s l m fuel h :
  (length l < fuel)%nat -> chain m h l -> NoDup l -> reqs s = m ->
  exists m', cancel_loop fuel h s = Ret (tt, with_reqs m' (s_pendingRequests s) s) /\
    forall a, m' !! a = if decide (a ∈ l) then with_cancelled <$> m !! a else m !! a.
Proof.
  revert s m fuel h. induction l as [|a l IH]; intros s m fuel h Hf Hc Hn Hm; (destruct fuel as [|fuel]; [simpl in Hf; lia|]).
  - simpl in Hc. subst h. exists m. split; [|done]. simpl. rewrite <- Hm. by destruct s.
  - destruct Hc as (-> & r & Hr & Hc). apply NoDup_cons in Hn as [Ha Hn]. cbn [cancel_loop].
    assert (Hu : update_req a with_cancelled s = Ret (tt, with_reqs (<[a := with_cancelled r]> m) (s_pendingRequests s) s)).
    { unfold update_req. by rewrite Hm, Hr. }
    erewrite bind_run by done. erewrite bind_run by (apply load_req_run; simpl; apply lookup_insert_eq).
    destruct (IH (with_reqs (<[a := with_cancelled r]> m) (s_pendingRequests s) s) (<[a := with_cancelled r]> m) fuel (p_next (with_cancelled r)))
      as (m' & Hrun & Hm').
    + simpl in Hf. lia.
    + eapply chain_frame; [done|]. intros b Hb. apply lookup_insert_ne. by intros ->.
    + done.
    + done.
    + exists m'. split; [exact Hrun|]. intros b. rewrite Hm'. destruct (decide (a = b)) as [<-|Hne].
      * rewrite decide_False by done. rewrite decide_True by apply list_elem_of_here. by rewrite lookup_insert_eq, Hr.
      * rewrite lookup_insert_ne by done. destruct (decide (b ∈ l)).
        -- by rewrite decide_True by (by apply list_elem_of_further).
        -- rewrite decide_False; [done|]. by intros [->|?]%elem_of_cons.
Qed.

Lemma chain_fmap m h l : chain m h l -> chain (with_cancelled <$> m) h l.
Proof.
  revert h. induction l as [|a l IH]; intros h; [done|]. intros (-> & r & Hr & Hc). split; [done|].
  exists (with_cancelled r). split; [by rewrite lookup_fmap, Hr|]. by apply IH.
Qed.

(** Closing the socket cancels every request and keeps them pending. *)
Lemma onCommandsSocketClosed_run s l : pending_ok s l ->
  onCommandsSocketClosed s = Ret (tt, with_reqs (with_cancelled <$> reqs s) (s_pendingRequests s) s) /\
  pending_ok (with_reqs (with_cancelled <$> reqs s) (s_pendingRequests s) s) l.
Proof.
  intros Hok. split.
  - unfold onCommandsSocketClosed. erewrite bind_run by done.
    destruct (cancel_loop_run s l (reqs s) (S (size (reqs s))) (s_pendingRequests s)) as (m' & Hr & Hm').
    + rewrite (pending_length _ _ Hok). lia.
    + apply (pend_chain _ _ Hok).
    + apply (pend_nodup _ _ Hok).
    + done.
    + rewrite Hr. do 3 f_equal. apply map_eq. intros a. rewrite Hm', lookup_fmap. destruct (decide (a ∈ l)) as [|Ha]; [done|].
      assert (Hd : a ∉ dom (reqs s)) by (rewrite (pend_dom _ _ Hok); set_solver). apply not_elem_of_dom in Hd. by rewrite Hd.
  - split; simpl; [apply chain_fmap, (pend_chain _ _ Hok)|apply (pend_nodup _ _ Hok)|].
    rewrite dom_fmap_L. apply (pend_dom _ _ Hok).
Qed.

End Complete.

(** ** Completion on a healthy connection *)

Definition healthy (s : rstate) : Prop := 0 <= fdCommand (sock s) /\ fd_open (sock s) = true /\ io (sock s) = [].

(** The state after the parcel [p] went out. *)
Definition sent (p : bytes) (s : rstate) : rstate :=
  with_sock (Sock (fdCommand (sock s)) true (wire (sock s) ++ frame p) []) (listening s) s.

(** The parcel that answers a request. *)
Definition reply_parcel {P : ParcelOps} (tok e : Z) (w : bytes) : bytes := enc32 RESPONSE_SOLICITED ++ enc32 tok ++ enc32 e ++ w.

Section Healthy.
Context {P : ParcelOps} {H : RilHeader} {HP : Heap} {PL : ParcelLaws P}.

Lemma sendResponse_healthy s p : healthy s -> Z.of_nat (length p) <= MAX_COMMAND_BYTES -> sendResponse p s = Ret (0, sent p s).
Proof. intros (Hf & Ho & Hi) Hl. by apply sendResponseRaw_healthy. Qed.

Lemma complete_healthy s l1 a l2 ri ci e r len ret w :
  pending_ok s (l1 ++ a :: l2) -> reqs s !! a = Some ri -> local ri = false -> cancelled ri = false ->
  s_commands !! pCI ri = Some ci -> payload_of (version s) (responseFunction ci) r len = Ret (ret, w) -> healthy s ->
  Z.of_nat (length (reply_parcel (token ri) (if ret =? 0 then e else ret) w)) <= MAX_COMMAND_BYTES ->
  exists m' h', RIL_onRequestComplete (Some a) e r len s =
      Ret (tt, with_reqs m' h' (sent (reply_parcel (token ri) (if ret =? 0 then e else ret) w) s)) /\
    pending_ok (with_reqs m' h' (sent (reply_parcel (token ri) (if ret =? 0 then e else ret) w) s)) (l1 ++ l2) /\
    (forall b, b <> a -> content <$> m' !! b = content <$> reqs s !! b).
Proof.
  intros Hok Hri Hl Hc Hci Hp Hh Hlen. destruct (complete_pending s l1 a l2 ri e r len Hok Hri) as (m' & h' & Hok' & Hs & Hr).
  exists (delete a m'), h'. rewrite Hr, Hl, Hc, Hci. cbn [orb]. rewrite response_parcel_result, Hp.
  assert (Hsend : sendResponse (reply_parcel (token ri) (if ret =? 0 then e else ret) w) (with_reqs m' h' s) =
    Ret (0, sent (reply_parcel (token ri) (if ret =? 0 then e else ret) w) (with_reqs m' h' s)))
    by (by apply sendResponse_healthy).
  unfold reply_parcel in *. rewrite Hsend. unfold free_req. simpl.
  destruct (same_content_lookup _ _ _ _ Hs Hri) as (ri' & Hri' & _). rewrite Hri'. split; [done|]. split; [by destruct Hok'|].
  intros b Hb. rewrite lookup_delete_ne by done. apply Hs.
Qed.

End Healthy.

(** ** The nesting of notifications *)

Section Nesting.
Context {P : ParcelOps} {H : RilHeader} {HP : Heap}.

Lemma bind_ext {S A B} (m m' : M S A) (k k' : A -> M S B) s :
  m s = m' s -> (forall a s', k a s' = k' a s') -> (m ≫= k) s = (m' ≫= k') s.
Proof. intros Hm Hk. unfold mbind, M_bind. rewrite Hm. destruct (m' s) as [[a s']| |]; [apply Hk|done|done]. Qed.

(** The notifications that a change of the radio state causes. *)
Definition nested_codes : list Z :=
  [ril "RIL_UNSOL_VOICE_RADIO_TECH_CHANGED"; ril "RIL_UNSOL_CDMA_SUBSCRIPTION_SOURCE_CHANGED";
   ril "RIL_UNSOL_RESPONSE_SIM_STATUS_CHANGED"].

Lemma processRadioState_ext (f g : Z -> response -> Z -> M rstate unit) r s :
  (forall c, c ∈ nested_codes -> forall d len s', f c d len s' = g c d len s') ->
  processRadioState f r s = processRadioState g r s.
Proof.
  intros Hfg. unfold processRadioState. destruct (_ && _); [|done].
  repeat match goal with
  | |- _ => apply Hfg; unfold nested_codes; set_solver
  | |- (_ ≫= _) _ = _ => apply bind_ext; [|intros ??; cbn beta]
  | |- (if ?c then _ else _) _ = _ => destruct c
  | |- ?x = ?x => reflexivity
  end.
Qed.

Lemma unsolicited_unnested n u d len s :
  convert_unsol u <> ril "RIL_UNSOL_RESPONSE_RADIO_STATE_CHANGED" -> unsolicited (S n) u d len s = unsolicited 1 u d len s.
Proof.
  intros Hu. cbn [unsolicited]. destruct (conv_unsupported u); [done|].
  apply bind_ext; [done|intros s0 s1]. destruct (negb _); [done|]. destruct (_ || _); [done|].
  destruct (s_unsolResponses !! _) as [info|]; [|done].
  apply bind_ext; [done|intros _ s2]. apply bind_ext; [done|intros [ret p] s3]. destruct (negb _); [done|].
  apply bind_ext; [|done]. unfold more_payload.
  by destruct (Z.eqb_spec (convert_unsol u) (ril "RIL_UNSOL_RESPONSE_RADIO_STATE_CHANGED")).
Qed.

(** Two levels are enough: more fuel changes nothing. *)
Lemma unsolicited_fuel_enough n u d len s :
  (forall c, c ∈ nested_codes -> convert_unsol c <> ril "RIL_UNSOL_RESPONSE_RADIO_STATE_CHANGED") ->
  unsolicited (S (S n)) u d len s = RIL_onUnsolicitedResponse u d len s.
Proof.
  intros Hn. unfold RIL_onUnsolicitedResponse.
  assert (Hstep : forall a b, (forall c, c ∈ nested_codes -> forall d len s', unsolicited a c d len s' = unsolicited b c d len s') ->
    unsolicited (S a) u d len s = unsolicited (S b) u d len s).
  { intros a b Hab. cbn [unsolicited]. destruct (conv_unsupported u); [done|].
    apply bind_ext; [done|intros s0 s1]. destruct (negb _); [done|]. destruct (_ || _); [done|].
    destruct (s_unsolResponses !! _) as [info|]; [|done].
    apply bind_ext; [done|intros _ s2]. apply bind_ext; [done|intros [ret p] s3]. destruct (negb _); [done|].
    apply bind_ext; [|done]. unfold more_payload. destruct (_ =? _); [|done].
    apply bind_ext; [done|intros s4 s5]. apply bind_ext; [by apply processRadioState_ext|done]. }
  apply Hstep. intros c Hc d' len' s'. apply unsolicited_unnested. auto.
Qed.

End Nesting.
