(* ===== verification/RilSystem.v ===== *)
(** * libril/ril.cpp: the daemon as a transition system

    The remaining entry points (the command callback, registration, timers)
    and the step relation: what the socket, the vendor library and the timers
    can make libril do, one function after another.  A configuration is the state of libril and the tokens
    of the commands received on the current connection. *)

From S2P Require Import Prelude Parcel RilTypes RilResponse RilTables RilCore RilDispatch RilFacts.

Section System.
Context {P : ParcelOps} {H : RilHeader} {HP : Heap}.
Variable junk : Z.
Variable stack_limit : Z.

(** [processCommandsCallback]: the records that the record stream returns,
    and whether it then reports the end of the stream or a fatal error. *)
Fixpoint commands_loop (records : list bytes) : R unit :=
  match records with
  | [] => mret tt
  | r :: rest => processCommandBuffer junk stack_limit r;; commands_loop rest
  end.

Definition processCommandsCallback (records : list bytes) (closed : bool) : R unit :=
  commands_loop records;;
  if closed then
    modify (fun s => with_sock (Sock (-1) false (wire (sock s)) (io (sock s))) true s);;
    onCommandsSocketClosed
  else mret tt.

(** The self-check of [RIL_register]. *)
Definition self_check : bool :=
  forallb (fun ic => Z.of_nat ic.1 =? requestNumber ic.2) (imap pair s_commands) &&
  forallb (fun iu => Z.of_nat iu.1 + ril "RIL_UNSOL_RESPONSE_BASE" =? unsolNumber iu.2) (imap pair s_unsolResponses).

(** [RIL_register]: [callbacks] is the version of the vendor functions,
    [ndebug] says that [assert] is compiled out, [fdListen] and [fdDebug] are
    the control sockets, negative when they are missing or cannot listen, in
    which case the daemon exits. *)
Definition RIL_register (ndebug : bool) (callbacks : option Z) (fdListen fdDebug : Z) : R unit :=
  match callbacks with
  | None => mret tt
  | Some v =>
      if negb (v =? RIL_VERSION_V3) then mret tt else
      s ← get;
      if s_registerCalled s then mret tt else
      modify (fun s => with_register true v (with_sock (Sock (-1) false [] []) (listening s) s));;
      if negb (ndebug || self_check) then abort else
      if fdListen <? 0 then abort else
      listen_again;;
      if fdDebug <? 0 then abort else mret tt
  end.

Definition RIL_requestTimedCallback (f param : Z) : R unit :=
  internalRequestTimedCallback (VendorCallback f) param;; mret tt.

(** ** Steps *)

(** The state when the library is loaded. *)
Definition initial (radio clock : Z) : rstate :=
  RS ∅ None (Sock 0 false [] []) false [] false 0 (-1) (-1) (-1) None false ∅ None [] radio clock.

(** The vendor's answers to [onStateRequest] and the clock change. *)
Definition with_vendor (radio clock : Z) (s : rstate) : rstate :=
  RS (reqs s) (s_pendingRequests s) (sock s) (listening s) (calls s) (s_registerCalled s) (version s)
    (voiceRadioTech s) (cdmaSubscriptionSource s) (simRuimStatus s) (s_lastNITZTimeData s) (wake_lock s) (timed s)
    (s_last_wake_timeout_info s) (timer_calls s) radio clock.

(** The token of a command record that has a complete header. *)
Definition command_token (buffer : bytes) : option Z :=
  '(_, r) ← dec32 buffer; '(t, _) ← dec32 r; mret t.

Definition connected (s : rstate) : Prop := s_registerCalled s = true /\ 0 <= fdCommand (sock s).

(** The vendor library may complete any token at any time, with any response;
    it may send any notification. *)
Inductive ril_step : rstate * list Z -> rstate * list Z -> Prop :=
| step_register s rc nd v f d s' :
    RIL_register nd v f d s = Ret (tt, s') -> ril_step (s, rc) (s', rc)
| step_connect s rc fd peer results s' :
    listening s = true -> listenCallback fd peer results s = Ret (tt, s') ->
    ril_step (s, rc) (s', if (0 <=? fd) && peer then [] else rc)
| step_commands s rc records closed s' :
    connected s -> processCommandsCallback records closed s = Ret (tt, s') ->
    ril_step (s, rc) (s', rc ++ omap command_token records)
| step_complete s rc t e r len s' :
    RIL_onRequestComplete t e r len s = Ret (tt, s') -> ril_step (s, rc) (s', rc)
| step_unsolicited s rc u r len s' :
    RIL_onUnsolicitedResponse u r len s = Ret (tt, s') -> ril_step (s, rc) (s', rc)
| step_local s rc q d len s' :
    issueLocalRequest q d len s = Ret (tt, s') -> ril_step (s, rc) (s', rc)
| step_request_timer s rc f p s' :
    RIL_requestTimedCallback f p s = Ret (tt, s') -> ril_step (s, rc) (s', rc)
| step_timer s rc a s' :
    is_Some (timed s !! a) -> userTimerCallback a s = Ret (tt, s') -> ril_step (s, rc) (s', rc)
| step_vendor s rc radio clock : ril_step (s, rc) (with_vendor radio clock s, rc).

Inductive reachable : rstate * list Z -> Prop :=
| reach_initial radio clock : reachable (initial radio clock, [])
| reach_step c c' : reachable c -> ril_step c c' -> reachable c'.

(** ** Preservation *)

Definition keeps {A} (I : rstate -> Prop) (m : R A) : Prop := forall s a s', I s -> m s = Ret (a, s') -> I s'.

Lemma keeps_ret {A} I (a : A) : keeps I (mret a : R A).
Proof. by intros s b s' HI [= _ <-]. Qed.
Lemma keeps_fault {A} I : keeps I (@fault rstate A).
Proof. done. Qed.
Lemma keeps_get I : keeps I get.
Proof. by intros s b s' HI [= _ <-]. Qed.
Lemma keeps_bind {A B} I (m : R A) (k : A -> R B) : keeps I m -> (forall a, keeps I (k a)) -> keeps I (m ≫= k).
Proof. intros Hm Hk s b s' HI Hr. apply bind_inv in Hr as (a & s1 & H1 & H2). eapply Hk; [|done]. by eapply Hm. Qed.
Lemma keeps_if {A} I (c : bool) (m1 m2 : R A) : keeps I m1 -> keeps I m2 -> keeps I (if c then m1 else m2).
Proof. by destruct c. Qed.
Lemma keeps_on_parcel {A} I (m : M bytes A) p : keeps I (on_parcel m p).
Proof. intros s a s' HI. unfold on_parcel. destruct (m p); [|done|done]. by intros [= _ <-]. Qed.
Lemma keeps_load_req I a : keeps I (load_req a).
Proof. intros s b s' HI. unfold load_req. destruct (reqs s !! a); [|done]. by intros [= _ <-]. Qed.
Lemma keeps_modify I f : (forall s, I s -> I (f s)) -> keeps I (modify f).
Proof. intros Hf s a s' HI [= _ <-]. by apply Hf. Qed.

End System.

Create HintDb keeps.
#[export] Hint Resolve keeps_ret keeps_fault keeps_get keeps_on_parcel keeps_load_req : keeps.

(** Follows the structure of a computation. *)
Ltac keeps_tac :=
  repeat first
    [ progress eauto 1 with keeps
    | apply keeps_bind; [|intros ?] | apply keeps_if
    | match goal with |- keeps _ (match ?x with _ => _ end) => destruct x end ].
