(* ===== verification/RilInv.v ===== *)
(** * Invariants of the RIL daemon *)

From S2P Require Import Prelude Parcel RilTypes RilResponse RilTables RilCore RilDispatch RilFacts RilSystem.

Section Invariant.
Context {P : ParcelOps} {H : RilHeader} {HP : Heap} {PL : ParcelLaws P} {HL : HeapLaws HP}.
Variable junk : Z.
Variable stack_limit : Z.

(** ** Replies and outstanding requests *)

(** The token of a message that answers a request. *)
Definition reply_token (p : bytes) : option Z :=
  match dec32 p with
  | Some (0, r) => fst <$> dec32 r
  | _ => None
  end.

Definition replies (msgs : list bytes) : list Z := omap reply_token msgs.

(** The token of a request that will be answered when it completes. *)
Definition live (r : RequestInfo) : option Z :=
  if local r || cancelled r then None else Some (s32 (token r)).

Definition outstanding (m : gmap nat RequestInfo) (l : list nat) : list Z := omap (fun a => m !! a ≫= live) l.

Record inv_at (rc : list Z) (s : rstate) (l : list nat) (msgs : list bytes) : Prop := {
  inv_pending : pending_ok s l;
  inv_stream : stream_ok (sock s) msgs;
  (** Replies and outstanding requests are distinct commands received. *)
  inv_tokens : replies msgs ++ outstanding (reqs s) l ⊆+ rc;
  inv_closed : ~ connected s -> outstanding (reqs s) l = [];
  inv_listening : listening s = true -> ~ connected s;
  inv_nitz : forall d, s_lastNITZTimeData s = Some d -> reply_token d = None
}.

Definition ril_inv (rc : list Z) (s : rstate) : Prop := exists l msgs, inv_at rc s l msgs.

Lemma reply_token_solicited tok rest : reply_token (enc32 RESPONSE_SOLICITED ++ enc32 tok ++ rest) = Some (s32 tok).
Proof. unfold reply_token. by rewrite dec32_enc32, dec32_enc32. Qed.

Lemma reply_token_unsolicited rest : reply_token (enc32 RESPONSE_UNSOLICITED ++ rest) = None.
Proof. unfold reply_token. by rewrite dec32_enc32. Qed.

Lemma replies_app m1 m2 : replies (m1 ++ m2) = replies m1 ++ replies m2.
Proof. apply omap_app. Qed.

Lemma outstanding_app m l1 l2 : outstanding m (l1 ++ l2) = outstanding m l1 ++ outstanding m l2.
Proof. apply omap_app. Qed.

Lemma outstanding_cons m a l : outstanding m (a :: l) =
  match m !! a ≫= live with Some t => t :: outstanding m l | None => outstanding m l end.
Proof. done. Qed.

Lemma outstanding_content m m' l : (forall a, a ∈ l -> content <$> m' !! a = content <$> m !! a) ->
  outstanding m' l = outstanding m l.
Proof.
  induction l as [|a l IH]; intros Hs; [done|]. rewrite !outstanding_cons.
  assert (E : m' !! a ≫= live = m !! a ≫= live).
  { specialize (Hs a (list_elem_of_here _ _)). destruct (m !! a) as [r|], (m' !! a) as [r'|]; simpl in *; try done.
    apply (inj Some) in Hs. injection Hs as Ht _ Hc Hl. unfold live. by rewrite Ht, Hc, Hl. }
  rewrite E, IH; [done|]. intros b Hb. apply Hs. by apply list_elem_of_further.
Qed.

(** ** Steps that do not touch requests, socket or the stored message *)

Definition same_requests (s s' : rstate) : Prop :=
  reqs s' = reqs s /\ s_pendingRequests s' = s_pendingRequests s /\ sock s' = sock s /\ listening s' = listening s /\
  s_registerCalled s' = s_registerCalled s /\ s_lastNITZTimeData s' = s_lastNITZTimeData s.

Lemma inv_same rc s s' : same_requests s s' -> ril_inv rc s -> ril_inv rc s'.
Proof.
  intros (E1 & E2 & E3 & E4 & E5 & E6) (l & msgs & [[Hc Hn Hd] Hst Ht Hcl Hli Hz]). exists l, msgs.
  unfold connected in *. split; unfold connected; rewrite ?E1, ?E2, ?E3, ?E4, ?E5, ?E6; try done.
  split; by rewrite ?E1, ?E2.
Qed.

Lemma keeps_same rc f : (forall s, same_requests s (f s)) -> keeps (ril_inv rc) (modify f).
Proof. intros Hf. apply keeps_modify. intros s. by apply inv_same. Qed.

(** ** Sending *)

Lemma inv_send rc s l msgs d ret s' :
  inv_at rc s l msgs -> reply_token d = None -> sendResponseRaw d s = Ret (ret, s') -> ril_inv rc s'.
Proof.
  intros [Hp Hst Ht Hcl Hli Hz] Hd Hr. destruct (sendResponseRaw_run s d msgs Hst) as (ret' & k' & Hr' & Hfd & Hcase).
  rewrite Hr' in Hr. injection Hr as <- <-.
  assert (Hconn : connected (with_sock k' (listening s) s) <-> connected s) by (unfold connected; simpl; by rewrite Hfd).
  assert (Hp' : pending_ok (with_sock k' (listening s) s) l) by (by destruct Hp).
  destruct Hcase as [[_ Hk]|[_ Hk]].
  - exists l, (msgs ++ [d]). split; try done; [|intros Hx; apply Hcl; tauto|intros Hx; rewrite Hconn; auto].
    rewrite replies_app. unfold replies at 2. simpl. by rewrite Hd, app_nil_r.
  - exists l, msgs. split; try done; [intros Hx; apply Hcl; tauto|intros Hx; rewrite Hconn; auto].
Qed.

Lemma keeps_send rc d : reply_token d = None -> keeps (ril_inv rc) (sendResponse d).
Proof. intros Hd s a s' (l & msgs & Hi) Hr. by eapply inv_send. Qed.

(** ** Completion *)

Lemma keeps_complete rc t e r len : keeps (ril_inv rc) (RIL_onRequestComplete t e r len).
Proof.
  intros s [] s' (l & msgs & Hi) Hr. pose proof Hi as [Hp Hst Ht Hcl Hli Hz].
  destruct (complete_inv s l t e r len s' msgs Hp Hst Hr) as [->|(l1 & a & l2 & ri & m' & h' & k' & -> & Hri & -> & Hfd & Hp' & Hs & Hcase)];
    [by exists l, msgs|].
  set (s' := with_reqs _ _ _) in *.
  assert (Hnin : a ∉ l1 ++ l2).
  { pose proof (pend_nodup _ _ Hp) as Hn. apply NoDup_app in Hn as (_ & Hx & [Ha _]%NoDup_cons).
    intros [?%Hx|?]%elem_of_app; set_solver. }
  assert (Hout : outstanding (reqs s') (l1 ++ l2) = outstanding (reqs s) l1 ++ outstanding (reqs s) l2).
  { rewrite <- outstanding_app. apply outstanding_content. intros b Hb. simpl. rewrite lookup_delete_ne by (by intros ->).
    apply Hs. }
  assert (Hone : outstanding (reqs s) (l1 ++ a :: l2) =
    outstanding (reqs s) l1 ++ (match live ri with Some t => [t] | None => [] end) ++ outstanding (reqs s) l2).
  { rewrite outstanding_app. f_equal. rewrite outstanding_cons, Hri. simpl. by destruct (live ri). }
  assert (Hconn : connected s' <-> connected s) by (unfold connected; simpl; by rewrite Hfd).
  assert (Hclosed : ~ connected s' -> outstanding (reqs s') (l1 ++ l2) = []).
  { intros Hx. rewrite Hout. rewrite Hconn in Hx. apply Hcl in Hx. rewrite Hone in Hx.
    apply app_eq_nil in Hx as [-> Hx]. by apply app_eq_nil in Hx as [_ ->]. }
  rewrite Hone in Ht. destruct Hcase as [Hk|(Hloc & Hcan & rest & Hk)].
  - exists (l1 ++ l2), msgs. split; try done; [|intros Hx; rewrite Hconn; auto].
    rewrite Hout. etrans; [|exact Ht]. apply submseteq_app; [done|]. apply submseteq_app; [done|]. apply submseteq_inserts_l.
    done.
  - exists (l1 ++ l2), (msgs ++ [enc32 RESPONSE_SOLICITED ++ enc32 (token ri) ++ rest]).
    split; try done; [|intros Hx; rewrite Hconn; auto].
    rewrite Hout, replies_app. unfold replies at 2. simpl. rewrite reply_token_solicited.
    unfold live in Ht. rewrite Hloc, Hcan in Ht. simpl in Ht. etrans; [|exact Ht]. apply Permutation_submseteq.
    rewrite <- app_assoc. apply Permutation_app_head. simpl. by rewrite Permutation_middle.
Qed.

(** ** Dispatch *)

Lemma keeps_onRequest rc q d len t : keeps (ril_inv rc) (onRequest q d len t).
Proof. by apply keeps_same. Qed.

Lemma keeps_call rc pRI d len : keeps (ril_inv rc) (CALL_ONREQUEST pRI d len).
Proof. unfold CALL_ONREQUEST. pose proof keeps_onRequest. keeps_tac. Qed.

Lemma keeps_dispatch_with rc parse p pRI : keeps (ril_inv rc) (dispatch_with parse p pRI).
Proof. unfold dispatch_with, dispatch_parsed, invalidCommandBlock. pose proof keeps_call. keeps_tac. Qed.

Lemma keeps_strcmp I a b : keeps I (strcmp_eq a b).
Proof. unfold strcmp_eq. keeps_tac. Qed.

Lemma keeps_radio rc f g h : keeps (ril_inv rc) (modify (fun s => with_radio (f s) (g s) (h s) s)).
Proof. by apply keeps_same. Qed.

Lemma keeps_dispatch rc f p pRI : keeps (ril_inv rc) (call_dispatch junk stack_limit f p pRI).
Proof.
  pose proof (keeps_dispatch_with rc) as Hd. pose proof (keeps_call rc) as Hc. pose proof (keeps_strcmp (ril_inv rc)) as Hs.
  pose proof (keeps_complete rc) as Hr. pose proof (keeps_radio rc) as Hm.
  destruct f; simpl; try apply Hd;
    unfold dispatchVoid, dispatchDial, dispatchSIM_IO, dispatchQueryFacility, dispatchSetFacility, dispatchDataCall,
      dispatchVoiceRadioTech, dispatchCdmaSubscriptionSource, dispatchImsSms, dispatchImsGsmSms, dispatchImsCdmaSms,
      dispatchStrings, facility_slot, invalidCommandBlock; keeps_tac.
Qed.

(** ** Commands *)

Lemma submseteq_insert_middle (A B rc : list Z) t : A ++ B ⊆+ rc -> A ++ t :: B ⊆+ rc ++ [t].
Proof.
  intros Hs. rewrite <- Permutation_middle, (Permutation_app_comm rc [t]). simpl. by apply submseteq_skip.
Qed.

(** A new request is outstanding. *)
Lemma push_inv rc s tok ci a s' : ril_inv rc s -> connected s -> s32 tok = tok ->
  push_request tok ci false s = Ret (a, s') -> ril_inv (rc ++ [tok]) s' /\ connected s'.
Proof.
  intros (l & msgs & [[Hc Hn Hd] Hst Ht Hcl Hli Hz]) Hconn Htok [= <- <-].
  set (a := fresh_addr (dom (reqs s))). assert (Ha : a ∉ dom (reqs s)) by apply fresh_addr_new.
  split; [|done]. assert (Hnl : a ∉ l) by (rewrite Hd in Ha; set_solver). exists (a :: l), msgs.
  assert (Hfr : forall b, b ∈ l -> <[a := RI tok ci (s_pendingRequests s) false false]> (reqs s) !! b = reqs s !! b)
    by (intros b Hb; apply lookup_insert_ne; by intros ->).
  split; try done.
  - split; simpl.
    + split; [done|]. eexists. rewrite lookup_insert_eq. split; [done|]. by eapply chain_frame.
    + by apply NoDup_cons.
    + by rewrite dom_insert_L, Hd.
  - change (reqs (with_reqs ?m _ _)) with m. rewrite outstanding_cons, lookup_insert_eq. unfold live. simpl. rewrite Htok.
    rewrite (outstanding_content (reqs s)) by (intros b Hb; by rewrite Hfr). by apply submseteq_insert_middle.
Qed.

(** An unsupported request is answered at once. *)
Lemma reject_inv rc s tok u s' : ril_inv rc s -> s32 tok = tok -> reject tok s = Ret (u, s') -> ril_inv (rc ++ [tok]) s'.
Proof.
  intros (l & msgs & [Hp Hst Ht Hcl Hli Hz]) Htok Hr. unfold reject in Hr. run_inv Hr. injection Hm as <- <-.
  run_inv Hr. injection Hr as _ <-.
  destruct (sendResponseRaw_run s ((enc32 RESPONSE_SOLICITED ++ enc32 tok) ++ enc32 (ril "RIL_E_GENERIC_FAILURE")) msgs Hst)
    as (ret' & k' & Hr' & Hfd & Hcase). unfold sendResponse in Hm. simpl in Hm.
  rewrite Hr' in Hm. injection Hm as <- <-.
  assert (Hconn : connected (with_sock k' (listening s) s) <-> connected s) by (unfold connected; simpl; by rewrite Hfd).
  assert (Hp' : pending_ok (with_sock k' (listening s) s) l) by (by destruct Hp).
  destruct Hcase as [[_ Hk]|[_ Hk]]; [exists l, (msgs ++ [(enc32 RESPONSE_SOLICITED ++ enc32 tok) ++ enc32 (ril "RIL_E_GENERIC_FAILURE")])|exists l, msgs];
    (split; try done; [|intros Hx; apply Hcl; tauto|intros Hx; rewrite Hconn; auto]).
  - rewrite replies_app. unfold replies at 2. simpl.
    rewrite <- (app_assoc (enc32 RESPONSE_SOLICITED)), reply_token_solicited, Htok. simpl.
    rewrite <- app_assoc. by apply submseteq_insert_middle.
  - etrans; [exact Ht|]. by apply submseteq_inserts_r.
Qed.

Lemma inv_weaken rc rc' s : ril_inv rc s -> ril_inv (rc ++ rc') s.
Proof.
  intros (l & msgs & [Hp Hst Ht Hcl Hli Hz]). exists l, msgs. split; try done. etrans; [exact Ht|]. by apply submseteq_inserts_r.
Qed.

Lemma s32_id x : - 2 ^ 31 <= x < 2 ^ 31 -> s32 x = x.
Proof. apply s32_small. Qed.

(** The header of a record. *)
Lemma read_header_run buf :
  read_header junk buf =
    match dec32 buf with
    | None => match dec32 buf with Some (t, r) => Ret ((NO_ERROR, junk, t), r) | None => Ret ((NOT_ENOUGH_DATA, junk, junk), buf) end
    | Some (q, r) => match dec32 r with Some (t, r') => Ret ((NO_ERROR, q, t), r') | None => Ret ((NOT_ENOUGH_DATA, q, junk), r) end
    end.
Proof.
  unfold read_header, readInt32, mbind, M_bind. destruct (dec32 buf) as [[q r]|] eqn:E; simpl.
  - by destruct (dec32 r) as [[t r']|].
  - by rewrite E.
Qed.

Definition tokens_of (buf : bytes) : list Z := match command_token buf with Some t => [t] | None => [] end.


(** ** What requests leave alone

    Dispatching and completing requests change neither the connection nor the
    wake lock. *)

Definition same_links (s s' : rstate) : Prop :=
  fdCommand (sock s') = fdCommand (sock s) /\ s_registerCalled s' = s_registerCalled s /\ wake_lock s' = wake_lock s /\
  timed s' = timed s /\ s_last_wake_timeout_info s' = s_last_wake_timeout_info s.

Section Stable.
Variable I : rstate -> Prop.
Hypothesis I_stable : forall s s', same_links s s' -> I s -> I s'.

Lemma stable_modify f : (forall s, same_links s (f s)) -> keeps I (modify f).
Proof using I_stable. intros Hf. apply keeps_modify. intros s. by apply I_stable. Qed.

Lemma stable_blockingWrite b : keeps I (blockingWrite b).
Proof using I_stable.
  intros s a s' Hc. unfold blockingWrite. destruct (fd_open (sock s)).
  - destruct (write_loop _ _) as [[ret sent] rest]. intros [= _ <-]. by apply (I_stable s).
  - destruct b; by intros [= _ <-].
Qed.

Lemma stable_send d : keeps I (sendResponse d).
Proof using I_stable. unfold sendResponse, sendResponseRaw. pose proof stable_blockingWrite. keeps_tac. Qed.

Lemma stable_write_link pp n : keeps I (write_link pp n).
Proof using I_stable.
  destruct pp as [a|]; [|by apply stable_modify]. intros s u s' Hc. unfold write_link, update_req.
  destruct (reqs s !! a); [|done]. intros [= _ <-]. by apply (I_stable s).
Qed.

Lemma stable_dequeue fuel a pp : keeps I (dequeue_loop fuel a pp).
Proof using I_stable.
  revert pp. induction fuel as [|fuel IH]; intros pp; simpl; [done|]. pose proof stable_write_link.
  unfold read_link. keeps_tac.
Qed.

Lemma stable_complete t e r len : keeps I (RIL_onRequestComplete t e r len).
Proof using I_stable.
  unfold RIL_onRequestComplete, checkAndDequeueRequestInfo. pose proof stable_dequeue. pose proof stable_send.
  assert (forall a, keeps I (free_req a)).
  { intros a s u s' Hc. unfold free_req. destruct (reqs s !! a); [|done]. intros [= _ <-]. by apply (I_stable s). }
  keeps_tac.
Qed.

Lemma stable_onRequest q d len t : keeps I (onRequest q d len t).
Proof using I_stable. by apply stable_modify. Qed.

Lemma stable_dispatch f p pRI : keeps I (call_dispatch junk stack_limit f p pRI).
Proof using I_stable.
  pose proof stable_onRequest as Ho.
  assert (Hc : forall pRI d len, keeps I (CALL_ONREQUEST pRI d len)) by (intros; unfold CALL_ONREQUEST; keeps_tac).
  assert (Hd : forall parse p pRI, keeps I (dispatch_with parse p pRI)).
  { intros. unfold dispatch_with, dispatch_parsed, invalidCommandBlock. keeps_tac. }
  assert (Hm : forall f g h, keeps I (modify (fun s => with_radio (f s) (g s) (h s) s))) by (intros; by apply stable_modify).
  pose proof (keeps_strcmp I). pose proof stable_complete.
  destruct f; simpl; try apply Hd;
    unfold dispatchVoid, dispatchDial, dispatchSIM_IO, dispatchQueryFacility, dispatchSetFacility, dispatchDataCall,
      dispatchVoiceRadioTech, dispatchCdmaSubscriptionSource, dispatchImsSms, dispatchImsGsmSms, dispatchImsCdmaSms,
      dispatchStrings, facility_slot, invalidCommandBlock; keeps_tac.
Qed.

Lemma stable_push tok ci loc : keeps I (push_request tok ci loc).
Proof using I_stable. intros s a s' Hc [= _ <-]. by apply (I_stable s). Qed.

Lemma stable_command b : keeps I (processCommandBuffer junk stack_limit b).
Proof using I_stable.
  unfold processCommandBuffer, reject. pose proof stable_push. pose proof stable_dispatch. pose proof stable_send. keeps_tac.
Qed.

Lemma stable_commands records : keeps I (commands_loop junk stack_limit records).
Proof using I_stable. induction records; simpl; [apply keeps_ret|]. apply keeps_bind; [apply stable_command|done]. Qed.

Lemma stable_cancel fuel h : keeps I (cancel_loop fuel h).
Proof using I_stable.
  revert h. induction fuel as [|fuel IH]; intros h; simpl; [done|]. destruct h as [a|]; [|apply keeps_ret].
  apply keeps_bind; [|intros _; keeps_tac]. intros s u s' Hc. unfold update_req.
  destruct (reqs s !! a); [|done]. intros [= _ <-]. by apply (I_stable s).
Qed.
End Stable.

Lemma connected_stable s s' : same_links s s' -> connected s -> connected s'.
Proof. intros (E1 & E2 & _). unfold connected. by rewrite E1, E2. Qed.

(** ** Records *)

Lemma command_inv rc s buf u s' : ril_inv rc s -> connected s ->
  processCommandBuffer junk stack_limit buf s = Ret (u, s') -> ril_inv (rc ++ tokens_of buf) s' /\ connected s'.
Proof.
  intros Hi Hc Hr. unfold processCommandBuffer in Hr. run_inv Hr. unfold on_parcel in Hm. rewrite read_header_run in Hm.
  unfold tokens_of, command_token. destruct (dec32 buf) as [[q r]|] eqn:E1; simpl.
  2: { injection Hm as <- <-. simpl in Hr. injection Hr as _ <-. split; [by rewrite app_nil_r|done]. }
  destruct (dec32 r) as [[t r']|] eqn:E2; simpl.
  2: { injection Hm as <- <-. simpl in Hr. injection Hr as _ <-. split; [by rewrite app_nil_r|done]. }
  apply dec32_range in E2. apply s32_id in E2. injection Hm as <- <-. simpl in Hr.
  assert (Hrej : reject t s = Ret (u, s') -> ril_inv (rc ++ [t]) s' /\ connected s').
  { intros Hj. split; [by eapply reject_inv|]. unfold reject in Hj. run_inv Hj. injection Hm as <- <-. run_inv Hj.
    injection Hj as _ <-. by apply (stable_send _ connected_stable) in Hm; auto. }
  destruct (_ || _); [by apply Hrej|]. destruct (s_commands !! _) as [ci|]; [|done].
  destruct (requestNumber ci =? 0); [by apply Hrej|]. run_inv Hr.
  destruct (push_inv rc s t _ _ _ Hi Hc E2 Hm) as [Hi' Hc']. destruct (dispatchFunction ci) as [f|]; [|done].
  split; [by eapply keeps_dispatch|by apply (stable_dispatch _ connected_stable) in Hr; auto].
Qed.

Lemma commands_inv rc s records u s' : ril_inv rc s -> connected s ->
  commands_loop junk stack_limit records s = Ret (u, s') -> ril_inv (rc ++ omap command_token records) s' /\ connected s'.
Proof.
  revert rc s. induction records as [|b records IH]; intros rc s Hi Hc Hr; simpl in Hr.
  { injection Hr as _ <-. split; [by rewrite app_nil_r|done]. }
  run_inv Hr. destruct (command_inv rc s b _ _ Hi Hc Hm) as [Hi' Hc']. destruct (IH _ _ Hi' Hc' Hr) as [Hi'' Hc''].
  split; [|done]. rewrite <- app_assoc in Hi''. unfold tokens_of in Hi''. simpl. by destruct (command_token b).
Qed.

Lemma outstanding_cancelled m l : outstanding (with_cancelled <$> m) l = [].
Proof.
  induction l as [|a l IH]; [done|]. rewrite outstanding_cons, lookup_fmap. destruct (m !! a) as [r|]; [|done].
  simpl. unfold live. simpl. by rewrite orb_true_r.
Qed.


(** Cancelling establishes the invariant for a closed socket. *)
Lemma closed_inv rc s l msgs u s' :
  pending_ok s l -> stream_ok (sock s) msgs -> replies msgs ++ outstanding (reqs s) l ⊆+ rc -> ~ connected s ->
  (forall d, s_lastNITZTimeData s = Some d -> reply_token d = None) ->
  onCommandsSocketClosed s = Ret (u, s') -> ril_inv rc s' /\ ~ connected s'.
Proof.
  intros Hp Hst Ht Hnc Hz Hr. destruct (onCommandsSocketClosed_run s l Hp) as [Hr' Hp']. rewrite Hr' in Hr.
  injection Hr as _ <-. split; [|done]. exists l, msgs. split; try done; [|intros _; apply outstanding_cancelled].
  simpl reqs. rewrite outstanding_cancelled, app_nil_r. etrans; [|exact Ht]. by apply submseteq_inserts_r.
Qed.

Lemma stream_closed k msgs fd l : stream_ok k msgs -> stream_ok (Sock fd false (wire k) l) msgs.
Proof.
  unfold stream_ok. simpl. destruct (fd_open k); [|done]. intros ->. exists [], [], (frame []). by rewrite app_nil_r.
Qed.

Lemma process_commands_inv rc s records closed u s' : ril_inv rc s -> connected s ->
  processCommandsCallback junk stack_limit records closed s = Ret (u, s') -> ril_inv (rc ++ omap command_token records) s'.
Proof.
  intros Hi Hc Hr. unfold processCommandsCallback in Hr. run_inv Hr.
  destruct (commands_inv rc s records _ _ Hi Hc Hm) as [Hi' Hc'].
  destruct closed; [|by injection Hr as _ <-]. run_inv Hr. injection Hm0 as _ <-.
  destruct Hi' as (l & msgs & [Hp Hst Ht Hcl Hli Hz]).
  refine (proj1 (closed_inv _ _ l msgs u s' _ _ _ _ _ Hr)); [by destruct Hp|by apply stream_closed|done| |done]. intros [_ Hx].
  simpl in Hx. lia.
Qed.

(** ** Notifications *)

Lemma keeps_wake rc f g h c : keeps (ril_inv rc) (modify (fun s => with_wake (f s) (g s) (h s) (c s) s)).
Proof. by apply keeps_same. Qed.

Lemma keeps_timed rc cb p : keeps (ril_inv rc) (internalRequestTimedCallback cb p).
Proof. intros s a s' Hi [= _ <-]. by apply (inv_same rc s). Qed.

Lemma keeps_schedule rc : keeps (ril_inv rc) scheduleWakeTimeout.
Proof.
  unfold scheduleWakeTimeout. pose proof (keeps_wake rc) as Hw. pose proof (keeps_timed rc).
  keeps_tac; apply (Hw (fun _ => _) (fun _ => _) (fun _ => _) (fun _ => _)).
Qed.

Lemma keeps_radioState rc u st : (forall a b c, keeps (ril_inv rc) (u a b c)) -> keeps (ril_inv rc) (processRadioState u st).
Proof.
  intros Hu. unfold processRadioState. pose proof (keeps_radio rc) as Hm.
  keeps_tac; apply (Hm (fun _ => _) (fun _ => _) (fun _ => _)).
Qed.

(** A parcel that starts as a notification. *)
Definition notification (p : bytes) : Prop := exists w, p = enc32 RESPONSE_UNSOLICITED ++ w.

Lemma notification_no_reply p : notification p -> reply_token p = None.
Proof. intros [w ->]. apply reply_token_unsolicited. Qed.

Lemma notification_app p w : notification p -> notification (p ++ w).
Proof. intros [w' ->]. eexists. by rewrite <- app_assoc. Qed.

Lemma on_parcel_inv {A} (m : M bytes A) p s r s' : on_parcel m p s = Ret (r, s') -> s' = s /\ m p = Ret r.
Proof. unfold on_parcel. destruct (m p); [|done|done]. by intros [= -> <-]. Qed.

Lemma unsol_parcel v f code r len ret p :
  (writeInt32 RESPONSE_UNSOLICITED;; writeInt32 code;; call_response v f r len) [] = Ret (ret, p) -> notification p.
Proof.
  intros E. run_inv E. injection Hm as <- <-. run_inv E. injection Hm as <- <-. rewrite (appends_call_response _ _ _ _ _) in E.
  destruct (call_response _ _ _ _ _) as [[ret' w]| |]; [|done|done]. injection E as <- <-. eexists. simpl.
  by rewrite <- app_assoc.
Qed.

Lemma more_payload_inv rc u code t p s p' s' :
  (forall a b c, keeps (ril_inv rc) (u a b c)) -> notification p -> ril_inv rc s ->
  more_payload u code t p s = Ret (p', s') -> ril_inv rc s' /\ notification p'.
Proof.
  intros Hu Hp Hi Hr. unfold more_payload in Hr. destruct (code =? _).
  - run_inv Hr. injection Hm as <- <-. run_inv Hr. run_inv Hr. injection Hm0 as <- <-. injection Hr as <- <-.
    split; [by eapply keeps_radioState|by apply notification_app].
  - destruct (code =? _); [|by injection Hr as <- <-]. run_inv Hr. injection Hm as <- <-. injection Hr as <- <-.
    split; [done|by apply notification_app].
Qed.

Lemma inv_nitz_set rc s p : reply_token p = None -> ril_inv rc s -> ril_inv rc (with_nitz (Some p) s).
Proof.
  intros Hp (l & msgs & [[Hc Hn Hd] Hst Ht Hcl Hli Hz]). exists l, msgs. split; try done. by intros d [= <-].
Qed.

Lemma keeps_deliver rc code p sched : notification p -> keeps (ril_inv rc) (deliver code p sched).
Proof.
  intros Hp%notification_no_reply. unfold deliver. pose proof (keeps_send rc p Hp). pose proof (keeps_schedule rc).
  assert (keeps (ril_inv rc) (modify (with_nitz (Some p)))) by (apply keeps_modify; intros s; by apply inv_nitz_set).
  keeps_tac.
Qed.

Lemma keeps_unsolicited rc fuel u r len : keeps (ril_inv rc) (unsolicited fuel u r len).
Proof.
  revert u r len. induction fuel as [|fuel IH]; intros u r len; [done|]. cbn [unsolicited].
  destruct (conv_unsupported u); [apply keeps_ret|]. apply keeps_bind; [apply keeps_get|]. intros s0.
  destruct (negb _); [apply keeps_ret|]. destruct (_ || _); [apply keeps_ret|].
  destruct (s_unsolResponses !! _) as [info|]; [|done].
  pose proof (keeps_wake rc) as Hw. apply keeps_bind; [unfold grabPartialWakeLock; keeps_tac|]. intros _ s v s' Hi Hr.
  run_inv Hr. destruct a as [ret p]. apply on_parcel_inv in Hm as [-> Hp%unsol_parcel].
  destruct (negb (ret =? 0)).
  { revert Hr. apply (keeps_if (ril_inv rc)); [apply Hw|apply keeps_ret|done]. }
  run_inv Hr. destruct (more_payload_inv rc _ _ _ _ _ _ _ IH Hp Hi Hm) as [Hi' Hp']. by eapply keeps_deliver.
Qed.

(** ** Connections and the rest *)

Lemma keeps_connect rc : keeps (ril_inv rc) onNewCommandConnect.
Proof.
  unfold onNewCommandConnect. pose proof (keeps_unsolicited rc) as Hu. unfold RIL_onUnsolicitedResponse.
  apply keeps_bind; [apply keeps_get|]. intros s0. apply keeps_bind; [apply Hu|]. intros _. apply keeps_bind; [apply Hu|].
  intros _.
  intros s v s' Hi Hr. run_inv Hr. injection Hm as <- <-.
  destruct (s_lastNITZTimeData s) as [d|] eqn:Ed; [|by injection Hr as _ <-].
  run_inv Hr. injection Hr as _ <-. destruct Hi as (l & msgs & Hi).
  assert (Hi' := inv_send _ _ _ _ _ _ _ Hi (inv_nitz _ _ _ _ Hi d Ed) Hm).
  destruct Hi' as (l' & msgs' & [[Hc Hn Hd] Hst Ht Hcl Hli Hz]). exists l', msgs'. by split.
Qed.

Lemma listen_inv rc s fd peer results u s' : ril_inv rc s -> listening s = true ->
  listenCallback fd peer results s = Ret (u, s') -> ril_inv (if (0 <=? fd) && peer then [] else rc) s'.
Proof.
  intros (l & msgs & [Hp Hst Ht Hcl Hli Hz]) Hlis Hr. specialize (Hli Hlis). specialize (Hcl Hli).
  unfold listenCallback in Hr. run_inv Hr. injection Hm as _ <-.
  assert (Hagain : forall s1 s2 u, ril_inv rc s1 -> ~ connected s1 -> listen_again s1 = Ret (u, s2) -> ril_inv rc s2).
  { intros s1 s2 u' (l1 & ms1 & [Hp1 Hst1 Ht1 Hcl1 Hli1 Hz1]) Hnc [= _ <-]. exists l1, ms1. split; try done. by destruct Hp1. }
  rewrite Z.ltb_antisym in Hr. destruct (0 <=? fd) eqn:Efd; simpl in Hr |- *.
  2: { eapply Hagain; [|exact Hli|exact Hr]. by exists l, msgs. }
  destruct peer; simpl in Hr |- *.
  - run_inv Hr. injection Hm as _ <-. revert Hr. apply keeps_connect. exists l, []. split; try done.
    + by destruct Hp.
    + simpl. by rewrite Hcl.
  - run_inv Hr.
    destruct (closed_inv rc (with_sock (sock s) false s) l msgs _ _ ltac:(by destruct Hp) Hst Ht Hli Hz Hm) as [Hi' Hnc].
    by eapply Hagain.
Qed.

Lemma register_inv rc s nd v f d u s' : ril_inv rc s -> RIL_register nd v f d s = Ret (u, s') -> ril_inv rc s'.
Proof.
  intros Hi Hr. unfold RIL_register in Hr. destruct v as [v|]; [|by injection Hr as _ <-].
  destruct (negb _); [by injection Hr as _ <-|]. run_inv Hr. injection Hm as <- <-.
  destruct (s_registerCalled s) eqn:Er; [by injection Hr as _ <-|]. run_inv Hr. injection Hm as _ <-.
  destruct (negb _); [done|]. destruct (f <? 0); [done|]. run_inv Hr. injection Hm as _ <-. destruct (d <? 0); [done|].
  injection Hr as _ <-. destruct Hi as (l & msgs & [[Hc Hn Hd] Hst Ht Hcl Hli Hz]).
  assert (Hnc : ~ connected s) by (intros [Hx _]; congruence). specialize (Hcl Hnc).
  exists l, []. split; try done.
  - exists [], [], (frame []). done.
  - simpl reqs. simpl replies. rewrite Hcl. apply submseteq_nil_l.
  - intros _ [_ Hx]. simpl in Hx. lia.
Qed.

Lemma local_inv rc s q d len u s' : ril_inv rc s -> issueLocalRequest q d len s = Ret (u, s') -> ril_inv rc s'.
Proof.
  intros (l & msgs & [[Hc Hn Hd] Hst Ht Hcl Hli Hz]) Hr. unfold issueLocalRequest in Hr. run_inv Hr. revert Hr.
  apply keeps_onRequest.
  injection Hm as <- <-. set (a := fresh_addr (dom (reqs s))). assert (Ha : a ∉ dom (reqs s)) by apply fresh_addr_new.
  assert (Hnl : a ∉ l) by (rewrite Hd in Ha; set_solver). exists (a :: l), msgs.
  assert (Hfr : forall ri b, b ∈ l -> <[a := ri]> (reqs s) !! b = reqs s !! b)
    by (intros ri b Hb; apply lookup_insert_ne; by intros ->).
  assert (Hout : forall ci n, outstanding (<[a := RI (s32 4294967295) ci n false true]> (reqs s)) (a :: l) = outstanding (reqs s) l).
  { intros ci n. rewrite outstanding_cons, lookup_insert_eq. simpl. apply outstanding_content. intros b Hb. by rewrite Hfr. }
  split; try done.
  - split; simpl.
    + split; [done|]. eexists. rewrite lookup_insert_eq. split; [done|]. eapply chain_frame; [done|]. intros b. apply Hfr.
    + by apply NoDup_cons.
    + by rewrite dom_insert_L, Hd.
  - change (reqs (with_reqs ?m _ _)) with m. by rewrite Hout.
  - intros Hx. change (reqs (with_reqs ?m _ _)) with m. rewrite Hout. by apply Hcl.
Qed.

Lemma timer_inv rc s a u s' : ril_inv rc s -> userTimerCallback a s = Ret (u, s') -> ril_inv rc s'.
Proof.
  unfold userTimerCallback. intros Hi. apply (keeps_bind (ril_inv rc)); [apply keeps_get| |done]. intros s0.
  pose proof (keeps_wake rc) as Hw. unfold run_callback, releaseWakeLock. keeps_tac.
Qed.

Lemma step_inv rc s rc' s' : ril_inv rc s -> ril_step junk stack_limit (s, rc) (s', rc') -> ril_inv rc' s'.
Proof.
  intros Hi Hstep. inversion Hstep; subst.
  - by eapply register_inv.
  - by eapply listen_inv.
  - by eapply process_commands_inv.
  - by eapply keeps_complete.
  - by eapply keeps_unsolicited.
  - by eapply local_inv.
  - match goal with Hq : RIL_requestTimedCallback _ _ _ = _ |- _ => rename Hq into Hr end.
    unfold RIL_requestTimedCallback in Hr. run_inv Hr. injection Hr as <-. by eapply keeps_timed.
  - by eapply timer_inv.
  - by apply (inv_same rc' s).
Qed.

Lemma reachable_inv s rc : reachable junk stack_limit (s, rc) -> ril_inv rc s.
Proof.
  intros Hr. remember (s, rc) as c eqn:E. revert s rc E. induction Hr as [radio clock|[s1 rc1] c' Hr IH Hs]; intros s rc E.
  - injection E as <- <-. exists [], []. split; try done.
    + split; [done|constructor|done].
    + exists [], [], (frame []). done.
  - subst c'. eapply step_inv; [|exact Hs]. by apply IH.
Qed.

End Invariant.
