(* ===== verification/RilWake.v ===== *)
(** * The wake lock of the RIL daemon

    A notification that needs attention takes the wake lock; a timer releases
    it.  The invariant says that a held lock always has its release pending
    and that earlier releases are cancelled. *)

From S2P Require Import Prelude Parcel RilTypes RilResponse RilTables RilCore RilDispatch RilFacts RilSystem RilInv.

Definition release_pending : UserCallbackInfo := UserCallback wakeTimeoutCallback 0.

(** The last release is the only one that is not cancelled. *)
Definition wake_ok (s : rstate) : Prop :=
  forall a, timed s !! a = Some release_pending <-> s_last_wake_timeout_info s = Some a.

Definition lock_ok (s : rstate) : Prop := wake_lock s = true -> s_last_wake_timeout_info s <> None.

(** The invariant between calls ([b] true), and while a call holds the lock
    that it has just taken. *)
Definition wake_inv (b : bool) (s : rstate) : Prop := wake_ok s /\ (b = true -> lock_ok s).

Section Wake.
Context {P : ParcelOps} {H : RilHeader} {HP : Heap} {HL : HeapLaws HP}.
Variable junk : Z.
Variable stack_limit : Z.

Lemma wake_stable b s s' : same_links s s' -> wake_inv b s -> wake_inv b s'.
Proof.
  intros (_ & _ & E1 & E2 & E3) [Hw Hl]. unfold wake_inv, wake_ok, lock_ok in *. by rewrite E1, E2, E3.
Qed.

Lemma wake_timed b cb p : (cb = wakeTimeoutCallback -> p <> 0) -> keeps (wake_inv b) (internalRequestTimedCallback cb p).
Proof.
  intros Hcb s a s' [Hw Hl] [= _ <-]. split; [|done]. set (n := fresh_addr (dom (timed s))).
  assert (Hn : n ∉ dom (timed s)) by apply fresh_addr_new. apply not_elem_of_dom in Hn. intros b'. simpl.
  destruct (decide (b' = n)) as [->|Hne]; [|rewrite lookup_insert_ne by done; apply Hw]. rewrite lookup_insert_eq. split.
  - intros [= -> ->]. by destruct Hcb.
  - intros Hx. apply Hw in Hx. congruence.
Qed.

(** Scheduling cancels the last release and leaves exactly the new one. *)
Lemma wake_schedule b s u s' : wake_inv false s -> scheduleWakeTimeout s = Ret (u, s') -> wake_inv b s'.
Proof.
  intros [Hw _] Hr. unfold scheduleWakeTimeout in Hr. split_run Hr as s0 s1 [= <- <-]. split_run Hr as [] s2 Hm.
  split_run Hr as n0 s3 [= <- <-]. injection Hr as _ <-. set (n := fresh_addr (dom (timed s2))).
  assert (Hn : n ∉ dom (timed s2)) by apply fresh_addr_new. apply not_elem_of_dom in Hn.
  split; [|done]. intros a'. simpl. destruct (decide (a' = n)) as [->|Hne]; [by rewrite lookup_insert_eq|].
  rewrite lookup_insert_ne by done. split; [|intros [= ->]; done]. intros Ha. exfalso.
  destruct (s_last_wake_timeout_info s) as [c|] eqn:Ec.
  - destruct (timed s !! c) as [i|] eqn:Ei; [|done]. injection Hm as <-. simpl in Ha.
    destruct (decide (a' = c)) as [->|Hac]; [by rewrite lookup_insert_eq in Ha|]. rewrite lookup_insert_ne in Ha by done.
    apply Hw in Ha. congruence.
  - injection Hm as <-. apply Hw in Ha. congruence.
Qed.

Lemma wake_release b s u s' : wake_inv false s -> releaseWakeLock s = Ret (u, s') -> wake_inv b s'.
Proof. intros [Hw _] [= _ <-]. by split. Qed.

Lemma wake_grab s u s' : wake_inv false s -> grabPartialWakeLock s = Ret (u, s') -> wake_inv false s'.
Proof. intros [Hw _] [= _ <-]. by split. Qed.

Lemma wake_weaken b s : wake_inv b s -> wake_inv false s.
Proof. by intros [Hw _]. Qed.

Lemma wake_radioState b u st : (forall x y z, keeps (wake_inv b) (u x y z)) -> keeps (wake_inv b) (processRadioState u st).
Proof.
  intros Hu. unfold processRadioState. pose proof (stable_modify _ (wake_stable b)) as Hm. keeps_tac; by apply Hm.
Qed.

Lemma wake_more b u code t p : (forall x y z, keeps (wake_inv b) (u x y z)) -> keeps (wake_inv b) (more_payload u code t p).
Proof. intros Hu. unfold more_payload. pose proof (fun st => wake_radioState b u st Hu). keeps_tac. Qed.

Lemma wake_unsolicited b fuel u r len : keeps (wake_inv b) (unsolicited fuel u r len).
Proof.
  revert b u r len. induction fuel as [|fuel IH]; intros b u r len; [done|]. cbn [unsolicited].
  destruct (conv_unsupported u); [apply keeps_ret|]. apply keeps_bind; [apply keeps_get|]. intros s0.
  destruct (negb _); [apply keeps_ret|]. destruct (_ || _); [apply keeps_ret|].
  destruct (s_unsolResponses !! _) as [info|]; [|done].
  assert (Hnitz : forall b p, keeps (wake_inv b) (modify (with_nitz p))) by (intros b' p; by apply (stable_modify _ (wake_stable b'))).
  intros s v s' Hi Hr. run_inv Hr. run_inv Hr. destruct a0 as [ret p]. apply on_parcel_inv in Hm0 as [-> _].
  destruct (wakes (wakeType info)).
  - apply (wake_weaken b) in Hi. apply wake_grab in Hm; [|done]. destruct (negb _); [by eapply wake_release|].
    split_run Hr as p' s2 Hp. apply (wake_more false) in Hp; [|intros; apply IH|done]. unfold deliver in Hr.
    split_run Hr as ret' s3 Hs. split_run Hr as [] s4 Hn. eapply wake_schedule; [|exact Hr].
    apply (stable_send _ (wake_stable false)) in Hs; [|done]. revert Hn.
    apply (keeps_if (wake_inv false)); [apply Hnitz|apply keeps_ret|done].
  - injection Hm as _ <-. destruct (negb _); [by injection Hr as _ <-|]. split_run Hr as p' s2 Hp.
    apply (wake_more b) in Hp; [|intros; apply IH|done]. revert Hr. unfold deliver.
    apply (keeps_bind (wake_inv b)); [apply (stable_send _ (wake_stable b))| |done]. intros ret'. pose proof (Hnitz b). keeps_tac.
Qed.

Lemma wake_timer b s a u s' : wake_inv b s -> userTimerCallback a s = Ret (u, s') -> wake_inv b s'.
Proof.
  intros [Hw Hl] Hr. unfold userTimerCallback in Hr. run_inv Hr. injection Hm as <- <-.
  destruct (timed s !! a) as [i|] eqn:Ea; [|done]. run_inv Hr. injection Hr as _ <-.
  assert (Hrun : timed s0 = timed s /\ s_last_wake_timeout_info s0 = s_last_wake_timeout_info s /\
    (wake_lock s0 = true -> wake_lock s = true /\ i <> release_pending)).
  { destruct i as [[|f] prm]; simpl in Hm.
    - destruct (Z.eqb_spec prm 0) as [->|Hne]; [by injection Hm as _ <-|]. injection Hm as _ <-. split_and!; try done.
      intros ?. split; [done|]. by intros [= ?].
    - injection Hm as _ <-. split_and!; try done. }
  destruct Hrun as (E1 & E2 & E3). split.
  - intros c. simpl. rewrite E1, E2. destruct (decide (c = a)) as [->|Hne].
    + rewrite lookup_delete_eq. split; [done|]. case_bool_decide; congruence.
    + rewrite lookup_delete_ne, (Hw c) by done. case_bool_decide; [|done]. split; congruence.
  - intros -> Hlock. simpl in *. destruct (E3 Hlock) as [Hls Hi]. rewrite E2. case_bool_decide as Hx; [|by apply Hl].
    exfalso. apply Hi. apply Hw in Hx. congruence.
Qed.

Lemma wake_listen_again b : keeps (wake_inv b) listen_again.
Proof. by apply (stable_modify _ (wake_stable b)). Qed.

(** For changes that do not touch the wake lock but the connection. *)
Lemma wake_same b s s' : wake_lock s' = wake_lock s -> timed s' = timed s ->
  s_last_wake_timeout_info s' = s_last_wake_timeout_info s -> wake_inv b s -> wake_inv b s'.
Proof. intros E1 E2 E3 [Hw Hl]. unfold wake_inv, wake_ok, lock_ok in *. by rewrite E1, E2, E3. Qed.

Lemma wake_closed b : keeps (wake_inv b) onCommandsSocketClosed.
Proof. unfold onCommandsSocketClosed. pose proof (stable_cancel _ (wake_stable b)). keeps_tac. Qed.

Lemma wake_connect b : keeps (wake_inv b) onNewCommandConnect.
Proof.
  unfold onNewCommandConnect, RIL_onUnsolicitedResponse. pose proof (wake_unsolicited b) as Hu.
  pose proof (stable_send _ (wake_stable b)) as Hs.
  assert (Hz : keeps (wake_inv b) (modify (with_nitz None))) by (by apply (stable_modify _ (wake_stable b))).
  keeps_tac.
Qed.

Lemma wake_step s rc s' rc' : wake_inv true s -> ril_step junk stack_limit (s, rc) (s', rc') -> wake_inv true s'.
Proof.
  pose proof (wake_closed true) as Hcl. pose proof (wake_connect true) as Hco. pose proof (wake_listen_again true) as Hla.
  assert (Hmod : forall f, (forall s, wake_lock (f s) = wake_lock s /\ timed (f s) = timed s /\
    s_last_wake_timeout_info (f s) = s_last_wake_timeout_info s) -> keeps (wake_inv true) (modify f)).
  { intros f Hf. apply keeps_modify. intros x. destruct (Hf x) as (E1 & E2 & E3). by apply (wake_same true x). }
  intros Hi Hstep.
  inversion Hstep as [? ? nd v f d ? Hr|? ? fd peer res ? Hl Hr|? ? recs closed ? Hc Hr|? ? t e r len ? Hr|? ? u r len ? Hr
    |? ? q d len ? Hr|? ? f p ? Hr|? ? a ? Ha Hr|]; subst.
  - revert Hi Hr. apply (fun Hk => Hk s tt s'). unfold RIL_register.
    destruct v as [v|]; [|apply keeps_ret]. keeps_tac; try done. by apply Hmod.
  - revert Hi Hr. apply (fun Hk => Hk s tt s'). unfold listenCallback. keeps_tac; by apply Hmod.
  - revert Hi Hr. apply (fun Hk => Hk s tt s'). unfold processCommandsCallback.
    pose proof (stable_commands junk stack_limit _ (wake_stable true)). keeps_tac. by apply Hmod.
  - by apply (stable_complete _ (wake_stable true)) in Hr.
  - by apply (wake_unsolicited true) in Hr.
  - unfold issueLocalRequest in Hr. run_inv Hr. apply (stable_onRequest _ (wake_stable true)) in Hr; [done|].
    by apply (stable_push _ (wake_stable true)) in Hm.
  - unfold RIL_requestTimedCallback in Hr. run_inv Hr. injection Hr as <-. by apply (wake_timed true) in Hm.
  - by eapply wake_timer.
  - by apply (wake_same true s).
Qed.

Lemma reachable_wake s rc : reachable junk stack_limit (s, rc) -> wake_inv true s.
Proof.
  intros Hr. remember (s, rc) as c eqn:E. revert s rc E. induction Hr as [radio clock|[s1 rc1] c' Hr IH Hs]; intros s rc E.
  - injection E as <- <-. split; [|done]. intros a. simpl. by rewrite lookup_empty.
  - subst c'. eapply wake_step; [|exact Hs]. by eapply IH.
Qed.

End Wake.
