(* ===== verification/RilCodec.v ===== *)
(** * Payload formats

    The payloads of commands as sequences of parcel fields, and what the
    dispatch functions read from them ([payload_format]; [divergent_format] for
    the functions whose comments describe another payload); the payloads that response functions write, read back by the
    dispatch functions of the same structs. *)

From S2P Require Import Prelude Parcel RilTypes RilResponse RilTables RilCore RilDispatch RilFacts.

Definition int32 (x : Z) : Prop := - 2 ^ 31 <= x < 2 ^ 31.
Definition uint8 (x : Z) : Prop := 0 <= x < 2 ^ 8.

Section Codec.
Context {P : ParcelOps} {H : RilHeader} {HP : Heap} {PL : ParcelLaws P}.
Variable junk : Z.
Variable stack_limit : Z.

(** ** Fields *)

Inductive field : Type := Int (x : Z) | Str (s : cstr) | Byte (x : Z) | Raw (b : bytes).

Definition enc_field (f : field) : bytes :=
  match f with
  | Int x => enc32 x
  | Str s => enc_str (to16 <$> s)
  | Byte x => enc_raw [x]
  | Raw b => enc_raw b
  end.

Definition fields (fs : list field) : bytes := concat (map enc_field fs).

(** What a parcel can represent. *)
Definition field_ok (f : field) : Prop :=
  match f with
  | Int x => int32 x
  | Str s => cstr_ok s
  | _ => True
  end.

Lemma fields_cons f fs r : fields (f :: fs) ++ r = enc_field f ++ fields fs ++ r.
Proof. unfold fields. simpl. by rewrite <- app_assoc. Qed.

Lemma fields_nil r : fields [] ++ r = r.
Proof. done. Qed.

Lemma fields_app fs gs r : fields (fs ++ gs) ++ r = fields fs ++ fields gs ++ r.
Proof. unfold fields. by rewrite map_app, concat_app, <- app_assoc. Qed.

Lemma readInt32_field t x r : int32 x -> readInt32 t (enc_field (Int x) ++ r) = Ret ((NO_ERROR, x), r).
Proof. intros Hx. simpl. by rewrite readInt32_run, s32_small. Qed.

Lemma readInt32_value_field x r : int32 x -> readInt32_value (enc_field (Int x) ++ r) = Ret (x, r).
Proof. intros Hx. simpl. by rewrite readInt32_value_run, s32_small. Qed.

Lemma strdupReadString_field s r : cstr_ok s -> strdupReadString (enc_field (Str s) ++ r) = Ret (s, r).
Proof. apply strdupReadString_run. Qed.

Lemma read_uint8_field t x r : read_uint8 t (enc_field (Byte x) ++ r) = Ret ((NO_ERROR, x), r).
Proof. apply read_uint8_run. Qed.

Lemma read_object_field t x r : int32 x -> read_int32_object t (enc_field (Int x) ++ r) = Ret ((NO_ERROR, x), r).
Proof. apply readInt32_field. Qed.

(** ** Arrays *)

Lemma read_strings_list l r : Forall cstr_ok l ->
  read_list (length l) strdupReadString (fields (map Str l) ++ r) = Ret (l, r).
Proof.
  intros Hl. unfold fields. rewrite map_map. rewrite (read_list_run _ (fun s => enc_field (Str s)) (fun s => s)).
  - by rewrite map_id.
  - intros s r' Hs. apply strdupReadString_field. by rewrite Forall_forall in Hl; apply Hl.
Qed.

Lemma read_ints_run l r : Forall int32 l -> read_ints junk (length l) (fields (map Int l) ++ r) = Ret (Some l, r).
Proof.
  intros Hl. induction Hl as [|x l Hx Hl IH]; [done|]. cbn [read_ints length map]. rewrite fields_cons.
  erewrite bind_run by (by apply readInt32_field). simpl. by erewrite bind_run by done.
Qed.

(** What [read_strings] returns for a count and as many strings. *)
Lemma read_strings_run l r : Forall cstr_ok l -> sizeof_ptr * Z.of_nat (length l) <= stack_limit ->
  read_strings stack_limit (Z.of_nat (length l)) (fields (map Str l) ++ r) =
    Ret ((Some l, sizeof_ptr * Z.of_nat (length l)), r).
Proof.
  intros Hl Hs. unfold read_strings. destruct (Z.eqb_spec (Z.of_nat (length l)) 0) as [E|E].
  { destruct l; [done|simpl in E; lia]. }
  destruct (Z.eqb_spec (Z.of_nat (length l)) (-1)); [lia|]. unfold stack_array.
  destruct (Z.ltb_spec (sizeof_ptr * Z.of_nat (length l)) 0); [unfold sizeof_ptr in *; lia|].
  destruct (Z.ltb_spec stack_limit (sizeof_ptr * Z.of_nat (length l))); [lia|]. simpl.
  erewrite bind_run by done. rewrite Nat2Z.id. erewrite bind_run by (by apply read_strings_list). done.
Qed.

Lemma stack_array_ok n (b : bytes) : 0 <= n <= stack_limit -> stack_array stack_limit n b = Ret (tt, b).
Proof.
  intros Hn. unfold stack_array. destruct (Z.ltb_spec n 0); [lia|]. by destruct (Z.ltb_spec stack_limit n); [lia|].
Qed.

(** [read_structs] over well-formed items: the status is that of the last. *)
Lemma read_structs_run {A} (item : Z -> M bytes (Z * Z * A)) (enc : A -> list field) (ok_item : A -> Prop) l t r :
  (forall t x r, ok_item x -> exists t', item t (fields (enc x) ++ r) = Ret ((NO_ERROR, t', x), r)) ->
  Forall ok_item l ->
  read_structs (length l) NO_ERROR t item (fields (concat (map enc l)) ++ r) = Ret ((NO_ERROR, l), r).
Proof.
  intros Hi Hl. revert t. induction Hl as [|x l Hx Hl IH]; intros t; [done|]. cbn [read_structs length map concat].
  rewrite fields_app. destruct (Hi t x (fields (concat (map enc l)) ++ r) Hx) as [t' E].
  erewrite bind_run by exact E. cbn beta iota. by erewrite bind_run by apply IH.
Qed.


(** ** Formats of payloads

    [payload_format v f d len b]: [b] is a payload in the format of the dispatch
    function [f], and [d] with the length [len] is what the vendor library of
    version [v] is to be given for it.  Where the comment above [f] lists the
    fields of the payload they are these, in this order; the comment above
    [dispatchDial] lists the first two, the fields behind them are those that
    its code reads from version 3 on. *)
Inductive payload_format (v : Z) : dispatch_fn -> request_data -> Z -> list field -> Prop :=
| fmt_void : payload_format v DispatchVoid D_null 0 []
| fmt_string s : cstr_ok s -> payload_format v DispatchString (D_string s) sizeof_ptr [Str s]
| fmt_strings l : Forall cstr_ok l -> sizeof_ptr * Z.of_nat (length l) <= stack_limit -> int32 (Z.of_nat (length l)) ->
    payload_format v DispatchStrings (D_strings (Some l)) (sizeof_ptr * Z.of_nat (length l))
      (Int (Z.of_nat (length l)) :: map Str l)
| fmt_no_strings : payload_format v DispatchStrings (D_strings None) 0 [Int (-1)]
| fmt_ints l : l <> [] -> Forall int32 l -> sizeof_int * Z.of_nat (length l) <= stack_limit ->
    int32 (Z.of_nat (length l)) ->
    payload_format v DispatchInts (D_ints l) (sizeof_int * Z.of_nat (length l)) (Int (Z.of_nat (length l)) :: map Int l)
| fmt_raw b : int32 (Z.of_nat (length b)) ->
    payload_format v DispatchRaw (D_raw (Some b)) (Z.of_nat (length b)) [Int (Z.of_nat (length b)); Raw b]
| fmt_dial a c : cstr_ok (Some a) -> int32 c -> 3 <= v ->
    payload_format v DispatchDial (D_dial (Dial (Some a) c None)) (sizeof "RIL_Dial") [Str (Some a); Int c; Int 0]
| fmt_dial_uus a c ty dcs data : cstr_ok (Some a) -> int32 c -> int32 ty -> int32 dcs ->
    int32 (Z.of_nat (length data)) -> 3 <= v ->
    payload_format v DispatchDial (D_dial (Dial (Some a) c (Some (UUS ty dcs (Z.of_nat (length data)) (Some data)))))
      (sizeof "RIL_Dial") [Str (Some a); Int c; Int 1; Int ty; Int dcs; Int (Z.of_nat (length data)); Raw data]
| fmt_dial_old a c : cstr_ok (Some a) -> int32 c -> v < 3 ->
    payload_format v DispatchDial (D_dial (Dial (Some a) c None)) (sizeof "RIL_Dial" - sizeof_ptr) [Str (Some a); Int c]
| fmt_apdu s c i p1 p2 p3 data : int32 s -> int32 c -> int32 i -> int32 p1 -> int32 p2 -> int32 p3 -> cstr_ok data ->
    payload_format v DispatchSIM_APDU (D_simApdu (SimApdu s c i p1 p2 p3 data)) (sizeof "RIL_SIM_APDU")
      [Int s; Int c; Int i; Int p1; Int p2; Int p3; Str data]
| fmt_callForward st re sc toa n t : int32 st -> int32 re -> int32 sc -> int32 toa -> cstr_ok n -> int32 t ->
    payload_format v DispatchCallForward
      (D_callForward (CallForward st re sc toa (if bool_decide (n = Some []) then None else n) t))
      (sizeof "RIL_CallForwardInfo") [Int st; Int re; Int sc; Int toa; Str n; Int t]
| fmt_smsAck e c : int32 e -> int32 c ->
    payload_format v DispatchCdmaSmsAck (D_cdmaSmsAck e c) (sizeof "RIL_CDMA_SMS_Ack") [Int e; Int c]
| fmt_network n : cstr_ok n ->
    payload_format v DispatchNetworkManual (D_strings (Some [n; Some (lit "NOCHANGE")])) (sizeof_ptr * 2) [Str n]
| fmt_attachApn apn pr au us pw : cstr_ok apn -> cstr_ok pr -> int32 au -> cstr_ok us -> cstr_ok pw ->
    payload_format v DispatchSetInitialAttachApn (D_initialAttachApn apn pr au us pw) (sizeof "RIL_InitialAttachApn")
      [Str apn; Str pr; Int au; Str us; Str pw]
| fmt_nvRead i : int32 i -> payload_format v DispatchNVReadItem (D_nvRead i) (sizeof "RIL_NV_ReadItem") [Int i]
| fmt_nvWrite i x : int32 i -> cstr_ok (Some x) ->
    payload_format v DispatchNVWriteItem (D_nvWrite i (Some x)) (sizeof "RIL_NV_WriteItem") [Int i; Str (Some x)]
| fmt_uicc s a t st : int32 s -> int32 a -> int32 t -> int32 st ->
    payload_format v DispatchUiccSubscripton (D_uiccSub s a t st) (sizeof "RIL_SelectUiccSub") [Int s; Int a; Int t; Int st]
| fmt_simAuth c d aid : int32 c -> cstr_ok d -> cstr_ok aid ->
    payload_format v DispatchSimAuthentication (D_simAuth c d aid) (sizeof "RIL_SimAuthentication") [Int c; Str d; Str aid].

(** What the code reads where the comment lists other fields: the comment above
    [dispatchSmsWrite] does not have the last string; those above
    [dispatchSimPin], [dispatchSimPuk], [dispatchSimPinSet] and
    [dispatchRequestImsi] begin with the slot, for which the code reads a number
    that it ignores, and the first three have the application identifier before
    the codes and not behind them. *)
Inductive divergent_format : dispatch_fn -> request_data -> Z -> list field -> Prop :=
| div_smsWrite st pdu smsc : int32 st -> cstr_ok (Some pdu) -> cstr_ok smsc ->
    divergent_format DispatchSmsWrite (D_smsWrite (SmsWriteArgs st (Some pdu) smsc)) (sizeof "RIL_SMS_WriteArgs")
      [Int st; Str (Some pdu); Str smsc]
| div_simPin c pin aid : int32 c -> cstr_ok pin -> cstr_ok aid ->
    divergent_format DispatchSimPin (D_simPin (SimPin 0 aid pin)) (sizeof "RIL_SimPin_v3") [Int c; Str pin; Str aid]
| div_simPuk c puk pin aid : int32 c -> cstr_ok puk -> cstr_ok pin -> cstr_ok aid ->
    divergent_format DispatchSimPuk (D_simPuk (SimPuk 0 aid puk pin)) (sizeof "RIL_SimPuk_v3")
      [Int c; Str puk; Str pin; Str aid]
| div_simPinSet c old new aid : int32 c -> cstr_ok old -> cstr_ok new -> cstr_ok aid ->
    divergent_format DispatchSimPinSet (D_simPinSet (SimPinSet 0 aid old new)) (sizeof "RIL_SimPinSet_v3")
      [Int c; Str old; Str new; Str aid]
| div_imsi c aid : int32 c -> cstr_ok aid ->
    divergent_format DispatchRequestImsi (D_requestImsi (RequestImsi 0 aid)) (sizeof "RIL_RequestImsi_v3") [Int c; Str aid].

(** The reading part of a dispatch function that only reads and calls. *)
Definition parser (v : Z) (f : dispatch_fn) : option (M bytes (option (request_data * Z))) :=
  match f with
  | DispatchVoid => Some (mret (Some (D_null, 0)))
  | DispatchString => Some parseString
  | DispatchStrings => Some (parseStrings junk stack_limit)
  | DispatchInts => Some (parseInts junk stack_limit)
  | DispatchSimPin => Some parseSimPin
  | DispatchSimPuk => Some parseSimPuk
  | DispatchSimPinSet => Some parseSimPinSet
  | DispatchDial => Some (parseDial junk v)
  | DispatchSIM_APDU => Some (parseSIM_APDU junk)
  | DispatchCallForward => Some (parseCallForward junk)
  | DispatchRaw => Some (parseRaw junk)
  | DispatchSmsWrite => Some (parseSmsWrite junk)
  | DispatchRequestImsi => Some parseRequestImsi
  | DispatchSetInitialAttachApn => Some (parseSetInitialAttachApn junk)
  | DispatchCdmaSms => Some (parseCdmaSms junk)
  | DispatchCdmaSmsAck => Some (parseCdmaSmsAck junk)
  | DispatchGsmBrSmsCnf => Some (parseGsmBrSmsCnf junk stack_limit)
  | DispatchCdmaBrSmsCnf => Some (parseCdmaBrSmsCnf junk stack_limit)
  | DispatchRilCdmaSmsWriteArgs => Some (parseRilCdmaSmsWriteArgs junk)
  | DispatchNVReadItem => Some (parseNVReadItem junk)
  | DispatchNVWriteItem => Some (parseNVWriteItem junk)
  | DispatchUiccSubscripton => Some (parseUiccSubscripton junk)
  | DispatchSimAuthentication => Some (parseSimAuthentication junk)
  | DispatchDataProfile => Some (parseDataProfile junk stack_limit)
  | DispatchRadioCapability => Some (parseRadioCapability junk)
  | DispatchNetworkManual => Some parseNetworkManual
  | _ => None
  end.

End Codec.

(** Reads the fields of a parcel one after the other. *)
Ltac field_side := first [assumption | exact I | unfold int32; lia].
Ltac read_fields :=
  repeat first
    [ rewrite fields_cons
    | erewrite bind_run by
        first [ apply readInt32_field; field_side | apply readInt32_value_field; field_side
              | apply strdupReadString_field; field_side | apply read_uint8_field | apply read_object_field; field_side ]
    | progress cbn beta iota | progress cbn [ok negb orb andb NO_ERROR Z.eqb] ].

Section Parsing.
Context {P : ParcelOps} {H : RilHeader} {HP : Heap} {PL : ParcelLaws P}.
Variable junk : Z.
Variable stack_limit : Z.

Lemma readInplace_field b r : readInplace (Z.of_nat (length b)) (enc_field (Raw b) ++ r) = Ret (Some b, r).
Proof. apply readInplace_run. Qed.

Lemma read_uusInfo_absent t r : read_uusInfo junk t (enc_field (Int 0) ++ r) = Ret (Some None, r).
Proof. unfold read_uusInfo. by read_fields. Qed.

Lemma read_uusInfo_present t ty dcs data r : int32 ty -> int32 dcs -> int32 (Z.of_nat (length data)) ->
  read_uusInfo junk t (fields [Int 1; Int ty; Int dcs; Int (Z.of_nat (length data)); Raw data] ++ r) =
    Ret (Some (Some (UUS ty dcs (Z.of_nat (length data)) (Some data))), r).
Proof.
  intros Ht Hd Hl. unfold read_uusInfo. read_fields. destruct (Z.eqb_spec (Z.of_nat (length data)) (-1)); [lia|].
  by erewrite bind_run by apply readInplace_field.
Qed.

(** Every payload in the format of the function is read. *)
Lemma payload_parses v f d len fs r : payload_format stack_limit v f d len fs ->
  exists parse, parser junk stack_limit v f = Some parse /\ parse (fields fs ++ r) = Ret (Some (d, len), r).
Proof.
  intros Hd. destruct Hd; cbn [parser]; (eexists; split; [reflexivity|]).
  all: unfold parseString, parseStrings, parseInts, parseRaw, parseDial, parseSIM_APDU, parseCallForward,
    parseCdmaSmsAck, parseNetworkManual, parseSetInitialAttachApn, parseNVReadItem, parseNVWriteItem, parseSimAuthentication.
  all: read_fields; try done.
  - by erewrite bind_run by (by apply read_strings_run).
  - destruct (Z.eqb_spec (Z.of_nat (length l)) 0) as [E|E]; [by destruct l|].
    erewrite bind_run by (apply stack_array_ok; unfold sizeof_int in *; lia). rewrite Nat2Z.id.
    by erewrite bind_run by (by apply read_ints_run).
  - destruct (Z.eqb_spec (Z.of_nat (length b)) (-1)); [lia|]. erewrite bind_run by apply readInplace_field.
    rewrite u32_small by (unfold int32 in *; lia). done.
  - rewrite bool_decide_false by done. destruct (Z.ltb_spec v 3); [lia|]. by erewrite bind_run by apply read_uusInfo_absent.
  - rewrite bool_decide_false by done. destruct (Z.ltb_spec v 3); [lia|].
    rewrite <- !fields_cons. by erewrite bind_run by (by apply read_uusInfo_present).
  - rewrite bool_decide_false by done. by destruct (Z.ltb_spec v 3); [|lia].
  - rewrite <- !fields_cons. unfold parseUiccSubscripton. erewrite bind_run; [|apply (read_ints_run junk [s; a; t; st])]; [done|].
    rewrite !Forall_cons. auto using Forall_nil_2.
Qed.

Lemma divergent_parses v f d len fs r : divergent_format f d len fs ->
  exists parse, parser junk stack_limit v f = Some parse /\ parse (fields fs ++ r) = Ret (Some (d, len), r).
Proof.
  intros Hd. destruct Hd; cbn [parser]; (eexists; split; [reflexivity|]).
  all: unfold parseSmsWrite, parseSimPin, parseSimPuk, parseSimPinSet, parseRequestImsi; read_fields; try done.
  rewrite bool_decide_false by done. by read_fields.
Qed.

(** ** The way of a command *)

(** The state with a new request for the table entry [q]. *)
Definition pushed (tok : Z) (q : nat) (s : rstate) : rstate :=
  let a := fresh_addr (dom (reqs s)) in
  with_reqs (<[a := RI tok q (s_pendingRequests s) false false]> (reqs s)) (Some a) s.

Definition called (c : vendor_call) (s : rstate) : rstate := with_calls (calls s ++ [c]) s.

(** A supported command becomes a pending request and is dispatched. *)
Lemma command_dispatched s q tok payload ci f :
  int32 q -> int32 tok -> 1 <= q < NUM_COMMANDS -> s_commands !! Z.to_nat q = Some ci ->
  requestNumber ci <> 0 -> dispatchFunction ci = Some f ->
  processCommandBuffer junk stack_limit (fields [Int q; Int tok] ++ payload) s =
    call_dispatch junk stack_limit f payload (fresh_addr (dom (reqs s))) (pushed tok (Z.to_nat q) s).
Proof.
  intros Hq Ht Hr Hci Hn Hf. unfold processCommandBuffer.
  assert (Hh : on_parcel (read_header junk) (fields [Int q; Int tok] ++ payload) s = Ret ((NO_ERROR, q, tok, payload), s)).
  { unfold on_parcel, read_header. by read_fields. }
  erewrite bind_run by exact Hh. cbn beta iota. cbn [ok negb NO_ERROR Z.eqb].
  destruct (Z.ltb_spec q 1); [lia|]. destruct (Z.leb_spec NUM_COMMANDS q); [lia|]. simpl orb. cbn iota. rewrite Hci.
  destruct (Z.eqb_spec (requestNumber ci) 0); [done|]. unfold push_request. by rewrite Hf.
Qed.

(** An unsupported one is answered with a generic failure. *)
Lemma command_rejected s q tok payload :
  int32 q -> int32 tok ->
  (q < 1 \/ NUM_COMMANDS <= q \/ exists ci, s_commands !! Z.to_nat q = Some ci /\ requestNumber ci = 0) ->
  processCommandBuffer junk stack_limit (fields [Int q; Int tok] ++ payload) s = reject tok s.
Proof.
  intros Hq Ht Hr. unfold processCommandBuffer.
  assert (Hh : on_parcel (read_header junk) (fields [Int q; Int tok] ++ payload) s = Ret ((NO_ERROR, q, tok, payload), s)).
  { unfold on_parcel, read_header. by read_fields. }
  erewrite bind_run by exact Hh. cbn beta iota. cbn [ok negb NO_ERROR Z.eqb].
  destruct (Z.ltb_spec q 1) as [|H1]; [done|]. destruct (Z.leb_spec NUM_COMMANDS q) as [|H2]; [done|]. simpl orb. cbn iota.
  destruct Hr as [?|[?|(ci & Hci & Hz)]]; [lia|lia|]. by rewrite Hci, Hz.
Qed.

(** The payload that was read is what the vendor library gets; an invalid one
    goes nowhere. *)
Lemma dispatch_parsed_run s f parse payload a ri ci d r :
  parser junk stack_limit (version s) f = Some parse -> parse payload = Ret (d, r) ->
  reqs s !! a = Some ri -> s_commands !! pCI ri = Some ci ->
  call_dispatch junk stack_limit f payload a s =
    match d with
    | None => Ret (tt, s)
    | Some (data, len) => Ret (tt, called (VendorCall (requestNumber ci) data len a) s)
    end.
Proof.
  intros Hp Hr Hri Hci.
  assert (Hcall : forall data len, CALL_ONREQUEST a data len s = Ret (tt, called (VendorCall (requestNumber ci) data len a) s)).
  { intros. unfold CALL_ONREQUEST. erewrite bind_run by (by apply load_req_run). by rewrite Hci. }
  assert (Hw : dispatch_with parse payload a s =
    match d with None => Ret (tt, s) | Some (data, len) => Ret (tt, called (VendorCall (requestNumber ci) data len a) s) end).
  { unfold dispatch_with. assert (Ho : on_parcel parse payload s = Ret ((d, r), s)) by (unfold on_parcel; by rewrite Hr).
    erewrite bind_run by exact Ho. cbn beta iota. destruct d as [[data len]|]; [apply Hcall|].
    unfold dispatch_parsed, invalidCommandBlock. by erewrite bind_run by (by apply load_req_run). }
  destruct f; simpl in Hp; try done; injection Hp as <-; try exact Hw.
Qed.

End Parsing.
