(* ===== verification/RilRoundtrip.v ===== *)
(** * Responses read back

    The fields that response functions write, and the dispatch functions of
    the same structs as their inverses. *)

From S2P Require Import Prelude Parcel RilTypes RilResponse RilTables RilCore RilDispatch RilFacts RilCodec.

Section Writes.
Context {P : ParcelOps} {H : RilHeader} {HP : Heap} {PL : ParcelLaws P}.

(** [m] writes the fields [fs] and returns [a]. *)
Definition writes {A} (m : M bytes A) (a : A) (fs : list field) : Prop := forall b, m b = Ret (a, b ++ fields fs).

Lemma writes_ret {A} (a : A) : writes (mret a) a [].
Proof. intros b. unfold fields. simpl. by rewrite app_nil_r. Qed.

Lemma writes_bind {A B} (m : M bytes A) (k : A -> M bytes B) a c fs gs :
  writes m a fs -> writes (k a) c gs -> writes (m ≫= k) c (fs ++ gs).
Proof.
  intros Hm Hk b. erewrite bind_run by apply Hm. rewrite Hk. unfold fields. by rewrite map_app, concat_app, app_assoc.
Qed.

Lemma writes_field f : writes (write (enc_field f)) tt [f].
Proof. intros b. unfold write, fields. simpl. by rewrite app_nil_r. Qed.

Lemma writes_int x : writes (writeInt32 x) tt [Int x].
Proof. apply (writes_field (Int x)). Qed.
Lemma writes_str s : writes (writeStringToParcel s) tt [Str s].
Proof. apply (writes_field (Str s)). Qed.
Lemma writes_byte x : writes (write_uint8 x) tt [Byte x].
Proof. apply (writes_field (Byte x)). Qed.
Lemma writes_raw b : writes (write (enc_raw b)) tt [Raw b].
Proof. apply (writes_field (Raw b)). Qed.

Lemma writes_list {A} (item : A -> M bytes unit) (enc : A -> list field) l :
  (forall x, writes (item x) tt (enc x)) -> writes (write_list item l) tt (concat (map enc l)).
Proof. intros Hi. induction l as [|x l IH]; simpl; [apply writes_ret|]. by eapply writes_bind. Qed.

(** An array read up to [n] elements. *)
Lemma writes_each {A} (item : A -> M bytes unit) (enc : A -> list field) n l :
  n <= Z.of_nat (length l) -> (forall x, writes (item x) tt (enc x)) ->
  writes (each n l item) tt (concat (map enc (take (Z.to_nat n) l))).
Proof.
  intros Hn Hi b. unfold each, prefix. destruct (Z.leb_spec n (Z.of_nat (length l))); [|lia].
  erewrite bind_run by done. by apply writes_list.
Qed.

Lemma writes_eq {A} (m : M bytes A) a fs gs : writes m a fs -> fs = gs -> writes m a gs.
Proof. by intros ? <-. Qed.

End Writes.

Create HintDb writes.
#[export] Hint Resolve writes_int writes_str writes_byte writes_ret : writes.

Ltac writes_tac := repeat (eapply writes_bind; [first [solve [eauto with writes]]|]); try solve [eauto with writes].

Section Roundtrip.
Context {P : ParcelOps} {H : RilHeader} {HP : Heap} {PL : ParcelLaws P}.
Variable junk : Z.
Variable stack_limit : Z.

Lemma concat_singletons {A B} (f : A -> B) (l : list A) : concat (map (fun x => [f x]) l) = map f l.
Proof. induction l; simpl; congruence. Qed.

Lemma take_all {A} (l : list A) : take (Z.to_nat (Z.of_nat (length l))) l = l.
Proof. by rewrite Nat2Z.id, firstn_all. Qed.

(** ** Integers, strings, raw bytes *)

Lemma responseInts_writes l :
  writes (responseInts (R_ints l) (sizeof_int * Z.of_nat (length l))) 0 (Int (Z.of_nat (length l)) :: map Int l).
Proof.
  unfold responseInts, null_mismatch. simpl is_null. cbn iota. rewrite andb_false_l.
  rewrite (Z.mul_comm sizeof_int), Z.mod_mul, Z.div_mul by done. cbn.
  eapply writes_eq; [eapply writes_bind; [apply writes_ret|]; eapply writes_bind; [apply writes_int|]; eapply writes_bind;
    [eapply (writes_each _ (fun x => [Int x])); [lia|apply writes_int]|apply writes_ret]|].
  rewrite take_all, concat_singletons. simpl. by rewrite app_nil_r.
Qed.

Lemma responseStrings_writes l :
  writes (responseStrings (R_strings l) (sizeof_ptr * Z.of_nat (length l))) 0 (Int (Z.of_nat (length l)) :: map Str l).
Proof.
  unfold responseStrings, null_mismatch. simpl is_null. cbn iota. rewrite andb_false_l.
  rewrite (Z.mul_comm sizeof_ptr), Z.mod_mul, Z.div_mul by done. cbn.
  eapply writes_eq; [eapply writes_bind; [apply writes_ret|]; eapply writes_bind; [apply writes_int|]; eapply writes_bind;
    [eapply (writes_each _ (fun x => [Str x])); [lia|apply writes_str]|apply writes_ret]|].
  rewrite take_all, concat_singletons. simpl. by rewrite app_nil_r.
Qed.

Lemma responseRaw_writes b :
  writes (responseRaw (R_raw b) (Z.of_nat (length b))) 0 [Int (Z.of_nat (length b)); Raw b].
Proof.
  unfold responseRaw, null_mismatch. cbn. intros p. erewrite bind_run by apply writes_int.
  unfold prefix. destruct (Z.leb_spec (Z.of_nat (length b)) (Z.of_nat (length b))); [|lia]. erewrite bind_run by done.
  rewrite take_all. erewrite bind_run by apply writes_raw. unfold fields. simpl. rewrite !app_nil_r. by rewrite <- app_assoc.
Qed.


(** ** Broadcast configurations *)

Definition gsmBci_fields (c : RIL_GSM_BroadcastSmsConfigInfo) : list field :=
  [Int (fromServiceId c); Int (toServiceId c); Int (fromCodeScheme c); Int (toCodeScheme c); Int (gsm_selected c)].
Definition gsmBci_ok (c : RIL_GSM_BroadcastSmsConfigInfo) : Prop :=
  int32 (fromServiceId c) /\ int32 (toServiceId c) /\ int32 (fromCodeScheme c) /\ int32 (toCodeScheme c) /\ uint8 (gsm_selected c).

Definition cdmaBci_fields (c : RIL_CDMA_BroadcastSmsConfigInfo) : list field :=
  [Int (service_category c); Int (language c); Int (cdma_selected c)].
Definition cdmaBci_ok (c : RIL_CDMA_BroadcastSmsConfigInfo) : Prop :=
  int32 (service_category c) /\ int32 (language c) /\ uint8 (cdma_selected c).

Lemma uint8_int32 x : uint8 x -> int32 x.
Proof. unfold uint8, int32. lia. Qed.

Lemma responseGsmBrSmsCnf_writes l :
  writes (responseGsmBrSmsCnf (R_gsmBrSmsCnf l) (sizeof_ptr * Z.of_nat (length l))) 0
    (Int (Z.of_nat (length l)) :: concat (map gsmBci_fields l)).
Proof.
  unfold responseGsmBrSmsCnf. rewrite (Z.mul_comm sizeof_ptr), Z.div_mul by done.
  eapply writes_eq; [eapply writes_bind; [apply writes_int|]; eapply writes_bind; [apply writes_ret|]; eapply writes_bind;
    [eapply (writes_each _ gsmBci_fields); [lia|]|apply writes_ret]|].
  - intros c. unfold write_gsmBci. eapply writes_eq; [writes_tac|done].
  - rewrite take_all. simpl. by rewrite app_nil_r.
Qed.

Lemma responseCdmaBrSmsCnf_writes l :
  writes (responseCdmaBrSmsCnf (R_cdmaBrSmsCnf l) (sizeof_ptr * Z.of_nat (length l))) 0
    (Int (Z.of_nat (length l)) :: concat (map cdmaBci_fields l)).
Proof.
  unfold responseCdmaBrSmsCnf. rewrite (Z.mul_comm sizeof_ptr), Z.div_mul by done.
  eapply writes_eq; [eapply writes_bind; [apply writes_int|]; eapply writes_bind; [apply writes_ret|]; eapply writes_bind;
    [eapply (writes_each _ cdmaBci_fields); [lia|]|apply writes_ret]|].
  - intros c. unfold write_cdmaBci. eapply writes_eq; [writes_tac|done].
  - rewrite take_all. simpl. by rewrite app_nil_r.
Qed.

(** Room on the stack for [n] structs and their pointers. *)
Definition fits (n : nat) (struct : string) : Prop :=
  int32 (Z.of_nat n) /\ 0 <= Z.of_nat n * (sizeof struct + sizeof_ptr) <= stack_limit.

Lemma parseGsmBrSmsCnf_run l r : Forall gsmBci_ok l -> fits (length l) "RIL_GSM_BroadcastSmsConfigInfo" ->
  parseGsmBrSmsCnf junk stack_limit (fields (Int (Z.of_nat (length l)) :: concat (map gsmBci_fields l)) ++ r) =
    Ret (Some (D_gsmBrSmsCnf l, Z.of_nat (length l) * sizeof_ptr), r).
Proof.
  intros Hl [Hn Hf]. unfold parseGsmBrSmsCnf. read_fields. erewrite bind_run by (by apply stack_array_ok). rewrite Nat2Z.id.
  erewrite bind_run; [|apply (read_structs_run (read_gsmBci) gsmBci_fields gsmBci_ok); [|done]].
  - cbn beta iota. by cbn [ok negb NO_ERROR Z.eqb].
  - intros t c r' (H1 & H2 & H3 & H4 & H5). exists (gsm_selected c). pose proof (uint8_int32 _ H5).
    unfold read_gsmBci, gsmBci_fields.
    read_fields. rewrite u8_small by done. by destruct c.
Qed.

Lemma parseCdmaBrSmsCnf_run l r : Forall cdmaBci_ok l -> fits (length l) "RIL_CDMA_BroadcastSmsConfigInfo" ->
  parseCdmaBrSmsCnf junk stack_limit (fields (Int (Z.of_nat (length l)) :: concat (map cdmaBci_fields l)) ++ r) =
    Ret (Some (D_cdmaBrSmsCnf l, Z.of_nat (length l) * sizeof_ptr), r).
Proof.
  intros Hl [Hn Hf]. unfold parseCdmaBrSmsCnf. read_fields. erewrite bind_run by (by apply stack_array_ok). rewrite Nat2Z.id.
  erewrite bind_run; [|apply (read_structs_run (read_cdmaBci) cdmaBci_fields cdmaBci_ok); [|done]].
  - cbn beta iota. by cbn [ok negb NO_ERROR Z.eqb].
  - intros t c r' (H1 & H2 & H3). exists (cdma_selected c). pose proof (uint8_int32 _ H3). unfold read_cdmaBci, cdmaBci_fields.
    read_fields. rewrite u8_small by done. by destruct c.
Qed.

(** ** CDMA messages *)

(** An array of [max] bytes of which the first [n] are used, the rest zero. *)
Definition digits_ok (max n : Z) (ds : list Z) : Prop :=
  0 <= max /\ length ds = Z.to_nat max /\ ds = filled max (take (Z.to_nat (Z.min n max)) ds).

Record cdmaSms_ok (c : RIL_CDMA_SMS_Message) : Prop := {
  cs_ints : Forall int32 [uTeleserviceID c; uServicecategory c; digit_mode (sAddress c); number_mode (sAddress c);
                          number_type (sAddress c); number_plan (sAddress c); subaddressType (sSubAddress c);
                          uBearerDataLen c];
  cs_digits : digits_ok (ril "RIL_CDMA_SMS_ADDRESS_MAX") (number_of_digits (sAddress c)) (digits (sAddress c));
  cs_sub : digits_ok (ril "RIL_CDMA_SMS_SUBADDRESS_MAX") (sub_number_of_digits (sSubAddress c)) (sub_digits (sSubAddress c));
  cs_data : digits_ok (ril "RIL_CDMA_SMS_BEARER_DATA_MAX") (uBearerDataLen c) (aBearerData c)
}.

(** The bytes of an array that are sent. *)
Definition sent_digits (max n : Z) (ds : list Z) : list field := map Byte (take (Z.to_nat (Z.min n max)) ds).

Definition cdmaSms_fields (c : RIL_CDMA_SMS_Message) : list field :=
  [Int (uTeleserviceID c); Byte (bIsServicePresent c); Int (uServicecategory c); Int (digit_mode (sAddress c));
   Int (number_mode (sAddress c)); Int (number_type (sAddress c)); Int (number_plan (sAddress c));
   Byte (number_of_digits (sAddress c))] ++
  sent_digits (ril "RIL_CDMA_SMS_ADDRESS_MAX") (number_of_digits (sAddress c)) (digits (sAddress c)) ++
  [Int (subaddressType (sSubAddress c)); Byte (odd (sSubAddress c)); Byte (sub_number_of_digits (sSubAddress c))] ++
  sent_digits (ril "RIL_CDMA_SMS_SUBADDRESS_MAX") (sub_number_of_digits (sSubAddress c)) (sub_digits (sSubAddress c)) ++
  [Int (uBearerDataLen c)] ++
  sent_digits (ril "RIL_CDMA_SMS_BEARER_DATA_MAX") (uBearerDataLen c) (aBearerData c).

Lemma writes_digits max n ds : digits_ok max n ds ->
  writes (each (Z.min n max) ds write_uint8) tt (sent_digits max n ds).
Proof.
  intros (H0 & Hl & _). eapply writes_eq; [eapply (writes_each _ (fun x => [Byte x])); [lia|apply writes_byte]|].
  by rewrite concat_singletons.
Qed.

Lemma responseCdmaSms_writes c : cdmaSms_ok c ->
  writes (responseCdmaSms (R_cdmaSms c) (sizeof "RIL_CDMA_SMS_Message")) 0 (cdmaSms_fields c).
Proof.
  intros [_ H1 H2 H3]. unfold responseCdmaSms, null_mismatch. simpl is_null. rewrite andb_false_l, Z.eqb_refl. cbn [negb].
  pose proof (writes_digits _ _ _ H1). pose proof (writes_digits _ _ _ H2). pose proof (writes_digits _ _ _ H3).
  eapply writes_eq; [writes_tac|]. unfold cdmaSms_fields. simpl. rewrite ?app_nil_r, <- ?app_assoc. done.
Qed.

Lemma read_digits_run ds ut r : exists ut',
  read_digits (length ds) NO_ERROR ut (fields (map Byte ds) ++ r) = Ret ((NO_ERROR, ut', ds), r).
Proof.
  revert ut. induction ds as [|d ds IH]; intros ut; [by exists ut|]. cbn [read_digits length map]. destruct (IH d) as [ut' E].
  exists ut'. read_fields. by erewrite bind_run by exact E.
Qed.

(** The array that is read back. *)
Lemma read_sent_digits max n ds ut r : digits_ok max n ds ->
  exists ut', read_digits (Z.to_nat (Z.min n max)) NO_ERROR ut (fields (sent_digits max n ds) ++ r) =
    Ret ((NO_ERROR, ut', take (Z.to_nat (Z.min n max)) ds), r).
Proof.
  intros (H0 & Hl & _). destruct (read_digits_run (take (Z.to_nat (Z.min n max)) ds) ut r) as [ut' E]. exists ut'.
  rewrite length_take_le in E by lia. exact E.
Qed.

Ltac digits_step Hd :=
  rewrite fields_nil;
  match goal with
  | |- context [(read_digits _ _ ?ut ≫= _) (_ ++ ?r)] =>
      let u := fresh "u" in let E := fresh "E" in
      destruct (read_sent_digits _ _ _ ut r Hd) as [u E]; erewrite bind_run by exact E; clear E
  end.

Lemma constructCdmaSms_run c r : cdmaSms_ok c ->
  constructCdmaSms junk (fields (cdmaSms_fields c) ++ r) = Ret ((NO_ERROR, c), r).
Proof.
  intros [Hi H1 H2 H3]. rewrite !Forall_cons in Hi. destruct Hi as (I1 & I2 & I3 & I4 & I5 & I6 & I7 & I8 & _).
  unfold constructCdmaSms, read_cdmaSms, cdmaSms_fields. rewrite !fields_app. read_fields.
  digits_step H1. read_fields. digits_step H2. read_fields. digits_step H3. cbn beta iota.
  destruct H1 as (_ & _ & F1), H2 as (_ & _ & F2), H3 as (_ & _ & F3). rewrite <- F1, <- F2, <- F3.
  by destruct c as [? ? ? [] [] ? ?].
Qed.

(** ** Radio capability *)

(** [uuid] is a null-terminated ASCII string in an array of [max] zeros. *)
Definition uuid_ok (max : Z) (a s : list Z) : Prop :=
  a = filled max s /\ str_ok s /\ Z.of_nat (length s) < max /\ Forall (fun x => x <> 0) s /\ length (to16 s) = length s.

Definition radioCapability_fields (c : RIL_RadioCapability) (uuid : list Z) : list field :=
  [Int (rc_version c); Int (rc_session c); Int (rc_phase c); Int (rc_rat c); Str (Some uuid); Int (rc_status c)].

Lemma c_string_run s t b : Forall (fun x => x <> 0) s -> c_string (s ++ 0 :: t) b = Ret (s, b).
Proof.
  induction 1 as [|x s Hx Hs IH]; [done|]. simpl. destruct (Z.eqb_spec x 0); [done|]. by erewrite bind_run by exact IH.
Qed.

Lemma filled_shape max s : Z.of_nat (length s) < max -> exists t, filled max s = s ++ 0 :: t.
Proof.
  intros Hl. unfold filled. destruct (Z.to_nat max - length s)%nat as [|n] eqn:E; [lia|]. simpl. by eexists.
Qed.

Lemma responseRadioCapability_writes c uuid : uuid_ok (ril "MAX_UUID_LENGTH") (logicalModemUuid c) uuid ->
  writes (responseRadioCapability (R_radioCapability c) (sizeof "RIL_RadioCapability")) 0 (radioCapability_fields c uuid).
Proof.
  intros (Ha & _ & Hl & Hz & _). unfold responseRadioCapability. simpl is_null. rewrite Z.eqb_refl. cbn [negb].
  destruct (filled_shape _ _ Hl) as [t Ht].
  assert (Hw : writes (writeArrayToParcel (logicalModemUuid c)) tt [Str (Some uuid)]).
  { intros b. unfold writeArrayToParcel. rewrite Ha, Ht. erewrite bind_run by (by apply c_string_run). apply writes_str. }
  eapply writes_eq; [writes_tac|done].
Qed.

Lemma parseRadioCapability_run c uuid r : uuid_ok (ril "MAX_UUID_LENGTH") (logicalModemUuid c) uuid ->
  Forall int32 [rc_version c; rc_session c; rc_phase c; rc_rat c; rc_status c] ->
  parseRadioCapability junk (fields (radioCapability_fields c uuid) ++ r) =
    Ret (Some (D_radioCapability c, sizeof "RIL_RadioCapability"), r).
Proof.
  intros (Ha & Hs & Hl & _ & H16) Hi. rewrite !Forall_cons in Hi. destruct Hi as (I1 & I2 & I3 & I4 & I5 & _).
  unfold parseRadioCapability, radioCapability_fields.
  change [_; _; _; _; Str _; _] with (map Int [rc_version c; rc_session c; rc_phase c; rc_rat c] ++ [Str (Some uuid); Int (rc_status c)]).
  rewrite fields_app. erewrite bind_run by (apply (read_ints_run junk [_; _; _; _]); rewrite !Forall_cons; auto).
  cbn beta iota. rewrite fields_cons.
  assert (Hr : forall r', readStringFromParcelInplace (filled (ril "MAX_UUID_LENGTH") []) (ril "MAX_UUID_LENGTH") (enc_field (Str (Some uuid)) ++ r') =
    Ret ((NO_ERROR, logicalModemUuid c), r')).
  { intros r'. unfold readStringFromParcelInplace. cbn [enc_field option_map fmap option_fmap].
    rewrite dec_str_enc_str by (by apply to16_units).
    rewrite to8_to16 by done. destruct (Z.ltb_spec (ril "MAX_UUID_LENGTH") (Z.of_nat (length uuid) + 1)); [lia|].
    rewrite H16, Nat.ltb_irrefl, Ha. unfold filled. do 4 f_equal. cbn [length app]. rewrite Nat.sub_0_r, drop_replicate.
    by replace (Z.to_nat (ril "MAX_UUID_LENGTH") - length uuid)%nat with (S (Z.to_nat (ril "MAX_UUID_LENGTH") - S (length uuid))) by lia.
    }
  erewrite bind_run by apply Hr. read_fields. by destruct c.
Qed.

(** ** Network lists *)

(** The strings of a network list without every fifth. *)
Fixpoint drop_fifth {A} (l : list A) : list A :=
  match l with
  | a :: b :: c :: d :: _ :: l' => a :: b :: c :: d :: drop_fifth l'
  | _ => l
  end.

Lemma networks_loop_writes i l : i mod 5 = 0 -> writes (networks_loop i l) tt (map Str (drop_fifth l)).
Proof.
  assert (Hstep : forall j (x : cstr) m fs, (j + 1) mod 5 <> 0 -> writes m tt fs ->
    writes ((if (j + 1) mod 5 =? 0 then mret tt else writeStringToParcel x);; m) tt (Str x :: fs)).
  { intros j x m fs Hj Hm. destruct (Z.eqb_spec ((j + 1) mod 5) 0); [done|].
    by apply (writes_bind _ _ tt _ [Str x]); [apply writes_str|]. }
  remember (length l) as n eqn:En. revert i l En. induction (lt_wf n) as [n _ IH]. intros i l En Hi.
  assert (Hm : forall k, (i + k) mod 5 = k mod 5) by (intros k; rewrite Z.add_mod, Hi, Z.add_0_l by done; by apply Z.mod_mod).
  assert (H1 : (i + 1) mod 5 <> 0) by (by rewrite Hm).
  assert (H2 : (i + 1 + 1) mod 5 <> 0) by (by rewrite <- Z.add_assoc, Hm).
  assert (H3 : (i + 1 + 1 + 1) mod 5 <> 0) by (by rewrite <- !Z.add_assoc, Hm).
  assert (H4 : (i + 1 + 1 + 1 + 1) mod 5 <> 0) by (by rewrite <- !Z.add_assoc, Hm).
  assert (H5 : (i + 1 + 1 + 1 + 1 + 1) mod 5 = 0) by (by rewrite <- !Z.add_assoc, Hm).
  destruct l as [|a [|b [|c [|d [|e l]]]]]; cbn [networks_loop drop_fifth map];
    repeat (apply Hstep; [done|]); try apply writes_ret.
  rewrite H5. cbn [Z.eqb]. apply (writes_bind _ _ tt _ []); [apply writes_ret|]. eapply IH; [|reflexivity|done]. subst n. simpl.
  lia.
Qed.

Lemma length_drop_fifth {A} (l : list A) : Z.of_nat (length (drop_fifth l)) = Z.of_nat (length l) - Z.of_nat (length l) / 5.
Proof.
  remember (length l) as n eqn:En. revert l En. induction (lt_wf n) as [n _ IH]. intros l ->.
  destruct l as [|a [|b [|c [|d [|e l]]]]]; try done. cbn [drop_fifth length].
  rewrite !Nat2Z.inj_succ, (IH (length l)) by (simpl; done || lia). Z.to_euclidean_division_equations. lia.
Qed.

Lemma responseAvailableNetworks_writes l :
  writes (responseAvailableNetworks (R_strings l) (sizeof_ptr * Z.of_nat (length l))) 0
    (Int (Z.of_nat (length l) / 5 * 4) :: map Str (drop_fifth l)).
Proof.
  unfold responseAvailableNetworks, null_mismatch. simpl is_null. cbn iota. rewrite andb_false_l.
  rewrite (Z.mul_comm sizeof_ptr), Z.mod_mul, Z.div_mul by done. cbn [negb Z.eqb].
  eapply writes_eq; [eapply writes_bind; [apply writes_ret|]; eapply writes_bind; [apply writes_int|]|].
  - intros b. unfold prefix. destruct (Z.leb_spec (Z.of_nat (length l)) (Z.of_nat (length l))); [|lia]. erewrite bind_run by done.
    rewrite take_all. erewrite bind_run by (by apply networks_loop_writes). reflexivity.
  - done.
Qed.

End Roundtrip.
