(* ===== verification/RilProps.v ===== *)
(** * Properties of the RIL daemon: requests, replies, the wake lock *)

From S2P Require Import Prelude Parcel RilTypes RilResponse RilTables RilCore RilDispatch RilFacts RilSystem RilInv RilWake RilCodec.

Section Properties.
Context {P : ParcelOps} {H : RilHeader} {HP : Heap} {PL : ParcelLaws P} {HL : HeapLaws HP}.
Variable junk : Z.
Variable stack_limit : Z.

(** When the functions run one after another: in every reachable state, whatever
    the vendor library completes or sends and however the socket behaves, the
    client has read a sequence of whole frames (a truncated last one only on a
    closed descriptor), and the tokens of the replies among them, together with
    those of the requests that can still be answered, are distinct commands
    received on this connection.  [RilReplyProps] has what is left of it when
    threads interleave. *)
Lemma sequential_replies (s : rstate) (rc : list Z) :
  reachable junk stack_limit (s, rc) ->
  exists l msgs, pending_ok s l /\ stream_ok (sock s) msgs /\ replies msgs ++ outstanding (reqs s) l ⊆+ rc.
Proof. intros Hr. destruct (reachable_inv junk stack_limit s rc Hr) as (l & msgs & [Hp Hst Ht _ _ _]). by exists l, msgs. Qed.

(** C15: completing a pending request unlinks and frees it, keeps all others,
    and sends one frame with its token, the error code (or the code of the
    response function when that fails) and the payload; completing the same
    token again does nothing. *)
Theorem completion_answers_once (s : rstate) l1 a l2 ri ci e r len ret w :
  pending_ok s (l1 ++ a :: l2) -> reqs s !! a = Some ri -> local ri = false -> cancelled ri = false ->
  s_commands !! pCI ri = Some ci -> payload_of (version s) (responseFunction ci) r len = Ret (ret, w) -> healthy s ->
  Z.of_nat (length (reply_parcel (token ri) (if ret =? 0 then e else ret) w)) <= MAX_COMMAND_BYTES ->
  exists s', RIL_onRequestComplete (Some a) e r len s = Ret (tt, s') /\ pending_ok s' (l1 ++ l2) /\
    wire (sock s') = wire (sock s) ++ frame (reply_parcel (token ri) (if ret =? 0 then e else ret) w) /\
    (forall b, b <> a -> content <$> reqs s' !! b = content <$> reqs s !! b) /\
    forall e' r' len', RIL_onRequestComplete (Some a) e' r' len' s' = Ret (tt, s').
Proof.
  intros Hok Hri Hl Hc Hci Hp Hh Hlen.
  destruct (complete_healthy s l1 a l2 ri ci e r len ret w Hok Hri Hl Hc Hci Hp Hh Hlen) as (m' & h' & Hr & Hok' & Hs).
  eexists. split; [exact Hr|]. split_and!; [done|done|done|]. intros e' r' len'. eapply complete_unknown; [exact Hok'|].
  intros b [= <-] Ha. pose proof (pend_nodup _ _ Hok) as Hn. apply NoDup_app in Hn as (_ & Hx & [Hn2 _]%NoDup_cons).
  apply elem_of_app in Ha as [Ha%Hx|Ha]; set_solver.
Qed.

(** A token that is not pending (null, stale, made up, completed before)
    is ignored. *)
Lemma unknown_token_is_ignored (s : rstate) l t e r len :
  pending_ok s l -> (forall a, t = Some a -> a ∉ l) -> RIL_onRequestComplete t e r len s = Ret (tt, s).
Proof. apply complete_unknown. Qed.

(** C16: when the command socket closes, every pending request is cancelled
    and stays pending; completing one of them later, with any response, frees
    it and sends nothing. *)
Theorem closing_silences_pending (s : rstate) l :
  pending_ok s l ->
  exists s1, onCommandsSocketClosed s = Ret (tt, s1) /\ pending_ok s1 l /\
    forall a e r len, a ∈ l -> exists s2, RIL_onRequestComplete (Some a) e r len s1 = Ret (tt, s2) /\
      sock s2 = sock s1 /\ reqs s2 !! a = None /\ calls s2 = calls s1.
Proof.
  intros Hok. destruct (onCommandsSocketClosed_run s l Hok) as [Hr Hok']. eexists. split; [exact Hr|]. split; [done|].
  intros a e r len Ha. apply list_elem_of_split in Ha as (l1 & l2 & ->).
  destruct (chain_lookup _ _ _ a (pend_chain _ _ Hok)) as [ri Hri]; [set_solver|].
  assert (Hri' : reqs (with_reqs (with_cancelled <$> reqs s) (s_pendingRequests s) s) !! a = Some (with_cancelled ri))
    by (simpl; by rewrite lookup_fmap, Hri).
  destruct (complete_pending _ l1 a l2 _ e r len Hok' Hri') as (m' & h' & _ & _ & Hc). rewrite Hc. simpl. rewrite orb_true_r.
  eexists. split; [done|]. simpl. split_and!; [done|by rewrite lookup_delete_eq|done].
Qed.

(** When the functions run one after another: whenever the wake lock is held,
    exactly one timer that will release it is pending, and when that timer fires
    the lock is free.  [RilWakeRace] has what is left of it when threads
    interleave. *)
Lemma sequential_wake_lock (s : rstate) (rc : list Z) :
  reachable junk stack_limit (s, rc) -> wake_lock s = true ->
  exists a, timed s !! a = Some release_pending /\ (forall b, timed s !! b = Some release_pending -> b = a) /\
    exists s', userTimerCallback a s = Ret (tt, s') /\ wake_lock s' = false.
Proof.
  intros Hr Hl. destruct (reachable_wake junk stack_limit s rc Hr) as [Hw Hlock].
  destruct (s_last_wake_timeout_info s) as [a|] eqn:E; [|by destruct (Hlock eq_refl Hl)]. exists a.
  assert (Ha : timed s !! a = Some release_pending) by (by apply Hw). split; [done|].
  split; [intros b Hb; apply Hw in Hb; congruence|].
  unfold userTimerCallback. erewrite bind_run by done. rewrite Ha. eexists. by split.
Qed.


(** C18: an unsupported command (outside the table, or an entry without a
    request number) is answered at once with [RIL_E_GENERIC_FAILURE] for its
    token; no request is created and the vendor library is not called. *)
Theorem unsupported_command_fails (s : rstate) q tok payload :
  int32 q -> int32 tok ->
  (q < 1 \/ NUM_COMMANDS <= q \/ exists ci, s_commands !! Z.to_nat q = Some ci /\ requestNumber ci = 0) -> healthy s ->
  processCommandBuffer junk stack_limit (fields [Int q; Int tok] ++ payload) s =
    Ret (tt, sent (reply_parcel tok (ril "RIL_E_GENERIC_FAILURE") []) s).
Proof.
  intros Hq Ht Hr Hh. rewrite command_rejected by done. unfold reject. erewrite bind_run by done. cbn beta iota.
  unfold reply_parcel. rewrite app_nil_r. simpl app. rewrite <- app_assoc. erewrite bind_run; [done|].
  apply sendResponse_healthy; [done|].
  rewrite !length_app, !enc32_length. done.
Qed.

(** C19: a supported command whose payload is invalid creates a request that
    no one will complete: the vendor library is not called, the client gets no
    answer, and the request stays pending. *)
Theorem invalid_payload_is_never_answered (s : rstate) q tok ci f parse payload rest :
  int32 q -> int32 tok -> 1 <= q < NUM_COMMANDS -> s_commands !! Z.to_nat q = Some ci ->
  requestNumber ci <> 0 -> dispatchFunction ci = Some f ->
  parser junk stack_limit (version s) f = Some parse -> parse payload = Ret (None, rest) ->
  processCommandBuffer junk stack_limit (fields [Int q; Int tok] ++ payload) s = Ret (tt, pushed tok (Z.to_nat q) s).
Proof.
  intros Hq Ht Hr Hci Hn Hf Hp Hrun. erewrite command_dispatched by done.
  apply (dispatch_parsed_run junk stack_limit (pushed tok (Z.to_nat q) s) f parse payload _ _ ci None rest Hp Hrun (lookup_insert_eq _ _ _) Hci).
Qed.

(** C20: a message is sent as one frame (length, then parcel), or, when the
    connection is down, the message too long or a write fails, the result is
    -1 and the stream the client reads still consists of whole frames, the
    descriptor being closed if the last one is cut off. *)
Theorem messages_are_framed (s : rstate) msgs d :
  stream_ok (sock s) msgs ->
  exists ret s', sendResponse d s = Ret (ret, s') /\ reqs s' = reqs s /\ fdCommand (sock s') = fdCommand (sock s) /\
    (ret = 0 /\ stream_ok (sock s') (msgs ++ [d]) \/ ret = -1 /\ stream_ok (sock s') msgs).
Proof. intros Hs. destruct (sendResponseRaw_run s d msgs Hs) as (ret & k' & Hr & Hf & Hc). by exists ret, (with_sock k' (listening s) s). Qed.

End Properties.
