(* ===== verification/RilCodecProps.v ===== *)
(** * Properties of the payload formats *)

From S2P Require Import Prelude Parcel RilTypes RilResponse RilTables RilCore RilDispatch RilFacts RilCodec RilRoundtrip.

Section Properties.
Context {P : ParcelOps} {H : RilHeader} {HP : Heap} {PL : ParcelLaws P}.
Variable junk : Z.
Variable stack_limit : Z.

(** C21: a CDMA message that [responseCdmaSms] writes is read back by
    [constructCdmaSms] with all its fields and digits. *)
Theorem cdma_sms_roundtrip (c : RIL_CDMA_SMS_Message) (rest : bytes) :
  cdmaSms_ok c ->
  exists b, responseCdmaSms (R_cdmaSms c) (sizeof "RIL_CDMA_SMS_Message") [] = Ret (0, b) /\
    constructCdmaSms junk (b ++ rest) = Ret ((NO_ERROR, c), rest).
Proof.
  intros Hc. eexists. split; [by apply responseCdmaSms_writes|]. rewrite app_nil_l. by apply constructCdmaSms_run.
Qed.

(** C22: broadcast configurations written by the GSM and the CDMA response
    function are read back by the matching dispatch functions. *)
Theorem broadcast_config_roundtrip (gs : list RIL_GSM_BroadcastSmsConfigInfo) (cs : list RIL_CDMA_BroadcastSmsConfigInfo)
    (rest : bytes) :
  Forall gsmBci_ok gs -> fits stack_limit (length gs) "RIL_GSM_BroadcastSmsConfigInfo" ->
  Forall cdmaBci_ok cs -> fits stack_limit (length cs) "RIL_CDMA_BroadcastSmsConfigInfo" ->
  (exists b, responseGsmBrSmsCnf (R_gsmBrSmsCnf gs) (sizeof_ptr * Z.of_nat (length gs)) [] = Ret (0, b) /\
     parseGsmBrSmsCnf junk stack_limit (b ++ rest) = Ret (Some (D_gsmBrSmsCnf gs, Z.of_nat (length gs) * sizeof_ptr), rest)) /\
  (exists b, responseCdmaBrSmsCnf (R_cdmaBrSmsCnf cs) (sizeof_ptr * Z.of_nat (length cs)) [] = Ret (0, b) /\
     parseCdmaBrSmsCnf junk stack_limit (b ++ rest) = Ret (Some (D_cdmaBrSmsCnf cs, Z.of_nat (length cs) * sizeof_ptr), rest)).
Proof.
  intros Hg Hgf Hc Hcf. split; eexists; (split; [first [apply responseGsmBrSmsCnf_writes|apply responseCdmaBrSmsCnf_writes]|]);
    rewrite app_nil_l; [by apply parseGsmBrSmsCnf_run|by apply parseCdmaBrSmsCnf_run].
Qed.

(** C23: integers, strings and raw bytes written by the response functions
    are read back by the dispatch functions. *)
Theorem plain_payload_roundtrip (ints : list Z) (strs : list cstr) (raw rest : bytes) :
  ints <> [] -> Forall int32 ints -> sizeof_int * Z.of_nat (length ints) <= stack_limit -> int32 (Z.of_nat (length ints)) ->
  Forall cstr_ok strs -> sizeof_ptr * Z.of_nat (length strs) <= stack_limit -> int32 (Z.of_nat (length strs)) ->
  int32 (Z.of_nat (length raw)) ->
  (exists b, responseInts (R_ints ints) (sizeof_int * Z.of_nat (length ints)) [] = Ret (0, b) /\
     parseInts junk stack_limit (b ++ rest) = Ret (Some (D_ints ints, sizeof_int * Z.of_nat (length ints)), rest)) /\
  (exists b, responseStrings (R_strings strs) (sizeof_ptr * Z.of_nat (length strs)) [] = Ret (0, b) /\
     parseStrings junk stack_limit (b ++ rest) = Ret (Some (D_strings (Some strs), sizeof_ptr * Z.of_nat (length strs)), rest)) /\
  (exists b, responseRaw (R_raw raw) (Z.of_nat (length raw)) [] = Ret (0, b) /\
     parseRaw junk (b ++ rest) = Ret (Some (D_raw (Some raw), Z.of_nat (length raw)), rest)).
Proof.
  intros H1 H2 H3 H4 H5 H6 H7 H8. split_and!; eexists;
    (split; [first [apply responseInts_writes|apply responseStrings_writes|apply responseRaw_writes]|]); rewrite app_nil_l.
  - destruct (payload_parses junk stack_limit 0 DispatchInts _ _ _ rest (fmt_ints stack_limit 0 ints H1 H2 H3 H4)) as (p & [= <-] & E).
    exact E.
  - destruct (payload_parses junk stack_limit 0 DispatchStrings _ _ _ rest (fmt_strings stack_limit 0 strs H5 H6 H7)) as (p & [= <-] & E).
    exact E.
  - destruct (payload_parses junk stack_limit 0 DispatchRaw _ _ _ rest (fmt_raw stack_limit 0 raw H8)) as (p & [= <-] & E).
    exact E.
Qed.

(** A radio capability written by [responseRadioCapability] is read back
    by [dispatchRadioCapability], the zero-padded modem identifier included. *)
Lemma radio_capability_roundtrip (c : RIL_RadioCapability) (uuid : list Z) (rest : bytes) :
  uuid_ok (ril "MAX_UUID_LENGTH") (logicalModemUuid c) uuid ->
  Forall int32 [rc_version c; rc_session c; rc_phase c; rc_rat c; rc_status c] ->
  exists b, responseRadioCapability (R_radioCapability c) (sizeof "RIL_RadioCapability") [] = Ret (0, b) /\
    parseRadioCapability junk (b ++ rest) = Ret (Some (D_radioCapability c, sizeof "RIL_RadioCapability"), rest).
Proof.
  intros Hu Hi. eexists. split; [by apply (responseRadioCapability_writes c uuid)|]. rewrite app_nil_l.
  by apply parseRadioCapability_run.
Qed.

(** ** Network lists and signal strength *)

(** Of a network list every fifth string is left out; the number of the
    strings that are sent is the announced count exactly when the list has
    complete groups of five. *)
Lemma available_networks_counts (l : list cstr) :
  responseAvailableNetworks (R_strings l) (sizeof_ptr * Z.of_nat (length l)) [] =
    Ret (0, fields (Int (Z.of_nat (length l) / 5 * 4) :: map Str (drop_fifth l))) /\
  (Z.of_nat (length (drop_fifth l)) = Z.of_nat (length l) / 5 * 4 <-> Z.of_nat (length l) mod 5 = 0).
Proof.
  split; [by rewrite responseAvailableNetworks_writes|]. rewrite length_drop_fifth.
  Z.to_euclidean_division_equations. lia.
Qed.

(** The remapping of LTE values for old vendor libraries is idempotent
    (the response is remapped in place and may be sent again), and leaves no
    value that the old libraries use for "unknown". *)
Lemma lte_fixup_idempotent (l : RIL_LTE_SignalStrength) :
  - 2 ^ 31 < rsrp l -> int32 (rsrp l) ->
  fixup_lte (fixup_lte l) = fixup_lte l /\
  lte_signalStrength (fixup_lte l) <> -1 /\ 0 <= rsrp (fixup_lte l) /\ rsrq (fixup_lte l) <> -1 /\
  rssnr (fixup_lte l) <> 0 /\ cqi (fixup_lte l) <> -1.
Proof.
  intros Hr Hi. unfold int32 in Hi. unfold fixup_lte, INT_MAX. cbn [lte_signalStrength rsrp rsrq rssnr cqi timingAdvance].
  assert (Hs : rsrp l < -1 -> s32 (- rsrp l) = - rsrp l) by (intros; apply s32_small; lia).
  destruct (Z.ltb_spec (rsrp l) (-1)) as [Hlt|Hge]; [rewrite (Hs Hlt)|];
    repeat match goal with |- context [?x =? ?y] => destruct (Z.eqb_spec x y) end;
    repeat match goal with |- context [?x <? ?y] => destruct (Z.ltb_spec x y) end; split_and!; try done; try lia; f_equal; lia.
Qed.

End Properties.
