(* ===== verification/RilRadioProps.v ===== *)
(** * Properties of the commands that libril rewrites or answers itself *)

From S2P Require Import Prelude Parcel RilTypes RilResponse RilTables RilCore RilDispatch RilFacts RilSystem RilInv RilWake RilCodec RilRoundtrip.

Section Lemmas.
Context {P : ParcelOps} {H : RilHeader} {HP : Heap} {PL : ParcelLaws P}.
Variable junk : Z.
Variable stack_limit : Z.

(** The payload of [RIL_REQUEST_SIM_IO]. *)
Definition simIO_fields (io : RIL_SIM_IO_v3) : list field :=
  [Int (io_command io); Int (io_fileid io); Str (io_path io); Int (io_p1 io); Int (io_p2 io); Int (io_p3 io);
   Str (io_data io); Str (io_pin2 io); Str (io_aidPtr io)].

Definition simIO_ok (io : RIL_SIM_IO_v3) : Prop :=
  io_slot io = 0 /\ Forall int32 [io_command io; io_fileid io; io_p1 io; io_p2 io; io_p3 io] /\
  Forall cstr_ok [io_path io; io_data io; io_pin2 io; io_aidPtr io].

Lemma read_simIO_run io r : simIO_ok io -> read_simIO junk (fields (simIO_fields io) ++ r) = Ret ((NO_ERROR, io), r).
Proof.
  intros (Hs & Hi & Hc). rewrite !Forall_cons in Hi. rewrite !Forall_cons in Hc.
  destruct Hi as (I1 & I2 & I3 & I4 & I5 & _), Hc as (C1 & C2 & C3 & C4 & _).
  unfold read_simIO, simIO_fields. read_fields. destruct io. simpl in Hs. by subst.
Qed.

(** The fixed responses. *)
Definition icc_size : string := "0000000a2fe2040000000005020000".
Definition icc_contents : string := "00000000000000000010".

Definition simIO_reply (s : string) : response := R_simIo (SimIoResponse 144 0 (Some (lit s))).

Lemma simIO_payload v s :
  payload_of v (Some ResponseSIM_IO) (simIO_reply s) (sizeof "RIL_SIM_IO_Response") = Ret (0, fields [Int 144; Int 0; Str (Some (lit s))]).
Proof.
  unfold payload_of, simIO_reply. cbn [is_null call_response]. unfold responseSIM_IO. cbn [is_null]. rewrite Z.eqb_refl.
  cbn [negb sw1 sw2 simResponse].
  assert (Hw : writes (writeInt32 144;; writeInt32 0;; writeStringToParcel (Some (lit s));; mret 0) 0 [Int 144; Int 0; Str (Some (lit s))])
    by (eapply writes_eq; [writes_tac|done]).
  exact (Hw []).
Qed.

Lemma strings_parcel_run l : strings_parcel l [] = Ret (tt, fields (Int (Z.of_nat (length l)) :: map Str l)).
Proof.
  assert (Hw : writes (strings_parcel l) tt (Int (Z.of_nat (length l)) :: map Str l)).
  { unfold strings_parcel. eapply writes_eq; [eapply writes_bind; [apply writes_int|apply (writes_list _ (fun x => [Str x]))]|].
    - apply writes_str.
    - by rewrite concat_singletons. }
  exact (Hw []).
Qed.

(** [dispatchStrings] of a documented array of strings. *)
Lemma dispatchStrings_run s a ri ci l :
  reqs s !! a = Some ri -> s_commands !! pCI ri = Some ci -> Forall cstr_ok l ->
  sizeof_ptr * Z.of_nat (length l) <= stack_limit -> int32 (Z.of_nat (length l)) ->
  dispatchStrings junk stack_limit (fields (Int (Z.of_nat (length l)) :: map Str l)) a s =
    Ret (tt, called (VendorCall (requestNumber ci) (D_strings (Some l)) (sizeof_ptr * Z.of_nat (length l)) a) s).
Proof.
  intros Hri Hci Hl Hs Hn.
  destruct (payload_parses junk stack_limit (version s) DispatchStrings _ _ _ [] (fmt_strings stack_limit (version s) l Hl Hs Hn)) as (p & Hp & E).
  rewrite app_nil_r in E. exact (dispatch_parsed_run junk stack_limit s DispatchStrings p _ a ri ci (Some _) [] Hp E Hri Hci).
Qed.

End Lemmas.

Section Properties.
Context {P : ParcelOps} {H : RilHeader} {HP : Heap} {PL : ParcelLaws P} {HL : HeapLaws HP}.
Variable junk : Z.
Variable stack_limit : Z.

(** a SIM I/O request for the size or the contents of the ICC ID in the
    master file is answered by libril with a fixed response and never reaches
    the vendor library; every other one is passed on unchanged. *)
Lemma icc_id_is_answered_locally (s : rstate) a l ri ci io :
  simIO_ok io -> pending_ok s (a :: l) -> reqs s !! a = Some ri -> local ri = false -> cancelled ri = false ->
  s_commands !! pCI ri = Some ci -> responseFunction ci = Some ResponseSIM_IO -> healthy s -> io_path io <> None ->
  (forall w, w ∈ [icc_size; icc_contents] ->
    Z.of_nat (length (reply_parcel (token ri) (ril "RIL_E_SUCCESS") (fields [Int 144; Int 0; Str (Some (lit w))])))
      <= MAX_COMMAND_BYTES) ->
  let answer w := exists s', dispatchSIM_IO junk (fields (simIO_fields io)) a s = Ret (tt, s') /\ pending_ok s' l /\
    calls s' = calls s /\
    wire (sock s') = wire (sock s) ++ frame (reply_parcel (token ri) (ril "RIL_E_SUCCESS") (fields [Int 144; Int 0; Str (Some (lit w))])) in
  (io_path io = Some (lit "3F00") -> io_command io = 192 -> answer icc_size) /\
  (io_path io = Some (lit "3F00") -> io_command io = 176 -> answer icc_contents) /\
  (io_path io <> Some (lit "3F00") \/ io_command io <> 192 /\ io_command io <> 176 ->
   dispatchSIM_IO junk (fields (simIO_fields io)) a s =
     Ret (tt, called (VendorCall (requestNumber ci) (D_simIo io) (sizeof "RIL_SIM_IO_v3") a) s)).
Proof.
  intros Hio Hok Hri Hl Hc Hci Hf Hh Hp Hlen.
  assert (Hread : on_parcel (read_simIO junk) (fields (simIO_fields io)) s = Ret ((NO_ERROR, io, []), s)).
  { unfold on_parcel. rewrite <- (app_nil_r (fields (simIO_fields io))), read_simIO_run by done. done. }
  assert (Hans : forall w, w ∈ [icc_size; icc_contents] -> exists s', RIL_onRequestComplete (Some a) (ril "RIL_E_SUCCESS") (simIO_reply w) (sizeof "RIL_SIM_IO_Response") s = Ret (tt, s') /\
    pending_ok s' l /\ calls s' = calls s /\
    wire (sock s') = wire (sock s) ++ frame (reply_parcel (token ri) (ril "RIL_E_SUCCESS") (fields [Int 144; Int 0; Str (Some (lit w))]))).
  { intros w Hw. destruct (complete_healthy s [] a l ri ci (ril "RIL_E_SUCCESS") (simIO_reply w) (sizeof "RIL_SIM_IO_Response") 0
      (fields [Int 144; Int 0; Str (Some (lit w))]) Hok Hri Hl Hc Hci) as (m' & h' & Hr & Hok' & _); [rewrite Hf; apply simIO_payload|done|by apply Hlen|].
    by eexists; split. }
  cbn zeta. unfold dispatchSIM_IO. rewrite (bind_run _ _ _ _ _ Hread). cbn beta iota. cbn [ok negb NO_ERROR Z.eqb].
  destruct (io_path io) as [path|]; [|done]. unfold strcmp_eq.
  split_and!.
  - intros [= ->] ->. rewrite bool_decide_true by done. apply Hans. set_solver.
  - intros [= ->] ->. rewrite bool_decide_true by done. apply Hans. set_solver.
  - intros Hne. assert (Hmf : forall n, n = 192 \/ n = 176 -> bool_decide (path = lit "3F00") && (io_command io =? n) = false).
    { intros n Hn. case_bool_decide as Hx; [|done]. simpl. apply Z.eqb_neq. destruct Hne as [Hne|[H1 H2]]; [congruence|]. lia. }
    erewrite bind_run by done. rewrite (Hmf 192), (Hmf 176) by lia. unfold CALL_ONREQUEST.
    erewrite bind_run by (by apply load_req_run). by rewrite Hci.
Qed.

(** A query of the voice radio technology while the radio is off or
    unavailable is answered once, with [RIL_E_RADIO_NOT_AVAILABLE], although
    the function goes on and completes the freed request a second time. *)
Lemma radio_off_answers_once (s : rstate) a l ri ci p :
  pending_ok s (a :: l) -> reqs s !! a = Some ri -> local ri = false -> cancelled ri = false ->
  s_commands !! pCI ri = Some ci -> healthy s ->
  radio_unavailable (vendor_state s) = true -> ril "RADIO_STATE_ON" <> vendor_state s ->
  exists s', dispatchVoiceRadioTech p a s = Ret (tt, s') /\ pending_ok s' l /\ calls s' = calls s /\
    wire (sock s') = wire (sock s) ++ frame (reply_parcel (token ri) (ril "RIL_E_RADIO_NOT_AVAILABLE") []).
Proof.
  intros Hok Hri Hl Hc Hci Hh Hoff Hon.
  destruct (complete_healthy s [] a l ri ci (ril "RIL_E_RADIO_NOT_AVAILABLE") R_null 0 0 [] Hok Hri Hl Hc Hci) as (m' & h' & Hr & Hok' & _); [done|done| |].
  { unfold reply_parcel. rewrite !length_app, !enc32_length. done. }
  unfold dispatchVoiceRadioTech. erewrite bind_run by done. cbn beta. rewrite Hoff. erewrite bind_run by exact Hr. cbn beta.
  destruct (Z.eqb_spec (ril "RADIO_STATE_ON") (vendor_state s)); [done|]. erewrite bind_run by done.
  set (s1 := with_radio _ _ _ _).
  assert (Hok1 : pending_ok s1 l) by (by destruct Hok').
  assert (Hnin : forall b, Some a = Some b -> b ∉ l) by (intros b [= <-]; by destruct (proj1 (NoDup_cons _ _) (pend_nodup _ _ Hok))).
  exists s1. split; [|by split_and!].
  destruct (_ <? 0); by apply (complete_unknown _ l).
Qed.

(** A facility lock query is passed on with its strings in the order of
    the old interface, preceded by the slot: empty without an application,
    zero with one. *)
Lemma facility_query_is_reordered (s : rstate) a ri ci count facility password serviceClass appId :
  reqs s !! a = Some ri -> s_commands !! pCI ri = Some ci -> int32 count ->
  Forall cstr_ok [facility; password; serviceClass; Some appId; Some (lit ""); Some (lit "0")] -> 20 <= stack_limit ->
  dispatchQueryFacility junk stack_limit (fields [Int count; Str facility; Str password; Str serviceClass; Str (Some appId)]) a s =
    Ret (tt, called (VendorCall (requestNumber ci)
      (D_strings (Some [Some (if bool_decide (appId = []) then lit "" else lit "0"); Some appId; facility; password; serviceClass])) 20 a) s).
Proof.
  intros Hri Hci Hn Hc Hs. rewrite !Forall_cons in Hc. destruct Hc as (C1 & C2 & C3 & C4 & C5 & C6 & _).
  unfold dispatchQueryFacility.
  assert (Hread : on_parcel (_count ← readInt32_value; read_list 4 strdupReadString)
    (fields [Int count; Str facility; Str password; Str serviceClass; Str (Some appId)]) s =
    Ret ([facility; password; serviceClass; Some appId], [], s)).
  { unfold on_parcel. rewrite <- (app_nil_r (fields _)), fields_cons. erewrite bind_run by (by apply readInt32_value_field).
    rewrite (read_strings_list [facility; password; serviceClass; Some appId] []); [done|]. rewrite !Forall_cons. auto. }
  rewrite (bind_run _ _ _ _ _ Hread). cbn beta iota. unfold facility_slot, strcmp_eq. erewrite bind_run by done. cbn beta.
  replace (bool_decide (appId = lit "")) with (bool_decide (appId = [])) by (by apply bool_decide_ext).
  set (slot := if bool_decide (appId = []) then _ else _).
  erewrite bind_run by (unfold on_parcel; by rewrite strings_parcel_run). cbn beta iota.
  apply (dispatchStrings_run junk stack_limit s a ri ci [Some slot; Some appId; facility; password; serviceClass]); try done.
  rewrite !Forall_cons. split_and!; try done. unfold slot. by case_bool_decide.
Qed.

(** C24: a time message (NITZ) that cannot be delivered because no client is
    connected is kept, with the time at which it was received, for the next
    connection; the wake lock is taken and its release scheduled. *)
Theorem undelivered_time_is_kept (s : rstate) info t len :
  let code := ril "RIL_UNSOL_NITZ_TIME_RECEIVED" in
  s_registerCalled s = true -> fdCommand (sock s) < 0 -> wake_ok s -> conv_unsupported code = false -> convert_unsol code = code ->
  0 <= code - ril "RIL_UNSOL_RESPONSE_BASE" < Z.of_nat (length s_unsolResponses) ->
  s_unsolResponses !! Z.to_nat (code - ril "RIL_UNSOL_RESPONSE_BASE") = Some info ->
  unsolFunction info = ResponseString -> wakeType info = WAKE_PARTIAL ->
  code <> ril "RIL_UNSOL_RESPONSE_RADIO_STATE_CHANGED" ->
  exists s', RIL_onUnsolicitedResponse code (R_string t) len s = Ret (tt, s') /\ sock s' = sock s /\
    s_lastNITZTimeData s' = Some (enc32 RESPONSE_UNSOLICITED ++ enc32 code ++ enc_str (Some (to16 t)) ++ enc64 (now s)) /\
    wake_lock s' = true /\ wake_ok s' /\ s_last_wake_timeout_info s' <> None.
Proof.
  intros code. assert (Hcode : ril "RIL_UNSOL_NITZ_TIME_RECEIVED" = code) by done. clearbody code.
  intros Hreg Hfd Hw Hcu Hcv Hidx Hinfo Hf Hwt Hne. unfold RIL_onUnsolicitedResponse. cbn [unsolicited].
  rewrite Hcu, Hcv. erewrite bind_run by done. rewrite Hreg. cbn [negb].
  destruct (Z.ltb_spec (code - ril "RIL_UNSOL_RESPONSE_BASE") 0); [lia|].
  destruct (Z.leb_spec (Z.of_nat (length s_unsolResponses)) (code - ril "RIL_UNSOL_RESPONSE_BASE")); [lia|]. cbn [orb].
  rewrite Hinfo, Hwt, Hf. cbn [wakes]. erewrite bind_run by done. cbn beta.
  rewrite Hcode, Z.eqb_refl. set (s1 := with_wake _ _ _ _ _).
  assert (Hp : on_parcel (writeInt32 RESPONSE_UNSOLICITED;; writeInt32 code;; call_response (version s) ResponseString (R_string t) len) [] s1 =
    Ret (0, (enc32 RESPONSE_UNSOLICITED ++ enc32 code) ++ enc_str (Some (to16 t)), s1)) by done.
  erewrite bind_run by exact Hp. cbn beta iota. cbn [Z.eqb negb].
  assert (Hmore : forall u p, more_payload u code (now s) p s1 = Ret (p ++ enc64 (now s), s1)).
  { intros u p. unfold more_payload. destruct (Z.eqb_spec code (ril "RIL_UNSOL_RESPONSE_RADIO_STATE_CHANGED")); [done|].
    by rewrite Hcode, Z.eqb_refl. }
  erewrite bind_run by apply Hmore. rewrite <- !app_assoc. set (p := enc32 RESPONSE_UNSOLICITED ++ _). unfold deliver.
  assert (Hsend : sendResponse p s1 = Ret (-1, s1)).
  { unfold sendResponse, sendResponseRaw. erewrite bind_run by done. simpl.
    by destruct (Z.ltb_spec (fdCommand (sock s)) 0); [|lia]. }
  erewrite bind_run by exact Hsend. cbn beta. rewrite Hcode, Z.eqb_refl. cbn [negb Z.eqb andb]. erewrite bind_run by done.
  set (s2 := with_nitz _ _).
  assert (Hsched : exists s', scheduleWakeTimeout s2 = Ret (tt, s') /\ sock s' = sock s2 /\ s_lastNITZTimeData s' = s_lastNITZTimeData s2 /\
    wake_lock s' = wake_lock s2 /\ s_last_wake_timeout_info s' <> None).
  { unfold scheduleWakeTimeout. erewrite bind_run by done. destruct (s_last_wake_timeout_info s2) as [c|] eqn:E.
    - assert (Hc : timed s2 !! c = Some release_pending) by (by apply Hw). rewrite Hc. eexists. by split.
    - eexists. by split. }
  destruct Hsched as (s' & Hs & E1 & E2 & E3 & E4). exists s'. split; [exact Hs|]. rewrite E1, E2, E3. split_and!; try done.
  assert (Hw2 : wake_inv false s2) by (by split). by destruct (wake_schedule true s2 tt s' Hw2 Hs).
Qed.

End Properties.
