(* ===== verification/RilRef.v ===== *)
(** * Reference values for the RIL header

    An instance of [RilHeader] and of the allocator, for concrete runs: the
    values of Android's public [telephony/ril.h], and struct sizes that are
    plausible for the 32-bit target.  No theorem depends on it except the
    concrete runs and the properties that name it. *)

From S2P Require Import Prelude RilTypes RilCore.

Definition lookup_name (t : list (string * Z)) (n : string) : Z :=
  match find (fun e => String.eqb e.1 n) t with Some e => e.2 | None => 0 end.

Definition header_values : list (string * Z) := [
  ("RIL_REQUEST_GET_SIM_STATUS", 1); ("RIL_REQUEST_ENTER_SIM_PIN", 2); ("RIL_REQUEST_ENTER_SIM_PUK", 3);
  ("RIL_REQUEST_ENTER_SIM_PIN2", 4); ("RIL_REQUEST_ENTER_SIM_PUK2", 5); ("RIL_REQUEST_CHANGE_SIM_PIN", 6);
  ("RIL_REQUEST_CHANGE_SIM_PIN2", 7); ("RIL_REQUEST_ENTER_NETWORK_DEPERSONALIZATION", 8);
  ("RIL_REQUEST_GET_CURRENT_CALLS", 9); ("RIL_REQUEST_DIAL", 10); ("RIL_REQUEST_GET_IMSI", 11);
  ("RIL_REQUEST_HANGUP", 12); ("RIL_REQUEST_HANGUP_WAITING_OR_BACKGROUND", 13);
  ("RIL_REQUEST_HANGUP_FOREGROUND_RESUME_BACKGROUND", 14);
  ("RIL_REQUEST_SWITCH_WAITING_OR_HOLDING_AND_ACTIVE", 15); ("RIL_REQUEST_CONFERENCE", 16);
  ("RIL_REQUEST_UDUB", 17); ("RIL_REQUEST_LAST_CALL_FAIL_CAUSE", 18); ("RIL_REQUEST_SIGNAL_STRENGTH", 19);
  ("RIL_REQUEST_VOICE_REGISTRATION_STATE", 20); ("RIL_REQUEST_DATA_REGISTRATION_STATE", 21);
  ("RIL_REQUEST_OPERATOR", 22); ("RIL_REQUEST_RADIO_POWER", 23); ("RIL_REQUEST_DTMF", 24);
  ("RIL_REQUEST_SEND_SMS", 25); ("RIL_REQUEST_SEND_SMS_EXPECT_MORE", 26);
  ("RIL_REQUEST_SETUP_DATA_CALL", 27); ("RIL_REQUEST_SIM_IO", 28); ("RIL_REQUEST_SEND_USSD", 29);
  ("RIL_REQUEST_CANCEL_USSD", 30); ("RIL_REQUEST_GET_CLIR", 31); ("RIL_REQUEST_SET_CLIR", 32);
  ("RIL_REQUEST_QUERY_CALL_FORWARD_STATUS", 33); ("RIL_REQUEST_SET_CALL_FORWARD", 34);
  ("RIL_REQUEST_QUERY_CALL_WAITING", 35); ("RIL_REQUEST_SET_CALL_WAITING", 36);
  ("RIL_REQUEST_SMS_ACKNOWLEDGE", 37); ("RIL_REQUEST_GET_IMEI", 38); ("RIL_REQUEST_GET_IMEISV", 39);
  ("RIL_REQUEST_ANSWER", 40); ("RIL_REQUEST_DEACTIVATE_DATA_CALL", 41);
  ("RIL_REQUEST_QUERY_FACILITY_LOCK", 42); ("RIL_REQUEST_SET_FACILITY_LOCK", 43);
  ("RIL_REQUEST_CHANGE_BARRING_PASSWORD", 44); ("RIL_REQUEST_QUERY_NETWORK_SELECTION_MODE", 45);
  ("RIL_REQUEST_SET_NETWORK_SELECTION_AUTOMATIC", 46); ("RIL_REQUEST_SET_NETWORK_SELECTION_MANUAL", 47);
  ("RIL_REQUEST_QUERY_AVAILABLE_NETWORKS", 48); ("RIL_REQUEST_DTMF_START", 49);
  ("RIL_REQUEST_DTMF_STOP", 50); ("RIL_REQUEST_BASEBAND_VERSION", 51);
  ("RIL_REQUEST_SEPARATE_CONNECTION", 52); ("RIL_REQUEST_SET_MUTE", 53); ("RIL_REQUEST_GET_MUTE", 54);
  ("RIL_REQUEST_QUERY_CLIP", 55); ("RIL_REQUEST_LAST_DATA_CALL_FAIL_CAUSE", 56);
  ("RIL_REQUEST_DATA_CALL_LIST", 57); ("RIL_REQUEST_RESET_RADIO", 58); ("RIL_REQUEST_OEM_HOOK_RAW", 59);
  ("RIL_REQUEST_OEM_HOOK_STRINGS", 60); ("RIL_REQUEST_SCREEN_STATE", 61);
  ("RIL_REQUEST_SET_SUPP_SVC_NOTIFICATION", 62); ("RIL_REQUEST_WRITE_SMS_TO_SIM", 63);
  ("RIL_REQUEST_DELETE_SMS_ON_SIM", 64); ("RIL_REQUEST_SET_BAND_MODE", 65);
  ("RIL_REQUEST_QUERY_AVAILABLE_BAND_MODE", 66); ("RIL_REQUEST_STK_GET_PROFILE", 67);
  ("RIL_REQUEST_STK_SET_PROFILE", 68); ("RIL_REQUEST_STK_SEND_ENVELOPE_COMMAND", 69);
  ("RIL_REQUEST_STK_SEND_TERMINAL_RESPONSE", 70);
  ("RIL_REQUEST_STK_HANDLE_CALL_SETUP_REQUESTED_FROM_SIM", 71); ("RIL_REQUEST_EXPLICIT_CALL_TRANSFER", 72);
  ("RIL_REQUEST_SET_PREFERRED_NETWORK_TYPE", 73); ("RIL_REQUEST_GET_PREFERRED_NETWORK_TYPE", 74);
  ("RIL_REQUEST_GET_NEIGHBORING_CELL_IDS", 75); ("RIL_REQUEST_SET_LOCATION_UPDATES", 76);
  ("RIL_REQUEST_CDMA_SET_SUBSCRIPTION_SOURCE", 77); ("RIL_REQUEST_CDMA_SET_ROAMING_PREFERENCE", 78);
  ("RIL_REQUEST_CDMA_QUERY_ROAMING_PREFERENCE", 79); ("RIL_REQUEST_SET_TTY_MODE", 80);
  ("RIL_REQUEST_QUERY_TTY_MODE", 81); ("RIL_REQUEST_CDMA_SET_PREFERRED_VOICE_PRIVACY_MODE", 82);
  ("RIL_REQUEST_CDMA_QUERY_PREFERRED_VOICE_PRIVACY_MODE", 83); ("RIL_REQUEST_CDMA_FLASH", 84);
  ("RIL_REQUEST_CDMA_BURST_DTMF", 85); ("RIL_REQUEST_CDMA_VALIDATE_AND_WRITE_AKEY", 86);
  ("RIL_REQUEST_CDMA_SEND_SMS", 87); ("RIL_REQUEST_CDMA_SMS_ACKNOWLEDGE", 88);
  ("RIL_REQUEST_GSM_GET_BROADCAST_SMS_CONFIG", 89); ("RIL_REQUEST_GSM_SET_BROADCAST_SMS_CONFIG", 90);
  ("RIL_REQUEST_GSM_SMS_BROADCAST_ACTIVATION", 91); ("RIL_REQUEST_CDMA_GET_BROADCAST_SMS_CONFIG", 92);
  ("RIL_REQUEST_CDMA_SET_BROADCAST_SMS_CONFIG", 93); ("RIL_REQUEST_CDMA_SMS_BROADCAST_ACTIVATION", 94);
  ("RIL_REQUEST_CDMA_SUBSCRIPTION", 95); ("RIL_REQUEST_CDMA_WRITE_SMS_TO_RUIM", 96);
  ("RIL_REQUEST_CDMA_DELETE_SMS_ON_RUIM", 97); ("RIL_REQUEST_DEVICE_IDENTITY", 98);
  ("RIL_REQUEST_EXIT_EMERGENCY_CALLBACK_MODE", 99); ("RIL_REQUEST_GET_SMSC_ADDRESS", 100);
  ("RIL_REQUEST_SET_SMSC_ADDRESS", 101); ("RIL_REQUEST_REPORT_SMS_MEMORY_STATUS", 102);
  ("RIL_REQUEST_REPORT_STK_SERVICE_IS_RUNNING", 103); ("RIL_UNSOL_RESPONSE_RADIO_STATE_CHANGED", 1000);
  ("RIL_UNSOL_RESPONSE_CALL_STATE_CHANGED", 1001); ("RIL_UNSOL_RESPONSE_VOICE_NETWORK_STATE_CHANGED", 1002);
  ("RIL_UNSOL_RESPONSE_NEW_SMS", 1003); ("RIL_UNSOL_RESPONSE_NEW_SMS_STATUS_REPORT", 1004);
  ("RIL_UNSOL_RESPONSE_NEW_SMS_ON_SIM", 1005); ("RIL_UNSOL_ON_USSD", 1006);
  ("RIL_UNSOL_ON_USSD_REQUEST", 1007); ("RIL_UNSOL_NITZ_TIME_RECEIVED", 1008);
  ("RIL_UNSOL_SIGNAL_STRENGTH", 1009); ("RIL_UNSOL_DATA_CALL_LIST_CHANGED", 1010);
  ("RIL_UNSOL_SUPP_SVC_NOTIFICATION", 1011); ("RIL_UNSOL_STK_SESSION_END", 1012);
  ("RIL_UNSOL_STK_PROACTIVE_COMMAND", 1013); ("RIL_UNSOL_STK_EVENT_NOTIFY", 1014);
  ("RIL_UNSOL_STK_CALL_SETUP", 1015); ("RIL_UNSOL_SIM_SMS_STORAGE_FULL", 1016);
  ("RIL_UNSOL_SIM_REFRESH", 1017); ("RIL_UNSOL_CALL_RING", 1018);
  ("RIL_UNSOL_RESPONSE_SIM_STATUS_CHANGED", 1019); ("RIL_UNSOL_RESPONSE_CDMA_NEW_SMS", 1020);
  ("RIL_UNSOL_RESPONSE_NEW_BROADCAST_SMS", 1021); ("RIL_UNSOL_CDMA_RUIM_SMS_STORAGE_FULL", 1022);
  ("RIL_UNSOL_RESTRICTED_STATE_CHANGED", 1023); ("RIL_UNSOL_ENTER_EMERGENCY_CALLBACK_MODE", 1024);
  ("RIL_UNSOL_CDMA_CALL_WAITING", 1025); ("RIL_UNSOL_CDMA_OTA_PROVISION_STATUS", 1026);
  ("RIL_UNSOL_CDMA_INFO_REC", 1027); ("RIL_UNSOL_OEM_HOOK_RAW", 1028); ("RIL_UNSOL_RINGBACK_TONE", 1029);
  ("RIL_UNSOL_RESEND_INCALL_MUTE", 1030); ("RIL_UNSOL_CDMA_SUBSCRIPTION_SOURCE_CHANGED", 1031);
  ("RIL_UNSOL_CDMA_PRL_CHANGED", 1032); ("RIL_UNSOL_EXIT_EMERGENCY_CALLBACK_MODE", 1033);
  ("RIL_UNSOL_RIL_CONNECTED", 1034); ("RIL_UNSOL_VOICE_RADIO_TECH_CHANGED", 1035);
  ("RIL_UNSOL_CELL_INFO_LIST", 1036); ("RIL_UNSOL_RESPONSE_IMS_NETWORK_STATE_CHANGED", 1037);
  ("RIL_UNSOL_UICC_SUBSCRIPTION_STATUS_CHANGED", 1038); ("RIL_UNSOL_SRVCC_STATE_NOTIFY", 1039);
  ("RIL_UNSOL_HARDWARE_CONFIG_CHANGED", 1040); ("RIL_UNSOL_DC_RT_INFO_CHANGED", 1041);
  ("RIL_UNSOL_RADIO_CAPABILITY", 1042); ("RIL_UNSOL_ON_SS", 1043); ("RIL_UNSOL_STK_CC_ALPHA_NOTIFY", 1044);
  ("RIL_UNSOL_LCEDATA_RECV", 1045); ("RIL_UNSOL_RESPONSE_BASE", 1000); ("RIL_E_SUCCESS", 0);
  ("RIL_E_RADIO_NOT_AVAILABLE", 1); ("RIL_E_GENERIC_FAILURE", 2); ("RADIO_STATE_OFF", 0);
  ("RADIO_STATE_UNAVAILABLE", 1); ("RADIO_STATE_SIM_NOT_READY", 2); ("RADIO_STATE_SIM_LOCKED_OR_ABSENT", 3);
  ("RADIO_STATE_SIM_READY", 4); ("RADIO_STATE_RUIM_NOT_READY", 5); ("RADIO_STATE_RUIM_READY", 6);
  ("RADIO_STATE_RUIM_LOCKED_OR_ABSENT", 7); ("RADIO_STATE_NV_NOT_READY", 8); ("RADIO_STATE_NV_READY", 9);
  ("RADIO_STATE_ON", 10); ("RADIO_TECH_3GPP", 1); ("RADIO_TECH_3GPP2", 2); ("RADIO_TECH_UMTS", 3);
  ("RADIO_TECH_IS95A", 4); ("RADIO_TECH_IS95B", 5); ("RADIO_TECH_1xRTT", 6); ("RADIO_TECH_EVDO_0", 7);
  ("RADIO_TECH_EVDO_A", 8); ("RADIO_TECH_EVDO_B", 12); ("RADIO_TECH_EHRPD", 13);
  ("CDMA_SUBSCRIPTION_SOURCE_RUIM_SIM", 0); ("CDMA_SUBSCRIPTION_SOURCE_NV", 1);
  ("RIL_CDMA_SMS_ADDRESS_MAX", 36); ("RIL_CDMA_SMS_SUBADDRESS_MAX", 36);
  ("RIL_CDMA_SMS_BEARER_DATA_MAX", 255); ("MAX_UUID_LENGTH", 64); ("RIL_CDMA_MAX_NUMBER_OF_INFO_RECS", 10);
  ("CDMA_ALPHA_INFO_BUFFER_LENGTH", 64); ("CDMA_NUMBER_INFO_BUFFER_LENGTH", 81);
  ("RIL_CDMA_DISPLAY_INFO_REC", 0); ("RIL_CDMA_CALLED_PARTY_NUMBER_INFO_REC", 1);
  ("RIL_CDMA_CALLING_PARTY_NUMBER_INFO_REC", 2); ("RIL_CDMA_CONNECTED_NUMBER_INFO_REC", 3);
  ("RIL_CDMA_SIGNAL_INFO_REC", 4); ("RIL_CDMA_REDIRECTING_NUMBER_INFO_REC", 5);
  ("RIL_CDMA_LINE_CONTROL_INFO_REC", 6); ("RIL_CDMA_EXTENDED_DISPLAY_INFO_REC", 7);
  ("RIL_CDMA_T53_CLIR_INFO_REC", 8); ("RIL_CDMA_T53_RELEASE_INFO_REC", 9);
  ("RIL_CDMA_T53_AUDIO_CONTROL_INFO_REC", 10); ("RIL_CELL_INFO_TYPE_GSM", 1); ("RIL_CELL_INFO_TYPE_CDMA", 2);
  ("RIL_CELL_INFO_TYPE_LTE", 3); ("RIL_CELL_INFO_TYPE_WCDMA", 4); ("RIL_CELL_INFO_TYPE_TD_SCDMA", 5);
  ("RIL_HARDWARE_CONFIG_MODEM", 0); ("RIL_HARDWARE_CONFIG_SIM", 1); ("NUM_SERVICE_CLASSES", 7);
  ("SS_INFO_MAX", 4); ("SS_INTERROGATION", 2); ("SS_CFU", 0); ("SS_CF_BUSY", 1); ("SS_CF_NO_REPLY", 2);
  ("SS_CF_NOT_REACHABLE", 3); ("SS_CF_ALL", 4); ("SS_CF_ALL_CONDITIONAL", 5); ("RIL_NUM_TX_POWER_LEVELS", 5)
]%string.

Definition header_sizes : list (string * Z) := [
  ("RIL_LastCallFailCauseInfo", 8); ("RIL_SMS_Response", 12); ("RIL_SuppSvcNotification", 20);
  ("RIL_SIM_IO_Response", 12); ("RIL_Data_Call_Response_v4", 20); ("RIL_Data_Call_Response_v6", 36);
  ("RIL_Data_Call_Response_v9", 40); ("RIL_Data_Call_Response_v11", 44);
  ("RIL_CDMA_InformationRecords", 1000); ("RIL_SignalStrength_v5", 28); ("RIL_SignalStrength_v6", 52);
  ("RIL_SignalStrength_v10", 56); ("RIL_CDMA_SignalInfoRecord", 4); ("RIL_CDMA_CallWaiting_v6", 28);
  ("RIL_CellInfo", 80); ("RIL_HardwareConfig", 140); ("RIL_RadioCapability", 84);
  ("RIL_StkCcUnsolSsResponse", 200); ("RIL_CardList_v3", 400); ("RIL_RegistrationStates_v3", 16);
  ("RIL_CDMA_SMS_Message", 600); ("RIL_DcRtInfo", 16); ("RIL_LceStatusInfo", 8); ("RIL_LceDataInfo", 8);
  ("RIL_ActivityStatsInfo", 32); ("RIL_SMS_WriteArgs", 12); ("RIL_SimPin_v3", 12); ("RIL_SimPuk_v3", 16);
  ("RIL_SimPinSet_v3", 16); ("RIL_Dial", 12); ("RIL_SIM_IO_v3", 40); ("RIL_SIM_APDU", 28);
  ("RIL_CallForwardInfo", 24); ("RIL_RadioTechnologyFamily", 4); ("RIL_CDMA_SMS_Ack", 8);
  ("RIL_GSM_BroadcastSmsConfigInfo", 20); ("RIL_CDMA_BroadcastSmsConfigInfo", 12);
  ("RIL_CDMA_SMS_WriteArgs", 604); ("RIL_DataProfileInfo", 44); ("RIL_RequestImsi_v3", 8);
  ("RIL_InitialAttachApn", 20); ("RIL_NV_ReadItem", 4); ("RIL_NV_WriteItem", 8); ("RIL_SelectUiccSub", 16);
  ("RIL_SimAuthentication", 12)
]%string.

#[export] Instance android_ril : RilHeader := {| ril := lookup_name header_values; sizeof := lookup_name header_sizes |}.

(** The address after the largest one in use. *)
#[export] Instance bump_heap : Heap := {| fresh_addr := fun X => S (max_list (elements X)) |}.

#[export] Instance bump_heap_laws : HeapLaws bump_heap.
Proof.
  split. intros X HX. simpl in HX. apply elem_of_elements in HX. apply max_list_elem_of_le in HX. lia.
Qed.
