(* ===== verification/RilDispatchMemory.v ===== *)
(** * libril/ril.cpp: the memory of the dispatch functions

    The functions of [RilDispatch] whose payload has strings, with the blocks
    that hold the strings: [strdupReadString] allocates, and after the call of
    the vendor library the strings are overwritten ([MEMSET_FREED] is defined)
    and freed.  [parseX] of [RilDispatch] is the same function on values.

    A block is a list of characters with its terminator.  [freed] has what the
    blocks held when they were freed, which is what stays in memory; [calls] has
    the calls of the vendor library with the data that the pointers refer to. *)

From S2P Require Import Prelude Parcel RilTypes RilResponse RilTables RilCore RilDispatch.

Record mem : Type := Mem { live : gmap nat (list Z); freed : list (list Z); calls : list (request_data * Z) }.

(** A [char *]. *)
Abbreviation ptr := (option nat).

Section Memory.
Context {P : ParcelOps} {H : RilHeader}.
Variable junk : Z.
Variable stack_limit : Z.

(** A parcel and the memory. *)
Abbreviation S := (M (bytes * mem)).

(** ** Blocks *)

Definition with_parcel {A} (r : M bytes A) : S A := fun '(p, m) =>
  match r p with
  | Ret (a, p') => Ret (a, (p', m))
  | Abort => Abort
  | Fault => Fault
  end.

Definition malloc_block (c : list Z) : S nat := fun '(p, m) =>
  let a := fresh (dom (live m)) in
  Ret (a, (p, Mem (<[a := c]> (live m)) (freed m) (calls m))).

Definition block (a : nat) : S (list Z) := fun '(p, m) =>
  match live m !! a with Some c => Ret (c, (p, m)) | None => Fault end.

Definition set_block (a : nat) (c : list Z) : S unit := fun '(p, m) =>
  match live m !! a with Some _ => Ret (tt, (p, Mem (<[a := c]> (live m)) (freed m) (calls m))) | None => Fault end.

(** [free]: of a null pointer, nothing. *)
Definition free (q : ptr) : S unit := fun '(p, m) =>
  match q with
  | None => Ret (tt, (p, m))
  | Some a =>
      match live m !! a with
      | Some c => Ret (tt, (p, Mem (delete a (live m)) (freed m ++ [c]) (calls m)))
      | None => Fault
      end
  end.

Definition strdup (s : list Z) : S ptr := a ← malloc_block (s ++ [0]); mret (Some a).

(** [strndup16to8] allocates, unless there is no string. *)
Definition strdupReadString : S ptr :=
  s ← with_parcel Parcel.strdupReadString;
  match s with
  | None => mret None
  | Some s => strdup s
  end.

(** [memset(s, 0, strlen(s))]: the characters before the first terminator. *)
Fixpoint wipe (c : list Z) : list Z :=
  match c with
  | [] => []
  | x :: c' => if x =? 0 then c else 0 :: wipe c'
  end.

Definition memsetString (s : ptr) : S unit :=
  match s with
  | None => mret tt
  | Some a => c ← block a; set_block a (wipe c)
  end.

(** What a pointer refers to, without the terminator. *)
Definition string_at (q : ptr) : S cstr :=
  match q with
  | None => mret None
  | Some a => c ← block a; mret (Some (removelast c))
  end.

Fixpoint for_each {A B} (f : A -> S B) (l : list A) : S (list B) :=
  match l with
  | [] => mret []
  | x :: l' => y ← f x; ys ← for_each f l'; mret (y :: ys)
  end.

Definition CALL_ONREQUEST (data : request_data) (datalen : Z) : S unit := fun '(p, m) =>
  Ret (tt, (p, Mem (live m) (freed m) (calls m ++ [(data, datalen)]))).

(** The label [invalid]: only a message to the log. *)
Definition invalid : S unit := mret tt.

(** ** Strings *)

Definition dispatchString : S unit :=
  string8 ← strdupReadString;
  s ← string_at string8;
  CALL_ONREQUEST (D_string s) sizeof_ptr;;
  memsetString string8;;
  free string8.

(** The array of strings after its count. *)
Fixpoint read_pointers (n : nat) : S (list ptr) :=
  match n with
  | O => mret []
  | Datatypes.S n' => q ← strdupReadString; qs ← read_pointers n'; mret (q :: qs)
  end.

Definition read_pStrings (countStrings : Z) : S (option (list ptr) * Z) :=
  if countStrings =? 0 then mret (Some [], 0)
  else if countStrings =? -1 then mret (None, 0)
  else
    with_parcel (stack_array stack_limit (sizeof_ptr * countStrings));;
    pStrings ← read_pointers (Z.to_nat countStrings);
    mret (Some pStrings, sizeof_ptr * countStrings).

Definition strings_at (pStrings : option (list ptr)) : S (option (list cstr)) :=
  match pStrings with
  | None => mret None
  | Some qs => l ← for_each string_at qs; mret (Some l)
  end.

Definition free_strings (pStrings : option (list ptr)) : S unit :=
  match pStrings with
  | None => mret tt
  | Some qs => for_each (fun q => memsetString q;; free q) qs;; mret tt
  end.

Definition dispatchStrings : S unit :=
  '(status, countStrings) ← with_parcel (readInt32 junk);
  if negb (ok status) then invalid else
  '(pStrings, datalen) ← read_pStrings countStrings;
  l ← strings_at pStrings;
  CALL_ONREQUEST (D_strings l) datalen;;
  free_strings pStrings.

Definition dispatchNetworkManual : S unit :=
  s0 ← strdupReadString;
  s1 ← strdup (lit "NOCHANGE");
  l ← strings_at (Some [s0; s1]);
  CALL_ONREQUEST (D_strings l) (sizeof_ptr * 2);;
  free_strings (Some [s0; s1]).

Definition dispatchImsGsmSms (retry messageRef : Z) : S unit :=
  '(status, countStrings) ← with_parcel (readInt32 junk);
  if negb (ok status) then invalid else
  '(pStrings, datalen) ← read_pStrings countStrings;
  l ← strings_at pStrings;
  CALL_ONREQUEST (D_imsGsm (ril "RADIO_TECH_3GPP") retry messageRef l) (ims_header_len + datalen);;
  free_strings pStrings.

(** ** Messages, SIM and calls *)

(** The string [smsc] is not freed. *)
Definition dispatchSmsWrite : S unit :=
  '(status, t) ← with_parcel (readInt32 junk);
  pdu ← strdupReadString;
  if negb (ok status) || bool_decide (pdu = None) then invalid else
  smsc ← strdupReadString;
  pdu' ← string_at pdu; smsc' ← string_at smsc;
  CALL_ONREQUEST (D_smsWrite (SmsWriteArgs t pdu' smsc')) (sizeof "RIL_SMS_WriteArgs");;
  memsetString pdu;;
  free pdu.

Definition dispatchSimPin : S unit :=
  _count ← with_parcel readInt32_value;
  pin ← strdupReadString;
  aidPtr ← strdupReadString;
  pin' ← string_at pin; aidPtr' ← string_at aidPtr;
  CALL_ONREQUEST (D_simPin (SimPin 0 aidPtr' pin')) (sizeof "RIL_SimPin_v3");;
  memsetString pin;;
  memsetString aidPtr;;
  free pin;;
  free aidPtr.

Definition dispatchSimPuk : S unit :=
  _count ← with_parcel readInt32_value;
  puk ← strdupReadString;
  newPin ← strdupReadString;
  aidPtr ← strdupReadString;
  puk' ← string_at puk; newPin' ← string_at newPin; aidPtr' ← string_at aidPtr;
  CALL_ONREQUEST (D_simPuk (SimPuk 0 aidPtr' puk' newPin')) (sizeof "RIL_SimPuk_v3");;
  memsetString puk;;
  memsetString newPin;;
  memsetString aidPtr;;
  free puk;;
  free newPin;;
  free aidPtr.

Definition dispatchSimPinSet : S unit :=
  _count ← with_parcel readInt32_value;
  pin ← strdupReadString;
  newPin ← strdupReadString;
  aidPtr ← strdupReadString;
  pin' ← string_at pin; newPin' ← string_at newPin; aidPtr' ← string_at aidPtr;
  CALL_ONREQUEST (D_simPinSet (SimPinSet 0 aidPtr' pin' newPin')) (sizeof "RIL_SimPinSet_v3");;
  memsetString pin;;
  memsetString newPin;;
  memsetString aidPtr;;
  free pin;;
  free newPin;;
  free aidPtr.

(** The call and the end of [dispatchDial]. *)
Definition call_dial (address : ptr) (t : Z) (uusInfo : option RIL_UUS_Info) (sizeOfDial : Z) : S unit :=
  address' ← string_at address;
  CALL_ONREQUEST (D_dial (Dial address' t uusInfo)) sizeOfDial;;
  memsetString address;;
  free address.

Definition dispatchDial (v : Z) : S unit :=
  address ← strdupReadString;
  '(status, t) ← with_parcel (readInt32 junk);
  if negb (ok status) || bool_decide (address = None) then invalid else
  if v <? 3 then call_dial address t None (sizeof "RIL_Dial" - sizeof_ptr) else
  uus ← with_parcel (read_uusInfo junk t);
  match uus with
  | None => invalid
  | Some u => call_dial address t u (sizeof "RIL_Dial")
  end.

Definition dispatchSIM_APDU : S unit :=
  '(_, sessionid) ← with_parcel (readInt32 junk);
  '(_, cla) ← with_parcel (readInt32 sessionid);
  '(_, instruction) ← with_parcel (readInt32 cla);
  '(_, p1) ← with_parcel (readInt32 instruction);
  '(_, p2) ← with_parcel (readInt32 p1);
  '(status, p3) ← with_parcel (readInt32 p2);
  data ← strdupReadString;
  if negb (ok status) then invalid else
  data' ← string_at data;
  CALL_ONREQUEST (D_simApdu (SimApdu sessionid cla instruction p1 p2 p3 data')) (sizeof "RIL_SIM_APDU");;
  memsetString data;;
  free data.

(** An empty number becomes a null pointer; its block is lost. *)
Definition dispatchCallForward : S unit :=
  '(_, st) ← with_parcel (readInt32 junk);
  '(_, reason) ← with_parcel (readInt32 st);
  '(_, serviceClass) ← with_parcel (readInt32 reason);
  '(_, toa) ← with_parcel (readInt32 serviceClass);
  number ← strdupReadString;
  '(status, timeSeconds) ← with_parcel (readInt32 toa);
  if negb (ok status) then invalid else
  n ← string_at number;
  let number := if bool_decide (n = Some []) then None else number in
  number' ← string_at number;
  CALL_ONREQUEST (D_callForward (CallForward st reason serviceClass toa number' timeSeconds)) (sizeof "RIL_CallForwardInfo");;
  memsetString number;;
  free number.

(** Commands for the master file are answered here, with constants. *)
Definition dispatchSIM_IO : S unit :=
  '(_, t) ← with_parcel (readInt32 junk);
  let command := t in
  '(_, t) ← with_parcel (readInt32 t);
  let fileid := t in
  path ← strdupReadString;
  '(_, t) ← with_parcel (readInt32 t);
  let p1 := t in
  '(_, t) ← with_parcel (readInt32 t);
  let p2 := t in
  '(status, t) ← with_parcel (readInt32 t);
  let p3 := t in
  data ← strdupReadString;
  pin2 ← strdupReadString;
  aidPtr ← strdupReadString;
  if negb (ok status) then invalid else
  path' ← string_at path; data' ← string_at data; pin2' ← string_at pin2; aidPtr' ← string_at aidPtr;
  match path' with
  | None => fault
  | Some s =>
      if bool_decide (s = lit "3F00") && ((command =? 192) || (command =? 176)) then mret tt
      else CALL_ONREQUEST (D_simIo (SimIo 0 aidPtr' command fileid path' p1 p2 p3 data' pin2')) (sizeof "RIL_SIM_IO_v3")
  end;;
  memsetString path;;
  memsetString data;;
  memsetString pin2;;
  memsetString aidPtr;;
  free path;;
  free data;;
  free pin2;;
  free aidPtr.

(** [strdup8to16]: a block of UTF-16 units. *)
Definition strdup8to16 (s : cstr) : S ptr :=
  match s with
  | None => mret None
  | Some s => a ← malloc_block (to16 s ++ [0]); mret (Some a)
  end.

(** [writeStringToParcel]: the string as UTF-16 in a block of its own, which is
    freed as it is. *)
Definition write_string16 (p2 : bytes) (s : cstr) : S bytes :=
  s16 ← strdup8to16 s;
  u ← string_at s16;
  free s16;;
  mret (p2 ++ enc_str u).

Definition writeStringToParcel (p2 : bytes) (s : ptr) : S bytes :=
  s8 ← string_at s;
  write_string16 p2 s8.

Fixpoint writeStringsToParcel (p2 : bytes) (l : list ptr) : S bytes :=
  match l with
  | [] => mret p2
  | s :: l' => p2 ← writeStringToParcel p2 s; writeStringsToParcel p2 l'
  end.

(** A call with another parcel. *)
Definition in_parcel (p2 : bytes) (c : S unit) : S unit := fun '(p, m) =>
  match c (p2, m) with
  | Ret (_, (_, m')) => Ret (tt, (p, m'))
  | Abort => Abort
  | Fault => Fault
  end.

(** The [slot], a literal, is not in a block. *)
Definition facility_parcel (count : Z) (appId : ptr) (rest : list ptr) : S bytes :=
  id ← string_at appId;
  match id with
  | None => fault
  | Some s =>
      let slot := if bool_decide (s = lit "") then lit "" else lit "0" in
      p2 ← write_string16 (enc32 count) (Some slot);
      writeStringsToParcel p2 (appId :: rest)
  end.

Definition dispatchQueryFacility : S unit :=
  _count ← with_parcel readInt32_value;
  facility ← strdupReadString;
  password ← strdupReadString;
  serviceClass ← strdupReadString;
  appId ← strdupReadString;
  p2 ← facility_parcel 5 appId [facility; password; serviceClass];
  in_parcel p2 dispatchStrings;;
  memsetString facility;;
  memsetString password;;
  memsetString serviceClass;;
  memsetString appId;;
  free facility;;
  free password;;
  free serviceClass;;
  free appId.

Definition dispatchSetFacility : S unit :=
  _count ← with_parcel readInt32_value;
  facility ← strdupReadString;
  lockString ← strdupReadString;
  password ← strdupReadString;
  serviceClass ← strdupReadString;
  appId ← strdupReadString;
  p2 ← facility_parcel 6 appId [facility; lockString; password; serviceClass];
  in_parcel p2 dispatchStrings;;
  memsetString facility;;
  memsetString lockString;;
  memsetString password;;
  memsetString serviceClass;;
  memsetString appId;;
  free facility;;
  free lockString;;
  free password;;
  free serviceClass;;
  free appId.

(** ** Identity, data and authentication *)

Definition dispatchRequestImsi : S unit :=
  _count ← with_parcel readInt32_value;
  aid_ptr ← strdupReadString;
  aid_ptr' ← string_at aid_ptr;
  CALL_ONREQUEST (D_requestImsi (RequestImsi 0 aid_ptr')) (sizeof "RIL_RequestImsi_v3");;
  memsetString aid_ptr;;
  free aid_ptr.

Definition dispatchSetInitialAttachApn : S unit :=
  apn ← strdupReadString;
  protocol ← strdupReadString;
  '(status, authtype) ← with_parcel (readInt32 junk);
  username ← strdupReadString;
  password ← strdupReadString;
  if negb (ok status) then invalid else
  apn' ← string_at apn; protocol' ← string_at protocol; username' ← string_at username; password' ← string_at password;
  CALL_ONREQUEST (D_initialAttachApn apn' protocol' authtype username' password') (sizeof "RIL_InitialAttachApn");;
  memsetString apn;;
  memsetString protocol;;
  memsetString username;;
  memsetString password;;
  free apn;;
  free protocol;;
  free username;;
  free password.

Definition dispatchNVWriteItem : S unit :=
  '(status, itemID) ← with_parcel (readInt32 junk);
  value ← strdupReadString;
  if negb (ok status) || bool_decide (value = None) then invalid else
  value' ← string_at value;
  CALL_ONREQUEST (D_nvWrite itemID value') (sizeof "RIL_NV_WriteItem");;
  memsetString value;;
  free value.

Definition dispatchSimAuthentication : S unit :=
  '(status, authContext) ← with_parcel (readInt32 junk);
  authData ← strdupReadString;
  aid ← strdupReadString;
  if negb (ok status) then invalid else
  authData' ← string_at authData; aid' ← string_at aid;
  CALL_ONREQUEST (D_simAuth authContext authData' aid') (sizeof "RIL_SimAuthentication");;
  memsetString authData;;
  memsetString aid;;
  free authData;;
  free aid.

(** The strings of the profiles are neither overwritten nor freed. *)
Definition read_dataProfile (t : Z) : S (Z * Z * RIL_DataProfileInfo) :=
  '(_, id) ← with_parcel (readInt32 t);
  apn ← strdupReadString;
  protocol ← strdupReadString;
  '(_, auth) ← with_parcel (readInt32 id);
  user ← strdupReadString;
  password ← strdupReadString;
  '(_, type) ← with_parcel (readInt32 auth);
  '(_, connsTime) ← with_parcel (readInt32 type);
  '(_, conns) ← with_parcel (readInt32 connsTime);
  '(_, wait) ← with_parcel (readInt32 conns);
  '(status, en) ← with_parcel (readInt32 wait);
  apn' ← string_at apn; protocol' ← string_at protocol; user' ← string_at user; password' ← string_at password;
  mret (status, en, DataProfile id apn' protocol' auth user' password' type connsTime conns wait en).

Fixpoint read_dataProfiles (n : nat) (status t : Z) : S (Z * list RIL_DataProfileInfo) :=
  match n with
  | O => mret (status, [])
  | Datatypes.S n' =>
      '(status, t, x) ← read_dataProfile t;
      '(status', xs) ← read_dataProfiles n' status t;
      mret (status', x :: xs)
  end.

Definition dispatchDataProfile : S unit :=
  '(status, num) ← with_parcel (readInt32 junk);
  if negb (ok status) then invalid else
  with_parcel (stack_array stack_limit (num * (sizeof "RIL_DataProfileInfo" + sizeof_ptr)));;
  '(status, profiles) ← read_dataProfiles (Z.to_nat num) status junk;
  if negb (ok status) then invalid else
  CALL_ONREQUEST (D_dataProfile profiles) (num * sizeof_ptr).

End Memory.
