(* ===== verification/RilDispatchMemProps.v ===== *)
(** * The strings of commands are erased and freed

    Each dispatch function with its blocks against its reading part on values:
    the vendor library is called with the same data, and what is left in memory
    afterwards, freed or not, is known. *)

From S2P Require Import Prelude Parcel RilTypes RilResponse RilTables RilCore RilDispatch RilRef RilDispatchMemory.

Definition term (s : list Z) : list Z := s ++ [0].

(** What a string is when it is freed after [memsetString]. *)
Definition wiped (s : list Z) : list Z := wipe (term s).

(** Nothing is left of a string without a terminator inside. *)
Lemma wiped_zeros s : 0 ∉ s -> wiped s = replicate (S (length s)) 0.
Proof.
  unfold wiped, term. induction s as [|x s IH]; intros H0; [done|]. simpl. rewrite elem_of_cons in H0.
  destruct (Z.eqb_spec x 0) as [->|]; [by destruct H0; left|]. by rewrite IH by tauto.
Qed.

(** ** The blocks of a function *)

(** Pointers and what they refer to; a null pointer refers to nothing. *)
Definition cell (x : ptr * option (list Z)) : option (nat * list Z) :=
  match x with (Some a, Some c) => Some (a, c) | _ => None end.
Definition cells (ps : list (ptr * option (list Z))) : list (nat * list Z) := omap cell ps.

(** Memory has the blocks of [ps] and otherwise those of [m0]. *)
Record own (m0 : mem) (ps : list (ptr * option (list Z))) (F : list (list Z)) (C : list (request_data * Z)) (m : mem) : Prop := Own {
  own_live : live m = list_to_map (cells ps) ∪ live m0;
  own_nodup : NoDup (cells ps).*1;
  own_fresh : forall a, a ∈ (cells ps).*1 -> live m0 !! a = None;
  own_ptrs : Forall (fun x => is_Some x.1 <-> is_Some x.2) ps;
  own_freed : freed m = F;
  own_calls : calls m = C
}.

(** Memory has besides the blocks of [m0] just those with the contents [K]. *)
Definition leaves (m0 : mem) (K : list (list Z)) (m : mem) : Prop :=
  exists cs, live m = list_to_map cs ∪ live m0 /\ NoDup cs.*1 /\ (forall a, a ∈ cs.*1 -> live m0 !! a = None) /\ cs.*2 = K.

Lemma leaves_nil m0 m : leaves m0 [] m <-> live m = live m0.
Proof.
  split.
  - intros (cs & Hl & _ & _ & Hn). destruct cs; [|done]. by rewrite Hl, list_to_map_nil, map_empty_union.
  - intros Hl. exists []. split; [by rewrite Hl, list_to_map_nil, map_empty_union|]. split; [by apply NoDup_nil|].
    split; [by intros a ?%elem_of_nil|done].
Qed.

Lemma own_start m : own m [] (freed m) (calls m) m.
Proof. split; try done; [by unfold cells; simpl; rewrite map_empty_union|by apply NoDup_nil|by intros a ?%elem_of_nil]. Qed.

Lemma own_leaves m0 ps F C m : own m0 ps F C m -> leaves m0 (omap snd ps) m.
Proof.
  intros [H1 H2 H3 H4 _ _]. exists (cells ps). split; [done|]. split; [done|]. split; [done|]. clear H1 H2 H3. unfold cells.
  induction H4 as [|[q c] ps Hx _ IH]; [done|]. cbn [omap list_omap cell snd] in *.
  destruct q as [a|], c as [c|]; simpl in *; [by f_equal| | |done].
  - destruct Hx as [[? ?] _]; [by eexists|done].
  - destruct Hx as [_ [? ?]]; [by eexists|done].
Qed.

Lemma own_perm m0 ps ps' F C m : ps ≡ₚ ps' -> own m0 ps F C m -> own m0 ps' F C m.
Proof.
  intros Hp [H1 H2 H3 H4 H5 H6]. assert (Hc : cells ps ≡ₚ cells ps') by (unfold cells; by rewrite Hp).
  split; try done.
  - rewrite H1. f_equal. by apply list_to_map_proper.
  - by rewrite <- Hc.
  - intros a Ha. apply H3. by rewrite Hc.
  - by rewrite <- Hp.
Qed.

(** The cell of a pointer to the front, and back in another state. *)
Lemma own_focus m0 ps i x F C m : ps !! i = Some x -> own m0 ps F C m -> own m0 (x :: delete i ps) F C m.
Proof. intros Hi. apply own_perm. by apply delete_Permutation. Qed.

Lemma own_unfocus m0 ps i x y F C m : ps !! i = Some x -> own m0 (y :: delete i ps) F C m -> own m0 (<[i := y]> ps) F C m.
Proof.
  intros Hi. apply own_perm. pose proof (lookup_lt_Some _ _ _ Hi) as Hlt.
  rewrite (insert_take_drop ps i y Hlt), delete_take_drop. by rewrite Permutation_middle.
Qed.

Lemma own_cons_live m0 a c ps F C m : own m0 ((Some a, Some c) :: ps) F C m ->
  live m = <[a := c]> (list_to_map (cells ps) ∪ live m0) /\ (list_to_map (cells ps) ∪ live m0) !! a = None.
Proof.
  intros [H1 H2 H3 H4 H5 H6]. rewrite H1. cbn [cells omap list_omap cell] in *. simpl. rewrite <- insert_union_l. split; [done|].
  apply NoDup_cons in H2 as [H2 _]. apply lookup_union_None. split; [by apply not_elem_of_list_to_map|]. apply H3.
  apply list_elem_of_here.
Qed.

(** A null pointer has no cell. *)
Lemma own_null m0 ps c F C m : own m0 ((None, c) :: ps) F C m -> c = None.
Proof. intros [_ _ _ Hp _ _]. apply Forall_cons in Hp as [[_ Hp] _]. simpl in Hp. destruct c; [|done]. by destruct Hp; [eexists|]. Qed.

Lemma own_block m0 a c ps F C m : own m0 ((Some a, c) :: ps) F C m -> exists c', c = Some c' /\ live m !! a = Some c'.
Proof.
  intros Ho. pose proof Ho as [_ _ _ Hp _ _]. apply Forall_cons in Hp as [[Hp _] _]. destruct Hp as [c' Hc]; [by eexists|].
  simpl in Hc. subst c.
  exists c'. split; [done|]. destruct (own_cons_live _ _ _ _ _ _ _ Ho) as [-> _]. apply lookup_insert_eq.
Qed.

Lemma own_update m0 a c c' ps F C m : own m0 ((Some a, Some c) :: ps) F C m ->
  own m0 ((Some a, Some c') :: ps) F C (Mem (<[a := c']> (live m)) (freed m) (calls m)).
Proof.
  intros Ho. destruct (own_cons_live _ _ _ _ _ _ _ Ho) as [Hl _]. destruct Ho as [H1 H2 H3 H4 H5 H6].
  apply Forall_cons in H4 as [_ H4]. split; try done; [|by constructor]. simpl. rewrite Hl, insert_insert_eq.
  cbn [cells omap list_omap cell]. simpl. by rewrite <- insert_union_l.
Qed.

Lemma own_remove m0 a c ps F C m : own m0 ((Some a, Some c) :: ps) F C m ->
  own m0 ((None, None) :: ps) (F ++ [c]) C (Mem (delete a (live m)) (freed m ++ [c]) (calls m)).
Proof.
  intros Ho. destruct (own_cons_live _ _ _ _ _ _ _ Ho) as [Hl Hn]. destruct Ho as [H1 H2 H3 H4 H5 H6].
  apply Forall_cons in H4 as [_ H4]. cbn [cells omap list_omap cell fmap list_fmap fst] in H2, H3.
  apply NoDup_cons in H2 as [_ H2]. split; simpl.
  - rewrite Hl. by rewrite delete_insert_id.
  - done.
  - intros b Hb. apply H3. by apply list_elem_of_further.
  - constructor; [by split; intros [? ?]|done].
  - by rewrite H5.
  - done.
Qed.

Lemma own_add m0 c ps F C m : own m0 ps F C m ->
  own m0 (ps ++ [(Some (fresh (dom (live m))), Some c)]) F C (Mem (<[fresh (dom (live m)) := c]> (live m)) (freed m) (calls m)).
Proof.
  set (a := fresh (dom (live m))). assert (Ha : live m !! a = None) by (apply not_elem_of_dom, is_fresh).
  intros [H1 H2 H3 H4 H5 H6]. rewrite H1 in Ha. apply lookup_union_None in Ha as [Ha1 Ha2]. apply not_elem_of_list_to_map in Ha1.
  apply (own_perm _ ((Some a, Some c) :: ps)); [apply Permutation_cons_append|]. split; try done.
  - cbn [cells omap list_omap cell]. simpl. by rewrite H1, insert_union_l.
  - cbn [cells omap list_omap cell fmap list_fmap fst]. by apply NoDup_cons.
  - cbn [cells omap list_omap cell fmap list_fmap fst]. intros b [->|Hb]%elem_of_cons; [done|by apply H3].
  - by constructor.
Qed.

Lemma own_add_null m0 ps F C m : own m0 ps F C m -> own m0 (ps ++ [(None, None)]) F C m.
Proof.
  intros [H1 H2 H3 H4 H5 H6]. apply (own_perm _ ((None, None) :: ps)); [apply Permutation_cons_append|]. split; try done.
  constructor; [by split; intros [? ?]|done].
Qed.

(** ** Simulation *)

Section Erase.
Context {P : ParcelOps} {H : RilHeader}.
Variable junk : Z.
Variable stack_limit : Z.

(** [c] with memory does what [v] does on values. *)
Definition sim {A B} (v : M bytes A) (c : M (bytes * mem) B) (p : bytes) (m : mem) (Q : A -> B -> bytes -> mem -> Prop) : Prop :=
  match v p with
  | Ret (a, p') => exists b m', c (p, m) = Ret (b, (p', m')) /\ Q a b p' m'
  | Abort => c (p, m) = Abort
  | Fault => c (p, m) = Fault
  end.

Lemma sim_ret {A B} (a : A) (b : B) p m (Q : A -> B -> bytes -> mem -> Prop) : Q a b p m -> sim (mret a) (mret b) p m Q.
Proof. intros HQ. by exists b, m. Qed.

Lemma sim_bind {A A' B B'} (v : M bytes A) (c : M (bytes * mem) B) (kv : A -> M bytes A') (kc : B -> M (bytes * mem) B') p m Q Q' :
  sim v c p m Q -> (forall a b p' m', Q a b p' m' -> sim (kv a) (kc b) p' m' Q') -> sim (v ≫= kv) (c ≫= kc) p m Q'.
Proof.
  unfold sim, mbind, M_bind. destruct (v p) as [[a p']| |]; [|by intros ->|by intros ->].
  intros (b & m' & -> & HQ) Hk. exact (Hk a b p' m' HQ).
Qed.

Lemma sim_fault {A B} (c : M (bytes * mem) B) p m (Q : A -> B -> bytes -> mem -> Prop) : c (p, m) = Fault -> sim fault c p m Q.
Proof. done. Qed.

Lemma sim_mono {A B} (v : M bytes A) (c : M (bytes * mem) B) p m (Q Q' : A -> B -> bytes -> mem -> Prop) :
  sim v c p m Q -> (forall a b p' m', Q a b p' m' -> Q' a b p' m') -> sim v c p m Q'.
Proof. unfold sim. destruct (v p) as [[a p']| |]; [|done|done]. intros (b & m' & Hc & HQ) Hm. exists b, m'. auto. Qed.

(** A read that allocates nothing. *)
Lemma sim_read {A A' B'} (r : M bytes A) (kv : A -> M bytes A') (kc : A -> M (bytes * mem) B') p m Q :
  (forall a p', sim (kv a) (kc a) p' m Q) -> sim (r ≫= kv) (with_parcel r ≫= kc) p m Q.
Proof.
  intros Hk. unfold sim, mbind, M_bind, with_parcel. destruct (r p) as [[a p']| |]; [|done|done]. apply Hk.
Qed.

Lemma strdup_run m0 ps F C s p m : own m0 ps F C m ->
  exists q m', strdup s (p, m) = Ret (q, (p, m')) /\ own m0 (ps ++ [(q, Some (term s))]) F C m'.
Proof. intros Ho. eexists _, _. split; [reflexivity|]. by apply own_add. Qed.

(** A read of a string: a block, or a null pointer. *)
Lemma sim_strdup {A' B'} m0 ps F C m (kv : cstr -> M bytes A') (kc : ptr -> M (bytes * mem) B') p Q : own m0 ps F C m ->
  (forall q s p' m', own m0 (ps ++ [(q, term <$> s)]) F C m' -> sim (kv s) (kc q) p' m' Q) ->
  sim (Parcel.strdupReadString ≫= kv) (strdupReadString ≫= kc) p m Q.
Proof.
  intros Ho Hk.
  eapply (sim_bind _ _ _ _ _ _ (fun s q p' m' => own m0 (ps ++ [(q, term <$> s)]) F C m')); [|intros s q p' m'; apply Hk].
  unfold strdupReadString, sim.
  destruct (Parcel.strdupReadString p) as [[s p']| |] eqn:E; unfold mbind, M_bind, with_parcel; rewrite E; [|done|done].
  destruct s as [s|]; [by apply strdup_run|]. exists None, m. split; [done|]. by apply own_add_null.
Qed.

(** A step with memory after the reads. *)
Lemma sim_step {A B B'} (a : A) (c : M (bytes * mem) B) (kc : B -> M (bytes * mem) B') p m Q (R : B -> mem -> Prop) :
  (exists b m', c (p, m) = Ret (b, (p, m')) /\ R b m') -> (forall b m', R b m' -> sim (mret a) (kc b) p m' Q) ->
  sim (mret a) (c ≫= kc) p m Q.
Proof. intros (b & m' & Hc & HR) Hk. unfold sim. simpl. rewrite (bind_run _ _ _ _ _ Hc). exact (Hk b m' HR). Qed.

Lemma string_at_run m0 ps i q s F C p m : own m0 ps F C m -> ps !! i = Some (q, term <$> s) -> string_at q (p, m) = Ret (s, (p, m)).
Proof.
  intros Ho Hi. apply (own_focus _ _ i) with (1 := Hi) in Ho. destruct q as [a|].
  - destruct (own_block _ _ _ _ _ _ _ Ho) as (c & Hc & Hl). unfold string_at, mbind, M_bind, block. rewrite Hl.
    destruct s as [s|]; [|done]. simpl in Hc. injection Hc as <-. unfold term. by rewrite removelast_last.
  - apply own_null in Ho. by destruct s.
Qed.

Lemma memsetString_run m0 ps i q c F C p m : own m0 ps F C m -> ps !! i = Some (q, c) ->
  exists m', memsetString q (p, m) = Ret (tt, (p, m')) /\ own m0 (<[i := (q, wipe <$> c)]> ps) F C m'.
Proof.
  intros Ho Hi. apply (own_focus _ _ i) with (1 := Hi) in Ho. destruct q as [a|].
  - destruct (own_block _ _ _ _ _ _ _ Ho) as (c' & -> & Hl). eexists. split.
    { unfold memsetString, mbind, M_bind, block. rewrite Hl. unfold set_block. rewrite Hl. reflexivity. }
    apply (own_unfocus _ _ i _ _ _ _ _ Hi). by eapply own_update.
  - pose proof (own_null _ _ _ _ _ _ Ho). subst c. exists m. split; [done|]. by apply (own_unfocus _ _ i _ _ _ _ _ Hi).
Qed.

Lemma free_ptr_run m0 ps i q c F C p m : own m0 ps F C m -> ps !! i = Some (q, c) ->
  exists m', free q (p, m) = Ret (tt, (p, m')) /\ own m0 (<[i := (None, None)]> ps) (F ++ option_list c) C m'.
Proof.
  intros Ho Hi. apply (own_focus _ _ i) with (1 := Hi) in Ho. destruct q as [a|].
  - destruct (own_block _ _ _ _ _ _ _ Ho) as (c' & -> & Hl). eexists. split; [unfold free; rewrite Hl; reflexivity|].
    apply (own_unfocus _ _ i _ _ _ _ _ Hi). by eapply own_remove.
  - pose proof (own_null _ _ _ _ _ _ Ho). subst c. exists m. split; [done|]. simpl. rewrite app_nil_r.
    by apply (own_unfocus _ _ i _ _ _ _ _ Hi).
Qed.

Lemma call_run m0 ps F C d n p m : own m0 ps F C m ->
  exists m', CALL_ONREQUEST d n (p, m) = Ret (tt, (p, m')) /\ own m0 ps F (C ++ [(d, n)]) m'.
Proof. intros [H1 H2 H3 H4 H5 H6]. eexists. split; [reflexivity|]. split; try done. simpl. by rewrite H6. Qed.

(** A pointer is null when there is no string. *)
Lemma own_is_null m0 ps i q s F C m : own m0 ps F C m -> ps !! i = Some (q, term <$> s) -> bool_decide (q = None) = bool_decide (s = None).
Proof.
  intros [_ _ _ Hp _ _] Hi. rewrite Forall_lookup in Hp. specialize (Hp _ _ Hi). simpl in Hp. apply bool_decide_ext.
  rewrite !eq_None_not_Some. rewrite fmap_is_Some in Hp. tauto.
Qed.

(** The last step as one of several. *)
Lemma sim_last {A} (v : M bytes A) (c : M (bytes * mem) unit) p m Q : sim v (c ≫= mret) p m Q -> sim v c p m Q.
Proof.
  unfold sim. destruct (v p) as [[a p']| |]; unfold mbind, M_bind; destruct (c (p, m)) as [[b [p1 m1]]| |]; try done.
Qed.

(** The steps on the cell of a pointer. *)
Lemma sim_at {A B'} i m0 ps q s F C m (a : A) (kc : cstr -> M (bytes * mem) B') p Q : own m0 ps F C m -> ps !! i = Some (q, term <$> s) ->
  sim (mret a) (kc s) p m Q -> sim (mret a) (string_at q ≫= kc) p m Q.
Proof. intros Ho Hi Hk. unfold sim. simpl. by rewrite (bind_run _ _ _ _ _ (string_at_run _ _ i _ _ _ _ _ _ Ho Hi)). Qed.

Lemma sim_memset {A B'} i m0 ps q c F C m (a : A) (kc : unit -> M (bytes * mem) B') p Q : own m0 ps F C m -> ps !! i = Some (q, c) ->
  (forall m', own m0 (<[i := (q, wipe <$> c)]> ps) F C m' -> sim (mret a) (kc tt) p m' Q) -> sim (mret a) (memsetString q ≫= kc) p m Q.
Proof.
  intros Ho Hi Hk. apply (sim_step _ _ _ _ _ _ (fun _ m' => own m0 (<[i := (q, wipe <$> c)]> ps) F C m')); [|intros []; apply Hk].
  destruct (memsetString_run _ _ i _ _ _ _ p _ Ho Hi) as (m' & Hr & H'). by exists tt, m'.
Qed.

Lemma sim_free {A B'} i m0 ps q c F C m (a : A) (kc : unit -> M (bytes * mem) B') p Q : own m0 ps F C m -> ps !! i = Some (q, c) ->
  (forall m', own m0 (<[i := (None, None)]> ps) (F ++ option_list c) C m' -> sim (mret a) (kc tt) p m' Q) -> sim (mret a) (free q ≫= kc) p m Q.
Proof.
  intros Ho Hi Hk.
  apply (sim_step _ _ _ _ _ _ (fun _ m' => own m0 (<[i := (None, None)]> ps) (F ++ option_list c) C m')); [|intros []; apply Hk].
  destruct (free_ptr_run _ _ i _ _ _ _ p _ Ho Hi) as (m' & Hr & H'). by exists tt, m'.
Qed.

Lemma sim_call {A B'} m0 ps F C m (a : A) d n (kc : unit -> M (bytes * mem) B') p Q : own m0 ps F C m ->
  (forall m', own m0 ps F (C ++ [(d, n)]) m' -> sim (mret a) (kc tt) p m' Q) -> sim (mret a) (CALL_ONREQUEST d n ≫= kc) p m Q.
Proof.
  intros Ho Hk. apply (sim_step _ _ _ _ _ _ (fun _ m' => own m0 ps F (C ++ [(d, n)]) m')); [|intros []; apply Hk].
  destruct (call_run _ _ _ _ d n p _ Ho) as (m' & Hr & H'). by exists tt, m'.
Qed.

Lemma sim_strdup_literal {A B'} m0 ps F C m (a : A) s (kc : ptr -> M (bytes * mem) B') p Q : own m0 ps F C m ->
  (forall q m', own m0 (ps ++ [(q, term <$> Some s)]) F C m' -> sim (mret a) (kc q) p m' Q) -> sim (mret a) (strdup s ≫= kc) p m Q.
Proof.
  intros Ho Hk. apply (sim_step _ _ _ _ _ _ (fun q m' => own m0 (ps ++ [(q, term <$> Some s)]) F C m')); [|exact Hk].
  destruct (strdup_run _ _ _ _ s p _ Ho) as (q & m' & Hr & H'). by exists q, m'.
Qed.

(** ** What is left of the strings *)

(** The strings of the data, in the order in which they are freed. *)
Definition erased (data : request_data) : list (list Z) :=
  omap id match data with
  | D_string s => [s]
  | D_strings l | D_imsGsm _ _ _ l => default [] l
  | D_smsWrite args => [sms_pdu args]
  | D_simPin args => [sp_pin args; sp_aidPtr args]
  | D_simPuk args => [spk_puk args; spk_newPin args; spk_aidPtr args]
  | D_simPinSet args => [sps_pin args; sps_newPin args; sps_aidPtr args]
  | D_dial dial => [address dial]
  | D_simApdu args => [apdu_data args]
  | D_callForward args => [cf_number args]
  | D_requestImsi args => [imsi_aid_ptr args]
  | D_initialAttachApn apn protocol _ username password => [apn; protocol; username; password]
  | D_nvWrite _ value => [value]
  | D_simAuth _ authData aid => [authData; aid]
  | _ => []
  end.

Definition profile_strings (d : RIL_DataProfileInfo) : list cstr := [dp_apn d; dp_protocol d; dp_user d; dp_password d].

(** What stays allocated for good after a call of the vendor library. *)
Definition left_behind (data : request_data) (K : list (list Z)) : Prop :=
  match data with
  | D_smsWrite args => K = map term (option_list (sms_smsc args))
  | D_callForward args => K = [] \/ cf_number args = None /\ K = [[0]]
  | D_dataProfile l => K = map term (omap id (concat (map profile_strings l)))
  | _ => K = []
  end.

(** After a call the strings are freed as zeros, but for what is left behind;
    a malformed command leaves all it has read. *)
Definition erases (m : mem) (d : option (request_data * Z)) (m' : mem) : Prop :=
  match d with
  | Some (data, datalen) => freed m' = freed m ++ map wiped (erased data) /\ calls m' = calls m ++ [(data, datalen)] /\
      exists K, leaves m K m' /\ left_behind data K
  | None => freed m' = freed m /\ calls m' = calls m /\ exists K, leaves m K m'
  end.

Definition erasing (v : M bytes (option (request_data * Z))) (c : M (bytes * mem) unit) : Prop :=
  forall p m, sim v c p m (fun d _ _ m' => erases m d m').

Lemma erases_invalid m ps m' : own m ps (freed m) (calls m) m' -> erases m None m'.
Proof. intros Ho. pose proof (own_leaves _ _ _ _ _ Ho) as Hl. destruct Ho as [_ _ _ _ HF HC]. split; [done|]. split; [done|]. by exists (omap snd ps). Qed.

Lemma erases_call m ps F C m' data n : own m ps F C m' -> F = freed m ++ map wiped (erased data) -> C = calls m ++ [(data, n)] ->
  left_behind data (omap snd ps) -> erases m (Some (data, n)) m'.
Proof.
  intros Ho HF' HC' Hk. pose proof (own_leaves _ _ _ _ _ Ho) as Hl. destruct Ho as [_ _ _ _ HF HC].
  split; [by rewrite HF|]. split; [by rewrite HC|]. by exists (omap snd ps).
Qed.

(** One step of the reading part, or of the rest. *)
Ltac on_cell rule :=
  first [eapply (rule _ _ 0%nat); [eassumption|reflexivity|] | eapply (rule _ _ 1%nat); [eassumption|reflexivity|]
        |eapply (rule _ _ 2%nat); [eassumption|reflexivity|] | eapply (rule _ _ 3%nat); [eassumption|reflexivity|]
        |eapply (rule _ _ 4%nat); [eassumption|reflexivity|]].

Ltac sim_head :=
  lazymatch goal with
  | |- sim (Parcel.strdupReadString ≫= _) _ _ _ _ =>
      eapply sim_strdup; [eassumption|]; intros ? ? ? ? ?; cbn [app] in *
  | |- sim (_ ≫= _) (with_parcel _ ≫= _) _ _ _ =>
      apply sim_read; let a := fresh "a" in intros a ?; lazymatch type of a with prod _ _ => destruct a as [? ?] | _ => idtac end; cbv beta iota
  | Ho : own _ _ _ _ ?m |- sim _ (if _ || bool_decide (?q = @None nat) then _ else _) _ ?m _ =>
      first [rewrite (own_is_null _ _ 0%nat q _ _ _ _ Ho eq_refl)|rewrite (own_is_null _ _ 1%nat q _ _ _ _ Ho eq_refl)]
  | |- sim (if ?b then _ else _) _ _ _ _ => destruct b eqn:?
  | |- sim (mret _) (string_at _ ≫= _) _ _ _ => on_cell @sim_at
  | |- sim (mret _) (memsetString _ ≫= _) _ _ _ => on_cell @sim_memset; intros ? ?; cbn [insert list_insert] in *
  | |- sim (mret _) (free _ ≫= _) _ _ _ => on_cell @sim_free; intros ? ?; cbn [insert list_insert] in *
  | |- sim (mret _) (free _) _ _ _ => apply sim_last
  | |- sim (mret _) (CALL_ONREQUEST _ _ ≫= _) _ _ _ => eapply sim_call; [eassumption|]; intros ? ?
  | |- sim (mret _) (strdup _ ≫= _) _ _ _ => eapply sim_strdup_literal; [eassumption|]; intros ? ? ?; cbn [app] in *
  | |- sim (mret _) (mret _) _ _ _ => apply sim_ret
  end.

Ltac erases_done :=
  lazymatch goal with
  | |- erases _ None _ => eapply erases_invalid; eassumption
  | |- erases _ (Some _) _ =>
      repeat match goal with s : cstr |- _ => destruct s end;
      (eapply erases_call; [eassumption|cbn; by rewrite <- ?app_assoc, ?app_nil_r|done|first [done|by left]])
  end.

(** The whole function: the null checks agree, and each step is one rule. *)
Ltac erase v c :=
  intros p m; pose proof (own_start m); unfold v, c, invalid; repeat sim_head; try erases_done.

Lemma dispatchString_erases : erasing parseString dispatchString.
Proof. erase @parseString @dispatchString. Qed.

Lemma dispatchSimPin_erases : erasing parseSimPin dispatchSimPin.
Proof. erase @parseSimPin @dispatchSimPin. Qed.

Lemma dispatchSimPuk_erases : erasing parseSimPuk dispatchSimPuk.
Proof. erase @parseSimPuk @dispatchSimPuk. Qed.

Lemma dispatchSimPinSet_erases : erasing parseSimPinSet dispatchSimPinSet.
Proof. erase @parseSimPinSet @dispatchSimPinSet. Qed.

Lemma dispatchSIM_APDU_erases : erasing (parseSIM_APDU junk) (dispatchSIM_APDU junk).
Proof. erase @parseSIM_APDU @dispatchSIM_APDU. Qed.

Lemma dispatchRequestImsi_erases : erasing parseRequestImsi dispatchRequestImsi.
Proof. erase @parseRequestImsi @dispatchRequestImsi. Qed.

Lemma dispatchSetInitialAttachApn_erases : erasing (parseSetInitialAttachApn junk) (dispatchSetInitialAttachApn junk).
Proof. erase @parseSetInitialAttachApn @dispatchSetInitialAttachApn. Qed.

Lemma dispatchSimAuthentication_erases : erasing (parseSimAuthentication junk) (dispatchSimAuthentication junk).
Proof. erase @parseSimAuthentication @dispatchSimAuthentication. Qed.

Lemma dispatchNVWriteItem_erases : erasing (parseNVWriteItem junk) (dispatchNVWriteItem junk).
Proof. erase @parseNVWriteItem @dispatchNVWriteItem. Qed.

Lemma dispatchSmsWrite_erases : erasing (parseSmsWrite junk) (dispatchSmsWrite junk).
Proof. erase @parseSmsWrite @dispatchSmsWrite. Qed.

Lemma dispatchDial_erases v : erasing (parseDial junk v) (dispatchDial junk v).
Proof.
  erase @parseDial @dispatchDial; [by unfold call_dial; repeat sim_head; erases_done|].
  destruct a as [u|]; [by cbn [fmap option_fmap option_map]; unfold call_dial; repeat sim_head; erases_done|]. apply sim_ret.
  by eapply erases_invalid.
Qed.

(** An empty number is lost. *)
Lemma dispatchCallForward_erases : erasing (parseCallForward junk) (dispatchCallForward junk).
Proof.
  erase @parseCallForward @dispatchCallForward. case_bool_decide; [|by repeat sim_head; erases_done].
  subst. lazymatch goal with Ho : own _ [_] _ _ ?m |- sim _ _ _ ?m _ => apply own_add_null in Ho; cbn [app] in Ho end.
  eapply (sim_at 1%nat _ _ None None); [eassumption|done|]. repeat sim_head.
  eapply erases_call; [eassumption|cbn; by rewrite !app_nil_r|done|by right].
Qed.

(** ** Arrays of strings *)

(** Pointers to the strings [ss]. *)
Definition pointers (qs : list ptr) (ss : list cstr) : list (ptr * option (list Z)) := zip qs (map (fun s : cstr => term <$> s) ss).

Lemma read_pointers_sim m0 F C n : forall ps p m, own m0 ps F C m ->
  sim (read_list n Parcel.strdupReadString) (read_pointers n) p m
    (fun ss qs _ m' => length qs = length ss /\ own m0 (ps ++ pointers qs ss) F C m').
Proof.
  induction n as [|n IH]; intros ps p m Ho; cbn [read_list read_pointers].
  { apply sim_ret. by rewrite app_nil_r. }
  eapply sim_strdup; [exact Ho|]. intros q s p' m' Ho'. eapply sim_bind; [by apply IH|].
  intros ss qs p2 m2 [Hl H2]. apply sim_ret. split; [by simpl; rewrite Hl|]. by rewrite <- app_assoc in H2.
Qed.

Lemma strings_at_run m0 F C p m ss : forall ps qs, own m0 (ps ++ pointers qs ss) F C m -> length qs = length ss ->
  for_each string_at qs (p, m) = Ret (ss, (p, m)).
Proof.
  induction ss as [|s ss IH]; intros ps [|q qs] Ho Hl; try done. cbn [for_each].
  erewrite bind_run by (eapply (string_at_run _ _ (length ps)); [exact Ho|by apply list_lookup_middle]).
  erewrite bind_run; [done|]. apply (IH (ps ++ [(q, term <$> s)])); [by rewrite <- app_assoc|]. simpl in Hl. lia.
Qed.

Lemma insert_middle {A} (l1 l2 : list A) x y : <[length l1 := y]> (l1 ++ x :: l2) = l1 ++ y :: l2.
Proof. by rewrite insert_app_r_alt, Nat.sub_diag. Qed.

Lemma free_strings_run m0 C p ss : forall ps qs F m, own m0 (ps ++ pointers qs ss) F C m -> length qs = length ss ->
  exists u m', for_each (fun q => memsetString q;; free q) qs (p, m) = Ret (u, (p, m')) /\
    own m0 (ps ++ replicate (length ss) (None, None)) (F ++ map wiped (omap id ss)) C m'.
Proof.
  induction ss as [|s ss IH]; intros ps [|q qs] F m Ho Hl; try done; cbn [for_each].
  { exists [], m. split; [done|]. simpl. by rewrite (app_nil_r F). }
  change (pointers (q :: qs) (s :: ss)) with ((q, term <$> s) :: pointers qs ss) in Ho.
  destruct (memsetString_run _ _ (length ps) q (term <$> s) _ _ p _ Ho) as (m1 & Hr1 & H1); [by apply list_lookup_middle|].
  rewrite insert_middle in H1.
  destruct (free_ptr_run _ _ (length ps) q (wipe <$> (term <$> s)) _ _ p _ H1) as (m2 & Hr2 & H2); [by apply list_lookup_middle|].
  rewrite insert_middle in H2.
  destruct (IH (ps ++ [(None, None)]) qs (F ++ option_list (wipe <$> (term <$> s))) m2) as (u & m3 & Hr3 & H3); [by rewrite <- app_assoc|simpl in Hl; lia|].
  exists (tt :: u), m3. split.
  - erewrite bind_run; [erewrite bind_run by exact Hr3; done|]. by rewrite (bind_run _ _ _ _ _ Hr1).
  - simpl. rewrite <- !app_assoc in H3. destruct s; exact H3.
Qed.

Lemma replicate_null n : omap snd (replicate n (@None nat, @None (list Z))) = [].
Proof. by induction n. Qed.

(** What the reading of the array has built: the vendor gets the strings, and
    the loop frees them. *)
Lemma call_strings_erases (qs : option (list ptr)) (l : option (list cstr)) data n p m m1 :
  own m (pointers (default [] qs) (default [] l)) (freed m) (calls m) m1 -> length (default [] qs) = length (default [] l) -> (qs = None <-> l = None) ->
  (forall l, erased (data l) = omap id (default [] l)) -> (forall l K, left_behind (data l) K <-> K = []) ->
  sim (mret (Some (data l, n))) (l ← strings_at qs; CALL_ONREQUEST (data l) n;; free_strings qs) p m1 (fun d _ _ m' => erases m d m').
Proof.
  intros Ho Hlen Hnull He Hk.
  assert (Hat : strings_at qs (p, m1) = Ret (l, (p, m1))).
  { destruct qs as [qs|], l as [l|]; try (by destruct Hnull as [H1 H2]; (discriminate (H1 eq_refl) || discriminate (H2 eq_refl))); [|done].
    unfold strings_at. by rewrite (bind_run _ _ _ _ _ (strings_at_run m (freed m) (calls m) p m1 l [] qs Ho Hlen)). }
  unfold sim. simpl. rewrite (bind_run _ _ _ _ _ Hat).
  destruct (call_run _ _ _ _ (data l) n p _ Ho) as (m2 & Hr2 & H2). rewrite (bind_run _ _ _ _ _ Hr2).
  destruct (free_strings_run m _ p (default [] l) [] (default [] qs) _ m2 H2 Hlen) as (u & m3 & Hr3 & H3).
  exists tt, m3. split.
  - unfold free_strings. destruct qs as [qs|]; [by rewrite (bind_run _ _ _ _ _ Hr3)|]. simpl in Hr3. by injection Hr3 as _ <-.
  - eapply erases_call; [exact H3|by rewrite He|done|]. simpl. apply Hk, replicate_null.
Qed.

Lemma read_pStrings_sim m countStrings p m1 : own m [] (freed m) (calls m) m1 ->
  sim (read_strings stack_limit countStrings) (read_pStrings stack_limit countStrings) p m1
    (fun l qs _ m' => l.2 = qs.2 /\ own m (pointers (default [] qs.1) (default [] l.1)) (freed m) (calls m) m' /\
       length (default [] qs.1) = length (default [] l.1) /\ (qs.1 = None <-> l.1 = None)).
Proof.
  intros Ho. unfold read_strings, read_pStrings. destruct (countStrings =? 0); [by apply sim_ret|].
  destruct (countStrings =? -1); [by apply sim_ret|].
  apply sim_read. intros [] p1. eapply sim_bind; [by apply (read_pointers_sim m (freed m) (calls m) _ [])|].
  intros ss qs p2 m2 [Hl H2]. by apply sim_ret.
Qed.

Lemma dispatchStrings_erases : erasing (parseStrings junk stack_limit) (dispatchStrings junk stack_limit).
Proof.
  erase @parseStrings @dispatchStrings. eapply sim_bind; [by apply read_pStrings_sim|].
  intros [l n] [qs n'] p1 m1 (Hn & Ho & Hl & Hnull). simpl in *. subst n'.
  by eapply call_strings_erases.
Qed.

Lemma dispatchImsGsmSms_erases retry messageRef :
  erasing (parseImsGsmSms junk stack_limit retry messageRef) (dispatchImsGsmSms junk stack_limit retry messageRef).
Proof.
  erase @parseImsGsmSms @dispatchImsGsmSms. eapply sim_bind; [by apply read_pStrings_sim|].
  intros [l n] [qs n'] p1 m1 (Hn & Ho & Hl & Hnull). simpl in *. subst n'.
  by eapply (call_strings_erases qs l (D_imsGsm (ril "RADIO_TECH_3GPP") retry messageRef)).
Qed.

Lemma dispatchNetworkManual_erases : erasing parseNetworkManual dispatchNetworkManual.
Proof.
  erase @parseNetworkManual @dispatchNetworkManual.
  by eapply (call_strings_erases (Some [_; _]) (Some [_; _]) D_strings).
Qed.

(** ** Data profiles *)

Lemma leaves_app m0 m1 m2 K1 K2 : leaves m0 K1 m1 -> leaves m1 K2 m2 -> leaves m0 (K1 ++ K2) m2.
Proof.
  intros (c1 & L1 & N1 & F1 & <-) (c2 & L2 & N2 & F2 & <-). exists (c1 ++ c2).
  assert (Hf : forall a, a ∈ c2.*1 -> (list_to_map c1 : gmap nat (list Z)) !! a = None /\ live m0 !! a = None).
  { intros a Ha. apply F2 in Ha. rewrite L1 in Ha. by apply lookup_union_None in Ha. }
  assert (Hd : (list_to_map c2 : gmap nat (list Z)) ##ₘ list_to_map c1).
  { apply map_disjoint_spec. intros a x y Hx Hy. apply elem_of_list_to_map_2 in Hx.
    assert (Ha : a ∈ c2.*1) by (apply list_elem_of_fmap; by exists (a, x)).
    destruct (Hf a Ha) as [Hn _]. congruence. }
  split; [|split; [|split; [|by rewrite fmap_app]]].
  - rewrite L2, L1, list_to_map_app, (map_union_comm (list_to_map c1) (list_to_map c2)) by (by symmetry).
    by rewrite map_union_assoc.
  - rewrite fmap_app. apply NoDup_app. split; [done|]. split; [|done]. intros a H1 H2. destruct (Hf a H2) as [Hn _].
    by apply not_elem_of_list_to_map in Hn.
  - intros a. rewrite fmap_app, elem_of_app. intros [?|?]; [by apply F1|by apply Hf].
Qed.

(** The profile that is read is the same, and its strings stay. *)
Lemma read_dataProfile_sim t p m :
  sim (RilDispatch.read_dataProfile t) (read_dataProfile t) p m
    (fun a b _ m' => b = a /\ freed m' = freed m /\ calls m' = calls m /\ leaves m (map term (omap id (profile_strings a.2))) m').
Proof.
  pose proof (own_start m). unfold RilDispatch.read_dataProfile, read_dataProfile. repeat sim_head.
  lazymatch goal with Ho : own _ [_; _; _; _] _ _ ?m |- context [leaves _ _ ?m] => pose proof (own_leaves _ _ _ _ _ Ho) as Hl; destruct Ho end.
  split; [done|]. split; [done|]. split; [done|]. simpl. repeat match goal with s : cstr |- _ => destruct s end; exact Hl.
Qed.

Lemma read_dataProfiles_sim n : forall status t p m,
  sim (read_structs n status t RilDispatch.read_dataProfile) (read_dataProfiles n status t) p m
    (fun a b _ m' => b = a /\ freed m' = freed m /\ calls m' = calls m /\ leaves m (map term (omap id (concat (map profile_strings a.2)))) m').
Proof.
  induction n as [|n IH]; intros status t p m; cbn [read_structs read_dataProfiles].
  { apply sim_ret. split_and!; try done. by apply leaves_nil. }
  eapply sim_bind; [apply read_dataProfile_sim|]. intros [[st t'] x] b p1 m1 (-> & HF & HC & HL). cbv beta iota.
  eapply sim_bind; [apply IH|]. intros [st' xs] b p2 m2 (-> & HF2 & HC2 & HL2). apply sim_ret.
  split; [done|]. split; [congruence|]. split; [congruence|]. simpl snd. cbn [map concat]. rewrite omap_app, map_app.
  by eapply leaves_app.
Qed.

Lemma dispatchDataProfile_erases : erasing (parseDataProfile junk stack_limit) (dispatchDataProfile junk stack_limit).
Proof.
  erase @parseDataProfile @dispatchDataProfile. eapply sim_bind; [apply read_dataProfiles_sim|].
  intros [st l] b p1 m1 (-> & HF & HC & HL). cbv beta iota. destruct (negb (ok st)).
  - apply sim_ret. split; [done|]. split; [done|]. by eexists.
  - eexists _, _. split; [reflexivity|]. simpl. rewrite HF, HC, app_nil_r. split; [done|]. split; [done|]. by eexists.
Qed.

(** ** All functions *)

(** The reading part of a dispatch function that has one, and the function with
    its memory. *)
Definition memory_of (v : Z) (f : dispatch_fn) : option (M bytes (option (request_data * Z)) * M (bytes * mem) unit) :=
  match f with
  | DispatchString => Some (parseString, dispatchString)
  | DispatchStrings => Some (parseStrings junk stack_limit, dispatchStrings junk stack_limit)
  | DispatchNetworkManual => Some (parseNetworkManual, dispatchNetworkManual)
  | DispatchSmsWrite => Some (parseSmsWrite junk, dispatchSmsWrite junk)
  | DispatchSimPin => Some (parseSimPin, dispatchSimPin)
  | DispatchSimPuk => Some (parseSimPuk, dispatchSimPuk)
  | DispatchSimPinSet => Some (parseSimPinSet, dispatchSimPinSet)
  | DispatchDial => Some (parseDial junk v, dispatchDial junk v)
  | DispatchSIM_APDU => Some (parseSIM_APDU junk, dispatchSIM_APDU junk)
  | DispatchCallForward => Some (parseCallForward junk, dispatchCallForward junk)
  | DispatchRequestImsi => Some (parseRequestImsi, dispatchRequestImsi)
  | DispatchSetInitialAttachApn => Some (parseSetInitialAttachApn junk, dispatchSetInitialAttachApn junk)
  | DispatchNVWriteItem => Some (parseNVWriteItem junk, dispatchNVWriteItem junk)
  | DispatchSimAuthentication => Some (parseSimAuthentication junk, dispatchSimAuthentication junk)
  | DispatchDataProfile => Some (parseDataProfile junk stack_limit, dispatchDataProfile junk stack_limit)
  | _ => None
  end.

Lemma memory_of_erases {HP : Heap} v f r c : memory_of v f = Some (r, c) -> erasing r c.
Proof.
  intros Hf. destruct f; try discriminate; injection Hf as <- <-;
    auto using dispatchString_erases, dispatchStrings_erases, dispatchNetworkManual_erases, dispatchSmsWrite_erases, dispatchSimPin_erases,
      dispatchSimPuk_erases, dispatchSimPinSet_erases, dispatchDial_erases, dispatchSIM_APDU_erases, dispatchCallForward_erases,
      dispatchRequestImsi_erases, dispatchSetInitialAttachApn_erases, dispatchNVWriteItem_erases, dispatchSimAuthentication_erases,
      dispatchDataProfile_erases.
Qed.

(** ** SIM files *)

Lemma sim_assoc {A A' A'' B} (r : M bytes A) (f : A -> M bytes A') (k : A' -> M bytes A'') (c : M (bytes * mem) B) p m Q :
  sim (r ≫= (fun x => f x ≫= k)) c p m Q -> sim ((r ≫= f) ≫= k) c p m Q.
Proof. unfold sim, mbind, M_bind. by destruct (r p) as [[a p']| |]. Qed.

Lemma sim_ret_left {A A' B} (a : A) (k : A -> M bytes A') (c : M (bytes * mem) B) p m Q : sim (k a) c p m Q -> sim (mret a ≫= k) c p m Q.
Proof. done. Qed.

(** The reading part of [dispatchSIM_IO] up to the comparison of the path. *)
Definition parseSIM_IO : M bytes (option RIL_SIM_IO_v3) :=
  '(status, simIO) ← read_simIO junk;
  if negb (ok status) then mret None else
  match io_path simIO with
  | None => fault
  | Some _ => mret (Some simIO)
  end.

(** The commands that the vendor library does not see. *)
Definition stubbed (io : RIL_SIM_IO_v3) : bool :=
  bool_decide (io_path io = Some (lit "3F00")) && ((io_command io =? 192) || (io_command io =? 176)).

Lemma dispatchSIM_IO_erases p m :
  sim parseSIM_IO (dispatchSIM_IO junk) p m (fun d _ _ m' =>
    match d with
    | None => freed m' = freed m /\ calls m' = calls m /\ exists K, leaves m K m'
    | Some io => freed m' = freed m ++ map wiped (omap id [io_path io; io_data io; io_pin2 io; io_aidPtr io]) /\
        calls m' = calls m ++ (if stubbed io then [] else [(D_simIo io, sizeof "RIL_SIM_IO_v3")]) /\ live m' = live m
    end).
Proof.
  pose proof (own_start m). unfold parseSIM_IO, read_simIO, dispatchSIM_IO, invalid.
  repeat lazymatch goal with
    | |- sim ((_ ≫= _) ≫= _) _ _ _ _ => apply sim_assoc
    | |- sim (mret _ ≫= _) _ _ _ _ => apply sim_ret_left; cbv beta iota
    | _ => sim_head
    end.
  - lazymatch goal with Ho : own _ [_; _; _; _] _ _ _ |- _ => pose proof (own_leaves _ _ _ _ _ Ho); destruct Ho end.
    split; [done|]. split; [done|]. by eexists.
  - cbn [io_path] in *. subst. repeat sim_head. set (io := SimIo _ _ _ _ _ _ _ _ _ _).
    assert (Hst : bool_decide (l = lit "3F00") && ((io_command io =? 192) || (io_command io =? 176)) = stubbed io).
    { unfold stubbed. f_equal. apply bool_decide_ext. simpl. naive_solver. }
    change z0 with (io_command io). rewrite Hst.
    lazymatch goal with Ho : own _ ?ps ?F ?C ?m1 |- sim _ _ _ ?m1 _ =>
      eapply (sim_step _ _ _ _ _ _ (fun _ m' => own m ps F (C ++ (if stubbed io then [] else [(D_simIo io, sizeof "RIL_SIM_IO_v3")])) m')) end.
    { destruct (stubbed io); [eexists tt, _; split; [reflexivity|by rewrite app_nil_r]|].
      edestruct call_run as (m2 & Hr & Hm2); [eassumption|]. by exists tt, m2. }
    intros [] m2 Hm2. repeat sim_head.
    lazymatch goal with Ho : own _ [_; _; _; _] _ _ ?m3 |- context [live ?m3] => pose proof (own_leaves _ _ _ _ _ Ho) as Hl; destruct Ho as [_ _ _ _ HF HC] end.
    split; [|split; [done|by apply leaves_nil in Hl]]. rewrite HF. clear. subst io.
    repeat match goal with s : cstr |- _ => destruct s end; cbn; by rewrite <- ?app_assoc, ?app_nil_r.
  - cbn [io_path] in *. subst. apply sim_fault.
    erewrite bind_run by (eapply (string_at_run _ _ 0%nat _ None); [eassumption|done]).
    erewrite bind_run by (eapply (string_at_run _ _ 1%nat); [eassumption|done]).
    erewrite bind_run by (eapply (string_at_run _ _ 2%nat); [eassumption|done]).
    by erewrite bind_run by (eapply (string_at_run _ _ 3%nat); [eassumption|done]).
Qed.

(** ** Facility locks *)

(** Reading another parcel. *)
Definition with_bytes {A} (p2 : bytes) (r : M bytes A) : M bytes A := fun p =>
  match r p2 with
  | Ret (a, _) => Ret (a, p)
  | Abort => Abort
  | Fault => Fault
  end.

Lemma own_drop_null m0 ps F C m : own m0 (ps ++ [(None, None)]) F C m -> own m0 ps F C m.
Proof.
  intros Ho. apply (own_perm _ _ ((None, None) :: ps)) in Ho; [|by rewrite <- Permutation_cons_append].
  destruct Ho as [H1 H2 H3 H4 H5 H6]. apply Forall_cons in H4 as [_ H4]. by split.
Qed.

(** The blocks are the same, more is freed and called. *)
Lemma own_same_live m0 ps F C m F' C' m' : own m0 ps F C m -> live m' = live m -> freed m' = F' -> calls m' = C' -> own m0 ps F' C' m'.
Proof. intros [H1 H2 H3 H4 _ _] HL HF HC. split; try done. by rewrite HL. Qed.

(** The copy of a string in UTF-16 is freed as it is. *)
Definition enc16 (s : cstr) : bytes := enc_str (to16 <$> s).
Definition copies (ss : list cstr) : list (list Z) := map (fun x => term (to16 x)) (omap id ss).

Lemma write_string16_run m0 ps F C s p2 p m : own m0 ps F C m ->
  exists m', write_string16 p2 s (p, m) = Ret (p2 ++ enc16 s, (p, m')) /\ own m0 ps (F ++ copies [s]) C m'.
Proof.
  intros Ho. destruct s as [s|]; [|by exists m; split; [|simpl; rewrite app_nil_r]].
  pose proof (own_add _ (to16 s ++ [0]) _ _ _ _ Ho) as H1.
  set (a := fresh (dom (live m))) in *. set (m1 := Mem _ _ _) in H1.
  assert (Hi : (ps ++ [(Some a, Some (to16 s ++ [0]))]) !! length ps = Some (Some a, term <$> Some (to16 s))) by (by apply list_lookup_middle).
  destruct (free_ptr_run _ _ (length ps) _ _ _ _ p _ H1 Hi) as (m2 & Hr & H2). rewrite insert_middle in H2. exists m2.
  split; [|by apply own_drop_null].
  change ((u ← string_at (Some a); free (Some a);; mret (p2 ++ enc_str u)) (p, m1) = Ret (p2 ++ enc16 (Some s), (p, m2))).
  rewrite (bind_run _ _ _ _ _ (string_at_run _ _ _ _ _ _ _ p _ H1 Hi)). by rewrite (bind_run _ _ _ _ _ Hr).
Qed.

Lemma writeStrings_run m0 ps C qs ss p : Forall2 (fun q s => exists i, ps !! i = Some (q, term <$> s)) qs ss -> forall F p2 m, own m0 ps F C m ->
  exists m', writeStringsToParcel p2 qs (p, m) = Ret (p2 ++ concat (map enc16 ss), (p, m')) /\ own m0 ps (F ++ copies ss) C m'.
Proof.
  induction 1 as [|q s qs ss [i Hi] _ IH]; intros F p2 m Ho; cbn [writeStringsToParcel].
  { exists m. simpl. by rewrite !app_nil_r. }
  destruct (write_string16_run _ _ _ _ s p2 p _ Ho) as (m1 & Hr & H1).
  erewrite bind_run by (unfold writeStringToParcel; erewrite bind_run by (by eapply string_at_run); exact Hr).
  destruct (IH _ (p2 ++ enc16 s) _ H1) as (m2 & Hr2 & H2). exists m2. rewrite Hr2.
  split; [by cbn [map concat]; rewrite app_assoc|].
  rewrite <- app_assoc in H2. unfold copies in *. by destruct s.
Qed.

Definition slot_of (s : list Z) : list Z := if bool_decide (s = lit "") then lit "" else lit "0".

(** The parcel for [dispatchStrings]. *)
Definition facility_bytes (count : Z) (s : list Z) (rest : list cstr) : bytes :=
  enc32 count ++ concat (map enc16 (Some (slot_of s) :: Some s :: rest)).

Lemma facility_parcel_run m0 ps F C count i appId s qs rest p m : own m0 ps F C m -> ps !! i = Some (appId, term <$> Some s) ->
  Forall2 (fun q s => exists i, ps !! i = Some (q, term <$> s)) qs rest ->
  exists m', facility_parcel count appId qs (p, m) = Ret (facility_bytes count s rest, (p, m')) /\
    own m0 ps (F ++ copies (Some (slot_of s) :: Some s :: rest)) C m'.
Proof.
  intros Ho Hi Hall. unfold facility_parcel. rewrite (bind_run _ _ _ _ _ (string_at_run _ _ _ _ _ _ _ p _ Ho Hi)).
  fold (slot_of s).
  destruct (write_string16_run _ _ _ _ (Some (slot_of s)) (enc32 count) p _ Ho) as (m1 & Hr & H1).
  rewrite (bind_run _ _ _ _ _ Hr).
  destruct (writeStrings_run m0 ps C (appId :: qs) (Some s :: rest) p ltac:(constructor; [by exists i|done]) _ (enc32 count ++ enc16 (Some (slot_of s))) _ H1)
    as (m2 & Hr2 & H2). exists m2. split; [|by rewrite <- app_assoc in H2]. rewrite Hr2. unfold facility_bytes. cbn [map concat].
    by rewrite <- app_assoc.
Qed.

Lemma parseStrings_call {PL : ParcelLaws P} count r d p' :
  parseStrings junk stack_limit (enc32 count ++ r) = Ret (d, p') -> exists l n, d = Some (D_strings l, n).
Proof.
  unfold parseStrings. rewrite (bind_run _ _ _ _ _ (readInt32_run junk count r)). cbn. unfold mbind, M_bind.
  destruct (read_strings stack_limit (s32 count) r) as [[[l n] q]| |]; [|done|done]. intros [= <- _]. by eexists _, _.
Qed.

(** The rewritten payload is dispatched; the blocks of the caller stay. *)
Lemma sim_facility {PL : ParcelLaws P} {A B} m0 ps F C count i appId s qs rest (g : option (request_data * Z) -> A)
    (kc : unit -> M (bytes * mem) B) p m Q :
  own m0 ps F C m -> ps !! i = Some (appId, term <$> Some s) -> Forall2 (fun q s => exists i, ps !! i = Some (q, term <$> s)) qs rest ->
  (forall data n m', own m0 ps ((F ++ copies (Some (slot_of s) :: Some s :: rest)) ++ map wiped (erased data)) (C ++ [(data, n)]) m' ->
     sim (mret (g (Some (data, n)))) (kc tt) p m' Q) ->
  sim (d ← with_bytes (facility_bytes count s rest) (parseStrings junk stack_limit); mret (g d))
    (p2 ← facility_parcel count appId qs; in_parcel p2 (dispatchStrings junk stack_limit) ≫= kc) p m Q.
Proof.
  intros Ho Hi Hall Hk. destruct (facility_parcel_run _ _ _ _ count i appId s qs rest p _ Ho Hi Hall) as (m1 & Hr & H1).
  pose proof (dispatchStrings_erases (facility_bytes count s rest) m1) as He. unfold sim. rewrite (bind_run _ _ _ _ _ Hr).
  unfold mbind at 1, M_bind at 1, with_bytes.
  unfold sim in He. destruct (parseStrings junk stack_limit (facility_bytes count s rest)) as [[d p2]| |] eqn:Ep.
  - destruct (parseStrings_call _ _ _ _ Ep) as (l & n & ->). destruct He as ([] & m2 & Hc & HF & HC & K & HL & HK). simpl in HK.
    subst K.
    apply leaves_nil in HL. erewrite bind_run by (unfold in_parcel; rewrite Hc; reflexivity). apply Hk.
    apply (own_same_live _ _ _ _ _ _ _ m2 H1 HL); [rewrite HF; by destruct H1 as [_ _ _ _ -> _]|rewrite HC; by destruct H1 as [_ _ _ _ _ ->]].
  - unfold mbind, M_bind, in_parcel. by rewrite He.
  - unfold mbind, M_bind, in_parcel. by rewrite He.
Qed.

(** A missing application id is a null pointer for [strcmp]. *)
Lemma facility_fault {B} m0 ps F C count i appId qs (kc : bytes -> M (bytes * mem) B) p m : own m0 ps F C m -> ps !! i = Some (appId, term <$> None) ->
  (facility_parcel count appId qs ≫= kc) (p, m) = Fault.
Proof. intros Ho Hi. unfold facility_parcel, mbind, M_bind. by rewrite (string_at_run _ _ _ _ None _ _ p _ Ho Hi). Qed.

(** The functions on values: what was read, what is sent, and the call. *)
Definition parseQueryFacility : M bytes (list cstr * list cstr * option (request_data * Z)) :=
  _count ← readInt32_value;
  facility ← Parcel.strdupReadString;
  password ← Parcel.strdupReadString;
  serviceClass ← Parcel.strdupReadString;
  appId ← Parcel.strdupReadString;
  match appId with
  | None => fault
  | Some s =>
      d ← with_bytes (facility_bytes 5 s [facility; password; serviceClass]) (parseStrings junk stack_limit);
      mret ([facility; password; serviceClass; appId], [Some (slot_of s); appId; facility; password; serviceClass], d)
  end.

Definition parseSetFacility : M bytes (list cstr * list cstr * option (request_data * Z)) :=
  _count ← readInt32_value;
  facility ← Parcel.strdupReadString;
  lockString ← Parcel.strdupReadString;
  password ← Parcel.strdupReadString;
  serviceClass ← Parcel.strdupReadString;
  appId ← Parcel.strdupReadString;
  match appId with
  | None => fault
  | Some s =>
      d ← with_bytes (facility_bytes 6 s [facility; lockString; password; serviceClass]) (parseStrings junk stack_limit);
      mret ([facility; lockString; password; serviceClass; appId], [Some (slot_of s); appId; facility; lockString; password; serviceClass], d)
  end.

(** No block is left, and what was read is erased; the copies that were written
    to the parcel are not. *)
Definition facility_post (m : mem) (r : list cstr * list cstr * option (request_data * Z)) (m' : mem) : Prop :=
  let '(args, sent, d) := r in
  exists data n, d = Some (data, n) /\ live m' = live m /\ calls m' = calls m ++ [(data, n)] /\
    freed m' = freed m ++ copies sent ++ map wiped (erased data) ++ map wiped (omap id args).

Lemma facility_done m ps F C m' args sent data n : own m ps F C m' -> Forall (fun x => x = (None, None)) ps -> C = calls m ++ [(data, n)] ->
  F = freed m ++ copies sent ++ map wiped (erased data) ++ map wiped (omap id args) -> facility_post m (args, sent, Some (data, n)) m'.
Proof.
  intros Ho Hn -> ->. pose proof (own_leaves _ _ _ _ _ Ho) as Hl. destruct Ho as [_ _ _ _ HF HC]. exists data, n. split; [done|].
  split; [|done].
  apply leaves_nil. assert (omap snd ps = []) as E by (clear -Hn; induction Hn as [|x ps -> _ IH]; [done|exact IH]).
  by rewrite E in Hl.
Qed.

Ltac facility_step i :=
  eapply (sim_facility _ _ _ _ _ i); [eassumption|done|repeat constructor; first [by exists 0%nat|by exists 1%nat|by exists 2%nat|by exists 3%nat]|];
  intros data n m2 Hm2; repeat sim_head; eapply facility_done; [eassumption|by repeat constructor|done|];
  rewrite <- !app_assoc; do 3 f_equal; repeat match goal with s : cstr |- _ => destruct s end; cbn; by rewrite <- ?app_assoc, ?app_nil_r.

Lemma dispatchQueryFacility_erases {PL : ParcelLaws P} p m :
  sim parseQueryFacility (dispatchQueryFacility junk stack_limit) p m (fun r _ _ m' => facility_post m r m').
Proof.
  pose proof (own_start m). unfold parseQueryFacility, dispatchQueryFacility. do 5 sim_head.
  lazymatch goal with s : cstr |- sim (match ?s with _ => _ end) _ _ _ _ => destruct s as [s|] end; [facility_step 3%nat|].
  apply sim_fault. by eapply (facility_fault _ _ _ _ _ 3%nat).
Qed.

Lemma dispatchSetFacility_erases {PL : ParcelLaws P} p m :
  sim parseSetFacility (dispatchSetFacility junk stack_limit) p m (fun r _ _ m' => facility_post m r m').
Proof.
  pose proof (own_start m). unfold parseSetFacility, dispatchSetFacility. do 6 sim_head.
  lazymatch goal with s : cstr |- sim (match ?s with _ => _ end) _ _ _ _ => destruct s as [s|] end; [facility_step 4%nat|].
  apply sim_fault. by eapply (facility_fault _ _ _ _ _ 4%nat).
Qed.

(** ** The property *)

(** C11: the dispatch functions with strings, with their memory.  Those of
    [memory_of] and [dispatchImsGsmSms] call the vendor library with the data of
    the functions on values, never touch a block that is not theirs or is freed,
    and free after the call every string of the data once, overwritten up to its
    terminator; only the [smsc] of a message, the strings of data profiles and
    an empty number stay allocated.  A malformed command calls nothing and frees
    nothing.  [dispatchSIM_IO] frees its four strings overwritten and calls the
    vendor library unless it answers the command itself; the facility functions
    call with the strings that they send to themselves, leave no block behind
    and free overwritten what they read and what they pass on, but free their
    16-bit copies as they are. *)
Theorem dispatch_erases_strings {HP : Heap} {PL : ParcelLaws P} :
  (forall v f r c, memory_of v f = Some (r, c) ->
    (forall p pRI s, version s = v -> call_dispatch junk stack_limit f p pRI s = dispatch_with r p pRI s) /\
    forall p m,
      match r p with
      | Ret (Some (data, datalen), p') => exists m', c (p, m) = Ret (tt, (p', m')) /\ calls m' = calls m ++ [(data, datalen)] /\
          freed m' = freed m ++ map wiped (erased data) /\ exists K, leaves m K m' /\ left_behind data K
      | Ret (None, p') => exists m', c (p, m) = Ret (tt, (p', m')) /\ calls m' = calls m /\ freed m' = freed m /\ exists K, leaves m K m'
      | Abort => c (p, m) = Abort
      | Fault => c (p, m) = Fault
      end) /\
  (forall retry messageRef p m, sim (parseImsGsmSms junk stack_limit retry messageRef) (dispatchImsGsmSms junk stack_limit retry messageRef) p m
    (fun d _ _ m' => erases m d m')) /\
  (forall p m, sim parseSIM_IO (dispatchSIM_IO junk) p m (fun d _ _ m' =>
    match d with
    | None => freed m' = freed m /\ calls m' = calls m /\ exists K, leaves m K m'
    | Some io => freed m' = freed m ++ map wiped (omap id [io_path io; io_data io; io_pin2 io; io_aidPtr io]) /\
        calls m' = calls m ++ (if stubbed io then [] else [(D_simIo io, sizeof "RIL_SIM_IO_v3")]) /\ live m' = live m
    end)) /\
  (forall p m, sim parseQueryFacility (dispatchQueryFacility junk stack_limit) p m (fun r _ _ m' => facility_post m r m')) /\
  (forall p m, sim parseSetFacility (dispatchSetFacility junk stack_limit) p m (fun r _ _ m' => facility_post m r m')).
Proof.
  split; [|split; [intros; apply dispatchImsGsmSms_erases|split; [intros; apply dispatchSIM_IO_erases|
    split; intros; [by apply dispatchQueryFacility_erases|by apply dispatchSetFacility_erases]]]].
  intros v f r c Hf. split.
  - intros p pRI s <-. destruct f; try discriminate; by injection Hf as <- <-.
  - intros p m. pose proof (memory_of_erases _ _ _ _ Hf p m) as He. unfold sim in He.
    destruct (r p) as [[[[data n]|] p']| |]; [| |done|done]; destruct He as ([] & m' & Hc & H1 & H2 & H3); by exists m'.
Qed.

End Erase.

Import Wire.

(** ** Runs *)

Definition no_mem : mem := Mem ∅ [] [].
Definition stack : Z := 1048576.

(** A command with the PIN 1234. *)
Definition pin_payload : bytes := enc32 2 ++ enc_str (Some (lit "1234")) ++ enc_str (Some (lit "A0")).

Lemma dispatch_erases_strings_witness : exists m', dispatchSimPin (pin_payload, no_mem) = Ret (tt, ([], m')) /\
  calls m' = [(D_simPin (SimPin 0 (Some (lit "A0")) (Some (lit "1234"))), sizeof "RIL_SimPin_v3")] /\
  freed m' = [[0; 0; 0; 0; 0]; [0; 0; 0]] /\ live m' = ∅.
Proof.
  destruct (dispatch_erases_strings 0 stack) as [Hall _].
  destruct (Hall 3 DispatchSimPin parseSimPin dispatchSimPin eq_refl) as [_ Hr].
  specialize (Hr pin_payload no_mem).
  assert (E : parseSimPin pin_payload = Ret (Some (D_simPin (SimPin 0 (Some (lit "A0")) (Some (lit "1234"))), sizeof "RIL_SimPin_v3"), [])) by (vm_compute; reflexivity).
  rewrite E in Hr. destruct Hr as (m' & Hc & HC & HF & K & HL & HK). exists m'. split; [exact Hc|]. split; [exact HC|].
  split; [exact HF|].
  simpl in HK. subst K. by apply leaves_nil in HL.
Defined.

(** The password of a data profile stays in memory for good. *)
Definition profile_payload : bytes :=
  enc32 1 ++ enc32 0 ++ enc_str (Some (lit "apn")) ++ enc_str (Some (lit "IP")) ++ enc32 0 ++ enc_str (Some (lit "user")) ++ enc_str (Some (lit "secret")) ++
  concat (replicate 5 (enc32 1)).

Theorem data_profile_leaks : exists m', dispatchDataProfile 0 stack (profile_payload, no_mem) = Ret (tt, ([], m')) /\
  freed m' = [] /\ (map_to_list (live m')).*2 ≡ₚ [term (lit "apn"); term (lit "IP"); term (lit "user"); term (lit "secret")].
Proof. eexists. split; [vm_compute; reflexivity|]. split; [done|]. apply (bool_decide_unpack _). by vm_compute. Qed.

(** A command without its last word keeps the password. *)
Theorem malformed_command_leaks : exists m',
  dispatchSetInitialAttachApn 0 (enc_str (Some (lit "apn")) ++ enc_str (Some (lit "IP")), no_mem) = Ret (tt, ([], m')) /\
  freed m' = [] /\ calls m' = [] /\ (map_to_list (live m')).*2 ≡ₚ [term (lit "apn"); term (lit "IP")].
Proof. eexists. split; [vm_compute; reflexivity|]. split; [done|]. split; [done|]. apply (bool_decide_unpack _). by vm_compute. Qed.

(** The copy of the password that goes to the parcel is freed as it is. *)
Definition facility_payload : bytes :=
  enc32 5 ++ concat (map (fun s => enc_str (Some (lit s))) ["SC"; "1"; "1234"; "7"; "A0"]%string).

Theorem password_copy_survives : exists m', dispatchSetFacility 0 stack (facility_payload, no_mem) = Ret (tt, ([], m')) /\
  live m' = ∅ /\ term (to16 (lit "1234")) ∈ freed m'.
Proof. eexists. split; [vm_compute; reflexivity|]. split; [by vm_compute|]. apply (bool_decide_unpack _). by vm_compute. Qed.
