(* ===== verification/RilWakeRace.v ===== *)
(** * libril/ril.cpp: the wake lock without a mutex

    Notifications come from threads of the vendor library; the timers that
    release the wake lock fire in the event thread.  [s_last_wake_timeout_info]
    and the timers are accessed without a mutex.  Here every access is a step of
    its own, and any number of notifications and the event thread interleave.

    The lock is never kept for good: while it is held, a timer that will release
    it is pending, or a thread is about to request one.  But a timer may be freed
    while a notification is about to cancel it. *)

From S2P Require Import Prelude.

(** ** State *)

(** [infos]: the [UserCallbackInfo] of timers, with [userParam != NULL];
    [queue]: the timers of the event loop. *)
Record wstate : Type := WS { infos : gmap nat bool; s_last_wake_timeout_info : option nat; held : bool; queue : gset nat }.

Abbreviation W := (M wstate).

Definition modify (f : wstate -> wstate) : W unit := fun s => Ret (tt, f s).
Definition set_held (b : bool) : W unit := modify (fun s => WS (infos s) (s_last_wake_timeout_info s) b (queue s)).
Definition set_last (o : option nat) : W unit := modify (fun s => WS (infos s) o (held s) (queue s)).

Definition grabPartialWakeLock : W unit := set_held true.
Definition releaseWakeLock : W unit := set_held false.

(** [p->userParam = (void * ) 1] and its read. *)
Definition cancel (p : nat) : W unit := fun s =>
  match infos s !! p with
  | Some _ => Ret (tt, WS (<[p := true]> (infos s)) (s_last_wake_timeout_info s) (held s) (queue s))
  | None => Fault
  end.
Definition cancelled (p : nat) : W bool := fun s => match infos s !! p with Some c => Ret (c, s) | None => Fault end.

Definition internalRequestTimedCallback : W nat := fun s =>
  let p := fresh (dom (infos s) ∪ queue s) in
  Ret (p, WS (<[p := false]> (infos s)) (s_last_wake_timeout_info s) (held s) (queue s ∪ {[p]})).

Definition free (p : nat) : W unit := fun s =>
  match infos s !! p with
  | Some _ => Ret (tt, WS (delete p (infos s)) (s_last_wake_timeout_info s) (held s) (queue s))
  | None => Fault
  end.

(** ** Threads *)

(** Where a call of [RIL_onUnsolicitedResponse] is: it holds the lock, has seen
    a timer to cancel, is about to request one, has requested one. *)
Inductive npc : Type := Outside | Grabbed | Found | Requesting | Requested (p : nat).

(** [bad]: the message cannot be written. *)
Definition onUnsolicitedResponse (bad : bool) (pc : npc) : W npc :=
  match pc with
  | Outside => grabPartialWakeLock;; mret Grabbed
  | Grabbed =>
      if bad then releaseWakeLock;; mret Outside else
      s ← get;
      mret (match s_last_wake_timeout_info s with Some _ => Found | None => Requesting end)
  | Found =>
      s ← get;
      match s_last_wake_timeout_info s with
      | Some p => cancel p;; mret Requesting
      | None => fault
      end
  | Requesting => p ← internalRequestTimedCallback; mret (Requested p)
  | Requested p => set_last (Some p);; mret Outside
  end.

(** The event thread: waiting, or in [userTimerCallback] of a timer. *)
Inductive epc : Type := Waiting | Called (p : nat) | Releasing (p : nat) | Testing (p : nat) | Comparing (p : nat) | Clearing (p : nat) | Freeing (p : nat).

(** [p]: the timer that is due next. *)
Definition userTimerCallback (due : nat) (pc : epc) : W epc :=
  match pc with
  | Waiting =>
      s ← get;
      if bool_decide (due ∈ queue s) then
        modify (fun s => WS (infos s) (s_last_wake_timeout_info s) (held s) (queue s ∖ {[due]}));; mret (Called due)
      else mret Waiting
  | Called p => c ← cancelled p; mret (if (c : bool) then Testing p else Releasing p)
  | Releasing p => releaseWakeLock;; mret (Testing p)
  | Testing p => s ← get; mret (match s_last_wake_timeout_info s with Some _ => Comparing p | None => Freeing p end)
  | Comparing p => s ← get; mret (if bool_decide (s_last_wake_timeout_info s = Some p) then Clearing p else Freeing p)
  | Clearing p => set_last None;; mret (Freeing p)
  | Freeing p => free p;; mret Waiting
  end.

(** ** Interleaving *)

Record world : Type := World { notifiers : list npc; event_pc : epc; wake : wstate }.

Inductive move : Type := Notify (i : nat) (bad : bool) | Event (due : nat).

Definition wake_step (mv : move) (w : world) : outcome world :=
  match mv with
  | Notify i bad =>
      match notifiers w !! i with
      | None => Ret w
      | Some pc =>
          match onUnsolicitedResponse bad pc (wake w) with
          | Ret (pc', s) => Ret (World (<[i := pc']> (notifiers w)) (event_pc w) s)
          | Abort => Abort
          | Fault => Fault
          end
      end
  | Event due =>
      match userTimerCallback due (event_pc w) (wake w) with
      | Ret (pc', s) => Ret (World (notifiers w) pc' s)
      | Abort => Abort
      | Fault => Fault
      end
  end.

Fixpoint wake_run (mvs : list move) (w : world) : outcome world :=
  match mvs with
  | [] => Ret w
  | mv :: rest => match wake_step mv w with Ret w' => wake_run rest w' | Abort => Abort | Fault => Fault end
  end.

Definition quiet (n : nat) : world := World (replicate n Outside) Waiting (WS ∅ None false ∅).

(** ** Invariant *)

(** The timer in the hands of the event thread. *)
Definition firing (pc : epc) : option nat :=
  match pc with
  | Waiting => None
  | Called p | Releasing p | Testing p | Comparing p | Clearing p | Freeing p => Some p
  end.

(** A thread that will request a timer, or release the lock. *)
Definition active (pc : npc) : bool := match pc with Grabbed | Found | Requesting => true | _ => false end.

(** A timer that will release the lock. *)
Definition will_release (w : world) (p : nat) : Prop :=
  infos (wake w) !! p = Some false /\ (p ∈ queue (wake w) \/ event_pc w = Called p) \/ event_pc w = Releasing p.

Record wake_ok (w : world) : Prop := WakeOk {
  wk_queue : forall p, p ∈ queue (wake w) -> is_Some (infos (wake w) !! p);
  wk_firing : forall p, firing (event_pc w) = Some p -> is_Some (infos (wake w) !! p) /\ p ∉ queue (wake w);
  wk_held : held (wake w) = true -> (exists p, will_release w p) \/ exists i pc, notifiers w !! i = Some pc /\ active pc = true
}.

Lemma quiet_ok n : wake_ok (quiet n).
Proof. split; [by intros p ?%elem_of_empty|done|done]. Qed.

(** The event thread never touches a freed timer. *)
Lemma event_ok w due : wake_ok w -> exists w', wake_step (Event due) w = Ret w' /\ wake_ok w'.
Proof.
  destruct w as [ns pc [m o h q]]. intros [Hq Hf Hh]. simpl in *. unfold will_release in Hh. simpl in Hh.
  assert (Hpc : forall p, firing pc = Some p -> exists c, m !! p = Some c) by (intros p Hp; apply Hf in Hp as [[c ?] _]; by exists c).
  destruct pc as [|p|p|p|p|p|p]; simpl in *; unfold mbind, M_bind, get, mret, M_ret.
  - destruct (decide (due ∈ q)) as [Hd|Hd]; [rewrite bool_decide_eq_true_2 by done|rewrite bool_decide_eq_false_2 by done]; (eexists; split; [reflexivity|]).
    + split; simpl.
      * intros p [Hp _]%elem_of_difference. by apply Hq.
      * intros p [= <-]. split; [by apply Hq|set_solver].
      * intros Hb. destruct (Hh Hb) as [(p & [(H1 & [H2|?])|?])|?]; [|done|done|by right]. left. exists p. unfold will_release.
        simpl. left. split; [done|].
        destruct (decide (p = due)) as [->|]; [by right|left; set_solver].
    + by split.
  - destruct (Hpc p eq_refl) as [c Hc]. unfold cancelled. simpl. rewrite Hc. eexists. split; [reflexivity|].
    destruct c; (split; simpl; [done|done|]); intros Hb.
    + destruct (Hh Hb) as [(p' & [(H1 & [H2|[= ->]])|?])|?]; [|congruence|done|by right]. left. exists p'. unfold will_release.
      simpl. tauto.
    + left. exists p. by right.
  - eexists. split; [reflexivity|]. split; simpl; done.
  - eexists. split; [reflexivity|]. destruct o; (split; simpl; [done|done|]); intros Hb;
      (destruct (Hh Hb) as [(p' & [(H1 & [H2|?])|?])|?]; [left; exists p'; unfold will_release; simpl; tauto|done|done|by right]).
  - eexists. split; [reflexivity|]. case_bool_decide; (split; simpl; [done|done|]); intros Hb;
      (destruct (Hh Hb) as [(p' & [(H1 & [H2|?])|?])|?]; [left; exists p'; unfold will_release; simpl; tauto|done|done|by right]).
  - eexists. split; [reflexivity|]. split; simpl; [done|done|]. intros Hb.
    destruct (Hh Hb) as [(p' & [(H1 & [H2|?])|?])|?]; [left; exists p'; unfold will_release; simpl; tauto|done|done|by right].
  - destruct (Hpc p eq_refl) as [c Hc]. unfold free. simpl. rewrite Hc. eexists. split; [reflexivity|].
    destruct (Hf p eq_refl) as [_ Hnq]. split; simpl.
    + intros p' Hp'. rewrite lookup_delete_ne by (intros ->; done). by apply Hq.
    + done.
    + intros Hb. destruct (Hh Hb) as [(p' & [(H1 & [H2|?])|?])|?]; [|done|done|by right]. left. exists p'. unfold will_release.
      simpl. left.
      rewrite lookup_delete_ne by (intros ->; done). tauto.
Qed.

(** The witnesses that another thread does not change. *)
Lemma others_witness (ns : list npc) (i : nat) pc pc' :
  ns !! i = Some pc -> active pc = false \/ active pc' = true ->
  (exists j pc, ns !! j = Some pc /\ active pc = true) -> exists j pc, <[i := pc']> ns !! j = Some pc /\ active pc = true.
Proof.
  intros Hi Hact (j & pcj & Hj & Ha). pose proof (lookup_lt_Some _ _ _ Hi). destruct (decide (j = i)) as [->|Hne].
  - assert (pcj = pc) by congruence. subst. destruct Hact as [?|Hact]; [congruence|]. exists i, pc'.
    by rewrite list_lookup_insert_eq.
  - exists j, pcj. by rewrite list_lookup_insert_ne.
Qed.

Lemma self_witness (ns : list npc) (i : nat) pc pc' : ns !! i = Some pc -> active pc' = true -> exists j pc, <[i := pc']> ns !! j = Some pc /\ active pc = true.
Proof. intros Hi Ha. exists i, pc'. by rewrite list_lookup_insert_eq by (by eapply lookup_lt_Some). Qed.

Lemma notify_ok w i bad w' : wake_ok w -> wake_step (Notify i bad) w = Ret w' -> wake_ok w'.
Proof.
  destruct w as [ns epc0 [m o h q]]. intros [Hq Hf Hh]. unfold will_release in Hh. simpl in *.
  destruct (ns !! i) as [pc|] eqn:Hi; [|by intros [= <-]].
  destruct pc as [| | | |p]; cbn [onUnsolicitedResponse]; unfold mbind, M_bind, get, mret, M_ret; simpl.
  - intros [= <-]. split; simpl; [done|done|]. intros _. right. by eapply self_witness.
  - destruct bad; [intros [= <-]; by split|]. intros [= <-]. split; simpl; [done|done|]. intros _. right.
    eapply self_witness; [done|]. by destruct o.
  - destruct o as [p|]; [|done]. unfold cancel. cbn [infos]. destruct (m !! p) as [c|] eqn:Hp; simpl; [|done]. intros [= <-].
    split; simpl.
    + intros p' Hp'.
      destruct (decide (p' = p)) as [->|]; [rewrite lookup_insert_eq; by eexists|rewrite lookup_insert_ne by done; auto].
    + intros p' Hp'. destruct (Hf p' Hp') as [Hs Hn]. split; [|done].
      destruct (decide (p' = p)) as [->|]; [rewrite lookup_insert_eq; by eexists|by rewrite lookup_insert_ne].
    + intros _. right. by eapply self_witness.
  - set (a := fresh (dom m ∪ q)). assert (Ha : a ∉ dom m ∪ q) by apply is_fresh. apply not_elem_of_union in Ha as [Ha1 Ha2].
    apply not_elem_of_dom in Ha1. intros [= <-]. split; simpl; fold a.
    + intros p' [Hp'| ->%elem_of_singleton]%elem_of_union; [|rewrite lookup_insert_eq; by eexists].
      rewrite lookup_insert_ne; [auto|]. intros <-. by apply Hq in Hp' as [? ?%eq_sym]; congruence.
    + intros p' Hp'. destruct (Hf p' Hp') as [[c Hs] Hn]. assert (p' <> a) by (intros ->; congruence).
      split; [rewrite lookup_insert_ne by done; by eexists|set_solver].
    + intros _. left. exists a. left. simpl. fold a. rewrite lookup_insert_eq. split; [done|left; set_solver].
  - intros [= <-]. split; simpl; [done|done|]. intros Hb. destruct (Hh Hb) as [?|?]; [by left|right].
    eapply others_witness; [exact Hi|by left|done].
Qed.

Lemma wake_run_ok mvs : forall w w', wake_ok w -> wake_run mvs w = Ret w' -> wake_ok w'.
Proof.
  induction mvs as [|mv mvs IH]; intros w w' Hw; simpl; [by intros [= <-]|].
  destruct (wake_step mv w) as [w1| |] eqn:E; [|done|done].
  apply IH. destruct mv as [i bad|due]; [by eapply notify_ok|]. destruct (event_ok w due Hw) as (w2 & E2 & H2). congruence.
Qed.

(** C12: however notifications and timers interleave, the event thread never
    touches a freed timer, and while the wake lock is held a timer will release
    it or a notification is about to request one; when nothing else runs, the
    next three steps of the event thread for some pending timer release it. *)
Theorem wake_lock_not_kept n mvs w : wake_run mvs (quiet n) = Ret w ->
  (forall due, exists w', wake_step (Event due) w = Ret w') /\
  (held (wake w) = true -> (exists p, will_release w p) \/ exists i pc, notifiers w !! i = Some pc /\ active pc = true) /\
  (held (wake w) = true -> event_pc w = Waiting -> Forall (fun pc => active pc = false) (notifiers w) ->
     exists p w', p ∈ queue (wake w) /\ wake_run [Event p; Event p; Event p] w = Ret w' /\ held (wake w') = false).
Proof.
  intros Hr. pose proof (wake_run_ok mvs _ _ (quiet_ok n) Hr) as Hok. split; [|split].
  - intros due. destruct (event_ok w due Hok) as (w' & E & _). by exists w'.
  - apply (wk_held _ Hok).
  - intros Hb Hw Hall. destruct (wk_held _ Hok Hb) as [[p Hp]|(i & pc & Hi & Ha)].
    + destruct w as [ns epc0 [m o h q]]. unfold will_release in Hp. cbn [event_pc wake held infos queue] in *. subst.
      destruct Hp as [(H1 & [H2|?])|?]; [|done|done].
      assert (E1 : wake_step (Event p) (World ns Waiting (WS m o true q)) = Ret (World ns (Called p) (WS m o true (q ∖ {[p]})))).
      { simpl. unfold mbind, M_bind, get. simpl. by rewrite bool_decide_eq_true_2. }
      assert (E2 : wake_step (Event p) (World ns (Called p) (WS m o true (q ∖ {[p]}))) = Ret (World ns (Releasing p) (WS m o true (q ∖ {[p]})))).
      { simpl. unfold mbind, M_bind, cancelled. simpl. by rewrite H1. }
      exists p, (World ns (Testing p) (WS m o false (q ∖ {[p]}))). split; [done|]. cbn [wake_run]. by rewrite E1, E2.
    + rewrite Forall_lookup in Hall. specialize (Hall _ _ Hi). congruence.
Qed.

(** ** Runs *)

(** Two notifications; the timer of the first is pending. *)
Definition two_messages : list move := [Notify 0 false; Notify 0 false; Notify 0 false; Notify 0 false; Notify 1 false].

Lemma wake_lock_not_kept_witness : exists w, wake_run two_messages (quiet 2) = Ret w /\ held (wake w) = true /\
  ((exists p, will_release w p) \/ exists i pc, notifiers w !! i = Some pc /\ active pc = true).
Proof.
  destruct (wake_run two_messages (quiet 2)) as [w| |] eqn:E; [|by vm_compute in E|by vm_compute in E].
  destruct (wake_lock_not_kept 2 two_messages w E) as (_ & H & _). exists w. split; [done|].
  assert (Hb : held (wake w) = true) by (vm_compute in E; by injection E as <-).
  split; [exact Hb|exact (H Hb)].
Defined.

(** A notification sees the timer of the last one; the timer fires and is freed;
    the notification writes to it. *)
Theorem cancelled_timer_is_freed :
  wake_run (two_messages ++ [Notify 1 false] ++ replicate 7 (Event 0) ++ [Notify 1 false]) (quiet 2) = Fault.
Proof. vm_compute. reflexivity. Qed.

(** The timer of the first message has decided to release the lock when the
    second message takes it: the lock is released while the client has not seen
    the message, and the timer of the second is pending. *)
Theorem lock_released_early : exists w,
  wake_run (two_messages ++ [Event 0; Event 0] ++ [Notify 1 false; Notify 1 false; Notify 1 false; Event 0]) (quiet 2) = Ret w /\
  held (wake w) = false /\ queue (wake w) <> ∅.
Proof. eexists. split; [vm_compute; reflexivity|]. split; [done|]. by vm_compute. Qed.
