(* ===== verification/RilReplyRace.v ===== *)
(** * libril/ril.cpp: replies while connections come and go

    [RIL_onRequestComplete] runs in any thread.  It holds
    [s_pendingRequestsMutex] only while it unlinks the request; afterwards it
    tests [cancelled], encodes the response, reads [fdCommand] and writes under
    [s_writeMutex].  Meanwhile the event thread reads commands, closes the
    command socket and accepts the next connection, with neither mutex held for
    the descriptor, and the kernel gives the number of a closed descriptor to
    the next file that is opened.

    A critical section is one step, the function of [RilCore] on the list; so is
    each [write], each [close] and each access to [fdCommand].  Between its
    removal from the list and its release a request belongs to one thread, whose
    reads of its members are one step.  Thread 0 is the event thread; any thread
    completes requests and sends notifications. *)

From S2P Require Import Prelude Parcel RilTypes RilResponse RilTables RilCore RilDispatch RilFacts.

(** ** State *)

(** A message: the command it answers, as its place in [received], and the
    parcel. *)
Record message : Type := Msg { answers : option nat; parcel : bytes }.

(** Where [sendResponseRaw] is; [SWrite] has what is left of the header and the
    data, which are written to the same [fd]. *)
Inductive send_pc : Type :=
| SRead | SLock (fd : Z) | SWrite (fd : Z) (rest : bytes) | SClose (fd : Z) | SUnlock | SDone.

#[export] Instance send_pc_eq_dec : EqDecision send_pc.
Proof. solve_decision. Defined.

(** A thread outside libril, with a request it has unlinked, in
    [sendResponse], about to free the request; and the event thread after the
    [close] of the command socket, and after it has set [fdCommand] to -1; or
    after the [close] of a power-off command of the debug port. *)
Inductive thread_pc : Type :=
| TIdle
| TFound (a : nat) (e : Z) (r : response) (len : Z)
| TSend (own : option nat) (m : message) (p : send_pc)
| TFree (a : nat)
| TClosed
| TForgotten
| TPowered.

(** The bytes one [write] took: the message they belong to and the connection,
    or [None] for a file that is not a command connection. *)
Record piece : Type := Piece { for_message : option nat; to_connection : option nat; piece_bytes : bytes }.

(** [fds]: the open descriptors; connections are numbered in the order in which
    they are accepted.  [received] has the connection and the token of every
    command, [issued] the command for which a request was created. *)
Record race : Type := Race {
  lib : rstate; threads : list thread_pc; s_writeMutex : option nat; fds : gmap Z (option nat); accepted : nat;
  received : list (nat * Z); issued : gmap nat nat; sent_log : list piece
}.

Definition with_lib (s : rstate) (w : race) : race :=
  Race s (threads w) (s_writeMutex w) (fds w) (accepted w) (received w) (issued w) (sent_log w).
Definition at_thread (i : nat) (pc : thread_pc) (w : race) : race :=
  Race (lib w) (<[i := pc]> (threads w)) (s_writeMutex w) (fds w) (accepted w) (received w) (issued w) (sent_log w).
Definition with_mutex (m : option nat) (w : race) : race :=
  Race (lib w) (threads w) m (fds w) (accepted w) (received w) (issued w) (sent_log w).
Definition with_fds (f : gmap Z (option nat)) (w : race) : race :=
  Race (lib w) (threads w) (s_writeMutex w) f (accepted w) (received w) (issued w) (sent_log w).
Definition with_accepted (n : nat) (w : race) : race :=
  Race (lib w) (threads w) (s_writeMutex w) (fds w) n (received w) (issued w) (sent_log w).
Definition with_issued (rc : list (nat * Z)) (m : gmap nat nat) (w : race) : race :=
  Race (lib w) (threads w) (s_writeMutex w) (fds w) (accepted w) rc m (sent_log w).
Definition with_log (l : list piece) (w : race) : race :=
  Race (lib w) (threads w) (s_writeMutex w) (fds w) (accepted w) (received w) (issued w) l.

Definition fdCommand (w : race) : Z := RilCore.fdCommand (sock (lib w)).
(** Sets [fdCommand]; [listen]: the listening socket is watched. *)
Definition set_fdCommand (fd : Z) (listen : bool) (w : race) : race :=
  with_lib (with_sock (Sock fd (fd_open (sock (lib w))) (wire (sock (lib w))) (io (sock (lib w)))) listen (lib w)) w.

Section Race.
Context {P : ParcelOps} {H : RilHeader} {HP : Heap}.

(** ** sendResponse *)

(** A step of thread [i]; [res] is what [write] does.  [None]: it waits. *)
Definition sendResponse (i : nat) (m : message) (res : write_result) (pc : send_pc) (w : race) : option (send_pc * race) :=
  match pc with
  | SRead =>
      Some (if fdCommand w <? 0 then SDone else if MAX_COMMAND_BYTES <? Z.of_nat (length (parcel m)) then SDone else SLock (fdCommand w), w)
  | SLock fd =>
      match s_writeMutex w with
      | None => Some (SWrite fd (frame (parcel m)), with_mutex (Some i) w)
      | Some _ => None
      end
  | SWrite fd [] => Some (SUnlock, w)
  | SWrite fd rest =>
      match res, fds w !! fd with
      | Again, _ => Some (SWrite fd rest, w)
      | Failed, _ | Wrote _, None => Some (SClose fd, w)
      | Wrote n, Some file =>
          Some (SWrite fd (drop n rest), with_log (sent_log w ++ [Piece (answers m) file (take n rest)]) w)
      end
  | SClose fd => Some (SUnlock, with_fds (delete fd (fds w)) w)
  | SUnlock => Some (SDone, with_mutex None w)
  | SDone => Some (SDone, w)
  end.

(** ** Threads *)

(** What a thread outside libril does next.  [Command], [Accept], [Refuse],
    [Close] and [PowerOff] are events of the event thread. *)
Inductive deed : Type :=
| Complete (t : option nat) (e : Z) (r : response) (len : Z)
| Notify (p : bytes)
| Local (request : nat)
| Command (request tok : Z)
| Accept (fd : Z)
| Refuse
| Close
| PowerOff.

(** [RIL_onRequestComplete], up to the end of its critical section. *)
Definition begin_completion (i : nat) (t : option nat) (e : Z) (r : response) (len : Z) (w : race) : outcome race :=
  match checkAndDequeueRequestInfo t (lib w), t with
  | Ret (true, s), Some a => Ret (at_thread i (TFound a e r len) (with_lib s w))
  | Ret (_, s), _ => Ret (with_lib s w)
  | Abort, _ => Abort
  | Fault, _ => Fault
  end.

(** From there to [sendResponse]. *)
Definition answer (i a : nat) (e : Z) (r : response) (len : Z) (w : race) : outcome race :=
  match load_req a (lib w) with
  | Ret (pRI, _) =>
      if local pRI || cancelled pRI then Ret (at_thread i (TFree a) w) else
      match s_commands !! pCI pRI with
      | None => Fault
      | Some ci =>
          match response_parcel (version (lib w)) (token pRI) (responseFunction ci) e r len [] with
          | Ret (_, p) => Ret (at_thread i (TSend (Some a) (Msg (issued w !! a) p) SRead) w)
          | Abort => Abort
          | Fault => Fault
          end
      end
  | Abort => Abort
  | Fault => Fault
  end.

Definition supported (request : Z) : bool :=
  match s_commands !! Z.to_nat request with
  | Some ci => negb (requestNumber ci =? 0) && negb ((request <? 1) || (NUM_COMMANDS <=? request))
  | None => false
  end.

(** The parcel of [reject]. *)
Definition failure_parcel (tok : Z) : bytes := reply_parcel tok (ril "RIL_E_GENERIC_FAILURE") [].

(** [processCommandBuffer] for a command on the connection that was accepted
    last, up to the call of the dispatch function. *)
Definition begin_command (request tok : Z) (w : race) : outcome race :=
  let k := length (received w) in
  let rc := received w ++ [(pred (accepted w), tok)] in
  if supported request then
    match push_request tok (Z.to_nat request) false (lib w) with
    | Ret (a, s) => Ret (with_issued rc (<[a := k]> (issued w)) (with_lib s w))
    | Abort => Abort
    | Fault => Fault
    end
  else Ret (at_thread 0 (TSend None (Msg (Some k) (failure_parcel tok)) SRead) (with_issued rc (issued w) w)).

(** [issueLocalRequest] up to the vendor call. *)
Definition begin_local (request : nat) (w : race) : outcome race :=
  match push_request (s32 4294967295) request true (lib w) with
  | Ret (a, s) => Ret (with_issued (received w) (delete a (issued w)) (with_lib s w))
  | Abort => Abort
  | Fault => Fault
  end.

Definition cancel_all (w : race) : outcome race :=
  match onCommandsSocketClosed (lib w) with
  | Ret (_, s) => Ret (with_lib s w)
  | Abort => Abort
  | Fault => Fault
  end.

Definition release (i a : nat) (w : race) : outcome race :=
  match free_req a (lib w) with
  | Ret (_, s) => Ret (at_thread i TIdle (with_lib s w))
  | Abort => Abort
  | Fault => Fault
  end.

(** A thread outside libril; an event that cannot happen changes nothing. *)
Definition enter (i : nat) (d : deed) (w : race) : outcome race :=
  match d with
  | Complete t e r len => begin_completion i t e r len w
  | Notify p => Ret (at_thread i (TSend None (Msg None p) SRead) w)
  | Local request => begin_local request w
  | Command request tok => if bool_decide (i = 0%nat) && (0 <=? fdCommand w) then begin_command request tok w else Ret w
  | Accept fd =>
      if bool_decide (i = 0%nat) && listening (lib w) && (0 <=? fd) && bool_decide (fds w !! fd = None)
      then Ret (with_accepted (S (accepted w)) (with_fds (<[fd := Some (accepted w)]> (fds w)) (set_fdCommand fd false w)))
      else Ret w
  | Refuse => if bool_decide (i = 0%nat) && listening (lib w) then cancel_all w else Ret w
  | Close =>
      if bool_decide (i = 0%nat) && (0 <=? fdCommand w)
      then Ret (at_thread i TClosed (with_fds (delete (fdCommand w) (fds w)) w))
      else Ret w
  | PowerOff =>
      if bool_decide (i = 0%nat) && (0 <? fdCommand w)
      then Ret (at_thread i TPowered (with_fds (delete (fdCommand w) (fds w)) w))
      else Ret w
  end.

Definition thread_step (i : nat) (d : deed) (res : write_result) (w : race) : outcome race :=
  match threads w !! i with
  | None => Ret w
  | Some TIdle => enter i d w
  | Some (TFound a e r len) => answer i a e r len w
  | Some (TSend own m SDone) => Ret (at_thread i (match own with Some a => TFree a | None => TIdle end) w)
  | Some (TSend own m p) =>
      match sendResponse i m res p w with
      | Some (p', w') => Ret (at_thread i (TSend own m p') w')
      | None => Ret w
      end
  | Some (TFree a) => release i a w
  | Some TClosed => Ret (at_thread i TForgotten (set_fdCommand (-1) true w))
  | Some TPowered => Ret (at_thread i TIdle (set_fdCommand (-1) (listening (lib w)) w))
  | Some TForgotten =>
      match cancel_all w with Ret w' => Ret (at_thread i TIdle w') | Abort => Abort | Fault => Fault end
  end.

(** ** Interleaving *)

(** The other parts of the process open and close files of their own. *)
Inductive move : Type := Thread (i : nat) (d : deed) (res : write_result) | OpenFile (fd : Z) | CloseFile (fd : Z).

Definition race_step (mv : move) (w : race) : outcome race :=
  match mv with
  | Thread i d res => thread_step i d res w
  | OpenFile fd => Ret (if bool_decide (fds w !! fd = None) then with_fds (<[fd := None]> (fds w)) w else w)
  | CloseFile fd => Ret (if bool_decide (fds w !! fd = Some None) then with_fds (delete fd (fds w)) w else w)
  end.

Fixpoint race_run (mvs : list move) (w : race) : outcome race :=
  match mvs with
  | [] => Ret w
  | mv :: rest => match race_step mv w with Ret w' => race_run rest w' | Abort => Abort | Fault => Fault end
  end.

(** After [RIL_register], with [n] threads besides the event thread. *)
Definition race_start (v : Z) (n : nat) : race :=
  Race (RS ∅ None (Sock (-1) false [] []) true [] true v (-1) (-1) (-1) None false ∅ None [] 0 0)
    (replicate (S n) TIdle) None ∅ 0 [] ∅ [].

End Race.
