(* ===== verification/RilReplyProps.v ===== *)
(** * Replies while connections come and go: the invariant

    Every allocated request is on the list or in the hands of one thread, every
    command is answered by at most one of them, and what is written for a command
    is a part of one reply, on its connection or a later one. *)

From S2P Require Import Prelude Parcel RilTypes RilResponse RilTables RilCore RilDispatch RilFacts RilReplyRace.

(** ** Lists of threads *)

Lemma omap_insert_split {A B} (f : A -> option B) (ts : list A) i pc : ts !! i = Some pc ->
  exists rest, omap f ts ≡ₚ option_list (f pc) ++ rest /\ forall pc', omap f (<[i := pc']> ts) ≡ₚ option_list (f pc') ++ rest.
Proof.
  intros Hi. exists (omap f (take i ts) ++ omap f (drop (S i) ts)).
  assert (Hs : forall x, omap f (take i ts ++ x :: drop (S i) ts) ≡ₚ option_list (f x) ++ omap f (take i ts) ++ omap f (drop (S i) ts)).
  { intros x. rewrite omap_app. simpl. destruct (f x); simpl; [|done]. symmetry. apply Permutation_middle. }
  split.
  - rewrite <- (take_drop_middle ts i pc Hi) at 1. apply Hs.
  - intros pc'. rewrite insert_take_drop by (by eapply lookup_lt_Some). apply Hs.
Qed.

Lemma omap_insert_same {A B} (f : A -> option B) (ts : list A) i pc pc' : ts !! i = Some pc -> f pc' = f pc -> omap f (<[i := pc']> ts) ≡ₚ omap f ts.
Proof. intros Hi Hf. destruct (omap_insert_split f ts i pc Hi) as (rest & -> & ->). by rewrite Hf. Qed.

Lemma lookup_insert_cases {A} (ts : list A) i j (pc x : A) : <[i := pc]> ts !! j = Some x -> j = i /\ x = pc \/ j <> i /\ ts !! j = Some x.
Proof.
  destruct (decide (j = i)) as [->|Hne]; [|rewrite list_lookup_insert_ne by done; by right].
  intros Hx. left. split; [done|]. pose proof (lookup_lt_Some _ _ _ Hx) as Hl. rewrite length_insert in Hl.
  rewrite list_lookup_insert_eq in Hx by done. congruence.
Qed.

Lemma omap_ext_in {A B} (f g : A -> option B) (ts : list A) : (forall x, x ∈ ts -> f x = g x) -> omap f ts = omap g ts.
Proof.
  induction ts as [|x ts IH]; [done|]. intros Hx. simpl. rewrite (Hx x) by apply list_elem_of_here.
  assert (IH' : omap f ts = omap g ts) by (apply IH; intros y Hy; apply Hx; by apply list_elem_of_further).
  destruct (g x); [f_equal|]; exact IH'.
Qed.

(** ** What was written for a command *)

Definition written (k : nat) (log : list piece) : bytes :=
  flat_map (fun x => if bool_decide (for_message x = Some k) then piece_bytes x else []) log.

Lemma written_snoc k log x : written k (log ++ [x]) = written k log ++ (if bool_decide (for_message x = Some k) then piece_bytes x else []).
Proof. unfold written. rewrite flat_map_app. simpl. by rewrite app_nil_r. Qed.

(** ** The invariant *)

(** The request in the hands of a thread, and the command it is about to answer
    or is answering. *)
Definition holds_request (pc : thread_pc) : option nat :=
  match pc with TFound a _ _ _ | TFree a => Some a | TSend own _ _ => own | _ => None end.
Definition claim (iss : gmap nat nat) (pc : thread_pc) : option nat :=
  match pc with TFound a _ _ _ => iss !! a | TSend _ m _ => answers m | _ => None end.
Definition awaits (iss : gmap nat nat) (pc : thread_pc) : option nat :=
  match pc with TFound a _ _ _ => iss !! a | _ => None end.

Definition in_hand (ts : list thread_pc) : list nat := omap holds_request ts.

Section Invariant.
Context {P : ParcelOps} {H : RilHeader} {HP : Heap}.

Record list_inv (m : gmap nat RequestInfo) (h : option nat) (ts : list thread_pc) (l : list nat) : Prop := {
  li_chain : chain m h l;
  li_nodup : NoDup (l ++ in_hand ts);
  li_dom : dom m = list_to_set (l ++ in_hand ts)
}.

(** A request stands for a command with its token; on the list it is cancelled
    or of the connection that was accepted last, which is not given up yet. *)
Definition requests_inv (m : gmap nat RequestInfo) (iss : gmap nat nat) (rc : list (nat * Z)) (acc : nat) (op : Prop) (l : list nat) : Prop :=
  forall a r, m !! a = Some r -> local r = false ->
    exists k c, iss !! a = Some k /\ rc !! k = Some (c, token r) /\ is_Some (s_commands !! pCI r) /\
      (a ∈ l -> cancelled r = true \/ S c = acc /\ op).

(** How far the message of a command is. *)
Definition progress (done : bytes) (m : message) (p : send_pc) : Prop :=
  match p with
  | SRead | SLock _ => done = []
  | SWrite _ rest => done ++ rest = frame (parcel m)
  | SClose _ | SUnlock | SDone => done `prefix_of` frame (parcel m)
  end.

Record claims_inv (iss : gmap nat nat) (ts : list thread_pc) (rc : list (nat * Z)) (log : list piece) (l : list nat) : Prop := {
  cl_nodup : NoDup (omap (fun a => iss !! a) l ++ omap (claim iss) ts);
  cl_waiting : forall k, k ∈ omap (fun a => iss !! a) l ++ omap (awaits iss) ts -> (k < length rc)%nat /\ written k log = [];
  cl_sending : forall i own m p k, ts !! i = Some (TSend own m p) -> answers m = Some k ->
    progress (written k log) m p /\ exists c tok e d, rc !! k = Some (c, tok) /\ parcel m = reply_parcel tok e d;
  cl_log : forall k c tok, rc !! k = Some (c, tok) -> exists e d, written k log `prefix_of` frame (reply_parcel tok e d);
  cl_pieces : forall x k, x ∈ log -> for_message x = Some k ->
    exists c tok, rc !! k = Some (c, tok) /\ forall c', to_connection x = Some c' -> (c <= c')%nat
}.

(** The event thread between the [close] and the end of a connection. *)
Definition closing (pc : thread_pc) : bool := match pc with TClosed | TForgotten | TPowered => true | _ => false end.
(** [fdCommand] is still set. *)
Definition closed_only (pc : thread_pc) : bool := match pc with TClosed | TPowered => true | _ => false end.

Record connections_inv (fd : Z) (ls : bool) (files : gmap Z (option nat)) (acc : nat) (ts : list thread_pc) (rc : list (nat * Z)) : Prop := {
  cn_received : forall k c tok, rc !! k = Some (c, tok) -> (c < acc)%nat;
  cn_files : forall f c, files !! f = Some (Some c) -> f = fd /\ 0 <= f /\ S c = acc;
  cn_open : 0 <= fd -> (0 < acc)%nat /\ ls = false;
  cn_closed : forall pc, ts !! 0%nat = Some pc -> closed_only pc = true -> ls = false /\ forall f c, files !! f <> Some (Some c);
  cn_event : forall i pc, ts !! i = Some pc -> closing pc = true -> i = 0%nat
}.

Definition writing (p : send_pc) : bool := match p with SWrite _ _ | SClose _ | SUnlock => true | _ => false end.

Definition in_write (pc : thread_pc) : bool := match pc with TSend _ _ p => writing p | _ => false end.

Definition mutex_inv (mu : option nat) (ts : list thread_pc) : Prop :=
  forall i, mu = Some i <-> exists pc, ts !! i = Some pc /\ in_write pc = true.

(** The connection that was accepted last is not given up: the event thread is
    not listening, or about to cancel its requests. *)
Definition not_given_up (ls : bool) (ts : list thread_pc) : Prop := ls = false \/ ts !! 0%nat = Some TForgotten.

Record race_inv (w : race) (l : list nat) : Prop := {
  rv_list : list_inv (reqs (lib w)) (s_pendingRequests (lib w)) (threads w) l;
  rv_requests : requests_inv (reqs (lib w)) (issued w) (received w) (accepted w) (not_given_up (listening (lib w)) (threads w)) l;
  rv_claims : claims_inv (issued w) (threads w) (received w) (sent_log w) l;
  rv_connections : connections_inv (fdCommand w) (listening (lib w)) (fds w) (accepted w) (threads w) (received w);
  rv_mutex : mutex_inv (s_writeMutex w) (threads w)
}.

Lemma race_start_inv v n : race_inv (race_start v n) [].
Proof.
  set (ts := threads (race_start v n)).
  assert (Hi : forall i pc, ts !! i = Some pc -> pc = TIdle) by (intros i pc Hs; by apply lookup_replicate_1 in Hs as [-> _]).
  assert (Ho : forall B (f : thread_pc -> option B), f TIdle = None -> omap f ts = []).
  { intros B f Hf. unfold ts, race_start, threads. induction (S n) as [|k IH]; simpl; [done|]. by rewrite Hf. }
  split; fold ts.
  - split; [done| |]; unfold in_hand; rewrite Ho by done; [constructor|done].
  - intros a r Hr. cbn [race_start lib reqs] in Hr. by rewrite lookup_empty in Hr.
  - split; rewrite ?Ho by done.
    + constructor.
    + intros k Hk. by apply not_elem_of_nil in Hk.
    + intros i own m p k Hs. by apply Hi in Hs.
    + done.
    + intros x k Hx. by apply not_elem_of_nil in Hx.
  - split; [done| | | |].
    + intros f c Hf. cbn [race_start fds] in Hf. by rewrite lookup_empty in Hf.
    + unfold fdCommand. simpl. lia.
    + intros pc Hs. apply Hi in Hs. by subst.
    + intros i pc Hs. apply Hi in Hs. by subst.
  - intros i. split; [done|]. intros (pc & Hs & Hw). apply Hi in Hs. by subst.
Qed.

(** ** Lists and requests *)

Lemma list_at m h ts l i pc pc' : ts !! i = Some pc -> holds_request pc' = holds_request pc -> list_inv m h ts l -> list_inv m h (<[i := pc']> ts) l.
Proof.
  intros Hi Hh [A B C]. pose proof (omap_insert_same holds_request ts i pc pc' Hi Hh) as Hp.
  split; [done| |]; unfold in_hand in *; [by rewrite Hp|]. rewrite C. apply set_eq. intros a. rewrite !elem_of_list_to_set. by rewrite Hp.
Qed.

(** A request goes from the list to a thread. *)
Lemma list_take m h ts l1 a l2 i pc pc' m' h' :
  ts !! i = Some pc -> holds_request pc = None -> holds_request pc' = Some a -> same_content m m' -> chain m' h' (l1 ++ l2) ->
  list_inv m h ts (l1 ++ a :: l2) -> list_inv m' h' (<[i := pc']> ts) (l1 ++ l2).
Proof.
  intros Hi Hn Ha Hs Hc [A B C]. destruct (omap_insert_split holds_request ts i pc Hi) as (rest & H1 & H2).
  specialize (H2 pc'). rewrite Hn in H1. rewrite Ha in H2. simpl in *.
  assert (Hp : (l1 ++ l2) ++ in_hand (<[i := pc']> ts) ≡ₚ (l1 ++ a :: l2) ++ in_hand ts).
  { unfold in_hand. rewrite H1, H2. rewrite <- !app_assoc. apply Permutation_app_head. simpl. symmetry. apply Permutation_middle. }
  split; [done|by rewrite Hp|]. rewrite (same_content_dom _ _ Hs), C. apply set_eq. intros b. rewrite !elem_of_list_to_set. by rewrite Hp.
Qed.

(** A thread frees its request. *)
Lemma list_free m h ts l i pc pc' a :
  ts !! i = Some pc -> holds_request pc = Some a -> holds_request pc' = None ->
  list_inv m h ts l -> list_inv (delete a m) h (<[i := pc']> ts) l.
Proof.
  intros Hi Ha Hn [A B C]. destruct (omap_insert_split holds_request ts i pc Hi) as (rest & H1 & H2).
  specialize (H2 pc'). rewrite Ha in H1. rewrite Hn in H2. simpl in *.
  assert (Hp : l ++ in_hand ts ≡ₚ a :: (l ++ in_hand (<[i := pc']> ts))).
  { unfold in_hand. rewrite H1, H2. symmetry. apply Permutation_middle. }
  rewrite Hp in B. apply NoDup_cons in B as [Hx B]. split; [|done|].
  - eapply chain_frame; [done|]. intros b Hb. apply lookup_delete_ne. intros ->. set_solver.
  - rewrite dom_delete_L, C. apply set_eq. intros b. rewrite elem_of_difference, !elem_of_list_to_set, Hp, elem_of_cons, elem_of_singleton.
    split; [intros [[->|?] ?]; done|]. intros Hb. split; [by right|by intros ->].
Qed.

Lemma list_push m h ts l a r : a ∉ dom m -> p_next r = h -> list_inv m h ts l -> list_inv (<[a := r]> m) (Some a) ts (a :: l).
Proof.
  intros Ha Hr [A B C]. assert (Hx : a ∉ l ++ in_hand ts) by (rewrite C in Ha; by rewrite elem_of_list_to_set in Ha).
  split.
  - split; [done|]. exists r. rewrite lookup_insert_eq, Hr. split; [done|]. eapply chain_frame; [done|].
    intros b Hb. apply lookup_insert_ne. intros ->. apply Hx, elem_of_app. by left.
  - simpl. apply NoDup_cons. done.
  - rewrite dom_insert_L, C. simpl. done.
Qed.

(** The list is not longer than the heap, which bounds the walks. *)
Lemma list_length m h ts l : list_inv m h ts l -> (length l < S (size m))%nat.
Proof.
  intros [A B C]. rewrite <- size_dom, C. rewrite size_list_to_set by done. rewrite length_app. lia.
Qed.

Lemma dequeue_cases s ts l t : list_inv (reqs s) (s_pendingRequests s) ts l ->
  checkAndDequeueRequestInfo t s = Ret (false, s) \/
  exists a l1 l2 m' h', t = Some a /\ l = l1 ++ a :: l2 /\ checkAndDequeueRequestInfo t s = Ret (true, with_reqs m' h' s) /\
    chain m' h' (l1 ++ l2) /\ same_content (reqs s) m'.
Proof.
  intros Hl. destruct t as [a|]; [|by left]. unfold checkAndDequeueRequestInfo. erewrite bind_run by done.
  pose proof (list_length _ _ _ _ Hl) as Hf. destruct Hl as [A [B _]%NoDup_app C]. destruct (decide (a ∈ l)) as [Ha|Ha].
  - right. apply list_elem_of_split in Ha as (l1 & l2 & ->).
    destruct (dequeue_found s (S (size (reqs s))) a None l1 l2) as (m' & h' & Hr & Hc & Hs & _); try done.
    + rewrite length_app in Hf. lia.
    + by exists a, l1, l2, m', h'.
  - left. by eapply dequeue_missing.
Qed.

(** Cancelling changes the blocks of the list only. *)
Lemma cancel_all_run s ts l : list_inv (reqs s) (s_pendingRequests s) ts l ->
  exists m', onCommandsSocketClosed s = Ret (tt, with_reqs m' (s_pendingRequests s) s) /\
    forall a, m' !! a = if decide (a ∈ l) then with_cancelled <$> reqs s !! a else reqs s !! a.
Proof.
  intros Hl. unfold onCommandsSocketClosed. erewrite bind_run by done. pose proof (list_length _ _ _ _ Hl) as Hf.
  destruct Hl as [A [B _]%NoDup_app C]. by apply (cancel_loop_run s l).
Qed.

Lemma chain_cancelled m m' h l : chain m h l -> (forall a, a ∈ l -> m' !! a = with_cancelled <$> m !! a) -> chain m' h l.
Proof.
  revert h. induction l as [|a l IH]; intros h; [done|]. intros (-> & r & Hr & Hc) Hm. split; [done|]. exists (with_cancelled r).
  rewrite Hm, Hr by apply list_elem_of_here. split; [done|]. apply IH; [done|]. intros b Hb. apply Hm. by apply list_elem_of_further.
Qed.

Lemma list_cancel m m' h ts l : list_inv m h ts l -> (forall a, m' !! a = if decide (a ∈ l) then with_cancelled <$> m !! a else m !! a) ->
  list_inv m' h ts l.
Proof.
  intros [A B C] Hm. split; [|done|].
  - eapply chain_cancelled; [done|]. intros a Ha. by rewrite Hm, decide_True.
  - rewrite <- C. apply set_eq. intros a. rewrite !elem_of_dom, Hm. destruct (decide (a ∈ l)); [|done]. by rewrite fmap_is_Some.
Qed.

Lemma requests_weaken m iss rc acc (op op' : Prop) l : (op -> op') -> requests_inv m iss rc acc op l -> requests_inv m iss rc acc op' l.
Proof.
  intros Ho Hq a r Hr Hl. destruct (Hq a r Hr Hl) as (k & c & H1 & H2 & H3 & H4). exists k, c. split_and!; try done.
  intros Ha. destruct (H4 Ha) as [?|[? ?]]; [by left|right; auto].
Qed.

Lemma requests_content m m' iss rc acc op l l' : same_content m m' -> (forall a, a ∈ l' -> a ∈ l) ->
  requests_inv m iss rc acc op l -> requests_inv m' iss rc acc op l'.
Proof.
  intros Hs Hsub Hq a r Hr Hl. specialize (Hs a). rewrite Hr in Hs. destruct (m !! a) as [r0|] eqn:E; [|done].
  unfold content in Hs. simpl in Hs. injection Hs as E1 E2 E3 E4. rewrite E4 in Hl.
  destruct (Hq a r0 E Hl) as (k & c & H1 & H2 & H3 & H4). exists k, c. rewrite E1, E2, E3. split_and!; try done. auto.
Qed.

Lemma requests_delete m iss rc acc op l a : requests_inv m iss rc acc op l -> requests_inv (delete a m) iss rc acc op l.
Proof. intros Hq b r Hr Hl. apply lookup_delete_Some in Hr as [_ Hr]. by apply Hq. Qed.

(** Closing leaves only cancelled requests on the list. *)
Lemma requests_cancel m m' iss rc acc op op' l : (forall a, m' !! a = if decide (a ∈ l) then with_cancelled <$> m !! a else m !! a) ->
  requests_inv m iss rc acc op l -> requests_inv m' iss rc acc op' l.
Proof.
  intros Hm Hq a r Hr Hl. rewrite Hm in Hr. destruct (decide (a ∈ l)) as [Ha|Ha].
  - destruct (m !! a) as [r0|] eqn:E; [|done]. injection Hr as <-. simpl in Hl. destruct (Hq a r0 E Hl) as (k & c & H1 & H2 & H3 & H4).
    exists k, c. split_and!; try done. intros _. by left.
  - destruct (Hq a r Hr Hl) as (k & c & H1 & H2 & H3 & H4). exists k, c. done.
Qed.

(** When all of them are cancelled another connection may come. *)
Lemma requests_accept m iss rc acc acc' (op op' : Prop) l : ~ op -> requests_inv m iss rc acc op l -> requests_inv m iss rc acc' op' l.
Proof.
  intros Hn Hq a r Hr Hl. destruct (Hq a r Hr Hl) as (k & c & H1 & H2 & H3 & H4). exists k, c. split_and!; try done.
  intros Ha. destruct (H4 Ha) as [?|[_ ?]]; [by left|done].
Qed.

(** A request is created for the next command, or for none. *)
Lemma requests_command m iss rc acc (op : Prop) l a r tok :
  a ∉ dom m -> local r = false -> token r = tok -> is_Some (s_commands !! pCI r) -> (0 < acc)%nat -> op ->
  requests_inv m iss rc acc op l -> requests_inv (<[a := r]> m) (<[a := length rc]> iss) (rc ++ [(pred acc, tok)]) acc op (a :: l).
Proof.
  intros Ha Hl Ht Hc Hacc Hop Hq b r' Hb Hl'. destruct (decide (b = a)) as [->|Hne].
  - rewrite lookup_insert_eq in Hb. injection Hb as <-. exists (length rc), (pred acc). rewrite lookup_insert_eq.
    split_and!; [done| |done|]; [rewrite lookup_app_r, Nat.sub_diag by done; by rewrite <- Ht|]. intros _. right. split; [lia|done].
  - rewrite lookup_insert_ne in Hb by done. destruct (Hq b r' Hb Hl') as (k & c & H1 & H2 & H3 & H4). exists k, c.
    rewrite lookup_insert_ne by done. split_and!; [done|by apply lookup_app_l_Some|done|].
    intros [->|Hb']%elem_of_cons; [done|auto].
Qed.

Lemma requests_local m iss rc acc (op : Prop) l a r :
  a ∉ dom m -> local r = true -> requests_inv m iss rc acc op l -> requests_inv (<[a := r]> m) (delete a iss) rc acc op (a :: l).
Proof.
  intros Ha Hl Hq b r' Hb Hl'. destruct (decide (b = a)) as [->|Hne].
  - rewrite lookup_insert_eq in Hb. injection Hb as <-. congruence.
  - rewrite lookup_insert_ne in Hb by done. destruct (Hq b r' Hb Hl') as (k & c & H1 & H2 & H3 & H4). exists k, c.
    rewrite lookup_delete_ne by done. split_and!; try done. intros [->|Hb']%elem_of_cons; [done|auto].
Qed.

Lemma requests_received m iss rc acc (op : Prop) l x : requests_inv m iss rc acc op l -> requests_inv m iss (rc ++ [x]) acc op l.
Proof.
  intros Hq a r Hr Hl. destruct (Hq a r Hr Hl) as (k & c & H1 & H2 & H3 & H4). exists k, c. split_and!; try done.
  by apply lookup_app_l_Some.
Qed.

(** ** Commands and their answers *)

(** A thread goes on, with its claim or without. *)
Lemma claims_at iss ts rc log l i pc pc' :
  ts !! i = Some pc -> (claim iss pc' = claim iss pc \/ claim iss pc' = None) -> (awaits iss pc' = awaits iss pc \/ awaits iss pc' = None) ->
  (forall own m p k, pc' = TSend own m p -> answers m = Some k ->
    progress (written k log) m p /\ exists c tok e d, rc !! k = Some (c, tok) /\ parcel m = reply_parcel tok e d) ->
  claims_inv iss ts rc log l -> claims_inv iss (<[i := pc']> ts) rc log l.
Proof.
  intros Hi Hc Ha Hs [A B C D E]. destruct (omap_insert_split (claim iss) ts i pc Hi) as (rest & H1 & H2).
  destruct (omap_insert_split (awaits iss) ts i pc Hi) as (rest' & H3 & H4). split; try done.
  - rewrite H2. rewrite H1 in A. destruct Hc as [-> | ->]; [done|]. simpl. destruct (claim iss pc) as [k|]; [|done]. simpl in A.
    rewrite <- Permutation_middle in A. by apply NoDup_cons in A as [_ A].
  - intros k. rewrite H4. intros Hk. apply B. rewrite H3. destruct Ha as [E1|E1]; rewrite E1 in Hk; [done|]. set_solver.
  - intros j own m p k [[-> E1]|[_ Hj]]%lookup_insert_cases; [intros Hk; by eapply Hs|by apply (C j own)].
Qed.

(** A thread takes a request from the list. *)
Lemma claims_take iss ts rc log l1 a l2 i pc e r len :
  ts !! i = Some pc -> claim iss pc = None -> awaits iss pc = None -> claims_inv iss ts rc log (l1 ++ a :: l2) ->
  claims_inv iss (<[i := TFound a e r len]> ts) rc log (l1 ++ l2).
Proof.
  intros Hi Hc Ha [A B C D E]. destruct (omap_insert_split (claim iss) ts i pc Hi) as (rest & H1 & H2).
  destruct (omap_insert_split (awaits iss) ts i pc Hi) as (rest' & H3 & H4). specialize (H2 (TFound a e r len)). specialize (H4 (TFound a e r len)).
  rewrite Hc in H1. rewrite Ha in H3. simpl in *.
  assert (Hm : forall (f : nat -> option nat) rest, omap f (l1 ++ l2) ++ option_list (f a) ++ rest ≡ₚ omap f (l1 ++ a :: l2) ++ rest).
  { intros f rest0. rewrite !omap_app. simpl. destruct (f a); simpl; [|done]. rewrite <- !app_assoc. apply Permutation_app_head. simpl.
    symmetry. apply Permutation_middle. }
  split; try done.
  - by rewrite H2, (Hm (fun a => iss !! a)), <- H1.
  - intros k. rewrite H4, (Hm (fun a => iss !! a)), <- H3. apply B.
  - intros j own m p k [[_ E1]|[_ Hj]]%lookup_insert_cases; [done|by apply (C j own)].
Qed.

(** Requests on the list and in the hands of the threads keep their commands. *)
Lemma claims_issued iss iss' ts rc log l :
  (forall a, a ∈ l ++ in_hand ts -> iss' !! a = iss !! a) -> claims_inv iss ts rc log l -> claims_inv iss' ts rc log l.
Proof.
  intros Hi [A B C D E].
  assert (H1 : omap (fun a => iss' !! a) l = omap (fun a => iss !! a) l) by (apply omap_ext_in; intros a Ha; apply Hi, elem_of_app; by left).
  assert (Hh : forall a pc, pc ∈ ts -> holds_request pc = Some a -> iss' !! a = iss !! a).
  { intros a pc Hp Ha. apply Hi, elem_of_app. right. apply list_elem_of_omap. by exists pc. }
  assert (H2 : omap (claim iss') ts = omap (claim iss) ts) by (apply omap_ext_in; intros [] Hp; simpl; try done; by eapply Hh).
  assert (H3 : omap (awaits iss') ts = omap (awaits iss) ts) by (apply omap_ext_in; intros [] Hp; simpl; try done; by eapply Hh).
  split; rewrite ?H1, ?H2, ?H3; done.
Qed.

Lemma claims_written iss ts rc log l : claims_inv iss ts rc log l -> written (length rc) log = [].
Proof.
  intros [_ _ _ _ E]. induction log as [|x log IH]; [done|]. unfold written. simpl. rewrite bool_decide_false.
  - apply IH. intros y k Hy. apply E. by apply list_elem_of_further.
  - intros Hx. destruct (E x _ ltac:(apply list_elem_of_here) Hx) as (c & tok & Hk & _). apply lookup_lt_Some in Hk. lia.
Qed.

(** Every claim is a command that was received. *)
Lemma claims_received iss ts rc log l k : claims_inv iss ts rc log l -> k ∈ omap (fun a => iss !! a) l ++ omap (claim iss) ts -> (k < length rc)%nat.
Proof.
  intros [A B C D E] [Hk|Hk]%elem_of_app; [by apply B, elem_of_app; left|]. apply list_elem_of_omap in Hk as (pc & Hp & Hk).
  destruct pc as [|a e r len|own m p|a| | |]; try done.
  - apply B, elem_of_app. right. apply list_elem_of_omap. by exists (TFound a e r len).
  - apply list_elem_of_lookup in Hp as [i Hi]. destruct (C i own m p k Hi Hk) as (_ & c & tok & _ & _ & Hr & _). by apply lookup_lt_Some in Hr.
Qed.

(** A command arrives. *)
Lemma claims_next iss ts rc log l x : claims_inv iss ts rc log l -> claims_inv iss ts (rc ++ [x]) log l.
Proof.
  intros Hcl. pose proof (claims_written _ _ _ _ _ Hcl) as Hw. destruct Hcl as [A B C D E]. split; try done.
  - intros k Hk. destruct (B k Hk). rewrite length_app. split; [lia|done].
  - intros i own m p k Hi Hk. destruct (C i own m p k Hi Hk) as (Hp & c & tok & e & d & Hr & Hm). split; [done|].
    exists c, tok, e, d. split; [by apply lookup_app_l_Some|done].
  - intros k c tok Hk. apply lookup_app_Some in Hk as [Hk|[Hl Hk]]; [by eapply D|].
    assert (k = length rc) as ->. { apply lookup_lt_Some in Hk. simpl in Hk. lia. }
    rewrite Hw. exists 0, []. apply prefix_nil.
  - intros y k Hy Hk. destruct (E y k Hy Hk) as (c & tok & Hr & Hc). exists c, tok. split; [by apply lookup_app_l_Some|done].
Qed.

Lemma claims_command iss ts rc log l a x :
  a ∉ l ++ in_hand ts -> claims_inv iss ts rc log l -> claims_inv (<[a := length rc]> iss) ts (rc ++ [x]) log (a :: l).
Proof.
  intros Ha Hcl. pose proof (claims_written _ _ _ _ _ Hcl) as Hw.
  pose proof (fun k => claims_received _ _ _ _ _ k Hcl) as Hlt.
  assert (Hcl1 : claims_inv (<[a := length rc]> iss) ts (rc ++ [x]) log l).
  { apply claims_next. eapply claims_issued; [|done]. intros b Hb. apply lookup_insert_ne. by intros ->. }
  assert (Hsame : omap (fun b => <[a := length rc]> iss !! b) l = omap (fun b => iss !! b) l).
  { apply omap_ext_in. intros b Hb. apply lookup_insert_ne. intros ->. apply Ha, elem_of_app. by left. }
  assert (Hsame2 : omap (claim (<[a := length rc]> iss)) ts = omap (claim iss) ts).
  { apply omap_ext_in. intros [|b e r len|own m p|b| | |] Hp; simpl; try done. apply lookup_insert_ne. intros ->.
    apply Ha, elem_of_app. right. apply list_elem_of_omap. by exists (TFound b e r len). }
  assert (Hcons : omap (fun b => <[a := length rc]> iss !! b) (a :: l) = length rc :: omap (fun b => iss !! b) l).
  { rewrite <- Hsame. simpl. by rewrite lookup_insert_eq. }
  destruct Hcl1 as [A B C D E]. split; try done; rewrite Hcons.
  - simpl. rewrite Hsame in A. apply NoDup_cons. split; [|done]. intros Hk. rewrite Hsame2 in Hk. apply Hlt in Hk. lia.
  - rewrite Hsame in B. intros k. simpl. intros [->|Hk]%elem_of_cons; [|by apply B]. split; [rewrite length_app; simpl; lia|done].
Qed.

Lemma claims_local iss ts rc log l a : a ∉ l ++ in_hand ts -> claims_inv iss ts rc log l -> claims_inv (delete a iss) ts rc log (a :: l).
Proof.
  intros Ha Hcl.
  assert (Hcl1 : claims_inv (delete a iss) ts rc log l).
  { eapply claims_issued; [|done]. intros b Hb. apply lookup_delete_ne. by intros ->. }
  assert (Hcons : omap (fun b => delete a iss !! b) (a :: l) = omap (fun b => delete a iss !! b) l) by (simpl; by rewrite lookup_delete_eq).
  destruct Hcl1 as [A B C D E]. split; rewrite ?Hcons; done.
Qed.

(** The event thread answers an unsupported command. *)
Lemma claims_reject iss ts rc log l i pc own c tok e d :
  ts !! i = Some pc -> claim iss pc = None -> awaits iss pc = None -> claims_inv iss ts rc log l ->
  claims_inv iss (<[i := TSend own (Msg (Some (length rc)) (reply_parcel tok e d)) SRead]> ts) (rc ++ [(c, tok)]) log l.
Proof.
  intros Hi Hc Ha Hcl. pose proof (claims_written _ _ _ _ _ Hcl) as Hw.
  pose proof (fun k => claims_received _ _ _ _ _ k Hcl) as Hlt. apply (claims_next _ _ _ _ _ (c, tok)) in Hcl as [A B C D E].
  destruct (omap_insert_split (claim iss) ts i pc Hi) as (rest & H1 & H2).
  destruct (omap_insert_split (awaits iss) ts i pc Hi) as (rest' & H3 & H4). rewrite Hc in H1. rewrite Ha in H3. simpl in *.
  split; try done.
  - rewrite H2. simpl. rewrite <- Permutation_middle. apply NoDup_cons. rewrite H1 in A. split; [|done].
    intros Hk. rewrite <- H1 in Hk. apply Hlt in Hk. lia.
  - intros k. rewrite H4. simpl. intros Hk. apply B. by rewrite H3.
  - intros j own' m p k [[-> E1]|[_ Hj]]%lookup_insert_cases; [|by apply (C j own')]. injection E1 as -> -> ->. intros [= <-].
    split; [done|]. exists c, tok, e, d. rewrite lookup_app_r, Nat.sub_diag by done. done.
Qed.

(** No one else claims the command of a thread. *)
Lemma claims_unique iss ts rc log l i pc k :
  claims_inv iss ts rc log l -> ts !! i = Some pc -> claim iss pc = Some k ->
  (k ∉ omap (fun a => iss !! a) l) /\ forall j pc', ts !! j = Some pc' -> claim iss pc' = Some k -> j = i.
Proof.
  intros [A _ _ _ _] Hi Hk. destruct (omap_insert_split (claim iss) ts i pc Hi) as (rest & H1 & H2). specialize (H2 TIdle). simpl in H2.
  rewrite H1, Hk in A. simpl in A. rewrite <- Permutation_middle in A. apply NoDup_cons in A as [Hx _]. split; [set_solver|].
  intros j pc' Hj Hk'. destruct (decide (j = i)) as [|Hne]; [done|]. destruct Hx. apply elem_of_app. right. rewrite <- H2.
  apply list_elem_of_omap. exists pc'. split; [|done]. apply (list_elem_of_lookup_2 _ j). by rewrite list_lookup_insert_ne.
Qed.

(** A thread writes a piece of its message. *)
Lemma claims_write iss ts rc log l i own m fd rest n file :
  ts !! i = Some (TSend own m (SWrite fd rest)) ->
  (forall k c tok c', answers m = Some k -> rc !! k = Some (c, tok) -> file = Some c' -> (c <= c')%nat) ->
  claims_inv iss ts rc log l ->
  claims_inv iss (<[i := TSend own m (SWrite fd (drop n rest))]> ts) rc (log ++ [Piece (answers m) file (take n rest)]) l.
Proof.
  intros Hi Hf Hcl. pose proof (fun k => claims_unique _ _ _ _ _ i _ k Hcl Hi) as Hu. simpl in Hu. destruct Hcl as [A B C D E].
  assert (Hother : forall k, answers m <> Some k -> written k (log ++ [Piece (answers m) file (take n rest)]) = written k log).
  { intros k Hk. rewrite written_snoc, bool_decide_false by done. apply app_nil_r. }
  assert (Hmine : forall k, answers m = Some k -> written k (log ++ [Piece (answers m) file (take n rest)]) = written k log ++ take n rest).
  { intros k Hk. rewrite written_snoc. by rewrite bool_decide_true. }
  split.
  - by rewrite (omap_insert_same _ ts i _ _ Hi).
  - intros k. rewrite (omap_insert_same _ ts i _ _ Hi) by done. intros Hk. destruct (B k Hk) as [Hlt Hwr]. split; [done|].
    rewrite Hother; [done|]. intros Hm. destruct (Hu k Hm) as [Hl Ht]. apply elem_of_app in Hk as [Hk|Hk]; [done|].
    apply list_elem_of_omap in Hk as (pc & Hp & Hk). destruct pc as [|a e r len| | | | |]; try done.
    apply list_elem_of_lookup in Hp as [j Hj]. specialize (Ht j _ Hj Hk). congruence.
  - intros j own' m' p k [[-> E1]|[Hne Hj]]%lookup_insert_cases Hk.
    + injection E1 as -> -> ->. destruct (C i own m _ k Hi Hk) as (Hp & Hr). split; [|done]. simpl in Hp |- *. rewrite Hmine by done.
      by rewrite <- app_assoc, take_drop.
    + rewrite Hother; [by apply (C j own')|]. intros Hm. destruct (Hu k Hm) as [_ Ht]. by apply Hne, (Ht j _ Hj).
  - intros k c tok Hk. destruct (decide (answers m = Some k)) as [Hm|Hm]; [|rewrite Hother by done; by eapply D].
    rewrite Hmine by done. destruct (C i own m _ k Hi Hm) as (Hp & c0 & tok0 & e & d & Hr & Hpar). simpl in Hp.
    assert (tok0 = tok) as -> by congruence. exists e, d. rewrite <- Hpar, <- Hp. exists (drop n rest). by rewrite <- app_assoc, take_drop.
  - intros x k [Hx|Hx]%elem_of_app; [by apply E|]. apply list_elem_of_singleton in Hx as ->. simpl. intros Hm.
    destruct (C i own m _ k Hi Hm) as (_ & c & tok & e & d & Hr & _). exists c, tok. split; [done|]. intros c' Hc'. by eapply Hf.
Qed.

(** ** Descriptors and the write mutex *)

Lemma connections_at fd ls files acc ts rc i pc pc' :
  ts !! i = Some pc -> closing pc' = false -> connections_inv fd ls files acc ts rc -> connections_inv fd ls files acc (<[i := pc']> ts) rc.
Proof.
  intros Hi Hc [A B C D E]. split; try done.
  - intros x [[_ ->]|[_ Hj]]%lookup_insert_cases; [by destruct pc'|by apply D].
  - intros j x [[_ ->]|[_ Hj]]%lookup_insert_cases Hx; [congruence|by eapply E].
Qed.

Lemma connections_files fd ls files files' acc ts rc : (forall f c, files' !! f = Some (Some c) -> files !! f = Some (Some c)) ->
  connections_inv fd ls files acc ts rc -> connections_inv fd ls files' acc ts rc.
Proof.
  intros Hf [A B C D E]. split; try done; [intros f c Hc; by apply B, Hf|]. intros pc Ht Hp. destruct (D pc Ht Hp) as [? Hno].
  split; [done|]. intros f c Hc. by eapply Hno, Hf.
Qed.

Lemma connections_received fd ls files acc ts rc c tok : (c < acc)%nat ->
  connections_inv fd ls files acc ts rc -> connections_inv fd ls files acc ts (rc ++ [(c, tok)]).
Proof.
  intros Hc [A B C D E]. split; try done. intros k c' tok' Hk. apply lookup_app_Some in Hk as [Hk|[_ Hk]]; [by eapply A|].
  apply list_lookup_singleton_Some in Hk as [_ [= -> ->]]. done.
Qed.

(** The event thread has closed the descriptor. *)
Lemma connections_close fd ls files acc ts rc pc' :
  0 <= fd -> closing pc' = true -> connections_inv fd ls files acc ts rc -> connections_inv fd ls (delete fd files) acc (<[0%nat := pc']> ts) rc.
Proof.
  intros Hfd Hc [A B C D E].
  assert (Hnone : forall f c, delete fd files !! f <> Some (Some c)) by (intros f c [Hne Hf]%lookup_delete_Some; by destruct (B f c Hf) as (-> & _)).
  split; try done.
  - intros f c Hf. by destruct (Hnone f c).
  - intros x _ _. split; [by apply C|done].
  - intros j x [[-> _]|[_ Hj]]%lookup_insert_cases Hx; [done|by eapply E].
Qed.

(** It has set [fdCommand] to -1. *)
Lemma connections_forget fd ls ls' files acc ts rc pc pc' :
  ts !! 0%nat = Some pc -> closed_only pc = true -> closed_only pc' = false -> connections_inv fd ls files acc ts rc ->
  connections_inv (-1) ls' files acc (<[0%nat := pc']> ts) rc.
Proof.
  intros Hi Hp Hp' [A B C D E]. destruct (D pc Hi Hp) as [_ Hnone]. split; try done.
  - intros f c Hf. by destruct (Hnone f c).
  - intros x [[_ ->]|[Hne _]]%lookup_insert_cases; [congruence|done].
  - intros j x [[-> _]|[_ Hj]]%lookup_insert_cases Hx; [done|by eapply E].
Qed.

Lemma given_up_at ls ts i pc pc' : ts !! i = Some pc -> pc <> TForgotten -> not_given_up ls ts -> not_given_up ls (<[i := pc']> ts).
Proof.
  intros Hi Hp [?|Hf]; [by left|right]. destruct (decide (i = 0%nat)) as [->|Hne]; [congruence|]. by rewrite list_lookup_insert_ne.
Qed.

Lemma mutex_at mu ts i pc pc' : ts !! i = Some pc -> in_write pc' = in_write pc -> mutex_inv mu ts -> mutex_inv mu (<[i := pc']> ts).
Proof.
  intros Hi Hw Hm j. rewrite (Hm j). split.
  - intros (x & Hx & Hwx). destruct (decide (j = i)) as [->|Hne].
    + exists pc'. rewrite list_lookup_insert_eq by (by eapply lookup_lt_Some). split; [done|]. rewrite Hw. congruence.
    + exists x. by rewrite list_lookup_insert_ne.
  - intros (x & [[-> ->]|[_ Hx]]%lookup_insert_cases & Hwx); [exists pc; split; congruence|by exists x].
Qed.

Lemma mutex_lock ts i pc pc' : ts !! i = Some pc -> in_write pc' = true -> mutex_inv None ts -> mutex_inv (Some i) (<[i := pc']> ts).
Proof.
  intros Hi Hw Hm j. split.
  - intros [= <-]. exists pc'. by rewrite list_lookup_insert_eq by (by eapply lookup_lt_Some).
  - intros (x & [[-> _]|[_ Hx]]%lookup_insert_cases & Hwx); [done|]. discriminate (proj2 (Hm j) (ex_intro _ x (conj Hx Hwx))).
Qed.

Lemma mutex_unlock mu ts i pc pc' : ts !! i = Some pc -> in_write pc = true -> in_write pc' = false -> mutex_inv mu ts -> mutex_inv None (<[i := pc']> ts).
Proof.
  intros Hi Hw Hw' Hm j. split; [done|]. intros (x & [[-> ->]|[Hne Hx]]%lookup_insert_cases & Hwx); [congruence|].
  pose proof (proj2 (Hm i) (ex_intro _ pc (conj Hi Hw))). pose proof (proj2 (Hm j) (ex_intro _ x (conj Hx Hwx))). congruence.
Qed.

End Invariant.

(** ** Steps keep the invariant *)

Section Steps.
Context {P : ParcelOps} {H : RilHeader} {HP : Heap} {PL : ParcelLaws P} {HL : HeapLaws HP}.

Lemma at_inv w l i pc pc' :
  threads w !! i = Some pc -> pc <> TForgotten -> closing pc' = false -> holds_request pc' = holds_request pc ->
  (claim (issued w) pc' = claim (issued w) pc \/ claim (issued w) pc' = None) ->
  (awaits (issued w) pc' = awaits (issued w) pc \/ awaits (issued w) pc' = None) -> in_write pc' = in_write pc ->
  (forall own m p k, pc' = TSend own m p -> answers m = Some k -> progress (written k (sent_log w)) m p /\
    exists c tok e d, received w !! k = Some (c, tok) /\ parcel m = reply_parcel tok e d) ->
  race_inv w l -> race_inv (at_thread i pc' w) l.
Proof.
  intros Hi Hf Hc Hh Hcl Ha Hw Hs [A B C D E]. split.
  - by eapply list_at.
  - eapply requests_weaken; [by eapply given_up_at|done].
  - by eapply claims_at.
  - by eapply connections_at.
  - by eapply mutex_at.
Qed.

(** What the thread that sends the message of a command knows. *)
Lemma sending w l i own m p k : race_inv w l -> threads w !! i = Some (TSend own m p) -> answers m = Some k ->
  progress (written k (sent_log w)) m p /\ exists c tok e d, received w !! k = Some (c, tok) /\ parcel m = reply_parcel tok e d.
Proof. intros [_ _ C _ _] Hi Hk. by apply (cl_sending _ _ _ _ _ C i own). Qed.

Lemma send_read_inv w l i own m p : threads w !! i = Some (TSend own m SRead) -> progress [] m p -> writing p = false ->
  race_inv w l -> race_inv (at_thread i (TSend own m p) w) l.
Proof.
  intros Hi Hp Hw Hv. eapply at_inv; try done; [by left|by left|].
  intros own' m' p' k [= <- <- <-] Hk. destruct (sending _ _ _ _ _ _ _ Hv Hi Hk) as [Hs Hr]. simpl in Hs. by rewrite Hs.
Qed.

Lemma send_lock_inv w l i own m fd : threads w !! i = Some (TSend own m (SLock fd)) -> s_writeMutex w = None ->
  race_inv w l -> race_inv (at_thread i (TSend own m (SWrite fd (frame (parcel m)))) (with_mutex (Some i) w)) l.
Proof.
  intros Hi Hm Hv. pose proof Hv as [A B C D E]. split; simpl.
  - by eapply list_at.
  - eapply requests_weaken; [by eapply given_up_at|done].
  - eapply claims_at; [done|by left|by left| |done]. intros own' m' p' k [= <- <- <-] Hk.
    destruct (sending _ _ _ _ _ _ _ Hv Hi Hk) as [Hs Hr]. simpl in Hs |- *. by rewrite Hs.
  - by eapply connections_at.
  - rewrite Hm in E. by eapply mutex_lock.
Qed.

Lemma send_write_inv w l i own m fd rest n file : threads w !! i = Some (TSend own m (SWrite fd rest)) -> fds w !! fd = Some file ->
  race_inv w l ->
  race_inv (at_thread i (TSend own m (SWrite fd (drop n rest))) (with_log (sent_log w ++ [Piece (answers m) file (take n rest)]) w)) l.
Proof.
  intros Hi Hf [A B C D E]. split; simpl.
  - by eapply list_at.
  - eapply requests_weaken; [by eapply given_up_at|done].
  - apply claims_write; [done| |done]. intros k c tok c' Hk Hr ->. destruct (cn_files _ _ _ _ _ _ D fd c' Hf) as (_ & _ & Hacc).
    pose proof (cn_received _ _ _ _ _ _ D k c tok Hr). lia.
  - by eapply connections_at.
  - by eapply mutex_at.
Qed.

(** After the last byte, or after an error. *)
Lemma send_end_inv w l i own m p p' : threads w !! i = Some (TSend own m p) -> writing p = true ->
  (forall done, progress done m p -> progress done m p') -> writing p' = true ->
  race_inv w l -> race_inv (at_thread i (TSend own m p') w) l.
Proof.
  intros Hi Hw Hp Hw' Hv. eapply at_inv; try done; [by left|by left|simpl; congruence|].
  intros own' m' p0 k [= <- <- <-] Hk. destruct (sending _ _ _ _ _ _ _ Hv Hi Hk) as [Hs Hr]. split; [by apply Hp|done].
Qed.

Lemma files_inv w l files : (forall f c, files !! f = Some (Some c) -> fds w !! f = Some (Some c)) -> race_inv w l -> race_inv (with_fds files w) l.
Proof. intros Hf [A B C D E]. split; try done. simpl. by eapply connections_files. Qed.

Lemma send_unlock_inv w l i own m : threads w !! i = Some (TSend own m SUnlock) ->
  race_inv w l -> race_inv (at_thread i (TSend own m SDone) (with_mutex None w)) l.
Proof.
  intros Hi Hv. pose proof Hv as [A B C D E]. split; simpl.
  - by eapply list_at.
  - eapply requests_weaken; [by eapply given_up_at|done].
  - eapply claims_at; [done|by left|by left| |done]. intros own' m' p' k [= <- <- <-] Hk. exact (sending _ _ _ _ _ _ _ Hv Hi Hk).
  - by eapply connections_at.
  - by eapply mutex_unlock.
Qed.

Lemma send_inv w l i own m p res p' w' :
  threads w !! i = Some (TSend own m p) -> p <> SDone -> sendResponse i m res p w = Some (p', w') ->
  race_inv w l -> race_inv (at_thread i (TSend own m p') w') l.
Proof.
  intros Hi Hd Hs Hv. destruct p as [|fd|fd [|b rest]|fd| |]; simpl in Hs.
  - injection Hs as <- <-. apply send_read_inv; [done| | |done]; destruct (fdCommand w <? 0); try done; try apply prefix_nil;
      destruct (MAX_COMMAND_BYTES <? _); try done; apply prefix_nil.
  - destruct (s_writeMutex w) eqn:Hm; [done|]. injection Hs as <- <-. by apply send_lock_inv.
  - injection Hs as <- <-. eapply send_end_inv; try done. simpl. intros dn Hp. rewrite app_nil_r in Hp. by rewrite Hp.
  - assert (Hfail : race_inv (at_thread i (TSend own m (SClose fd)) w) l).
    { eapply send_end_inv; try done. simpl. intros dn <-. by apply prefix_app_r. }
    destruct res as [n| |]; [destruct (fds w !! fd) as [file|] eqn:Hf| |]; injection Hs as <- <-; try done.
    + by apply (send_write_inv w l i own m fd (b :: rest) n).
    + eapply send_end_inv; try done.
  - injection Hs as <- <-. apply (files_inv (at_thread i (TSend own m SUnlock) w) l (delete fd (fds w))); [by intros f c [_ ?]%lookup_delete_Some|]. by eapply send_end_inv.
  - injection Hs as <- <-. by apply send_unlock_inv.
  - done.
Qed.

(** A completion unlinks its request. *)
Lemma completion_inv w l i t e r len : threads w !! i = Some TIdle -> race_inv w l ->
  exists w' l', begin_completion i t e r len w = Ret w' /\ race_inv w' l'.
Proof.
  intros Hi Hv. pose proof Hv as [A B C D E]. unfold begin_completion.
  destruct (dequeue_cases (lib w) _ l t A) as [->|(a & l1 & l2 & m' & h' & -> & -> & -> & Hc & Hs)].
  - exists (with_lib (lib w) w), l. split; [by destruct t|]. by destruct w.
  - eexists _, (l1 ++ l2). split; [done|]. split; simpl.
    + by eapply (list_take _ _ _ l1 a l2 i TIdle).
    + eapply requests_weaken; [by eapply given_up_at|]. eapply (requests_content (reqs (lib w))); [done| |done].
      intros b. rewrite !elem_of_app. intros [?|?]; [by left|right; by apply list_elem_of_further].
    + by eapply claims_take.
    + by eapply connections_at.
    + by eapply mutex_at.
Qed.

(** Its response function does not touch what the vendor library did not pass. *)
Definition bad_response (w : race) : Prop :=
  exists i a e r len ri ci, threads w !! i = Some (TFound a e r len) /\ reqs (lib w) !! a = Some ri /\ s_commands !! pCI ri = Some ci /\
    payload_of (version (lib w)) (responseFunction ci) r len = Fault.

Lemma held_request w l i pc a : race_inv w l -> threads w !! i = Some pc -> holds_request pc = Some a -> exists ri, reqs (lib w) !! a = Some ri.
Proof.
  intros [[_ _ Hd] _ _ _ _] Hi Ha. apply elem_of_dom. rewrite Hd, elem_of_list_to_set. apply elem_of_app. right.
  apply list_elem_of_omap. exists pc. split; [by eapply list_elem_of_lookup_2|done].
Qed.

Lemma answer_inv w l i a e r len : threads w !! i = Some (TFound a e r len) -> race_inv w l ->
  match answer i a e r len w with Ret w' => race_inv w' l | Abort => True | Fault => bad_response w end.
Proof.
  intros Hi Hv. destruct (held_request w l i _ a Hv Hi eq_refl) as [ri Hri]. unfold answer, load_req. rewrite Hri.
  destruct (local ri) eqn:El; simpl; [eapply at_inv; try done; by right|].
  destruct (cancelled ri); [eapply at_inv; try done; by right|].
  destruct (rv_requests _ _ Hv a ri Hri El) as (k & c & Hk & Hr & [ci Hci] & _). rewrite Hci, response_parcel_result.
  destruct (payload_of _ _ r len) as [[ret d]| |] eqn:Ep; [|done|by exists i, a, e, r, len, ri, ci].
  eapply at_inv; try done; [by left|by right|]. intros own m p k' [= <- <- <-]. rewrite Hk. intros [= <-]. simpl.
  split; [|by exists c, (token ri), (if ret =? 0 then e else ret), d].
  apply (cl_waiting _ _ _ _ _ (rv_claims _ _ Hv)). apply elem_of_app. right. apply list_elem_of_omap.
  exists (TFound a e r len). split; [by eapply list_elem_of_lookup_2|done].
Qed.

Lemma release_inv w l i a : threads w !! i = Some (TFree a) -> race_inv w l -> exists w', release i a w = Ret w' /\ race_inv w' l.
Proof.
  intros Hi Hv. destruct (held_request w l i _ a Hv Hi eq_refl) as [ri Hri]. unfold release, free_req. rewrite Hri.
  eexists. split; [done|]. destruct Hv as [A B C D E]. split; simpl.
  - by eapply list_free.
  - eapply requests_weaken; [by eapply given_up_at|]. by apply requests_delete.
  - eapply claims_at; [done|by right|by right|done|done].
  - by eapply connections_at.
  - by eapply mutex_at.
Qed.

Lemma fresh_request w l : race_inv w l ->
  let a := fresh_addr (dom (reqs (lib w))) in (a ∉ dom (reqs (lib w))) /\ a ∉ l ++ in_hand (threads w).
Proof.
  intros [[_ _ Hd] _ _ _ _] a. assert (Ha : a ∉ dom (reqs (lib w))) by apply fresh_addr_new. split; [done|].
  by rewrite Hd, elem_of_list_to_set in Ha.
Qed.

Lemma supported_entry request : supported request = true -> is_Some (s_commands !! Z.to_nat request).
Proof. unfold supported. destruct (s_commands !! Z.to_nat request); [eauto|done]. Qed.

Lemma race_command_inv w l request tok : threads w !! 0%nat = Some TIdle -> 0 <= fdCommand w -> race_inv w l ->
  exists w' l', begin_command request tok w = Ret w' /\ race_inv w' l'.
Proof.
  intros Hi Hfd Hv. destruct (fresh_request w l Hv) as [Ha Ha']. pose proof Hv as [A B C D E].
  destruct (cn_open _ _ _ _ _ _ D Hfd) as [Hacc Hls]. unfold begin_command. destruct (supported request) eqn:Es.
  - unfold push_request. eexists _, (_ :: l). split; [done|]. split; simpl.
    + by apply (list_push _ (s_pendingRequests (lib w))).
    + apply requests_command; try done; [by apply supported_entry|by left].
    + by apply claims_command.
    + apply connections_received; [lia|done].
    + done.
  - eexists _, l. split; [done|]. split; simpl.
    + by eapply list_at.
    + apply requests_received. eapply requests_weaken; [by eapply given_up_at|done].
    + by eapply claims_reject.
    + apply connections_received; [lia|]. by eapply connections_at.
    + by eapply mutex_at.
Qed.

Lemma race_local_inv w l request : race_inv w l -> exists w' l', begin_local request w = Ret w' /\ race_inv w' l'.
Proof.
  intros Hv. destruct (fresh_request w l Hv) as [Ha Ha']. pose proof Hv as [A B C D E].
  unfold begin_local, push_request. eexists _, (_ :: l). split; [done|]. split; simpl; try done.
  - by apply (list_push _ (s_pendingRequests (lib w))).
  - by apply requests_local.
  - by apply claims_local.
Qed.

Lemma race_cancel_inv w l : race_inv w l -> exists w', cancel_all w = Ret w' /\ race_inv w' l /\ threads w' = threads w /\
  requests_inv (reqs (lib w')) (issued w') (received w') (accepted w') False l.
Proof.
  intros [A B C D E]. destruct (cancel_all_run (lib w) _ l A) as (m' & Hr & Hm). unfold cancel_all. rewrite Hr.
  eexists. split; [done|]. split_and!; try done; [split; simpl; try done|]; simpl; first [by eapply list_cancel|by eapply requests_cancel].
Qed.

Lemma close_inv w l pc' : threads w !! 0%nat = Some TIdle -> 0 <= fdCommand w -> closed_only pc' = true -> race_inv w l ->
  race_inv (at_thread 0 pc' (with_fds (delete (fdCommand w) (fds w)) w)) l.
Proof.
  intros Hi Hfd Hp [A B C D E]. split; simpl.
  - eapply list_at; [done| |done]. by destruct pc'.
  - eapply requests_weaken; [by eapply given_up_at|done].
  - eapply claims_at; [done|left; by destruct pc'|left; by destruct pc'| |done]. intros own m p k ->. done.
  - apply connections_close; [done|by destruct pc'|done].
  - eapply mutex_at; [done| |done]. by destruct pc'.
Qed.

Lemma enter_inv w l i d : threads w !! i = Some TIdle -> race_inv w l -> exists w' l', enter i d w = Ret w' /\ race_inv w' l'.
Proof.
  intros Hi Hv. destruct d as [t e r len|p|request|request tok|fd| | |]; simpl.
  - by apply (completion_inv w l).
  - eexists _, l. split; [done|]. eapply at_inv; try done; [by left|by left|]. by intros own m p0 k [= <- <- <-].
  - by apply (race_local_inv w l).
  - destruct (bool_decide_reflect (i = 0%nat)) as [->|]; simpl; [|eauto]. destruct (Z.leb_spec 0 (fdCommand w)); [|eauto].
    by apply (race_command_inv w l).
  - destruct (bool_decide_reflect (i = 0%nat)) as [->|]; simpl; [|eauto]. destruct (listening (lib w)) eqn:Els; simpl; [|eauto].
    destruct (Z.leb_spec 0 fd) as [Hfd|]; simpl; [|eauto]. destruct (bool_decide_reflect (fds w !! fd = None)) as [Hn|]; [|eauto].
    eexists _, l. split; [done|]. destruct Hv as [A B C D E]. rewrite Els in *.
    assert (Hno : ~ not_given_up true (threads w)) by (intros [?|?]; congruence).
    split; try done; [by eapply requests_accept|]. destruct D as [D1 D2 D3 D4 D5]. split; simpl.
    + intros k c tok Hk. pose proof (D1 k c tok Hk). lia.
    + intros f c Hf. destruct (decide (f = fd)) as [->|Hne]; [rewrite lookup_insert_eq in Hf; by injection Hf as <-|].
      rewrite lookup_insert_ne in Hf by done. destruct (D2 f c Hf) as (-> & Hge & _). by destruct (D3 Hge).
    + intros _. split; [lia|done].
    + intros pc Hpc Hcl. rewrite Hi in Hpc. by injection Hpc as <-.
    + done.
  - destruct (bool_decide_reflect (i = 0%nat)) as [->|]; simpl; [|eauto]. destruct (listening (lib w)); simpl; [|eauto].
    destruct (race_cancel_inv w l Hv) as (w' & Hr & Hv' & _). eauto.
  - destruct (bool_decide_reflect (i = 0%nat)) as [->|]; simpl; [|eauto]. destruct (Z.leb_spec 0 (fdCommand w)) as [Hfd|]; [|eauto].
    eexists _, l. split; [done|]. by apply close_inv.
  - destruct (bool_decide_reflect (i = 0%nat)) as [->|]; simpl; [|eauto]. destruct (Z.ltb_spec 0 (fdCommand w)) as [Hfd|]; [|eauto].
    eexists _, l. split; [done|]. apply close_inv; try done. lia.
Qed.

(** It sets [fdCommand] to -1, and listens again ([TForgotten]) or not. *)
Lemma race_closed_inv w l i pc pc' ls : threads w !! i = Some pc -> closed_only pc = true -> closed_only pc' = false ->
  holds_request pc' = None -> claim (issued w) pc' = None -> awaits (issued w) pc' = None -> in_write pc' = false ->
  (pc' = TForgotten \/ ls = listening (lib w)) -> race_inv w l -> race_inv (at_thread i pc' (set_fdCommand (-1) ls w)) l.
Proof.
  intros Hi Hp Hp' Hh Hc Ha Hw Hls [A B C D E]. assert (i = 0%nat) as -> by (apply (cn_event _ _ _ _ _ _ D i pc Hi); by destruct pc).
  destruct (cn_closed _ _ _ _ _ _ D pc Hi Hp) as [Hl _]. split; simpl.
  - eapply list_at; [done| |done]. rewrite Hh. by destruct pc.
  - eapply requests_weaken; [|done]. intros _. destruct Hls as [->| ->]; [right|by left].
    rewrite list_lookup_insert_eq; [done|by eapply lookup_lt_Some].
  - eapply claims_at; [done|by right|by right| |done]. intros own m p k -> Hk. simpl in Hc. congruence.
  - by eapply connections_forget.
  - eapply mutex_at; [done| |done]. rewrite Hw. by destruct pc.
Qed.

(** The event thread cancels what is left of the connection. *)
Lemma race_forgotten_inv w l i : threads w !! i = Some TForgotten -> race_inv w l ->
  exists w', cancel_all w = Ret w' /\ race_inv (at_thread i TIdle w') l.
Proof.
  intros Hi Hv. destruct (race_cancel_inv w l Hv) as (w' & Hr & [A B C D E] & Ht & Hq). exists w'. split; [done|].
  rewrite <- Ht in Hi. split; simpl.
  - by eapply list_at.
  - by eapply requests_weaken; [|exact Hq].
  - eapply claims_at; [done|by left|by left|done|done].
  - by eapply connections_at.
  - by eapply mutex_at.
Qed.

Lemma race_step_inv mv w l : race_inv w l ->
  match race_step mv w with Ret w' => exists l', race_inv w' l' | Abort => True | Fault => bad_response w end.
Proof.
  intros Hv. destruct mv as [i d res|fd|fd]; simpl.
  - unfold thread_step. destruct (threads w !! i) as [[|a e r len|own m p|a| | |]|] eqn:Hi.
    + destruct (enter_inv w l i d Hi Hv) as (w' & l' & -> & Hv'). eauto.
    + pose proof (answer_inv w l i a e r len Hi Hv). destruct (answer i a e r len w); eauto.
    + destruct (decide (p = SDone)) as [->|Hp].
      * exists l. destruct own as [a|]; (eapply at_inv; try done; by right).
      * pose proof (send_inv w l i own m p res) as Hs. destruct (sendResponse i m res p w) as [[p' w']|] eqn:Er.
        -- specialize (Hs p' w' Hi Hp eq_refl Hv). by destruct p; eauto.
        -- by destruct p; eauto.
    + destruct (release_inv w l i a Hi Hv) as (w' & -> & Hv'). eauto.
    + exists l. eapply race_closed_inv; try done. by left.
    + destruct (race_forgotten_inv w l i Hi Hv) as (w' & -> & Hv'). eauto.
    + exists l. eapply race_closed_inv; try done. by right.
    + eauto.
  - exists l. destruct (bool_decide_reflect (fds w !! fd = None)) as [Hn|]; [|done]. apply files_inv; [|done].
    intros f c. destruct (decide (f = fd)) as [->|Hne]; [by rewrite lookup_insert_eq|by rewrite lookup_insert_ne].
  - exists l. destruct (bool_decide_reflect (fds w !! fd = Some None)) as [Hn|]; [|done]. apply files_inv; [|done].
    by intros f c [_ ?]%lookup_delete_Some.
Qed.

Lemma race_run_inv mvs : forall w l w', race_inv w l -> race_run mvs w = Ret w' -> exists l', race_inv w' l'.
Proof.
  induction mvs as [|mv mvs IH]; intros w l w' Hv; simpl; [intros [= <-]; eauto|].
  pose proof (race_step_inv mv w l Hv) as Hs. destruct (race_step mv w) as [w1| |]; [|done|done]. destruct Hs as [l1 H1]. by apply (IH w1 l1).
Qed.

(** ** Replies *)

(** C14: whatever the threads do, in whatever order, and whenever connections
    are closed and accepted:
    - what was written for a command is the beginning of one frame, that of a
      reply with the token of the command: it is never answered twice;
    - every reply is to a command that was received, and goes to the connection
      of the command or to one that was accepted later (both happen:
      [reply_reaches_new_connection]);
    - the requests on the list of an earlier connection, and those of the last
      one when the event thread listens for the next, are cancelled, so that only
      a request that a thread had unlinked before can be answered on a later
      connection;
    - every allocated request is on the list, once, or in the hands of exactly
      one thread, and no step faults (unless the vendor library passes a response
      that its response function cannot read);
    - two threads are never writing at the same time. *)
Theorem replies_answer_commands v n mvs w :
  race_run mvs (race_start v n) = Ret w ->
  (forall k c tok, received w !! k = Some (c, tok) ->
    exists e d, written k (sent_log w) `prefix_of` frame (reply_parcel tok e d)) /\
  (forall x k, x ∈ sent_log w -> for_message x = Some k ->
    exists c tok, received w !! k = Some (c, tok) /\ forall c', to_connection x = Some c' -> (c <= c')%nat) /\
  (exists l, chain (reqs (lib w)) (s_pendingRequests (lib w)) l /\ NoDup (l ++ in_hand (threads w)) /\
    dom (reqs (lib w)) = list_to_set (l ++ in_hand (threads w)) /\
    forall a r, a ∈ l -> reqs (lib w) !! a = Some r -> local r = false ->
      exists k c, issued w !! a = Some k /\ received w !! k = Some (c, token r) /\
        (S c <> accepted w \/ listening (lib w) = true /\ threads w !! 0%nat <> Some TForgotten -> cancelled r = true)) /\
  (forall mv, race_step mv w = Fault -> bad_response w) /\
  (forall i j x y, threads w !! i = Some x -> threads w !! j = Some y -> in_write x = true -> in_write y = true -> i = j).
Proof.
  intros Hr. destruct (race_run_inv mvs _ [] w (race_start_inv v n) Hr) as [l Hv]. pose proof Hv as [[A1 A2 A3] B C D E].
  split; [apply (cl_log _ _ _ _ _ C)|]. split; [apply (cl_pieces _ _ _ _ _ C)|]. split; [|split].
  - exists l. split_and!; try done. intros a r Ha Hra Hl. destruct (B a r Hra Hl) as (k & c & H1 & H2 & _ & H4). exists k, c.
    split_and!; try done. intros Hg. destruct (H4 Ha) as [?|[Hc [Hf|Hf]]]; [done| |]; destruct Hg as [?|[? ?]]; congruence || done.
  - intros mv Hf. pose proof (race_step_inv mv w l Hv) as Hs. by rewrite Hf in Hs.
  - intros i j x y Hi Hj Hx Hy. pose proof (proj2 (E i) (ex_intro _ x (conj Hi Hx))). pose proof (proj2 (E j) (ex_intro _ y (conj Hj Hy))). congruence.
Qed.

End Steps.
