(* ===== verification/RilReplyRuns.v ===== *)
(** * Runs with several threads and connections

    A dial command is answered by a thread of the vendor library while the event
    thread closes the connection and accepts another one. *)

From S2P Require Import Prelude Parcel RilTypes RilResponse RilTables RilCore RilDispatch RilFacts RilRef RilReplyRace RilReplyProps.
Import Wire.

(** A step of the event thread, and the next step of thread 1. *)
Definition event (d : deed) : move := Thread 0 d (Wrote 4).
Definition vendor : move := Thread 1 Refuse (Wrote 4).

(** The client dials with the token 42, and thread 1 completes the request. *)
Definition dialing : list move := [event (Accept 7); event (Command 10 42); Thread 1 (Complete (Some 1%nat) 0 R_null 0) Again].
(** The event thread closes the connection. *)
Definition hang_up : list move := replicate 3 (event Close).

Definition run (mvs : list move) : race := match race_run mvs (race_start 6 1) with Ret w => w | _ => race_start 6 1 end.

(** Nothing interferes: the reply goes to the connection of the command. *)
Definition answered : race := run (dialing ++ replicate 12 vendor).

Lemma answered_run : race_run (dialing ++ replicate 12 vendor) (race_start 6 1) = Ret answered.
Proof. vm_compute. reflexivity. Qed.

Lemma replies_answer_commands_witness :
  received answered = [(0%nat, 42)] /\ written 0 (sent_log answered) = frame (reply_parcel 42 0 []) /\
  dom (reqs (lib answered)) = ∅ /\
  exists e d, written 0 (sent_log answered) `prefix_of` frame (reply_parcel 42 e d).
Proof.
  split; [vm_compute; reflexivity|]. split; [vm_compute; reflexivity|]. split; [vm_compute; reflexivity|].
  destruct (replies_answer_commands 6 1 _ answered answered_run) as (Hl & _). apply (Hl 0%nat 0%nat 42). vm_compute. reflexivity.
Defined.

(** Thread 1 has unlinked the request when the client hangs up and connects
    again: the new connection gets the reply to a command it did not send. *)
Lemma reply_reaches_new_connection : exists w,
  race_run (dialing ++ hang_up ++ [event (Accept 8)] ++ replicate 12 vendor) (race_start 6 1) = Ret w /\
  received w = [(0%nat, 42)] /\ written 0 (sent_log w) = frame (reply_parcel 42 0 []) /\
  Forall (fun x => to_connection x = Some 1%nat) (sent_log w).
Proof. eexists. split; [vm_compute; reflexivity|]. split_and!; [vm_compute; reflexivity..|]. vm_compute. repeat constructor. Qed.

(** The new connection gets the number of the old one while the reply is
    written: the header is on one connection, the rest on the other. *)
Lemma reply_is_split : exists w,
  race_run (dialing ++ replicate 4 vendor ++ hang_up ++ [event (Accept 7)] ++ replicate 12 vendor) (race_start 6 1) = Ret w /\
  (to_connection <$> sent_log w) = [Some 0; Some 1; Some 1; Some 1]%nat /\ written 0 (sent_log w) = frame (reply_parcel 42 0 []).
Proof. eexists. split; [vm_compute; reflexivity|]. split_and!; vm_compute; reflexivity. Qed.

(** When the request is still on the list the reply is suppressed. *)
Lemma late_completion_is_silent : exists w,
  race_run ([event (Accept 7); event (Command 10 42)] ++ hang_up ++ [event (Accept 8); Thread 1 (Complete (Some 1%nat) 0 R_null 0) Again] ++
    replicate 12 vendor) (race_start 6 1) = Ret w /\ sent_log w = [] /\ dom (reqs (lib w)) = ∅.
Proof. eexists. split; [vm_compute; reflexivity|]. split_and!; vm_compute; reflexivity. Qed.
