(* ===== verification/RilRuns.v ===== *)
(** * Concrete runs of the RIL daemon

    A session with Android's parcel layout and header values: registration, a
    connection, a dial command and its completion.  The lemmas apply the
    properties of the RIL to the states of the session. *)

From S2P Require Import Prelude Parcel RilTypes RilResponse RilTables RilCore RilDispatch RilFacts RilSystem RilInv RilWake RilCodec RilRoundtrip RilProps RilCodecProps RilRadioProps RilRef.
Import Wire.

Definition J : Z := 0.
Definition LIMIT : Z := 65536.

Definition run_state (o : outcome (unit * rstate)) : rstate :=
  match o with Ret (_, s) => s | _ => initial 0 0 end.

(** ** The session *)

Definition registered : rstate := run_state (RIL_register true (Some 6) 5 6 (initial 0 0)).
Definition online : rstate := run_state (listenCallback 7 true [] registered).

(** [RIL_REQUEST_DIAL] with token 42. *)
Definition dial_payload : list field := [Str (Some (lit "123")); Int 0; Int 0].
Definition dial_command : bytes := fields [Int 10; Int 42] ++ fields dial_payload.
Definition dialing : rstate := run_state (processCommandsCallback J LIMIT [dial_command] false online).
Definition dialed : rstate := run_state (RIL_onRequestComplete (Some 1%nat) 0 R_null 0 dialing).

Lemma registered_run : RIL_register true (Some 6) 5 6 (initial 0 0) = Ret (tt, registered).
Proof. vm_compute. reflexivity. Qed.
Lemma online_run : listenCallback 7 true [] registered = Ret (tt, online).
Proof. vm_compute. reflexivity. Qed.
Lemma dialing_run : processCommandsCallback J LIMIT [dial_command] false online = Ret (tt, dialing).
Proof. vm_compute. reflexivity. Qed.
Lemma dialed_run : RIL_onRequestComplete (Some 1%nat) 0 R_null 0 dialing = Ret (tt, dialed).
Proof. vm_compute. reflexivity. Qed.

Lemma online_reachable : reachable J LIMIT (online, []).
Proof.
  eapply reach_step; [eapply reach_step; [apply (reach_initial J LIMIT 0 0)|]|].
  - apply (step_register J LIMIT) with (nd := true) (v := Some 6) (f := 5) (d := 6). exact registered_run.
  - apply (step_connect J LIMIT registered [] 7 true [] online); [vm_compute; reflexivity|exact online_run].
Qed.

Lemma dialing_reachable : reachable J LIMIT (dialing, [42]).
Proof.
  eapply reach_step; [exact online_reachable|].
  replace [42] with ([] ++ omap command_token [dial_command]) by (vm_compute; reflexivity).
  apply (step_commands J LIMIT online [] [dial_command] false dialing).
  - split; [vm_compute; reflexivity|vm_compute; discriminate].
  - exact dialing_run.
Qed.

Lemma dialed_reachable : reachable J LIMIT (dialed, [42]).
Proof.
  eapply reach_step; [exact dialing_reachable|].
  by apply (step_complete J LIMIT dialing [42] (Some 1%nat) 0 R_null 0 dialed dialed_run).
Qed.

Lemma sequential_replies_example :
  reachable J LIMIT (dialed, [42]) /\
  exists l msgs, pending_ok dialed l /\ stream_ok (sock dialed) msgs /\ replies msgs ++ outstanding (reqs dialed) l ⊆+ [42].
Proof. split; [exact dialed_reachable|]. apply (sequential_replies J LIMIT dialed [42] dialed_reachable). Qed.

(** The reply is on the wire, and the session has no other. *)
Example dialed_wire : exists before, wire (sock dialed) = before ++ frame (reply_parcel 42 0 []) /\ reqs dialed = ∅.
Proof. eexists (wire (sock dialing)). by split; vm_compute. Qed.

(** ** Requests *)

Definition dial_request : RequestInfo := RI 42 10 None false false.
Definition dial_entry : CommandInfo := Cmd (ril "RIL_REQUEST_DIAL") (Some DispatchDial) (Some ResponseVoid).

Lemma dialing_pending : pending_ok dialing [1%nat].
Proof.
  split.
  - split; [vm_compute; reflexivity|]. exists dial_request. split; vm_compute; reflexivity.
  - apply NoDup_singleton.
  - vm_compute. reflexivity.
Qed.

Lemma dialing_healthy : healthy dialing.
Proof. split; [vm_compute; discriminate|]. split; vm_compute; reflexivity. Qed.

Lemma online_healthy : healthy online.
Proof. split; [vm_compute; discriminate|]. split; vm_compute; reflexivity. Qed.

Lemma completion_answers_once_witness :
  pending_ok dialing ([] ++ 1%nat :: []) /\
  exists s', RIL_onRequestComplete (Some 1%nat) 0 R_null 0 dialing = Ret (tt, s') /\ pending_ok s' ([] ++ []) /\
    wire (sock s') = wire (sock dialing) ++ frame (reply_parcel (token dial_request) (if 0 =? 0 then 0 else 0) []) /\
    (forall b, b <> 1%nat -> content <$> reqs s' !! b = content <$> reqs dialing !! b) /\
    forall e' r' len', RIL_onRequestComplete (Some 1%nat) e' r' len' s' = Ret (tt, s').
Proof.
  split; [exact dialing_pending|].
  apply (completion_answers_once dialing [] 1%nat [] dial_request dial_entry 0 R_null 0 0 []).
  - exact dialing_pending.
  - vm_compute. reflexivity.
  - reflexivity.
  - reflexivity.
  - vm_compute. reflexivity.
  - reflexivity.
  - exact dialing_healthy.
  - vm_compute. discriminate.
Defined.

Lemma unknown_token_is_ignored_witness :
  pending_ok dialing [1%nat] /\ RIL_onRequestComplete (Some 9%nat) 0 R_null 0 dialing = Ret (tt, dialing).
Proof.
  split; [exact dialing_pending|]. apply (unknown_token_is_ignored dialing [1%nat] (Some 9%nat) 0 R_null 0).
  - exact dialing_pending.
  - intros a Ha. injection Ha as <-. rewrite list_elem_of_singleton. lia.
Defined.

Lemma closing_silences_pending_witness :
  pending_ok dialing [1%nat] /\
  exists s1, onCommandsSocketClosed dialing = Ret (tt, s1) /\ pending_ok s1 [1%nat] /\
    forall a e r len, a ∈ [1%nat] -> exists s2, RIL_onRequestComplete (Some a) e r len s1 = Ret (tt, s2) /\
      sock s2 = sock s1 /\ reqs s2 !! a = None /\ calls s2 = calls s1.
Proof. split; [exact dialing_pending|]. apply (closing_silences_pending dialing [1%nat] dialing_pending). Defined.

Lemma sequential_wake_lock_example :
  wake_lock online = true /\
  exists a, timed online !! a = Some release_pending /\ (forall b, timed online !! b = Some release_pending -> b = a) /\
    exists s', userTimerCallback a online = Ret (tt, s') /\ wake_lock s' = false.
Proof.
  split; [vm_compute; reflexivity|].
  apply (sequential_wake_lock J LIMIT online []); [exact online_reachable|vm_compute; reflexivity].
Qed.

Lemma lit_123_ok : cstr_ok (Some (lit "123")).
Proof. split; [repeat constructor; lia|vm_compute; reflexivity]. Qed.



(** A client that follows the comments above [dispatchSimPin], [dispatchSimPuk]
    and [dispatchSimPinSet]: the codes and the application identifier change
    places. *)
Definition payload_read (f : dispatch_fn) (fs : list field) : option (request_data * Z) :=
  match parser J LIMIT 6 f with
  | Some parse => match parse (fields fs) with Ret (r, _) => r | _ => None end
  | None => None
  end.

Lemma commented_payloads_differ :
  (exists n, payload_read DispatchSimPin [Int 1; Str (Some (lit "aid")); Str (Some (lit "1234"))] =
     Some (D_simPin (SimPin 0 (Some (lit "1234")) (Some (lit "aid"))), n)) /\
  (exists n, payload_read DispatchSimPuk [Int 1; Str (Some (lit "aid")); Str (Some (lit "5678")); Str (Some (lit "1234"))] =
     Some (D_simPuk (SimPuk 0 (Some (lit "1234")) (Some (lit "aid")) (Some (lit "5678"))), n)) /\
  (exists n, payload_read DispatchSimPinSet [Int 1; Str (Some (lit "aid")); Str (Some (lit "1234")); Str (Some (lit "4321"))] =
     Some (D_simPinSet (SimPinSet 0 (Some (lit "4321")) (Some (lit "aid")) (Some (lit "1234"))), n)) /\
  (exists n, payload_read DispatchRequestImsi [Int 1; Str (Some (lit "aid"))] = Some (D_requestImsi (RequestImsi 0 (Some (lit "aid"))), n)) /\
  (exists n, payload_read DispatchSmsWrite [Int 1; Str (Some (lit "pdu"))] = Some (D_smsWrite (SmsWriteArgs 1 (Some (lit "pdu")) None), n)).
Proof. split_and!; eexists; vm_compute; reflexivity. Qed.

Lemma unsupported_command_fails_witness :
  healthy online /\
  processCommandBuffer J LIMIT (fields [Int 200; Int 7] ++ []) online = Ret (tt, sent (reply_parcel 7 (ril "RIL_E_GENERIC_FAILURE") []) online).
Proof.
  split; [exact online_healthy|]. apply (unsupported_command_fails J LIMIT online 200 7 []).
  - unfold int32. lia.
  - unfold int32. lia.
  - right. left. vm_compute. discriminate.
  - exact online_healthy.
Defined.

Lemma invalid_payload_is_never_answered_witness :
  parseDial J (version online) [] = Ret (None, []) /\
  processCommandBuffer J LIMIT (fields [Int 10; Int 42] ++ []) online = Ret (tt, pushed 42 (Z.to_nat 10) online).
Proof.
  split; [vm_compute; reflexivity|].
  apply (invalid_payload_is_never_answered J LIMIT online 10 42 dial_entry DispatchDial (parseDial J (version online)) [] []).
  - unfold int32. lia.
  - unfold int32. lia.
  - vm_compute. split; [discriminate|reflexivity].
  - vm_compute. reflexivity.
  - vm_compute. discriminate.
  - reflexivity.
  - reflexivity.
  - vm_compute. reflexivity.
Defined.

(** A socket that takes two bytes and then fails. *)
Definition flaky : rstate := with_sock (Sock 7 true [] [Wrote 2; Failed]) false registered.

Lemma messages_are_framed_witness :
  stream_ok (sock flaky) [] /\
  exists ret s', sendResponse [1; 2; 3; 4] flaky = Ret (ret, s') /\ reqs s' = reqs flaky /\ fdCommand (sock s') = fdCommand (sock flaky) /\
    (ret = 0 /\ stream_ok (sock s') ([] ++ [[1; 2; 3; 4]]) \/ ret = -1 /\ stream_ok (sock s') []).
Proof. split; [reflexivity|]. apply (messages_are_framed flaky [] [1; 2; 3; 4]). reflexivity. Defined.

(** ** Payloads *)

Definition page_message : RIL_CDMA_SMS_Message :=
  CdmaMessage 4098 0 0 (CdmaAddress 0 0 0 0 2 (filled 36 [1; 2])) (CdmaSubaddress 0 0 0 (filled 36 [])) 1 (filled 255 [7]).

Lemma page_message_ok : cdmaSms_ok page_message.
Proof. split; [repeat constructor; unfold int32; simpl; lia|..]; (split; [vm_compute; discriminate|by split; vm_compute]). Qed.

Lemma cdma_sms_roundtrip_witness :
  cdmaSms_ok page_message /\
  exists b, responseCdmaSms (R_cdmaSms page_message) (sizeof "RIL_CDMA_SMS_Message") [] = Ret (0, b) /\
    constructCdmaSms J (b ++ [9]) = Ret ((NO_ERROR, page_message), [9]).
Proof. split; [exact page_message_ok|]. apply (cdma_sms_roundtrip J page_message [9]). exact page_message_ok. Defined.

Lemma broadcast_config_roundtrip_witness :
  (exists b, responseGsmBrSmsCnf (R_gsmBrSmsCnf [GsmBci 0 10 0 3 1]) (sizeof_ptr * Z.of_nat (length [GsmBci 0 10 0 3 1])) [] = Ret (0, b) /\
     parseGsmBrSmsCnf J LIMIT (b ++ []) =
       Ret (Some (D_gsmBrSmsCnf [GsmBci 0 10 0 3 1], Z.of_nat (length [GsmBci 0 10 0 3 1]) * sizeof_ptr), [])) /\
  (exists b, responseCdmaBrSmsCnf (R_cdmaBrSmsCnf [CdmaBci 1 2 1]) (sizeof_ptr * Z.of_nat (length [CdmaBci 1 2 1])) [] = Ret (0, b) /\
     parseCdmaBrSmsCnf J LIMIT (b ++ []) =
       Ret (Some (D_cdmaBrSmsCnf [CdmaBci 1 2 1], Z.of_nat (length [CdmaBci 1 2 1]) * sizeof_ptr), [])).
Proof.
  apply (broadcast_config_roundtrip J LIMIT [GsmBci 0 10 0 3 1] [CdmaBci 1 2 1] []).
  - repeat constructor; unfold int32, uint8; simpl; lia.
  - split; [unfold int32; simpl; lia|]. split; vm_compute; discriminate.
  - repeat constructor; unfold int32, uint8; simpl; lia.
  - split; [unfold int32; simpl; lia|]. split; vm_compute; discriminate.
Defined.

Definition sample_ints : list Z := [1; -1].
Definition sample_strings : list cstr := [Some (lit "123"); None].
Definition sample_raw : list Z := [1; 2; 3].

Lemma plain_payload_roundtrip_witness :
  (exists b, responseInts (R_ints sample_ints) (sizeof_int * Z.of_nat (length sample_ints)) [] = Ret (0, b) /\
     parseInts J LIMIT (b ++ [5]) = Ret (Some (D_ints sample_ints, sizeof_int * Z.of_nat (length sample_ints)), [5])) /\
  (exists b, responseStrings (R_strings sample_strings) (sizeof_ptr * Z.of_nat (length sample_strings)) [] = Ret (0, b) /\
     parseStrings J LIMIT (b ++ [5]) = Ret (Some (D_strings (Some sample_strings), sizeof_ptr * Z.of_nat (length sample_strings)), [5])) /\
  (exists b, responseRaw (R_raw sample_raw) (Z.of_nat (length sample_raw)) [] = Ret (0, b) /\
     parseRaw J (b ++ [5]) = Ret (Some (D_raw (Some sample_raw), Z.of_nat (length sample_raw)), [5])).
Proof.
  apply (plain_payload_roundtrip J LIMIT sample_ints sample_strings sample_raw [5]).
  - discriminate.
  - repeat constructor; unfold int32; lia.
  - vm_compute. discriminate.
  - unfold int32. simpl. lia.
  - apply Forall_cons. split; [exact lit_123_ok|]. by repeat constructor.
  - vm_compute. discriminate.
  - unfold int32. simpl. lia.
  - unfold int32. simpl. lia.
Defined.

Definition modem : RIL_RadioCapability := RadioCapability 1 2 3 4 (filled 64 (lit "com.example.modem")) 5.

Lemma modem_ok : uuid_ok (ril "MAX_UUID_LENGTH") (logicalModemUuid modem) (lit "com.example.modem").
Proof. repeat split; try by vm_compute. - repeat constructor; lia. - by repeat constructor. Qed.

Lemma radio_capability_roundtrip_witness :
  uuid_ok (ril "MAX_UUID_LENGTH") (logicalModemUuid modem) (lit "com.example.modem") /\
  exists b, responseRadioCapability (R_radioCapability modem) (sizeof "RIL_RadioCapability") [] = Ret (0, b) /\
    parseRadioCapability J (b ++ []) = Ret (Some (D_radioCapability modem, sizeof "RIL_RadioCapability"), []).
Proof.
  split; [exact modem_ok|]. apply (radio_capability_roundtrip J modem (lit "com.example.modem") []).
  - exact modem_ok.
  - repeat constructor; unfold int32; simpl; lia.
Defined.

Definition old_lte : RIL_LTE_SignalStrength := LteSignal (-1) (-5) (-1) 0 (-1) 0.

Lemma lte_fixup_idempotent_witness :
  fixup_lte (fixup_lte old_lte) = fixup_lte old_lte /\
  lte_signalStrength (fixup_lte old_lte) <> -1 /\ 0 <= rsrp (fixup_lte old_lte) /\ rsrq (fixup_lte old_lte) <> -1 /\
  rssnr (fixup_lte old_lte) <> 0 /\ cqi (fixup_lte old_lte) <> -1.
Proof. apply (lte_fixup_idempotent old_lte); unfold int32; simpl; lia. Defined.

(** ** Commands that libril rewrites or answers itself

    Each starts from a session with one request at the head of the list. *)

Definition asked (q : nat) : rstate := pushed 5 q online.
Definition asked_request (q : nat) : RequestInfo := RI 5 q None false false.

Lemma asked_pending q : pending_ok (asked q) [1%nat].
Proof.
  split.
  - split; [vm_compute; reflexivity|]. exists (asked_request q). split; vm_compute; reflexivity.
  - apply NoDup_singleton.
  - vm_compute. reflexivity.
Qed.

Lemma asked_healthy q : healthy (asked q).
Proof. split; [vm_compute; discriminate|]. split; vm_compute; reflexivity. Qed.

Definition simIO_entry : CommandInfo := Cmd (ril "RIL_REQUEST_SIM_IO") (Some DispatchSIM_IO) (Some ResponseSIM_IO).
Definition icc_query : RIL_SIM_IO_v3 := SimIo 0 None 192 12258 (Some (lit "3F00")) 0 0 15 None None.

Lemma icc_query_ok : simIO_ok icc_query.
Proof.
  split; [done|]. split; [repeat constructor; unfold int32; simpl; lia|].
  apply Forall_cons. split; [split; [repeat constructor; lia|vm_compute; reflexivity]|]. by repeat constructor.
Qed.

Lemma icc_id_is_answered_locally_witness :
  exists s', dispatchSIM_IO J (fields (simIO_fields icc_query)) 1 (asked 28) = Ret (tt, s') /\ pending_ok s' [] /\
    calls s' = calls (asked 28) /\
    wire (sock s') = wire (sock (asked 28)) ++
      frame (reply_parcel (token (asked_request 28)) (ril "RIL_E_SUCCESS") (fields [Int 144; Int 0; Str (Some (lit icc_size))])).
Proof.
  refine (proj1 (icc_id_is_answered_locally J (asked 28) 1%nat [] (asked_request 28) simIO_entry icc_query _ _ _ _ _ _ _ _ _ _) _ _).
  - exact icc_query_ok.
  - exact (asked_pending 28).
  - vm_compute. reflexivity.
  - reflexivity.
  - reflexivity.
  - reflexivity.
  - reflexivity.
  - exact (asked_healthy 28).
  - discriminate.
  - intros w Hw. rewrite !elem_of_cons, elem_of_nil in Hw. destruct Hw as [->|[->|[]]]; vm_compute; discriminate.
  - reflexivity.
  - reflexivity.
Defined.

Definition voiceTech_entry : CommandInfo := Cmd RIL_REQUEST_VOICE_RADIO_TECH_V3 (Some DispatchVoiceRadioTech) (Some ResponseInts).

Lemma radio_off_answers_once_witness :
  radio_unavailable (vendor_state (asked 108)) = true /\
  exists s', dispatchVoiceRadioTech [] 1 (asked 108) = Ret (tt, s') /\ pending_ok s' [] /\ calls s' = calls (asked 108) /\
    wire (sock s') = wire (sock (asked 108)) ++ frame (reply_parcel (token (asked_request 108)) (ril "RIL_E_RADIO_NOT_AVAILABLE") []).
Proof.
  split; [vm_compute; reflexivity|].
  apply (radio_off_answers_once (asked 108) 1%nat [] (asked_request 108) voiceTech_entry []).
  - exact (asked_pending 108).
  - vm_compute. reflexivity.
  - reflexivity.
  - reflexivity.
  - reflexivity.
  - exact (asked_healthy 108).
  - vm_compute. reflexivity.
  - vm_compute. discriminate.
Defined.

Definition facility_entry : CommandInfo := Cmd (ril "RIL_REQUEST_QUERY_FACILITY_LOCK") (Some DispatchQueryFacility) (Some ResponseInts).

Lemma facility_query_is_reordered_witness :
  dispatchQueryFacility J LIMIT (fields [Int 4; Str (Some (lit "SC")); Str None; Str (Some (lit "7")); Str (Some (lit "A0"))]) 1 (asked 42) =
    Ret (tt, called (VendorCall (requestNumber facility_entry)
      (D_strings (Some [Some (if bool_decide (lit "A0" = []) then lit "" else lit "0"); Some (lit "A0"); Some (lit "SC"); None;
                        Some (lit "7")])) 20 1) (asked 42)).
Proof.
  apply (facility_query_is_reordered J LIMIT (asked 42) 1%nat (asked_request 42) facility_entry 4 (Some (lit "SC")) None (Some (lit "7")) (lit "A0")).
  - vm_compute. reflexivity.
  - reflexivity.
  - unfold int32. lia.
  - repeat apply Forall_cons_2; try exact I; try apply Forall_nil_2; (split; [repeat constructor; lia|vm_compute; reflexivity]).
  - vm_compute. discriminate.
Defined.

Definition nitz_info : UnsolResponseInfo := Unsol (ril "RIL_UNSOL_NITZ_TIME_RECEIVED") ResponseString WAKE_PARTIAL.

Lemma registered_wake_ok : wake_ok registered.
Proof.
  intros a. assert (E1 : timed registered = ∅) by (vm_compute; reflexivity).
  assert (E2 : s_last_wake_timeout_info registered = None) by (vm_compute; reflexivity).
  rewrite E1, E2, lookup_empty. by split.
Qed.

Lemma undelivered_time_is_kept_witness :
  exists s', RIL_onUnsolicitedResponse (ril "RIL_UNSOL_NITZ_TIME_RECEIVED") (R_string (lit "10/01/01")) 4 registered = Ret (tt, s') /\
    sock s' = sock registered /\
    s_lastNITZTimeData s' = Some (enc32 RESPONSE_UNSOLICITED ++ enc32 (ril "RIL_UNSOL_NITZ_TIME_RECEIVED") ++
      enc_str (Some (to16 (lit "10/01/01"))) ++ enc64 (now registered)) /\
    wake_lock s' = true /\ wake_ok s' /\ s_last_wake_timeout_info s' <> None.
Proof.
  apply (undelivered_time_is_kept registered nitz_info (lit "10/01/01") 4).
  - vm_compute. reflexivity.
  - vm_compute. reflexivity.
  - exact registered_wake_ok.
  - vm_compute. reflexivity.
  - vm_compute. reflexivity.
  - vm_compute. split; [discriminate|reflexivity].
  - vm_compute. reflexivity.
  - reflexivity.
  - reflexivity.
  - vm_compute. discriminate.
Defined.

(** ** Corner cases

    The numbers of telephony/ril.h meet the table and the conversion of
    codes. *)

(** Two levels of [unsolicited] are enough with these numbers. *)
Lemma nested_codes_unnested c : c ∈ nested_codes -> convert_unsol c <> ril "RIL_UNSOL_RESPONSE_RADIO_STATE_CHANGED".
Proof.
  unfold nested_codes. rewrite !elem_of_cons, elem_of_nil. intros [->|[->|[->|[]]]]; vm_compute; discriminate.
Qed.

(** The numbers of the old interface are taken for the current ones of other
    notifications, those that [processRadioState] sends among them. *)
Lemma old_codes_collide :
  convert_unsol (ril "RIL_UNSOL_VOICE_RADIO_TECH_CHANGED") = ril "RIL_UNSOL_CDMA_PRL_CHANGED" /\
  convert_unsol (ril "RIL_UNSOL_CDMA_SUBSCRIPTION_SOURCE_CHANGED") = ril "RIL_UNSOL_VOICE_RADIO_TECH_CHANGED" /\
  conv_unsupported (ril "RIL_UNSOL_CDMA_PRL_CHANGED") = true.
Proof. by vm_compute. Qed.

(** The self-check of [RIL_register] fails: with assertions the daemon would
    abort. *)
Lemma self_check_fails : self_check = false.
Proof. by vm_compute. Qed.

Lemma register_with_assertions : RIL_register false (Some RIL_VERSION_V3) 5 6 (initial 0 0) = Abort.
Proof. by vm_compute. Qed.

(** A SIM I/O command without a path. *)
Lemma sim_io_without_path :
  dispatchSIM_IO J (fields (simIO_fields (SimIo 0 None 176 12258 None 0 0 10 None None))) 1 (asked 28) = Fault.
Proof. by vm_compute. Qed.

(** A negative count of strings. *)
Lemma negative_count_of_strings : dispatchStrings J LIMIT (fields [Int (-2)]) 1 (asked 8) = Fault.
Proof. by vm_compute. Qed.
