(* ===== verification/RilNames.v ===== *)
(** * libril/ril.cpp: names for log messages

    The functions that turn numbers into text: tables of constants and names,
    searched for the first constant with the number. *)

From S2P Require Import Prelude Parcel RilTypes RilResponse RilTables RilRef.

Section Names.
Context {H : RilHeader}.

Fixpoint name_of (table : list (string * string)) (other : string) (x : Z) : string :=
  match table with
  | [] => other
  | (constant, text) :: rest => if x =? ril constant then text else name_of rest other x
  end.

Definition failCauseToString (x : Z) : string := name_of [
  ("RIL_E_SUCCESS", "E_SUCCESS");
  ("RIL_E_RADIO_NOT_AVAILABLE", "E_RADIO_NOT_AVAILABLE");
  ("RIL_E_GENERIC_FAILURE", "E_GENERIC_FAILURE");
  ("RIL_E_PASSWORD_INCORRECT", "E_PASSWORD_INCORRECT");
  ("RIL_E_SIM_PIN2", "E_SIM_PIN2");
  ("RIL_E_SIM_PUK2", "E_SIM_PUK2");
  ("RIL_E_REQUEST_NOT_SUPPORTED", "E_REQUEST_NOT_SUPPORTED");
  ("RIL_E_CANCELLED", "E_CANCELLED");
  ("RIL_E_OP_NOT_ALLOWED_DURING_VOICE_CALL", "E_OP_NOT_ALLOWED_DURING_VOICE_CALL");
  ("RIL_E_OP_NOT_ALLOWED_BEFORE_REG_TO_NW", "E_OP_NOT_ALLOWED_BEFORE_REG_TO_NW");
  ("RIL_E_SMS_SEND_FAIL_RETRY", "E_SMS_SEND_FAIL_RETRY");
  ("RIL_E_SIM_ABSENT", "E_SIM_ABSENT");
  ("RIL_E_ILLEGAL_SIM_OR_ME", "E_ILLEGAL_SIM_OR_ME")
]%string "<unknown error>" x.

Definition radioStateToString (x : Z) : string := name_of [
  ("RADIO_STATE_OFF", "RADIO_OFF");
  ("RADIO_STATE_UNAVAILABLE", "RADIO_UNAVAILABLE");
  ("RADIO_STATE_SIM_NOT_READY", "RADIO_SIM_NOT_READY");
  ("RADIO_STATE_SIM_LOCKED_OR_ABSENT", "RADIO_SIM_LOCKED_OR_ABSENT");
  ("RADIO_STATE_SIM_READY", "RADIO_SIM_READY");
  ("RADIO_STATE_RUIM_NOT_READY", "RADIO_RUIM_NOT_READY");
  ("RADIO_STATE_RUIM_READY", "RADIO_RUIM_READY");
  ("RADIO_STATE_RUIM_LOCKED_OR_ABSENT", "RADIO_RUIM_LOCKED_OR_ABSENT");
  ("RADIO_STATE_NV_NOT_READY", "RADIO_NV_NOT_READY");
  ("RADIO_STATE_NV_READY", "RADIO_NV_READY");
  ("RADIO_STATE_ON", "RADIO_ON")
]%string "<unknown state>" x.

Definition callStateToString (x : Z) : string := name_of [
  ("RIL_CALL_ACTIVE", "ACTIVE");
  ("RIL_CALL_HOLDING", "HOLDING");
  ("RIL_CALL_DIALING", "DIALING");
  ("RIL_CALL_ALERTING", "ALERTING");
  ("RIL_CALL_INCOMING", "INCOMING");
  ("RIL_CALL_WAITING", "WAITING")
]%string "<unknown state>" x.

Definition request_names : list (string * string) := [
  ("RIL_REQUEST_GET_SIM_STATUS", "GET_SIM_STATUS");
  ("RIL_REQUEST_ENTER_SIM_PIN", "ENTER_SIM_PIN");
  ("RIL_REQUEST_ENTER_SIM_PUK", "ENTER_SIM_PUK");
  ("RIL_REQUEST_ENTER_SIM_PIN2", "ENTER_SIM_PIN2");
  ("RIL_REQUEST_ENTER_SIM_PUK2", "ENTER_SIM_PUK2");
  ("RIL_REQUEST_CHANGE_SIM_PIN", "CHANGE_SIM_PIN");
  ("RIL_REQUEST_CHANGE_SIM_PIN2", "CHANGE_SIM_PIN2");
  ("RIL_REQUEST_ENTER_NETWORK_DEPERSONALIZATION", "ENTER_NETWORK_DEPERSONALIZATION");
  ("RIL_REQUEST_GET_CURRENT_CALLS", "GET_CURRENT_CALLS");
  ("RIL_REQUEST_DIAL", "DIAL");
  ("RIL_REQUEST_GET_IMSI", "GET_IMSI");
  ("RIL_REQUEST_HANGUP", "HANGUP");
  ("RIL_REQUEST_HANGUP_WAITING_OR_BACKGROUND", "HANGUP_WAITING_OR_BACKGROUND");
  ("RIL_REQUEST_HANGUP_FOREGROUND_RESUME_BACKGROUND", "HANGUP_FOREGROUND_RESUME_BACKGROUND");
  ("RIL_REQUEST_SWITCH_WAITING_OR_HOLDING_AND_ACTIVE", "SWITCH_WAITING_OR_HOLDING_AND_ACTIVE");
  ("RIL_REQUEST_CONFERENCE", "CONFERENCE");
  ("RIL_REQUEST_UDUB", "UDUB");
  ("RIL_REQUEST_LAST_CALL_FAIL_CAUSE", "LAST_CALL_FAIL_CAUSE");
  ("RIL_REQUEST_SIGNAL_STRENGTH", "SIGNAL_STRENGTH");
  ("RIL_REQUEST_VOICE_REGISTRATION_STATE", "VOICE_REGISTRATION_STATE");
  ("RIL_REQUEST_DATA_REGISTRATION_STATE", "DATA_REGISTRATION_STATE");
  ("RIL_REQUEST_OPERATOR", "OPERATOR");
  ("RIL_REQUEST_RADIO_POWER", "RADIO_POWER");
  ("RIL_REQUEST_DTMF", "DTMF");
  ("RIL_REQUEST_SEND_SMS", "SEND_SMS");
  ("RIL_REQUEST_SEND_SMS_EXPECT_MORE", "SEND_SMS_EXPECT_MORE");
  ("RIL_REQUEST_SETUP_DATA_CALL", "SETUP_DATA_CALL");
  ("RIL_REQUEST_SIM_IO", "SIM_IO");
  ("RIL_REQUEST_SEND_USSD", "SEND_USSD");
  ("RIL_REQUEST_CANCEL_USSD", "CANCEL_USSD");
  ("RIL_REQUEST_GET_CLIR", "GET_CLIR");
  ("RIL_REQUEST_SET_CLIR", "SET_CLIR");
  ("RIL_REQUEST_QUERY_CALL_FORWARD_STATUS", "QUERY_CALL_FORWARD_STATUS");
  ("RIL_REQUEST_SET_CALL_FORWARD", "SET_CALL_FORWARD");
  ("RIL_REQUEST_QUERY_CALL_WAITING", "QUERY_CALL_WAITING");
  ("RIL_REQUEST_SET_CALL_WAITING", "SET_CALL_WAITING");
  ("RIL_REQUEST_SMS_ACKNOWLEDGE", "SMS_ACKNOWLEDGE");
  ("RIL_REQUEST_GET_IMEI", "GET_IMEI");
  ("RIL_REQUEST_GET_IMEISV", "GET_IMEISV");
  ("RIL_REQUEST_ANSWER", "ANSWER");
  ("RIL_REQUEST_DEACTIVATE_DATA_CALL", "DEACTIVATE_DATA_CALL");
  ("RIL_REQUEST_QUERY_FACILITY_LOCK", "QUERY_FACILITY_LOCK");
  ("RIL_REQUEST_SET_FACILITY_LOCK", "SET_FACILITY_LOCK");
  ("RIL_REQUEST_CHANGE_BARRING_PASSWORD", "CHANGE_BARRING_PASSWORD");
  ("RIL_REQUEST_QUERY_NETWORK_SELECTION_MODE", "QUERY_NETWORK_SELECTION_MODE");
  ("RIL_REQUEST_SET_NETWORK_SELECTION_AUTOMATIC", "SET_NETWORK_SELECTION_AUTOMATIC");
  ("RIL_REQUEST_SET_NETWORK_SELECTION_MANUAL", "SET_NETWORK_SELECTION_MANUAL");
  ("RIL_REQUEST_QUERY_AVAILABLE_NETWORKS", "QUERY_AVAILABLE_NETWORKS ");
  ("RIL_REQUEST_DTMF_START", "DTMF_START");
  ("RIL_REQUEST_DTMF_STOP", "DTMF_STOP");
  ("RIL_REQUEST_BASEBAND_VERSION", "BASEBAND_VERSION");
  ("RIL_REQUEST_SEPARATE_CONNECTION", "SEPARATE_CONNECTION");
  ("RIL_REQUEST_SET_PREFERRED_NETWORK_TYPE", "SET_PREFERRED_NETWORK_TYPE");
  ("RIL_REQUEST_GET_PREFERRED_NETWORK_TYPE", "GET_PREFERRED_NETWORK_TYPE");
  ("RIL_REQUEST_GET_NEIGHBORING_CELL_IDS", "GET_NEIGHBORING_CELL_IDS");
  ("RIL_REQUEST_SET_MUTE", "SET_MUTE");
  ("RIL_REQUEST_GET_MUTE", "GET_MUTE");
  ("RIL_REQUEST_QUERY_CLIP", "QUERY_CLIP");
  ("RIL_REQUEST_LAST_DATA_CALL_FAIL_CAUSE", "LAST_DATA_CALL_FAIL_CAUSE");
  ("RIL_REQUEST_DATA_CALL_LIST", "DATA_CALL_LIST");
  ("RIL_REQUEST_RESET_RADIO", "RESET_RADIO");
  ("RIL_REQUEST_OEM_HOOK_RAW", "OEM_HOOK_RAW");
  ("RIL_REQUEST_OEM_HOOK_STRINGS", "OEM_HOOK_STRINGS");
  ("RIL_REQUEST_SET_BAND_MODE", "SET_BAND_MODE");
  ("RIL_REQUEST_QUERY_AVAILABLE_BAND_MODE", "QUERY_AVAILABLE_BAND_MODE");
  ("RIL_REQUEST_STK_GET_PROFILE", "STK_GET_PROFILE");
  ("RIL_REQUEST_STK_SET_PROFILE", "STK_SET_PROFILE");
  ("RIL_REQUEST_STK_SEND_ENVELOPE_COMMAND", "STK_SEND_ENVELOPE_COMMAND");
  ("RIL_REQUEST_STK_SEND_TERMINAL_RESPONSE", "STK_SEND_TERMINAL_RESPONSE");
  ("RIL_REQUEST_STK_HANDLE_CALL_SETUP_REQUESTED_FROM_SIM", "STK_HANDLE_CALL_SETUP_REQUESTED_FROM_SIM");
  ("RIL_REQUEST_SCREEN_STATE", "SCREEN_STATE");
  ("RIL_REQUEST_EXPLICIT_CALL_TRANSFER", "EXPLICIT_CALL_TRANSFER");
  ("RIL_REQUEST_SET_LOCATION_UPDATES", "SET_LOCATION_UPDATES");
  ("RIL_REQUEST_CDMA_SET_SUBSCRIPTION_SOURCE", "CDMA_SET_SUBSCRIPTION_SOURCE");
  ("RIL_REQUEST_CDMA_SET_ROAMING_PREFERENCE", "CDMA_SET_ROAMING_PREFERENCE");
  ("RIL_REQUEST_CDMA_QUERY_ROAMING_PREFERENCE", "CDMA_QUERY_ROAMING_PREFERENCE");
  ("RIL_REQUEST_SET_TTY_MODE", "SET_TTY_MODE");
  ("RIL_REQUEST_QUERY_TTY_MODE", "QUERY_TTY_MODE");
  ("RIL_REQUEST_CDMA_SET_PREFERRED_VOICE_PRIVACY_MODE", "CDMA_SET_PREFERRED_VOICE_PRIVACY_MODE");
  ("RIL_REQUEST_CDMA_QUERY_PREFERRED_VOICE_PRIVACY_MODE", "CDMA_QUERY_PREFERRED_VOICE_PRIVACY_MODE");
  ("RIL_REQUEST_CDMA_FLASH", "CDMA_FLASH");
  ("RIL_REQUEST_CDMA_BURST_DTMF", "CDMA_BURST_DTMF");
  ("RIL_REQUEST_CDMA_SEND_SMS", "CDMA_SEND_SMS");
  ("RIL_REQUEST_CDMA_SMS_ACKNOWLEDGE", "CDMA_SMS_ACKNOWLEDGE");
  ("RIL_REQUEST_GSM_GET_BROADCAST_SMS_CONFIG", "GSM_GET_BROADCAST_SMS_CONFIG");
  ("RIL_REQUEST_GSM_SET_BROADCAST_SMS_CONFIG", "GSM_SET_BROADCAST_SMS_CONFIG");
  ("RIL_REQUEST_CDMA_GET_BROADCAST_SMS_CONFIG", "CDMA_GET_BROADCAST_SMS_CONFIG");
  ("RIL_REQUEST_CDMA_SET_BROADCAST_SMS_CONFIG", "CDMA_SET_BROADCAST_SMS_CONFIG");
  ("RIL_REQUEST_CDMA_SMS_BROADCAST_ACTIVATION", "CDMA_SMS_BROADCAST_ACTIVATION");
  ("RIL_REQUEST_CDMA_VALIDATE_AND_WRITE_AKEY", "CDMA_VALIDATE_AND_WRITE_AKEY");
  ("RIL_REQUEST_CDMA_SUBSCRIPTION", "CDMA_SUBSCRIPTION");
  ("RIL_REQUEST_CDMA_WRITE_SMS_TO_RUIM", "CDMA_WRITE_SMS_TO_RUIM");
  ("RIL_REQUEST_CDMA_DELETE_SMS_ON_RUIM", "CDMA_DELETE_SMS_ON_RUIM");
  ("RIL_REQUEST_DEVICE_IDENTITY", "DEVICE_IDENTITY");
  ("RIL_REQUEST_EXIT_EMERGENCY_CALLBACK_MODE", "EXIT_EMERGENCY_CALLBACK_MODE");
  ("RIL_REQUEST_GET_SMSC_ADDRESS", "GET_SMSC_ADDRESS");
  ("RIL_REQUEST_SET_SMSC_ADDRESS", "SET_SMSC_ADDRESS");
  ("RIL_REQUEST_REPORT_SMS_MEMORY_STATUS", "REPORT_SMS_MEMORY_STATUS");
  ("RIL_REQUEST_REPORT_STK_SERVICE_IS_RUNNING", "REPORT_STK_SERVICE_IS_RUNNING");
  ("RIL_REQUEST_CDMA_GET_SUBSCRIPTION_SOURCE", "CDMA_GET_SUBSCRIPTION_SOURCE");
  ("RIL_REQUEST_ISIM_AUTHENTICATION", "ISIM_AUTHENTICATION");
  ("RIL_REQUEST_ACKNOWLEDGE_INCOMING_GSM_SMS_WITH_PDU", "RIL_REQUEST_ACKNOWLEDGE_INCOMING_GSM_SMS_WITH_PDU");
  ("RIL_REQUEST_STK_SEND_ENVELOPE_WITH_STATUS", "RIL_REQUEST_STK_SEND_ENVELOPE_WITH_STATUS");
  ("RIL_REQUEST_VOICE_RADIO_TECH", "VOICE_RADIO_TECH");
  ("RIL_REQUEST_GET_CELL_INFO_LIST", "GET_CELL_INFO_LIST");
  ("RIL_REQUEST_SET_UNSOL_CELL_INFO_LIST_RATE", "SET_UNSOL_CELL_INFO_LIST_RATE");
  ("RIL_REQUEST_SET_INITIAL_ATTACH_APN", "RIL_REQUEST_SET_INITIAL_ATTACH_APN");
  ("RIL_REQUEST_IMS_REGISTRATION_STATE", "IMS_REGISTRATION_STATE");
  ("RIL_REQUEST_IMS_SEND_SMS", "IMS_SEND_SMS");
  ("RIL_REQUEST_SIM_TRANSMIT_APDU_BASIC", "SIM_TRANSMIT_APDU_BASIC");
  ("RIL_REQUEST_SIM_OPEN_CHANNEL", "SIM_OPEN_CHANNEL");
  ("RIL_REQUEST_SIM_CLOSE_CHANNEL", "SIM_CLOSE_CHANNEL");
  ("RIL_REQUEST_SIM_TRANSMIT_APDU_CHANNEL", "SIM_TRANSMIT_APDU_CHANNEL");
  ("RIL_REQUEST_GET_RADIO_CAPABILITY", "RIL_REQUEST_GET_RADIO_CAPABILITY");
  ("RIL_REQUEST_SET_RADIO_CAPABILITY", "RIL_REQUEST_SET_RADIO_CAPABILITY");
  ("RIL_REQUEST_SET_UICC_SUBSCRIPTION", "SET_UICC_SUBSCRIPTION");
  ("RIL_REQUEST_ALLOW_DATA", "ALLOW_DATA");
  ("RIL_REQUEST_GET_HARDWARE_CONFIG", "GET_HARDWARE_CONFIG");
  ("RIL_REQUEST_SIM_AUTHENTICATION", "SIM_AUTHENTICATION");
  ("RIL_REQUEST_GET_DC_RT_INFO", "GET_DC_RT_INFO");
  ("RIL_REQUEST_SET_DC_RT_INFO_RATE", "SET_DC_RT_INFO_RATE");
  ("RIL_REQUEST_SET_DATA_PROFILE", "SET_DATA_PROFILE");
  ("RIL_UNSOL_RESPONSE_RADIO_STATE_CHANGED", "UNSOL_RESPONSE_RADIO_STATE_CHANGED");
  ("RIL_UNSOL_RESPONSE_CALL_STATE_CHANGED", "UNSOL_RESPONSE_CALL_STATE_CHANGED");
  ("RIL_UNSOL_RESPONSE_VOICE_NETWORK_STATE_CHANGED", "UNSOL_RESPONSE_VOICE_NETWORK_STATE_CHANGED");
  ("RIL_UNSOL_RESPONSE_NEW_SMS", "UNSOL_RESPONSE_NEW_SMS");
  ("RIL_UNSOL_RESPONSE_NEW_SMS_STATUS_REPORT", "UNSOL_RESPONSE_NEW_SMS_STATUS_REPORT");
  ("RIL_UNSOL_RESPONSE_NEW_SMS_ON_SIM", "UNSOL_RESPONSE_NEW_SMS_ON_SIM");
  ("RIL_UNSOL_ON_USSD", "UNSOL_ON_USSD");
  ("RIL_UNSOL_ON_USSD_REQUEST", "UNSOL_ON_USSD_REQUEST(obsolete)");
  ("RIL_UNSOL_NITZ_TIME_RECEIVED", "UNSOL_NITZ_TIME_RECEIVED");
  ("RIL_UNSOL_SIGNAL_STRENGTH", "UNSOL_SIGNAL_STRENGTH");
  ("RIL_UNSOL_DATA_CALL_LIST_CHANGED", "UNSOL_DATA_CALL_LIST_CHANGED");
  ("RIL_UNSOL_SUPP_SVC_NOTIFICATION", "UNSOL_SUPP_SVC_NOTIFICATION");
  ("RIL_UNSOL_STK_SESSION_END", "UNSOL_STK_SESSION_END");
  ("RIL_UNSOL_STK_PROACTIVE_COMMAND", "UNSOL_STK_PROACTIVE_COMMAND");
  ("RIL_UNSOL_STK_EVENT_NOTIFY", "UNSOL_STK_EVENT_NOTIFY");
  ("RIL_UNSOL_STK_CALL_SETUP", "UNSOL_STK_CALL_SETUP");
  ("RIL_UNSOL_SIM_SMS_STORAGE_FULL", "UNSOL_SIM_SMS_STORAGE_FUL");
  ("RIL_UNSOL_SIM_REFRESH", "UNSOL_SIM_REFRESH");
  ("RIL_UNSOL_CALL_RING", "UNSOL_CALL_RING");
  ("RIL_UNSOL_RESPONSE_SIM_STATUS_CHANGED", "UNSOL_RESPONSE_SIM_STATUS_CHANGED");
  ("RIL_UNSOL_RESPONSE_CDMA_NEW_SMS", "UNSOL_NEW_CDMA_SMS");
  ("RIL_UNSOL_RESPONSE_NEW_BROADCAST_SMS", "UNSOL_NEW_BROADCAST_SMS");
  ("RIL_UNSOL_CDMA_RUIM_SMS_STORAGE_FULL", "UNSOL_CDMA_RUIM_SMS_STORAGE_FULL");
  ("RIL_UNSOL_RESTRICTED_STATE_CHANGED", "UNSOL_RESTRICTED_STATE_CHANGED");
  ("RIL_UNSOL_ENTER_EMERGENCY_CALLBACK_MODE", "UNSOL_ENTER_EMERGENCY_CALLBACK_MODE");
  ("RIL_UNSOL_CDMA_CALL_WAITING", "UNSOL_CDMA_CALL_WAITING");
  ("RIL_UNSOL_CDMA_OTA_PROVISION_STATUS", "UNSOL_CDMA_OTA_PROVISION_STATUS");
  ("RIL_UNSOL_CDMA_INFO_REC", "UNSOL_CDMA_INFO_REC");
  ("RIL_UNSOL_OEM_HOOK_RAW", "UNSOL_OEM_HOOK_RAW");
  ("RIL_UNSOL_RINGBACK_TONE", "UNSOL_RINGBACK_TONE");
  ("RIL_UNSOL_RESEND_INCALL_MUTE", "UNSOL_RESEND_INCALL_MUTE");
  ("RIL_UNSOL_CDMA_SUBSCRIPTION_SOURCE_CHANGED", "UNSOL_CDMA_SUBSCRIPTION_SOURCE_CHANGED");
  ("RIL_UNSOL_CDMA_PRL_CHANGED", "UNSOL_CDMA_PRL_CHANGED");
  ("RIL_UNSOL_EXIT_EMERGENCY_CALLBACK_MODE", "UNSOL_EXIT_EMERGENCY_CALLBACK_MODE");
  ("RIL_UNSOL_RIL_CONNECTED", "UNSOL_RIL_CONNECTED");
  ("RIL_UNSOL_VOICE_RADIO_TECH_CHANGED", "UNSOL_VOICE_RADIO_TECH_CHANGED");
  ("RIL_UNSOL_CELL_INFO_LIST", "UNSOL_CELL_INFO_LIST");
  ("RIL_UNSOL_RESPONSE_IMS_NETWORK_STATE_CHANGED", "RESPONSE_IMS_NETWORK_STATE_CHANGED");
  ("RIL_UNSOL_UICC_SUBSCRIPTION_STATUS_CHANGED", "UNSOL_UICC_SUBSCRIPTION_STATUS_CHANGED");
  ("RIL_UNSOL_SRVCC_STATE_NOTIFY", "UNSOL_SRVCC_STATE_NOTIFY");
  ("RIL_UNSOL_HARDWARE_CONFIG_CHANGED", "HARDWARE_CONFIG_CHANGED");
  ("RIL_UNSOL_DC_RT_INFO_CHANGED", "UNSOL_DC_RT_INFO_CHANGED");
  ("RIL_UNSOL_RADIO_CAPABILITY", "UNSOL_RADIO_CAPABILITY");
  ("RIL_UNSOL_ON_SS", "UNSOL_ON_SS");
  ("RIL_UNSOL_STK_CC_ALPHA_NOTIFY", "UNSOL_STK_CC_ALPHA_NOTIFY");
  ("RIL_REQUEST_SHUTDOWN", "SHUTDOWN")
]%string.

Definition requestToString (request : Z) : string := name_of request_names "<unknown request>" request.

Definition rilSocketIdToString (socket_id : Z) : string :=
  if socket_id =? ril "RIL_SOCKET_1" then "RIL_SOCKET_1" else "not a valid RIL".

End Names.

(** ** The tables and the names *)

Import Wire.

(** Commands and notifications of the tables that have no name. *)
Definition unnamed_commands : list nat :=
  omap (fun ic => if (0 <? requestNumber ic.2) && (requestNumber ic.2 =? Z.of_nat ic.1) && bool_decide (requestToString (Z.of_nat ic.1) = "<unknown request>"%string) then Some ic.1 else None)
    (imap (fun i (c : CommandInfo) => (i, c)) s_commands).
Definition unnamed_notifications : list Z :=
  omap (fun u => if bool_decide (requestToString (unsolNumber u) = "<unknown request>"%string) then Some (unsolNumber u) else None) s_unsolResponses.

(** Setting the notification of supplementary services, writing and deleting
    messages on the SIM, activating broadcasts; and the data of the link
    capacity. *)
Lemma names_missing : unnamed_commands = [62; 63; 64; 91]%nat /\ unnamed_notifications = [1045].
Proof. vm_compute. split; reflexivity. Qed.

(** The name that the command in the comment of [requestToString] derives from
    a constant, for requests without "REQUEST_". *)
Definition derived_name (constant : string) : string :=
  if String.prefix "RIL_REQUEST_" constant then String.substring 12 (String.length constant - 12) constant
  else String.substring 4 (String.length constant - 4) constant.

(** The names that differ from it. *)
Definition other_names : list (string * string) :=
  List.filter (fun e => negb (String.eqb (derived_name e.1) e.2)) request_names.

Lemma names_derived : length request_names = 168%nat /\ map snd other_names =
  ["QUERY_AVAILABLE_NETWORKS "; "RIL_REQUEST_ACKNOWLEDGE_INCOMING_GSM_SMS_WITH_PDU"; "RIL_REQUEST_STK_SEND_ENVELOPE_WITH_STATUS";
   "RIL_REQUEST_SET_INITIAL_ATTACH_APN"; "RIL_REQUEST_GET_RADIO_CAPABILITY"; "RIL_REQUEST_SET_RADIO_CAPABILITY";
   "UNSOL_ON_USSD_REQUEST(obsolete)"; "UNSOL_SIM_SMS_STORAGE_FUL"; "UNSOL_NEW_CDMA_SMS"; "UNSOL_NEW_BROADCAST_SMS"; "RESPONSE_IMS_NETWORK_STATE_CHANGED";
   "HARDWARE_CONFIG_CHANGED"]%string.
Proof. vm_compute. split; reflexivity. Qed.
