(* ===== verification/RilDebug.v ===== *)
(** * libril/ril.cpp: the debug port

    [debugCallback] reads a number of arguments from a connection of the debug
    socket and issues local requests.  Its state adds to the one of the RIL
    what the connection still delivers, whether the accepted descriptor is
    open, and the number of blocks that the callback has allocated. *)

From S2P Require Import Prelude Parcel RilTypes RilResponse RilTables RilCore.

(** [input]: what the calls of [recv] return: an error, or bytes of which a
    call takes at most as many as it asks for; at the end of the list the peer
    has closed the connection. *)
Record dstate : Type := DS { d_ril : rstate; input : list (option bytes); accepted : bool; blocks : Z }.

Abbreviation D := (M dstate).

Definition with_ril (r : rstate) (s : dstate) : dstate := DS r (input s) (accepted s) (blocks s).
Definition with_input (i : list (option bytes)) (s : dstate) : dstate := DS (d_ril s) i (accepted s) (blocks s).
Definition with_accepted (a : bool) (s : dstate) : dstate := DS (d_ril s) (input s) a (blocks s).
Definition with_blocks (n : Z) (s : dstate) : dstate := DS (d_ril s) (input s) (accepted s) n.

Definition update (f : dstate -> dstate) : D unit := fun s => Ret (tt, f s).

(** A function of the RIL. *)
Definition on_ril (m : M rstate unit) : D unit := fun s =>
  match m (d_ril s) with
  | Ret (_, r) => Ret (tt, with_ril r s)
  | Abort => Abort
  | Fault => Fault
  end.

(** [recv] returns a count or -1, and the bytes. *)
Definition recv (n : Z) : D (Z * bytes) := fun s =>
  match input s with
  | [] => Ret ((0, []), s)
  | None :: r => Ret ((-1, []), with_input r s)
  | Some c :: r =>
      let got := take (Z.to_nat n) c in
      let rest := drop (Z.to_nat n) c in
      Ret ((Z.of_nat (length got), got), with_input (if bool_decide (rest = []) then r else Some rest :: r) s)
  end.

(** [atoi]: white space, a sign, digits up to the first other character. *)
Definition is_space (c : Z) : bool := (c =? 32) || ((9 <=? c) && (c <=? 13)).
Definition is_digit (c : Z) : bool := (48 <=? c) && (c <=? 57).
Fixpoint skip_space (l : bytes) : bytes :=
  match l with c :: r => if is_space c then skip_space r else l | [] => [] end.
Fixpoint digits (acc : Z) (l : bytes) : Z :=
  match l with c :: r => if is_digit c then digits (s32 (acc * 10 + (c - 48))) r else acc | [] => acc end.
Definition atoi (l : bytes) : Z :=
  match skip_space l with
  | 45 :: r => s32 (- digits 0 r)
  | 43 :: r => digits 0 r
  | r => digits 0 r
  end.

(** A C string ends at its first zero. *)
Fixpoint c_string (l : bytes) : bytes :=
  match l with c :: r => if c =? 0 then [] else c :: c_string r | [] => [] end.

Section Debug.
Context {P : ParcelOps} {H : RilHeader} {HP : Heap}.

(** Which sizes [malloc] can serve; the contents of [dialData.uusInfo], which
    is not initialised. *)
Variable malloc_ok : Z -> bool.
Variable junk_uus : option RIL_UUS_Info.

(** [malloc] of [n] bytes in 32 bits: whether it succeeded. *)
Definition malloc (n : Z) : D bool := fun s =>
  if malloc_ok (n mod 2 ^ 32) then Ret (true, with_blocks (blocks s + 1) s) else Ret (false, s).

(** [free] of a pointer that is not null. *)
Definition free_block : D unit := update (fun s => with_blocks (blocks s - 1) s).

(** [args] has the entries that were set, none of which is null; the others
    are not initialised.  [array]: the array itself was allocated. *)
Fixpoint free_entries (number : nat) (args : list bytes) : D unit :=
  match number, args with
  | O, _ => mret tt
  | S _, [] => fault
  | S n, _ :: l => free_block;; free_entries n l
  end.

Definition freeDebugCallbackArgs (number : nat) (array : bool) (args : list bytes) : D unit :=
  free_entries number args;;
  if array then free_block else mret tt.

(** The loop over the arguments; [None] after an error.  [capacity] is the
    number of entries of the array.  A [recv] into a null pointer fails unless
    it asks for nothing, and the terminator is then written through it. *)
Fixpoint read_args (todo : nat) (array : bool) (capacity : Z) (args : list bytes) : D (option (list bytes)) :=
  match todo with
  | O => mret (Some args)
  | S todo' =>
      r ← recv 4;
      if negb (r.1 =? 4) then freeDebugCallbackArgs (length args) array args;; mret None else
      match dec32 r.2 with
      | None => fault
      | Some (len, _) =>
          block ← malloc (len + 1);
          if negb array || (capacity <=? Z.of_nat (length args)) then fault else
          if block : bool then
            r ← recv (len mod 2 ^ 32);
            if (len + 1) mod 2 ^ 32 <? r.1 then fault else
            if negb (r.1 =? len) then freeDebugCallbackArgs (length args) array args;; mret None else
            if len <? 0 then fault else
            read_args todo' array capacity (args ++ [r.2])
          else if (len =? -1) || (len =? 0) then fault
          else freeDebugCallbackArgs (length args) array args;; mret None
      end
  end.

(** [args[i]] as a string. *)
Definition arg (args : list bytes) (i : nat) : D bytes :=
  match args !! i with Some a => mret (c_string a) | None => fault end.

Definition local_request (name : string) (data : request_data) (len : Z) : D unit :=
  on_ril (issueLocalRequest (Z.to_nat (ril name)) data len).

(** [close (s_ril_param_socket.fdCommand)]. *)
Definition close_command : D unit := fun s =>
  let k := sock (d_ril s) in
  if 0 <? fdCommand k then
    Ret (tt, with_ril (with_sock (Sock (-1) false (wire k) (io k)) (listening (d_ril s)) (d_ril s)) s)
  else Ret (tt, s).

Definition qxdm_data (mode : Z) : list Z := [65536; 16; mode; 32; 0; 8].

(** The command is the first argument; the last one, the SIM, selects the only
    socket whatever it is. *)
Definition debug_command (args : list bytes) : D unit :=
  a ← arg args 0;
  match atoi a with
  | 0 => local_request "RIL_REQUEST_RESET_RADIO" D_null 0
  | 1 => local_request "RIL_REQUEST_RADIO_POWER" (D_ints [0]) sizeof_int;; close_command
  | 2 => on_ril (RIL_onUnsolicitedResponse (ril "RIL_UNSOL_RESPONSE_VOICE_NETWORK_STATE_CHANGED") R_null 0)
  | 3 => local_request "RIL_REQUEST_OEM_HOOK_RAW" (D_ints (qxdm_data 1)) (6 * sizeof_int)
  | 4 => local_request "RIL_REQUEST_OEM_HOOK_RAW" (D_ints (qxdm_data 0)) (6 * sizeof_int)
  | 5 => local_request "RIL_REQUEST_RADIO_POWER" (D_ints [1]) sizeof_int;;
         local_request "RIL_REQUEST_SET_NETWORK_SELECTION_AUTOMATIC" D_null 0
  | 6 => apn ← arg args 1; local_request "RIL_REQUEST_SETUP_DATA_CALL" (D_strings (Some [Some apn])) sizeof_ptr
  | 7 => local_request "RIL_REQUEST_DEACTIVATE_DATA_CALL" (D_strings (Some [Some (49 :: nil)])) sizeof_ptr
  | 8 => number ← arg args 1; local_request "RIL_REQUEST_DIAL" (D_dial (Dial (Some number) 0 junk_uus)) (sizeof "RIL_Dial")
  | 9 => local_request "RIL_REQUEST_ANSWER" D_null 0
  | 10 => local_request "RIL_REQUEST_HANGUP" (D_ints [1]) sizeof_int
  | _ => mret tt
  end.

(** [acceptFD] is what [accept] returned. *)
Definition debugCallback (acceptFD : Z) : D unit :=
  if acceptFD <? 0 then mret tt else
  update (with_accepted true);;
  r ← recv 4;
  if negb (r.1 =? 4) then mret tt else
  match dec32 r.2 with
  | None => fault
  | Some (number, _) =>
      array ← malloc (4 * number);
      args ← read_args (Z.to_nat number) array (4 * number mod 2 ^ 32 / 4) [];
      match args with
      | None => mret tt
      | Some args =>
          debug_command args;;
          freeDebugCallbackArgs (Z.to_nat number) array args;;
          update (with_accepted false)
      end
  end.

End Debug.
