(* ===== verification/RilDebugProps.v ===== *)
(** * The debug port: what a complete command does, and what others do

    A command that arrives complete issues its local requests and leaves
    nothing behind; the runs show what happens when arguments are missing or
    the connection ends early. *)

From S2P Require Import Prelude Parcel RilTypes RilResponse RilTables RilCore RilDispatch RilSystem RilRef RilDebug.

(** ** Commands on the wire *)

(** A connection that delivers these bytes and is closed. *)
Definition stream (c : bytes) : list (option bytes) := if bool_decide (c = []) then [] else [Some c].

Lemma recv_stream n c r acc bl :
  0 <= n <= Z.of_nat (length c) ->
  recv n (DS r (stream c) acc bl) = Ret ((n, take (Z.to_nat n) c), DS r (stream (drop (Z.to_nat n) c)) acc bl).
Proof.
  intros Hn. unfold recv, stream. simpl. case_bool_decide as Hc.
  - subst c. simpl in *. rewrite take_nil, drop_nil. by replace n with 0 by lia.
  - rewrite length_take, Nat.min_l by lia. rewrite Z2Nat.id by lia. done.
Qed.

Lemma recv_front a c r acc bl :
  recv (Z.of_nat (length a)) (DS r (stream (a ++ c)) acc bl) = Ret ((Z.of_nat (length a), a), DS r (stream c) acc bl).
Proof. rewrite recv_stream by (rewrite length_app; lia). by rewrite Nat2Z.id, take_app_length, drop_app_length. Qed.

Section Debug.
Context {P : ParcelOps} {PL : ParcelLaws P} {H : RilHeader} {HP : Heap}.
Variable malloc_ok : Z -> bool.
Variable junk_uus : option RIL_UUS_Info.
Hypothesis has_memory : forall n, malloc_ok n = true.

Definition frame (a : bytes) : bytes := enc32 (Z.of_nat (length a)) ++ a.
Definition debug_message (args : list bytes) : bytes := enc32 (Z.of_nat (length args)) ++ concat (map frame args).

(** An argument fits an [int]. *)
Definition arg_ok (a : bytes) : Prop := Z.of_nat (length a) < 2 ^ 31 - 1.

Lemma debug_malloc_run n s : malloc malloc_ok n s = Ret (true, with_blocks (blocks s + 1) s).
Proof. unfold malloc. by rewrite has_memory. Qed.

Lemma recv_int x c r acc bl : recv 4 (DS r (stream (enc32 x ++ c)) acc bl) = Ret ((4, enc32 x), DS r (stream c) acc bl).
Proof. pose proof (recv_front (enc32 x) c r acc bl) as E. rewrite enc32_length in E. exact E. Qed.

Lemma dec32_int x : - 2 ^ 31 <= x < 2 ^ 31 -> dec32 (enc32 x) = Some (x, []).
Proof. intros Hx. pose proof (dec32_enc32 x []) as E. rewrite app_nil_r in E. by rewrite E, s32_small. Qed.

Lemma read_args_run todo args done capacity r acc bl :
  length todo = args -> Forall arg_ok todo -> Z.of_nat (length done + length todo) <= capacity ->
  read_args malloc_ok args true capacity done (DS r (stream (concat (map frame todo))) acc bl) =
    Ret (Some (done ++ todo), DS r [] acc (bl + Z.of_nat (length todo))).
Proof.
  intros <-. revert done bl. induction todo as [|a todo IH]; intros done bl Hok Hc; simpl.
  - rewrite app_nil_r, Z.add_0_r. done.
  - apply Forall_cons in Hok as [Ha Hok]. unfold arg_ok in Ha. simpl in Hc. unfold frame at 1. rewrite <- app_assoc.
    rewrite (bind_run _ _ _ _ _ (recv_int _ _ _ _ _)). simpl. rewrite dec32_int by lia.
    rewrite (bind_run _ _ _ _ _ (debug_malloc_run _ _)). unfold with_blocks. simpl. rewrite (proj2 (Z.leb_gt _ _)) by lia.
    rewrite (Z.mod_small (Z.of_nat (length a))) by lia. rewrite (bind_run _ _ _ _ _ (recv_front _ _ _ _ _)). simpl.
    rewrite (Z.mod_small (_ + 1)) by lia. rewrite (proj2 (Z.ltb_ge _ _)) by lia. rewrite Z.eqb_refl. simpl.
    rewrite (proj2 (Z.ltb_ge _ _)) by lia. rewrite IH by (done || (rewrite length_app; simpl; lia)).
    rewrite <- app_assoc. simpl. do 3 f_equal. lia.
Qed.

Lemma free_entries_run args r acc bl :
  free_entries (length args) args (DS r [] acc bl) = Ret (tt, DS r [] acc (bl - Z.of_nat (length args))).
Proof.
  revert bl. induction args as [|a args IH]; intros bl; simpl; [by rewrite Z.sub_0_r|].
  unfold free_block, update, mbind, M_bind, with_blocks. simpl. rewrite IH. do 3 f_equal. lia.
Qed.

(** ** What the commands do *)

(** The local requests of a command; the second argument is the APN or the
    number. *)
Definition debug_requests (command : Z) (second : bytes) : list (string * request_data * Z) :=
  match command with
  | 0 => [("RIL_REQUEST_RESET_RADIO", D_null, 0)]
  | 1 => [("RIL_REQUEST_RADIO_POWER", D_ints [0], 4)]
  | 3 => [("RIL_REQUEST_OEM_HOOK_RAW", D_ints [65536; 16; 1; 32; 0; 8], 24)]
  | 4 => [("RIL_REQUEST_OEM_HOOK_RAW", D_ints [65536; 16; 0; 32; 0; 8], 24)]
  | 5 => [("RIL_REQUEST_RADIO_POWER", D_ints [1], 4); ("RIL_REQUEST_SET_NETWORK_SELECTION_AUTOMATIC", D_null, 0)]
  | 6 => [("RIL_REQUEST_SETUP_DATA_CALL", D_strings (Some [Some second]), 4)]
  | 7 => [("RIL_REQUEST_DEACTIVATE_DATA_CALL", D_strings (Some [Some [49]]), 4)]
  | 8 => [("RIL_REQUEST_DIAL", D_dial (Dial (Some second) 0 junk_uus), sizeof "RIL_Dial")]
  | 9 => [("RIL_REQUEST_ANSWER", D_null, 0)]
  | 10 => [("RIL_REQUEST_HANGUP", D_ints [1], 4)]
  | _ => []
  end%string.

Definition called (c : vendor_call) : Z * request_data * Z := (vc_request c, vc_data c, vc_datalen c).
Definition request_call (q : string * request_data * Z) : Z * request_data * Z := (Z.of_nat (Z.to_nat (ril q.1.1)), q.1.2, q.2).

(** The requests were issued and nothing else of the callback changed. *)
Definition issued (l : list (string * request_data * Z)) (s s' : dstate) : Prop :=
  map called (calls (d_ril s')) = map called (calls (d_ril s)) ++ map request_call l /\
  input s' = input s /\ accepted s' = accepted s /\ blocks s' = blocks s.

Lemma local_request_run name data len s : exists s', local_request name data len s = Ret (tt, s') /\ issued [(name, data, len)] s s'.
Proof.
  eexists. split; [reflexivity|]. unfold issued. simpl. split; [|done]. by rewrite map_app.
Qed.

Lemma issued_app l l' s s1 s2 : issued l s s1 -> issued l' s1 s2 -> issued (l ++ l') s s2.
Proof.
  intros (E1 & E2 & E3 & E4) (F1 & F2 & F3 & F4). unfold issued. rewrite F1, E1, map_app, app_assoc. split; [done|].
  split_and!; congruence.
Qed.

Lemma close_command_run s : exists s', close_command s = Ret (tt, s') /\ issued [] s s'.
Proof. unfold close_command, issued. destruct (0 <? _); eexists; (split; [reflexivity|]); simpl; by rewrite app_nil_r. Qed.

Lemma debug_command_run a second rest s :
  atoi (c_string a) <> 2 ->
  exists s', debug_command junk_uus (a :: second :: rest) s = Ret (tt, s') /\
    issued (debug_requests (atoi (c_string a)) (c_string second)) s s'.
Proof.
  intros H2. unfold debug_command, arg. simpl. unfold mbind at 1, M_bind at 1. simpl.
  assert (Hone : forall name data len, exists s', local_request name data len s = Ret (tt, s') /\ issued [(name, data, len)] s s')
    by (intros; apply local_request_run).
  assert (Hnil : exists s', (mret tt : M dstate unit) s = Ret (tt, s') /\ issued [] s s')
    by (exists s; unfold issued; simpl; by rewrite app_nil_r).
  assert (Htwo : forall q (m : M dstate unit) l, (forall s1, exists s', m s1 = Ret (tt, s') /\ issued l s1 s') ->
    exists s', (local_request q.1.1 q.1.2 q.2;; m) s = Ret (tt, s') /\ issued (q :: l) s s').
  { intros [[name data] len] m l Hm. destruct (Hone name data len) as (s1 & E & I1). destruct (Hm s1) as (s2 & E2 & I2).
    exists s2. simpl.
    rewrite (bind_run _ _ _ _ _ E). split; [done|]. by apply (issued_app [(name, data, len)] l s s1 s2). }
  destruct (atoi (c_string a)) as [|p|p]; [apply Hone| |done].
  destruct p as [[[p|p|]|[p|p|]|]|[[p|p|]|[p|p|]|]|]; try done; try (destruct p as [p|p|]; try done);
    unfold debug_requests; try apply Hone; try (apply (Htwo (_, _, _)); intros s1; first [apply close_command_run|apply local_request_run]).
Qed.

(** A complete command with at least two arguments issues its requests to the
    vendor library, and the callback frees what it allocated and closes the
    connection. *)
Theorem debug_command_served fd a second rest r acc bl :
  0 <= fd -> Forall arg_ok (a :: second :: rest) -> Z.of_nat (length rest) < 2 ^ 28 -> atoi (c_string a) <> 2 ->
  exists r', debugCallback malloc_ok junk_uus fd (DS r (stream (debug_message (a :: second :: rest))) acc bl) = Ret (tt, DS r' [] false bl) /\
    map called (calls r') = map called (calls r) ++ map request_call (debug_requests (atoi (c_string a)) (c_string second)).
Proof.
  intros Hfd Hok Hn H2. set (args := a :: second :: rest) in *.
  assert (Hl : Z.of_nat (length args) = Z.of_nat (length rest) + 2) by (unfold args; simpl; lia).
  assert (Hcap : Z.of_nat (length (@nil bytes) + length args) <= 4 * Z.of_nat (length args) mod 2 ^ 32 / 4)
    by (rewrite Z.mod_small by lia; rewrite Z.mul_comm, Z.div_mul by lia; simpl; lia).
  unfold debugCallback. rewrite (proj2 (Z.ltb_ge _ _)) by done. unfold debug_message.
  unfold mbind at 1, M_bind at 1, update at 1, with_accepted. simpl. rewrite (bind_run _ _ _ _ _ (recv_int _ _ _ _ _)). simpl.
  rewrite dec32_int by lia. rewrite (bind_run _ _ _ _ _ (debug_malloc_run _ _)). unfold with_blocks. simpl. rewrite Nat2Z.id.
  rewrite (bind_run _ _ _ _ _ (read_args_run args (length args) [] _ r true (bl + 1) eq_refl Hok Hcap)).
  rewrite app_nil_l.
  destruct (debug_command_run a second rest (DS r [] true (bl + 1 + Z.of_nat (length args))) H2) as ([r' i' acc' bl'] & E & (Ec & Ei & Ea & Eb)).
  simpl in Ei, Ea, Eb. subst i' acc' bl'. exists r'. split; [|exact Ec]. fold args in E. rewrite (bind_run _ _ _ _ _ E).
  unfold freeDebugCallbackArgs. rewrite (bind_run _ _ _ (DS r' [] true bl) tt); [done|].
  rewrite (bind_run _ _ _ _ _ (free_entries_run args r' true (bl + 1 + Z.of_nat (length args)))).
  unfold free_block, update, with_blocks. simpl. do 3 f_equal. lia.
Qed.

End Debug.

(** ** After a power-off command *)

Section Deaf.
Context {P : ParcelOps} {H : RilHeader} {HP : Heap}.
Variable junk : Z.
Variable stack_limit : Z.

(** The RIL is registered, has no client, does not wait for one, and the last
    client has received [w]. *)
Definition deaf (w : bytes) (s : rstate) : Prop :=
  s_registerCalled s = true /\ fdCommand (sock s) = -1 /\ listening s = false /\ wire (sock s) = w.

Definition same_socket (s s' : rstate) : Prop :=
  sock s' = sock s /\ listening s' = listening s /\ s_registerCalled s' = s_registerCalled s.

Section Keeps.
Variable w : bytes.

Lemma deaf_same s s' : same_socket s s' -> deaf w s -> deaf w s'.
Proof. unfold deaf. intros (-> & -> & ->). done. Qed.

Lemma deaf_modify f : (forall s, same_socket s (f s)) -> keeps (deaf w) (modify f).
Proof. intros Hf. apply keeps_modify. intros s. by apply deaf_same. Qed.

Lemma deaf_send d : keeps (deaf w) (sendResponse d).
Proof.
  intros s a s' Hd. unfold sendResponse, sendResponseRaw, get, mbind, M_bind. simpl.
  destruct Hd as (Hr & Hf & Hl & Hw). rewrite Hf. simpl. by intros [= _ <-].
Qed.

Lemma deaf_update a f : keeps (deaf w) (update_req a f).
Proof. intros s u s' Hd. unfold update_req. destruct (reqs s !! a); [|done]. intros [= _ <-]. exact Hd. Qed.

Lemma deaf_free a : keeps (deaf w) (free_req a).
Proof. intros s u s' Hd. unfold free_req. destruct (reqs s !! a); [|done]. intros [= _ <-]. exact Hd. Qed.

Lemma deaf_dequeue fuel a pp : keeps (deaf w) (dequeue_loop fuel a pp).
Proof.
  pose proof deaf_update.
  assert (forall pp n, keeps (deaf w) (write_link pp n)) by (intros [x|] n; unfold write_link; [apply deaf_update|by apply deaf_modify]).
  revert pp. induction fuel as [|fuel IH]; intros pp; simpl; [done|]. unfold read_link. keeps_tac.
Qed.

Lemma deaf_complete t e r len : keeps (deaf w) (RIL_onRequestComplete t e r len).
Proof.
  unfold RIL_onRequestComplete, checkAndDequeueRequestInfo. pose proof deaf_dequeue. pose proof deaf_send. pose proof deaf_free.
  keeps_tac.
Qed.

Lemma deaf_timed cb p : keeps (deaf w) (internalRequestTimedCallback cb p).
Proof. intros s a s' Hd [= _ <-]. exact Hd. Qed.

Lemma deaf_schedule : keeps (deaf w) scheduleWakeTimeout.
Proof. unfold scheduleWakeTimeout. pose proof deaf_timed. keeps_tac; by apply deaf_modify. Qed.

Lemma deaf_radioState u st : (forall a b c, keeps (deaf w) (u a b c)) -> keeps (deaf w) (processRadioState u st).
Proof. intros Hu. unfold processRadioState. keeps_tac; by apply deaf_modify. Qed.

Lemma deaf_unsolicited fuel u r len : keeps (deaf w) (unsolicited fuel u r len).
Proof.
  revert u r len. induction fuel as [|fuel IH]; intros u r len; [done|]. cbn [unsolicited].
  pose proof deaf_schedule. pose proof deaf_send. pose proof (deaf_radioState _ 0 IH) as _.
  assert (forall st, keeps (deaf w) (processRadioState (unsolicited fuel) st)) by (intros; by apply deaf_radioState).
  unfold grabPartialWakeLock, releaseWakeLock, more_payload, deliver. keeps_tac; by apply deaf_modify.
Qed.

Lemma deaf_local q d len : keeps (deaf w) (issueLocalRequest q d len).
Proof.
  unfold issueLocalRequest, onRequest. apply keeps_bind; [|intros a; by apply deaf_modify]. intros s a s' Hd [= _ <-]. exact Hd.
Qed.

Lemma deaf_timer a : keeps (deaf w) (userTimerCallback a).
Proof. unfold userTimerCallback, run_callback, releaseWakeLock. keeps_tac; by apply deaf_modify. Qed.

Lemma deaf_step x y : ril_step junk stack_limit x y -> deaf w x.1 -> deaf w y.1.
Proof.
  intros [s rc nd v f d s' E|s rc fd peer results s' El E|s rc records closed s' [_ Hc] E|s rc t e r len s' E|s rc u r len s' E
    |s rc q d len s' E|s rc f p s' E|s rc a s' _ E|s rc radio clock] Hd; simpl in *.
  - unfold RIL_register in E. destruct v as [v|]; [|by injection E as <-]. destruct (negb _); [by injection E as <-|].
    unfold get, mbind, M_bind in E. rewrite (proj1 Hd) in E. by injection E as <-.
  - destruct Hd as (_ & _ & Hl & _). congruence.
  - destruct Hd as (_ & Hf & _). rewrite Hf in Hc. lia.
  - by apply deaf_complete in E.
  - by apply deaf_unsolicited in E.
  - by apply deaf_local in E.
  - unfold RIL_requestTimedCallback in E. revert Hd E. apply keeps_bind; [apply deaf_timed|]. intros ?. apply keeps_ret.
  - by apply deaf_timer in E.
  - exact Hd.
Qed.

End Keeps.

(** The power-off command of the debug port closes the connection of a client
    behind its back; no sequence of steps connects a client again, and nothing
    more is written. *)
Lemma power_off_is_deaf args s s' c c' uus rc :
  c_string <$> args !! 0%nat = Some c -> atoi c = 1 ->
  s_registerCalled (d_ril s) = true -> 0 < fdCommand (sock (d_ril s)) -> listening (d_ril s) = false ->
  debug_command uus args s = Ret (tt, s') -> rtc (ril_step junk stack_limit) (d_ril s', rc) c' -> deaf (wire (sock (d_ril s))) c'.1.
Proof.
  intros Ha Hc Hr Hf Hl E Hs. assert (Hd : deaf (wire (sock (d_ril s))) (d_ril s')).
  { unfold debug_command, arg in E. destruct (args !! 0%nat) as [a|]; [|done]. injection Ha as Ha. unfold mbind, M_bind in E.
    cbn in E.
    rewrite Ha, Hc in E. unfold close_command in E. simpl in E. rewrite (proj2 (Z.ltb_lt _ _)) in E by done. injection E as <-.
    unfold deaf. simpl. split_and!; done. }
  change (d_ril s') with (d_ril s', rc).1 in Hd. revert Hd. induction Hs as [|x y z Hxy _ IH]; [done|]. intros Hd.
  by eapply IH, deaf_step.
Qed.

End Deaf.

(** ** Runs *)

Import Wire.

Definition memory (n : Z) : bool := true.
Definition debug_run (message : bytes) : outcome (unit * dstate) :=
  debugCallback memory None 9 (DS (initial 0 0) (stream message) false 0).
Definition debug_line (args : list string) : bytes := debug_message (map lit args).

(** Dialling: one request with the number. *)
Lemma debug_dial_run : exists r,
  debug_run (debug_line ["8"; "123"; "0"]%string) = Ret (tt, DS r [] false 0) /\
  map called (calls r) = [(10, D_dial (Dial (Some (lit "123")) 0 None), 12)].
Proof.
  destruct (debug_command_served memory None (fun _ => eq_refl) 9 (lit "8") (lit "123") [lit "0"] (initial 0 0) false 0) as (r & E & Ec);
    [lia|repeat constructor|done|vm_compute; discriminate|]. exists r. split; [exact E|]. rewrite Ec. vm_compute. reflexivity.
Qed.

(** The number is missing: the array is read behind its end. *)
Lemma debug_missing_number : debug_run (debug_line ["8"]%string) = Fault.
Proof. vm_compute. reflexivity. Qed.

(** No arguments at all. *)
Lemma debug_no_arguments : debug_run (debug_line []) = Fault.
Proof. vm_compute. reflexivity. Qed.

(** The connection ends inside an argument: its block and the descriptor are
    not given back. *)
Lemma debug_truncated_leaks : exists r, debug_run (enc32 1 ++ enc32 3 ++ [56]) = Ret (tt, DS r [] true 1) /\ calls r = [].
Proof. eexists. vm_compute. split; reflexivity. Qed.
