(* ===== verification/RilSockets.v ===== *)
(** * libril/ril.cpp: the names of the sockets

    The daemon listens on one socket per SIM and on one for debugging.  The
    name of the first one can be set; it is copied through arrays of fixed
    sizes.  Characters are numbers, and an array is a list of them. *)

From S2P Require Import Prelude Texts RilTypes RilCore RilSystem.

(** ** Arrays of characters *)

(** [strncpy(dst, s, n)] of a string that ends. *)
Definition strncpy (dst s : list Z) (n : nat) : outcome (list Z) :=
  if (n <=? length dst)%nat then Ret (take n (s ++ replicate n 0) ++ drop n dst) else Fault.

(** The same from an array: [n] characters, or those up to a zero, are read. *)
Definition strncpy_array (dst src : list Z) (n : nat) : outcome (list Z) :=
  match c_string src with
  | Some s => strncpy dst s n
  | None => if (n <=? length src)%nat then strncpy dst src n else Fault
  end.

(** [strlcat(dst, s, size)]. *)
Definition strlcat (dst s : list Z) (size : nat) : outcome (list Z) :=
  match c_string dst with
  | None => Fault
  | Some d => if (size <=? length dst)%nat then
      let text := take (size - 1) (d ++ s) in Ret (text ++ 0 :: drop (S (length text)) dst)
    else Fault
  end.

(** The characters of a text. *)
Definition chars (s : string) : list Z := map (fun c => Z.of_nat (Ascii.nat_of_ascii c)) (String.list_ascii_of_string s).

Definition SOCKET_NAME_RIL : list Z := chars "rild".
Definition SOCKET2_NAME_RIL : list Z := chars "rild2".
Definition SOCKET3_NAME_RIL : list Z := chars "rild3".
Definition SOCKET4_NAME_RIL : list Z := chars "rild4".
Definition SOCKET_NAME_RIL_DEBUG : list Z := chars "rild-debug".

(** The sizes of telephony/ril.h, and the number of SIMs. *)
Class SocketLimits : Type := { MAX_SOCKET_NAME_LENGTH : nat; MAX_DEBUG_SOCKET_NAME_LENGTH : nat; SIM_COUNT : Z }.

(** The control sockets of [init] and what [listen] returns. *)
Class ControlSockets : Type := { android_get_control_socket : list Z -> Z; listen : Z -> Z }.

Section Names.
Context {L : SocketLimits}.

(** An array that is initialised with a text. *)
Definition array_of (size : nat) (s : list Z) : list Z := s ++ replicate (size - length s) 0.

Definition initial_rild : list Z := array_of MAX_SOCKET_NAME_LENGTH SOCKET_NAME_RIL.

Definition RIL_setRilSocketName (s rild : list Z) : outcome (list Z) := strncpy rild s MAX_SOCKET_NAME_LENGTH.

(** The name that [startListen] asks for: ten characters, of which nine are
    copied; [None] for a wrong number. *)
Definition socket_name (socket_id : Z) (rild : list Z) : outcome (option (list Z)) :=
  let array := replicate 10 0 in
  let name src := match strncpy_array array src 9 with Ret a => Ret (c_string a) | Abort => Abort | Fault => Fault end in
  if socket_id =? 0 then name rild
  else if (socket_id =? 1) && (2 <=? SIM_COUNT) then name (SOCKET2_NAME_RIL ++ [0])
  else if (socket_id =? 2) && (3 <=? SIM_COUNT) then name (SOCKET3_NAME_RIL ++ [0])
  else if (socket_id =? 3) && (4 <=? SIM_COUNT) then name (SOCKET4_NAME_RIL ++ [0])
  else Ret None.

(** The name of the debug socket: what follows "rild" in the name of the first
    socket is appended. *)
Definition debug_name (rild : list Z) : outcome (option (list Z)) :=
  match c_string rild with
  | None => Fault
  | Some s =>
      let array := array_of MAX_DEBUG_SOCKET_NAME_LENGTH SOCKET_NAME_RIL_DEBUG in
      if (length SOCKET_NAME_RIL <=? length s)%nat then
        match strlcat array (drop (length SOCKET_NAME_RIL) s) MAX_DEBUG_SOCKET_NAME_LENGTH with
        | Ret a => Ret (c_string a)
        | Abort => Abort
        | Fault => Fault
        end
      else Ret (c_string array)
  end.

Context {C : ControlSockets}.

(** [startListen]: the descriptor to listen on; the daemon exits when there is
    none, and nothing happens for a wrong number. *)
Definition startListen (socket_id : Z) (rild : list Z) : outcome (option Z) :=
  match socket_name socket_id rild with
  | Ret (Some name) =>
      let fdListen := android_get_control_socket name in
      if fdListen <? 0 then Abort else
      if listen fdListen <? 0 then Abort else Ret (Some fdListen)
  | Ret None => Ret None
  | Abort => Abort
  | Fault => Fault
  end.

(** The debug socket in [RIL_register]. *)
Definition start_debug (rild : list Z) : outcome Z :=
  match debug_name rild with
  | Ret (Some name) =>
      let s_fdDebug := android_get_control_socket name in
      if s_fdDebug <? 0 then Abort else
      if listen s_fdDebug <? 0 then Abort else Ret s_fdDebug
  | Ret None => Fault
  | Abort => Abort
  | Fault => Fault
  end.

End Names.

(** [RIL_setcallbacks]: the vendor functions, here their version, are
    replaced. *)
Definition RIL_setcallbacks (v : Z) : R unit := modify (fun s => with_register (s_registerCalled s) v s).

(** ** Names that fit *)

Lemma c_string_array s n : no_zero s -> (length s < n)%nat -> c_string (array_of n s) = Some s.
Proof.
  intros Hs Hn. unfold array_of. replace (n - length s)%nat with (S (n - length s - 1)) by lia. by apply c_string_zero.
Qed.

Lemma strncpy_fits dst s n : no_zero s -> (length s < n <= length dst)%nat ->
  exists a, strncpy dst s n = Ret a /\ c_string a = Some s /\ length a = length dst.
Proof.
  intros Hs Hn. unfold strncpy. destruct (Nat.leb_spec n (length dst)); [|lia]. eexists. split; [reflexivity|].
  rewrite take_app_ge by lia. replace (n - length s)%nat with (S (n - length s - 1)) by lia.
  destruct n as [|n]; [lia|]. cbn [replicate take]. rewrite <- app_assoc. cbn [app]. split; [by apply c_string_zero|].
  rewrite !length_app. cbn [length]. rewrite length_app, length_take, length_replicate, length_drop. lia.
Qed.

Section Fits.
Context {L : SocketLimits}.

(** A name that is shorter than its array, and than ten characters, is the one
    that the daemon listens on, and the debug socket has the same suffix if
    that fits. *)
Lemma set_name_is_used name rild : length rild = MAX_SOCKET_NAME_LENGTH -> no_zero name -> (length name < MAX_SOCKET_NAME_LENGTH)%nat ->
  exists rild', RIL_setRilSocketName name rild = Ret rild' /\ length rild' = MAX_SOCKET_NAME_LENGTH /\
    ((length name < 9)%nat -> socket_name 0 rild' = Ret (Some name)) /\
    ((4 <= length name)%nat -> (length name + 6 < MAX_DEBUG_SOCKET_NAME_LENGTH)%nat ->
      debug_name rild' = Ret (Some (SOCKET_NAME_RIL_DEBUG ++ drop 4 name))).
Proof.
  intros Hr Hn Hl. destruct (strncpy_fits rild name MAX_SOCKET_NAME_LENGTH Hn ltac:(lia)) as (a & Ha & Hc & Hal).
  exists a. split; [exact Ha|]. split; [lia|]. split.
  - intros H9. unfold socket_name, strncpy_array. simpl (0 =? 0). cbv iota. rewrite Hc.
    by destruct (strncpy_fits (replicate 10 0) name 9 Hn) as (b & -> & -> & _); [rewrite length_replicate; lia|].
  - intros H4 Hd. unfold debug_name. rewrite Hc. change (length SOCKET_NAME_RIL) with 4%nat.
    destruct (Nat.leb_spec 4 (length name)); [|lia].
    assert (Hz : no_zero SOCKET_NAME_RIL_DEBUG) by (by repeat constructor).
    assert (Hld : length SOCKET_NAME_RIL_DEBUG = 10%nat) by done.
    unfold strlcat. rewrite c_string_array by (done || lia).
    assert (length (array_of MAX_DEBUG_SOCKET_NAME_LENGTH SOCKET_NAME_RIL_DEBUG) = MAX_DEBUG_SOCKET_NAME_LENGTH) as -> by
      (unfold array_of; rewrite length_app, length_replicate; lia).
    rewrite (proj2 (Nat.leb_le _ _)) by lia. rewrite take_ge by (rewrite length_app, length_drop; lia).
    rewrite c_string_zero; [done|]. apply Forall_app. split; [done|by apply Forall_drop].
Qed.

End Fits.

(** ** Names that do not fit *)

Definition sample_limits : SocketLimits := {| MAX_SOCKET_NAME_LENGTH := 6; MAX_DEBUG_SOCKET_NAME_LENGTH := 12; SIM_COUNT := 1 |}.

(** A name as long as the array is copied without a zero at the end, and is
    read behind it when the daemon starts to listen. *)
Lemma long_name_read_outside : exists rild,
  @RIL_setRilSocketName sample_limits (chars "rild10") (@initial_rild sample_limits) = Ret rild /\
  c_string rild = None /\ @socket_name sample_limits 0 rild = Fault.
Proof. by eexists. Qed.

(** With the default name the sockets are rild and rild-debug. *)
Lemma default_names :
  @socket_name sample_limits 0 (@initial_rild sample_limits) = Ret (Some SOCKET_NAME_RIL) /\
  @debug_name sample_limits (@initial_rild sample_limits) = Ret (Some SOCKET_NAME_RIL_DEBUG) /\
  @socket_name sample_limits 1 (@initial_rild sample_limits) = Ret None.
Proof. done. Qed.
