(* ===== verification/RefBase.v ===== *)
(** * libshims/RefBase.cpp: strong and weak references

    An object and its [weakref_impl] are one state: the three words of the
    [weakref_impl], and whether the object and the [weakref_impl] are still
    allocated.  Threads work on it through atomic operations, so a method is a
    program whose steps are single accesses to the shared state; a step that
    touches what has been deleted is a fault.  [DEBUG_REFS] is 0, so the
    tracking functions are empty, and [ALOG_ASSERT] is compiled out. *)

From S2P Require Import Prelude.

(** ** State *)

(** The virtual functions of the object that were called. *)
Inductive note : Type := FirstRef | LastStrongRef | IncStrongAttempted | LastWeakRef | Destroyed.

(** [base]: the object is allocated; [impl]: its [weakref_impl] is. *)
Record refs : Type := Refs {
  mStrong : Z; mWeak : Z; mFlags : Z; base : bool; impl : bool; notes : list note
}.

Definition INITIAL_STRONG_VALUE : Z := Z.shiftl 1 28.
Definition OBJECT_LIFETIME_STRONG : Z := 0.
Definition OBJECT_LIFETIME_WEAK : Z := 1.
Definition OBJECT_LIFETIME_MASK : Z := 1.
Definition FIRST_INC_STRONG : Z := 1.

(** The words that several threads change. *)
Inductive word : Type := Strong | Weak | Flags.

Definition get_word (w : word) (s : refs) : Z :=
  match w with Strong => mStrong s | Weak => mWeak s | Flags => mFlags s end.

Definition set_word (w : word) (x : Z) (s : refs) : refs :=
  match w with
  | Strong => Refs x (mWeak s) (mFlags s) (base s) (impl s) (notes s)
  | Weak => Refs (mStrong s) x (mFlags s) (base s) (impl s) (notes s)
  | Flags => Refs (mStrong s) (mWeak s) x (base s) (impl s) (notes s)
  end.

(** ** Programs

    A program returns, makes one access to the shared state and goes on with
    its result, or runs a loop: the body maps the loop variable to its next
    value ([inl]) or leaves the loop ([inr]). *)
Inductive prog (A : Type) : Type :=
| Return (a : A)
| Access (op : M refs Z) (k : Z -> prog A)
| Loop (body : Z -> prog (Z + Z)) (i : Z) (k : Z -> prog A).
Arguments Return {A} a.
Arguments Access {A} op k.
Arguments Loop {A} body i k.

Fixpoint prog_bind {A B} (p : prog A) (f : A -> prog B) : prog B :=
  match p with
  | Return a => f a
  | Access op k => Access op (fun x => prog_bind (k x) f)
  | Loop body i k => Loop body i (fun x => prog_bind (k x) f)
  end.

#[global] Instance prog_ret : MRet prog := fun A => Return.
#[global] Instance prog_mbind : MBind prog := fun A B f p => prog_bind p f.

Definition access (op : M refs Z) : prog Z := Access op Return.
Definition loop (body : Z -> prog (Z + Z)) (i : Z) : prog Z := Loop body i Return.

(** One step of a program that has not returned; entering a round of a loop is
    a step of its own. *)
Definition prog_step {A} (p : prog A) (s : refs) : outcome (prog A * refs) :=
  match p with
  | Return a => Ret (Return a, s)
  | Access op k =>
      match op s with
      | Ret (x, s') => Ret (k x, s')
      | Abort => Abort
      | Fault => Fault
      end
  | Loop body i k =>
      Ret (prog_bind (body i) (fun r => match r with inl i' => Loop body i' k | inr x => k x end), s)
  end.

(** ** Atomic operations *)

(** [cutils/atomic.h] on a word of the [weakref_impl]: the old value, or 0 when
    the exchange took place. *)
Definition android_atomic_add (v : Z) (w : word) : prog Z := access (fun s =>
  if impl s then Ret (get_word w s, set_word w (s32 (get_word w s + v)) s) else Fault).
Definition android_atomic_inc : word -> prog Z := android_atomic_add 1.
Definition android_atomic_dec : word -> prog Z := android_atomic_add (-1).

Definition android_atomic_or (v : Z) (w : word) : prog Z := access (fun s =>
  if impl s then Ret (get_word w s, set_word w (Z.lor (get_word w s) v) s) else Fault).

Definition android_atomic_cmpxchg (old new : Z) (w : word) : prog Z := access (fun s =>
  if impl s then
    if get_word w s =? old then Ret (0, set_word w (s32 new) s) else Ret (1, s)
  else Fault).

(** A read of a volatile field. *)
Definition read (w : word) : prog Z := access (fun s => if impl s then Ret (get_word w s, s) else Fault).

(** The field [mRefs] of the object. *)
Definition mRefs : prog Z := access (fun s => if base s then Ret (0, s) else Fault).

Definition with_note (n : note) (s : refs) : refs :=
  Refs (mStrong s) (mWeak s) (mFlags s) (base s) (impl s) (notes s ++ [n]).

(** [delete impl]. *)
Definition delete_impl : prog Z := access (fun s =>
  if impl s then Ret (0, Refs (mStrong s) (mWeak s) (mFlags s) (base s) false (notes s)) else Fault).

(** The object is gone as soon as its destructor starts. *)
Definition start_destructor : prog Z := access (fun s =>
  if base s then
    Ret (0, Refs (mStrong s) (mWeak s) (mFlags s) false (impl s) (notes s ++ [Destroyed]))
  else Fault).

(** ** Virtual functions *)

(** The answer of the object's [onIncStrongAttempted] may depend on its
    history; the other virtual functions have no effect on the counts. *)
Class Virtuals := { vIncStrongAttempted : Z -> list note -> bool }.

(** [RefBase::onIncStrongAttempted]. *)
Definition default_onIncStrongAttempted (flags : Z) : bool :=
  if Z.land flags FIRST_INC_STRONG =? 0 then false else true.
Definition default_virtuals : Virtuals := {| vIncStrongAttempted := fun flags _ => default_onIncStrongAttempted flags |}.

(** A virtual call on the object. *)
Definition virtual_call (n : note) (answer : refs -> Z) : prog Z := access (fun s =>
  if base s then Ret (answer s, with_note n s) else Fault).

Section Methods.
Context {V : Virtuals}.

Definition onFirstRef : prog Z := virtual_call FirstRef (fun _ => 0).
Definition onLastStrongRef : prog Z := virtual_call LastStrongRef (fun _ => 0).
Definition onLastWeakRef : prog Z := virtual_call LastWeakRef (fun _ => 0).
Definition onIncStrongAttempted (flags : Z) : prog Z :=
  virtual_call IncStrongAttempted (fun s => if vIncStrongAttempted flags (notes s) then 1 else 0).

(** ** Construction and destruction *)

(** [RefBase::RefBase]. *)
Definition new_RefBase : refs := Refs INITIAL_STRONG_VALUE 0 0 true true [].

Definition extendObjectLifetime (mode : Z) : prog Z :=
  mRefs;;
  android_atomic_or mode Flags.

(** [RefBase::~RefBase]. *)
Definition destroy_RefBase : prog Z :=
  start_destructor;;
  strong ← read Strong;
  if strong =? INITIAL_STRONG_VALUE then delete_impl
  else
    flags ← read Flags;
    if negb (Z.land flags OBJECT_LIFETIME_MASK =? OBJECT_LIFETIME_STRONG) then
      weak ← read Weak;
      if weak =? 0 then delete_impl else mret 0
    else mret 0.

(** ** Weak references *)

Definition incWeak : prog Z :=
  android_atomic_inc Weak;;
  mret 0.

Definition decWeak : prog Z :=
  c ← android_atomic_dec Weak;
  if negb (c =? 1) then mret 0 else
  flags ← read Flags;
  if Z.land flags OBJECT_LIFETIME_WEAK =? OBJECT_LIFETIME_STRONG then
    strong ← read Strong;
    if strong =? INITIAL_STRONG_VALUE then destroy_RefBase
    else delete_impl
  else
    onLastWeakRef;;
    flags ← read Flags;
    if Z.land flags OBJECT_LIFETIME_MASK =? OBJECT_LIFETIME_WEAK then destroy_RefBase
    else mret 0.

Definition createWeak : prog Z :=
  mRefs;;
  incWeak.

(** [while (curCount > 0) { if (cmpxchg(...) == 0) break; curCount = mWeak; }]. *)
Definition attemptIncWeak_loop : Z -> prog Z := loop (fun curCount =>
  if 0 <? curCount then
    failed ← android_atomic_cmpxchg curCount (curCount + 1) Weak;
    if failed =? 0 then mret (inr curCount)
    else curCount ← read Weak; mret (inl curCount)
  else mret (inr curCount)).

Definition attemptIncWeak : prog Z :=
  curCount ← read Weak;
  curCount ← attemptIncWeak_loop curCount;
  mret (if 0 <? curCount then 1 else 0).

(** ** Strong references *)

Definition incStrong : prog Z :=
  mRefs;;
  incWeak;;
  c ← android_atomic_inc Strong;
  if negb (c =? INITIAL_STRONG_VALUE) then mret 0 else
  android_atomic_add (- INITIAL_STRONG_VALUE) Strong;;
  onFirstRef.

Definition decStrong : prog Z :=
  mRefs;;
  c ← android_atomic_dec Strong;
  (if c =? 1 then
     onLastStrongRef;;
     flags ← read Flags;
     if Z.land flags OBJECT_LIFETIME_MASK =? OBJECT_LIFETIME_STRONG then destroy_RefBase
     else mret 0
   else mret 0);;
  decWeak.

Definition forceIncStrong : prog Z :=
  mRefs;;
  incWeak;;
  c ← android_atomic_inc Strong;
  if c =? INITIAL_STRONG_VALUE then
    android_atomic_add (- INITIAL_STRONG_VALUE) Strong;;
    onFirstRef
  else if c =? 0 then onFirstRef
  else mret 0.

Definition getStrongCount : prog Z := mRefs;; read Strong.
Definition getWeakCount : prog Z := read Weak.

(** The first loop of [attemptIncStrong]: promote next to existing strong
    references. *)
Definition promote_loop : Z -> prog Z := loop (fun curCount =>
  if (0 <? curCount) && negb (curCount =? INITIAL_STRONG_VALUE) then
    failed ← android_atomic_cmpxchg curCount (curCount + 1) Strong;
    if failed =? 0 then mret (inr curCount)
    else curCount ← read Strong; mret (inl curCount)
  else mret (inr curCount)).

(** The second loop: no strong reference was seen. *)
Definition first_promote_loop : Z -> prog Z := loop (fun curCount =>
  if 0 <? curCount then
    failed ← android_atomic_cmpxchg curCount (curCount + 1) Strong;
    if failed =? 0 then mret (inr curCount)
    else curCount ← read Strong; mret (inl curCount)
  else mret (inr curCount)).

(** The third loop: remove [INITIAL_STRONG_VALUE] from the count. *)
Definition fixup_loop : Z -> prog Z := loop (fun curCount =>
  if INITIAL_STRONG_VALUE <=? curCount then
    failed ← android_atomic_cmpxchg curCount (curCount - INITIAL_STRONG_VALUE) Strong;
    if failed =? 0 then mret (inr curCount)
    else curCount ← read Strong; mret (inl curCount)
  else mret (inr curCount)).

(** The end of [attemptIncStrong], with the strong reference taken. *)
Definition fixup : prog Z :=
  curCount ← read Strong;
  fixup_loop curCount;;
  mret 1.

(** Give up an unneeded reference of [onIncStrongAttempted]. *)
Definition drop_unneeded (curCount : Z) : prog Z :=
  if (0 <? curCount) && (curCount <? INITIAL_STRONG_VALUE) then onLastStrongRef else mret 0.

Definition attemptIncStrong : prog Z :=
  incWeak;;
  curCount ← read Strong;
  curCount ← promote_loop curCount;
  if (curCount <=? 0) || (curCount =? INITIAL_STRONG_VALUE) then
    flags ← read Flags;
    if Z.land flags OBJECT_LIFETIME_WEAK =? OBJECT_LIFETIME_STRONG then
      if curCount <=? 0 then decWeak;; mret 0 else
      curCount ← first_promote_loop curCount;
      if curCount <=? 0 then decWeak;; mret 0 else
      drop_unneeded curCount;;
      fixup
    else
      agreed ← onIncStrongAttempted FIRST_INC_STRONG;
      if agreed =? 0 then decWeak;; mret 0 else
      curCount ← android_atomic_inc Strong;
      drop_unneeded curCount;;
      fixup
  else fixup.

End Methods.

(** A program run alone; [None] when the steps are not enough. *)
Fixpoint run_alone {A} (fuel : nat) (p : prog A) (s : refs) : outcome (option A * refs) :=
  match p with
  | Return a => Ret (Some a, s)
  | _ =>
      match fuel with
      | O => Ret (None, s)
      | S fuel' =>
          match prog_step p s with
          | Ret (p', s') => run_alone fuel' p' s'
          | Abort => Abort
          | Fault => Fault
          end
      end
  end.
