(* ===== verification/RefLogic.v ===== *)
(** * A logic for the reference counts

    A thread owns a token that says which increments of the counts it stands
    for; the invariant ties the shared words to the sum of the tokens of all
    threads.  [safe p t Q]: with the token [t], every step of the program [p]
    keeps the invariant whatever the other threads do in between, none is a
    fault, and [p] returns with a result and a token that satisfy [Q]. *)

From S2P Require Import Prelude RefBase.

(** ** Tokens *)

(** [ts], [tw]: increments of the strong and of the weak count; [db]: the
    thread has taken the strong count to zero and is to delete the object;
    [cr]: increments of the weak count that it may still make; [adj]: the
    thread knows that [INITIAL_STRONG_VALUE] has been removed; [own]: it has
    taken the weak count to zero and is alone: is the object allocated, and is
    the strong count still the initial one. *)
Record tok : Type := Tok {
  ts : Z; tw : Z; db : Z; cr : Z; adj : bool; own : list (bool * bool)
}.

Definition add_tok (t u : tok) : tok :=
  Tok (ts t + ts u) (tw t + tw u) (db t + db u) (cr t + cr u) (adj t || adj u) (own t ++ own u).
Definition no_tok : tok := Tok 0 0 0 0 false [].

Definition wf (t : tok) : Prop := 0 <= ts t /\ 0 <= db t /\ 0 <= cr t /\ ts t + db t <= tw t.

Lemma wf_add t u : wf t -> wf u -> wf (add_tok t u).
Proof. unfold wf. simpl. lia. Qed.

(** References that can exist at the same time. *)
Definition MAX_REFS : Z := INITIAL_STRONG_VALUE - 1.

Definition initial_part (i : bool) : Z := if i then INITIAL_STRONG_VALUE else 0.

Definition is_destroyed (n : note) : bool := match n with Destroyed => true | _ => false end.
Definition destructions (s : refs) : Z := Z.of_nat (length (List.filter is_destroyed (notes s))).

Section Logic.
(** The object has [OBJECT_LIFETIME_WEAK]. *)
Variable weak : bool.

(** ** The invariant *)

(** The counts while references exist: [i] says that the strong count still
    has [INITIAL_STRONG_VALUE]. *)
Record counted (s : refs) (t : tok) (i : bool) : Prop := Counted {
  c_impl : impl s = true;
  c_weak : mWeak s = tw t;
  c_strong : mStrong s = ts t + initial_part i;
  c_adj : adj t = true -> i = false;
  c_db : db t = 0 \/ weak = false /\ db t = 1 /\ ts t = 0 /\ i = false;
  c_base : base s = weak || i || (0 <? ts t) || (0 <? db t)
}.

(** One thread is left, and no reference. *)
Record owned (s : refs) (t : tok) (b i : bool) : Prop := Owned {
  o_impl : impl s = true;
  o_base : base s = b;
  o_ts : ts t = 0; o_tw : tw t = 0; o_db : db t = 0;
  o_weak : mWeak s = 0;
  o_strong : mStrong s = initial_part i
}.

(** Everything is freed. *)
Record freed (s : refs) (t : tok) : Prop := Freed {
  f_impl : impl s = false; f_base : base s = false; f_ts : ts t = 0; f_tw : tw t = 0; f_db : db t = 0
}.

Definition phase (s : refs) (t : tok) : Prop :=
  match own t with
  | [] => 0 < tw t /\ (exists i, counted s t i) \/ freed s t
  | [(b, i)] => owned s t b i
  | _ => False
  end.

Record inv (s : refs) (t : tok) : Prop := Inv {
  i_flags : mFlags s = Z.b2z weak;
  i_bound : tw t + cr t <= MAX_REFS;
  i_once : destructions s = if base s then 0 else 1;
  i_phase : phase s t
}.

(** ** Safe programs *)

Fixpoint safe {A : Type} (p : prog A) (t : tok) (Q : A -> tok -> Prop) : Prop :=
  match p with
  | Return a => Q a t
  | Access op k => forall s u, wf u -> inv s (add_tok t u) ->
      exists x s' t', op s = Ret (x, s') /\ wf t' /\ tw t' + cr t' <= tw t + cr t /\ inv s' (add_tok t' u) /\ safe (k x) t' Q
  | Loop body i k => exists (J K : Z -> tok -> Prop),
      J i t /\ (forall i t, J i t -> safe (body i) t (fun r t' => match r with inl i' => J i' t' | inr x => K x t' end)) /\
      (forall x t', K x t' -> safe (k x) t' Q)
  end.

Lemma safe_mono {A} (p : prog A) t (Q Q' : A -> tok -> Prop) :
  safe p t Q -> (forall a t', Q a t' -> Q' a t') -> safe p t Q'.
Proof.
  revert t Q Q'. induction p as [A a|A op k IH|A body IHb i k IH]; intros t Q Q'; cbn [safe].
  - auto.
  - intros Hs HQ s u Hu Hi. destruct (Hs s u Hu Hi) as (x & s' & t' & ? & ? & ? & ? & ?). eauto 10.
  - intros (J & K & Hj & Hb & Hk) HQ. exists J, K. split_and!; eauto.
Qed.

Lemma safe_bind {A B} (p : prog A) (f : A -> prog B) t Q :
  safe p t (fun a t' => safe (f a) t' Q) -> safe (p ≫= f) t Q.
Proof.
  change (p ≫= f) with (prog_bind p f). revert t.
  induction p as [A a|A op k IH|A body IHb i k IH]; intros t; cbn [safe prog_bind].
  - auto.
  - intros Hs s u Hu Hi. destruct (Hs s u Hu Hi) as (x & s' & t' & ? & ? & ? & ? & ?). eauto 10.
  - intros (J & K & Hj & Hb & Hk). exists J, K. split_and!; eauto.
Qed.

(** A step of a safe program. *)
Lemma safe_step {A} (p : prog A) t u s Q :
  wf t -> wf u -> inv s (add_tok t u) -> safe p t Q ->
  exists p' s' t', prog_step p s = Ret (p', s') /\ wf t' /\ tw t' + cr t' <= tw t + cr t /\ inv s' (add_tok t' u) /\ safe p' t' Q.
Proof.
  intros Ht Hu Hi. destruct p as [a|op k|body i k]; cbn [safe prog_step].
  - intros HQ. exists (Return a), s, t. split_and!; try done; try lia.
  - intros Hs. destruct (Hs s u Hu Hi) as (x & s' & t' & -> & H). eauto 10.
  - intros (J & K & Hj & Hb & Hk). eexists _, s, t. split; [done|]. split_and!; try done; try lia.
    apply safe_bind. eapply safe_mono; [by apply Hb|]. intros [i'|x] t' H; [|by apply Hk]. exists J, K. auto.
Qed.

(** ** Accesses *)

Lemma destructions_note n s : is_destroyed n = false -> destructions (with_note n s) = destructions s.
Proof. intros Hn. unfold destructions. simpl. rewrite List.filter_app. simpl. rewrite Hn. by rewrite app_nil_r. Qed.

(** What a token says about the state. *)
Lemma inv_counted s t : inv s t -> own t = [] -> 0 < tw t -> exists i, counted s t i.
Proof. intros [_ _ _ Hp] Ho Ht. unfold phase in Hp. rewrite Ho in Hp. destruct Hp as [[_ Hc]|Hf]; [done|]. destruct Hf. lia. Qed.

Lemma inv_owned s t b i : inv s t -> own t = [(b, i)] -> owned s t b i.
Proof. intros [_ _ _ Hp] Ho. unfold phase in Hp. by rewrite Ho in Hp. Qed.

(** A thread with a weak increment excludes an owner. *)
Lemma own_empty s t u : inv s (add_tok t u) -> wf u -> wf t -> 0 < tw t -> own (add_tok t u) = [].
Proof.
  intros [_ _ _ Hp] (?&?&?&?) (?&?&?&?) Ht. unfold phase in Hp. destruct (own (add_tok t u)) as [|[b i] [|]]; [done| |done].
  destruct Hp. simpl in *. lia.
Qed.

Lemma safe_access_counted {A} op (k : Z -> prog A) t Q :
  wf t -> 0 < tw t ->
  (forall s u i, wf u -> inv s (add_tok t u) -> own t = [] -> own u = [] -> counted s (add_tok t u) i ->
    exists x s' t', op s = Ret (x, s') /\ wf t' /\ tw t' + cr t' <= tw t + cr t /\ inv s' (add_tok t' u) /\ safe (k x) t' Q) ->
  safe (Access op k) t Q.
Proof.
  intros Ht Hw Hs s u Hu Hi. pose proof (own_empty s t u Hi Hu Ht Hw) as Ho. pose proof Ho as Ho'. simpl in Ho'.
  apply app_eq_nil in Ho' as [H1 H2].
  destruct (inv_counted s (add_tok t u) Hi Ho) as [i Hc]; [|by apply (Hs s u i)]. destruct Hu as (?&?&?&?). simpl. lia.
Qed.

Lemma safe_access_owned {A} op (k : Z -> prog A) t b i Q :
  own t = [(b, i)] ->
  (forall s u, wf u -> inv s (add_tok t u) -> own u = [] -> owned s (add_tok t u) b i ->
    exists x s' t', op s = Ret (x, s') /\ wf t' /\ tw t' + cr t' <= tw t + cr t /\ inv s' (add_tok t' u) /\ safe (k x) t' Q) ->
  safe (Access op k) t Q.
Proof.
  intros Ho Hs s u Hu Hi. assert (Hou : own u = []).
  { destruct Hi as [_ _ _ Hp]. unfold phase in Hp. simpl in Hp. rewrite Ho in Hp. by destruct (own u). }
  apply (Hs s u); try done. apply inv_owned; [done|]. simpl. by rewrite Ho, Hou.
Qed.

(** Reading a word, with a weak increment or alone. *)
Lemma safe_read {A} w (k : Z -> prog A) t Q :
  wf t -> 0 < tw t ->
  (forall s u i, wf u -> inv s (add_tok t u) -> counted s (add_tok t u) i -> safe (k (get_word w s)) t Q) ->
  safe (read w ≫= k) t Q.
Proof.
  intros Ht Hw Hk. apply safe_bind. apply safe_access_counted; [done|done|]. intros s u i Hu Hi _ _ Hc. rewrite (c_impl _ _ _ Hc).
  exists (get_word w s), s, t. split_and!; try done; try lia. by apply (Hk s u i).
Qed.

Lemma safe_read_owned {A} w (k : Z -> prog A) t b i Q :
  wf t -> own t = [(b, i)] ->
  (forall s, mFlags s = Z.b2z weak -> mWeak s = 0 -> mStrong s = initial_part i -> safe (k (get_word w s)) t Q) ->
  safe (read w ≫= k) t Q.
Proof.
  intros Ht Ho Hk. apply safe_bind. apply (safe_access_owned _ _ _ b i); [done|]. intros s u Hu Hi _ Hc.
  rewrite (o_impl _ _ _ _ Hc).
  exists (get_word w s), s, t. split_and!; try done; try lia. destruct Hi, Hc. by apply Hk.
Qed.

(** The object is known to be allocated. *)
Definition base_known (t : tok) : Prop := 0 < ts t \/ 0 < db t \/ weak = true /\ 0 < tw t.

Lemma base_allocated s t u i : wf t -> wf u -> base_known t -> counted s (add_tok t u) i -> base s = true.
Proof.
  intros (?&?&?&?) (?&?&?&?) Hb Hc. rewrite (c_base _ _ _ Hc). simpl.
  destruct Hb as [?|[?|[-> _]]]; [|rewrite orb_true_iff, Z.ltb_lt; lia|done]. apply orb_true_iff. left. apply orb_true_iff. right.
  apply Z.ltb_lt. lia.
Qed.

Lemma base_known_tw t : wf t -> base_known t -> 0 < tw t.
Proof. unfold wf, base_known. lia. Qed.

Lemma safe_mRefs {A} (k : Z -> prog A) t Q : wf t -> base_known t -> safe (k 0) t Q -> safe (mRefs ≫= k) t Q.
Proof.
  intros Ht Hb Hk. apply safe_bind. apply safe_access_counted; [done|by apply base_known_tw|]. intros s u i Hu Hi _ _ Hc.
  rewrite (base_allocated s t u i) by done. exists 0, s, t. split_and!; try done; try lia.
Qed.

Lemma inv_note n s t : is_destroyed n = false -> inv s t -> inv (with_note n s) t.
Proof.
  intros Hn [? ? Ho Hp]. split; [done|done|by rewrite destructions_note|]. unfold phase in *.
  destruct (own t) as [|[b i] [|]]; [|by destruct Hp|done].
  destruct Hp as [[? [i Hc]]|Hf]; [left|right; by destruct Hf]. split; [done|]. exists i. by destruct Hc.
Qed.

Lemma safe_virtual {A} n answer (k : Z -> prog A) t Q :
  is_destroyed n = false -> wf t -> base_known t -> (forall x, safe (k x) t Q) -> safe (virtual_call n answer ≫= k) t Q.
Proof.
  intros Hn Ht Hb Hk. apply safe_bind. apply safe_access_counted; [done|by apply base_known_tw|]. intros s u i Hu Hi _ _ Hc.
  rewrite (base_allocated s t u i) by done. eexists _, _, t. split; [done|]. split_and!; [done|lia|by apply inv_note|]. apply Hk.
Qed.

Lemma safe_virtual_owned {A} n answer (k : Z -> prog A) t i Q :
  is_destroyed n = false -> wf t -> own t = [(true, i)] -> (forall x, safe (k x) t Q) -> safe (virtual_call n answer ≫= k) t Q.
Proof.
  intros Hn Ht Ho Hk. apply safe_bind. apply (safe_access_owned _ _ _ true i); [done|]. intros s u Hu Hi _ Hc.
  rewrite (o_base _ _ _ _ Hc). eexists _, _, t. split; [done|]. split_and!; [done|lia|by apply inv_note|]. apply Hk.
Qed.

(** ** Updates *)

Definition set_tw (x : Z) (t : tok) : tok := Tok (ts t) x (db t) (cr t) (adj t) (own t).
Definition set_ts (x : Z) (t : tok) : tok := Tok x (tw t) (db t) (cr t) (adj t) (own t).
Definition set_db (x : Z) (t : tok) : tok := Tok (ts t) (tw t) x (cr t) (adj t) (own t).
Definition set_cr (x : Z) (t : tok) : tok := Tok (ts t) (tw t) (db t) x (adj t) (own t).
Definition set_adj (t : tok) : tok := Tok (ts t) (tw t) (db t) (cr t) true (own t).
Definition set_own (o : list (bool * bool)) (t : tok) : tok := Tok (ts t) (tw t) (db t) (cr t) (adj t) o.

Lemma initial_value : INITIAL_STRONG_VALUE = 268435456.
Proof. reflexivity. Qed.

(** The arithmetic of the counts. *)
Ltac counts := unfold wf, MAX_REFS, initial_part in *; rewrite ?initial_value in *; simpl in *; lia.

(** Decide the comparisons that say whether the object is allocated. *)
Ltac allocated :=
  simpl in *; repeat match goal with |- context [?x <? ?y] => destruct (Z.ltb_spec x y); try counts end;
  rewrite ?orb_true_r, ?orb_false_r; try done.

(** The state after an update keeps the invariant with the same phase. *)
Lemma inv_counted_intro s t i :
  mFlags s = Z.b2z weak -> tw t + cr t <= MAX_REFS -> destructions s = (if base s then 0 else 1) -> own t = [] -> 0 < tw t ->
  counted s t i -> inv s t.
Proof. intros ? ? ? Ho Ht Hc. split; try done. unfold phase. rewrite Ho. left. eauto. Qed.

Lemma safe_inc_weak {A} (k : Z -> prog A) t Q :
  wf t -> 0 < tw t -> 0 < cr t ->
  (forall x, safe (k x) (set_cr (cr t - 1) (set_tw (tw t + 1) t)) Q) -> safe (android_atomic_inc Weak ≫= k) t Q.
Proof.
  intros Ht Hw Hr Hk. apply safe_bind. apply safe_access_counted; [done|done|]. intros s u i Hu Hi Ho Hou Hc.
  rewrite (c_impl _ _ _ Hc). cbn [get_word set_word]. destruct Hi as [Hf Hb H1 _], Hc as [C1 C2 C3 C4 C5 C6].
  eexists _, _, _. split; [done|]. split; [|split; [|split; [|apply Hk]]]; [counts|counts|].
  apply (inv_counted_intro _ _ i); [done|counts|done|by simpl; rewrite Ho, Hou|counts|].
  split; try done. simpl. rewrite s32_small by counts. counts.
Qed.

Lemma safe_cas_weak {A} cur (k : Z -> prog A) t Q :
  wf t -> 0 < tw t -> 0 < cr t -> 
  safe (k 0) (set_cr (cr t - 1) (set_tw (tw t + 1) t)) Q -> safe (k 1) t Q -> safe (android_atomic_cmpxchg cur (cur + 1) Weak ≫= k) t Q.
Proof.
  intros Ht Hw Hr Hk Hk'. apply safe_bind. apply safe_access_counted; [done|done|]. intros s u i Hu Hi Ho Hou Hc.
  rewrite (c_impl _ _ _ Hc). cbn [get_word set_word].
  destruct (Z.eqb_spec (mWeak s) cur) as [<-|_]; [|exists 1, s, t; split_and!; try done; lia].
  destruct Hi as [Hf Hb H1 _], Hc as [C1 C2 C3 C4 C5 C6].
  eexists _, _, _. split; [done|]. split; [|split; [|split; [|apply Hk]]]; [counts|counts|].
  apply (inv_counted_intro _ _ i); [done|counts|done|by simpl; rewrite Ho, Hou|counts|].
  split; try done. simpl. rewrite s32_small by counts. counts.
Qed.

(** The thread that takes the weak count to zero is alone. *)
Lemma safe_dec_weak {A} (k : Z -> prog A) t Q :
  wf t -> 0 < tw t -> ts t + db t <= tw t - 1 ->
  (forall c, c <> 1 -> safe (k c) (set_tw (tw t - 1) t) Q) ->
  (forall i, tw t = 1 -> ts t = 0 -> db t = 0 -> safe (k 1) (set_own [(weak || i, i)] (set_tw 0 t)) Q) ->
  safe (android_atomic_dec Weak ≫= k) t Q.
Proof.
  intros Ht Hw Hl Hk Hk'. apply safe_bind. apply safe_access_counted; [done|done|]. intros s u i Hu Hi Ho Hou Hc.
  rewrite (c_impl _ _ _ Hc). cbn [get_word set_word]. destruct Hi as [Hf Hb H1 _], Hc as [C1 C2 C3 C4 C5 C6].
  simpl in C2. destruct (Z.eq_dec (mWeak s) 1) as [E|E].
  - assert (tw t = 1 /\ ts t = 0 /\ db t = 0) as (E0 & E1 & E2) by counts. rewrite E.
    eexists 1, _, _. split; [done|]. split; [|split; [|split; [|by apply (Hk' i)]]]; [counts|counts|].
    split; [done|counts|done|]. unfold phase. simpl. rewrite Hou.
    split; [done|simpl; rewrite C6; allocated|counts|counts|counts|done|simpl; rewrite C3; counts].
  - eexists _, _, _. split; [done|]. split; [|split; [|split; [|by apply Hk]]]; [counts|counts|].
    apply (inv_counted_intro _ _ i); [done|counts|done|by simpl; rewrite Ho, Hou|counts|].
    split; try done. simpl. rewrite s32_small by counts. counts.
Qed.

(** A holder of a strong reference takes another. *)
Lemma safe_inc_strong {A} (k : Z -> prog A) t Q :
  wf t -> 0 < ts t -> ts t + 1 + db t <= tw t -> adj t = true ->
  (forall x, 0 < x < INITIAL_STRONG_VALUE -> safe (k x) (set_ts (ts t + 1) t) Q) -> safe (android_atomic_inc Strong ≫= k) t Q.
Proof.
  intros Ht Hs Hl Ha Hk. apply safe_bind. apply safe_access_counted; [done|counts|]. intros s u i Hu Hi Ho Hou Hc.
  rewrite (c_impl _ _ _ Hc). cbn [get_word set_word]. destruct Hi as [Hf Hb H1 _], Hc as [C1 C2 C3 C4 C5 C6].
  assert (i = false) as -> by (apply C4; simpl; by rewrite Ha).
  eexists _, _, _. split; [done|]. split; [|split; [|split; [|apply Hk]]]; [counts|counts| |counts].
  apply (inv_counted_intro _ _ false); [done|counts|done|by simpl; rewrite Ho, Hou|counts|].
  split; try done.
  - simpl. rewrite s32_small by counts. counts.
  - left. destruct C5 as [C5|C5]; counts.
  - simpl. rewrite C6. allocated.
Qed.

(** With an extended life-time a weak reference is enough. *)
Lemma safe_revive {A} (k : Z -> prog A) t Q :
  weak = true -> wf t -> 0 < tw t -> ts t + 1 + db t <= tw t ->
  (forall x, safe (k x) (set_ts (ts t + 1) t) Q) -> safe (android_atomic_inc Strong ≫= k) t Q.
Proof.
  intros Hweak Ht Hw Hl Hk. apply safe_bind. apply safe_access_counted; [done|counts|]. intros s u i Hu Hi Ho Hou Hc.
  rewrite (c_impl _ _ _ Hc). cbn [get_word set_word]. destruct Hi as [Hf Hb H1 _], Hc as [C1 C2 C3 C4 C5 C6].
  eexists _, _, _. split; [done|]. split; [|split; [|split; [|apply Hk]]]; [counts|counts|].
  apply (inv_counted_intro _ _ i); [done|counts|done|by simpl; rewrite Ho, Hou|counts|].
  split; try done.
  - simpl. destruct i; rewrite s32_small by counts; counts.
  - left. destruct C5 as [C5|[C5 _]]; [done|congruence].
  - simpl. rewrite C6, Hweak. done.
Qed.

(** The thread that takes the strong count to zero is to delete the object. *)
Lemma safe_dec_strong {A} (k : Z -> prog A) t Q :
  wf t -> 0 < ts t -> adj t = true ->
  (forall c, c <> 1 \/ weak = true -> safe (k c) (set_ts (ts t - 1) t) Q) ->
  (weak = false -> ts t = 1 -> safe (k 1) (set_db (db t + 1) (set_ts 0 t)) Q) ->
  safe (android_atomic_dec Strong ≫= k) t Q.
Proof.
  intros Ht Hs Ha Hk Hk'. apply safe_bind. apply safe_access_counted; [done|counts|]. intros s u i Hu Hi Ho Hou Hc.
  rewrite (c_impl _ _ _ Hc). cbn [get_word set_word]. destruct Hi as [Hf Hb H1 _], Hc as [C1 C2 C3 C4 C5 C6].
  assert (i = false) as -> by (apply C4; simpl; by rewrite Ha).
  assert (Hdb : db t + db u = 0) by (destruct C5 as [C5|C5]; counts).
  simpl in C3. destruct (decide (mStrong s = 1 /\ weak = false)) as [[E Hweak]|E].
  - assert (ts t = 1) by counts. rewrite E. eexists 1, _, _. split; [done|].
    split; [|split; [|split; [|by apply Hk']]]; [counts|counts|].
    apply (inv_counted_intro _ _ false); [done|counts|done|by simpl; rewrite Ho, Hou|counts|].
    split; [done|counts|simpl; change (s32 (1 + -1)) with 0; counts|done| |simpl; rewrite C6; allocated].
    right. split_and!; try done; counts.
  - eexists _, _, _. split; [done|].
    split; [|split; [|split; [|apply Hk]]]; [counts|counts| |destruct weak; [auto|left; intros ?; apply E; done]].
    apply (inv_counted_intro _ _ false); [done|counts|done|by simpl; rewrite Ho, Hou|counts|].
    split; try done.
    + simpl. rewrite s32_small by counts. counts.
    + left. counts.
    + simpl. rewrite C6. destruct weak; [done|]. assert (mStrong s <> 1) by (intros ?; apply E; done). allocated.
Qed.

(** A successful promotion found a positive count. *)
Lemma safe_cas_promote {A} cur (k : Z -> prog A) t Q :
  wf t -> 0 < tw t -> ts t + 1 + db t <= tw t -> 0 < cur ->
  safe (k 0) (set_ts (ts t + 1) t) Q -> safe (k 1) t Q -> safe (android_atomic_cmpxchg cur (cur + 1) Strong ≫= k) t Q.
Proof.
  intros Ht Hw Hl Hcur Hk Hk'. apply safe_bind. apply safe_access_counted; [done|done|]. intros s u i Hu Hi Ho Hou Hc.
  rewrite (c_impl _ _ _ Hc). cbn [get_word set_word].
  destruct (Z.eqb_spec (mStrong s) cur) as [<-|_]; [|exists 1, s, t; split_and!; try done; lia].
  destruct Hi as [Hf Hb H1 _], Hc as [C1 C2 C3 C4 C5 C6].
  eexists _, _, _. split; [done|]. split; [|split; [|split; [|apply Hk]]]; [counts|counts|].
  apply (inv_counted_intro _ _ i); [done|counts|done|by simpl; rewrite Ho, Hou|counts|].
  split; try done.
  - simpl. destruct i; rewrite s32_small by counts; counts.
  - left. destruct C5 as [C5|(_ & ? & ? & ->)]; [done|counts].
  - simpl. rewrite C6. destruct weak, i; try done. allocated.
Qed.

(** A holder of a strong increment removes [INITIAL_STRONG_VALUE]. *)
Lemma safe_cas_fixup {A} cur (k : Z -> prog A) t Q :
  wf t -> 0 < ts t -> INITIAL_STRONG_VALUE <= cur ->
  safe (k 0) (set_adj t) Q -> safe (k 1) t Q -> safe (android_atomic_cmpxchg cur (cur - INITIAL_STRONG_VALUE) Strong ≫= k) t Q.
Proof.
  intros Ht Hs Hcur Hk Hk'. apply safe_bind. apply safe_access_counted; [done|counts|]. intros s u i Hu Hi Ho Hou Hc.
  rewrite (c_impl _ _ _ Hc). cbn [get_word set_word].
  destruct (Z.eqb_spec (mStrong s) cur) as [<-|_]; [|exists 1, s, t; split_and!; try done; lia].
  destruct Hi as [Hf Hb H1 _], Hc as [C1 C2 C3 C4 C5 C6].
  assert (i = true) as -> by (destruct i; [done|counts]).
  eexists _, _, _. split; [done|]. split; [|split; [|split; [|apply Hk]]]; [counts|counts|].
  apply (inv_counted_intro _ _ false); [done|counts|done|by simpl; rewrite Ho, Hou|counts|].
  split; try done.
  - simpl. rewrite s32_small by counts. counts.
  - left. destruct C5 as [C5|(_ & _ & _ & C5)]; done.
  - simpl. rewrite C6. simpl. destruct weak; [done|]. allocated.
Qed.

(** A count below [INITIAL_STRONG_VALUE] stays below it. *)
Lemma safe_read_strong {A} (k : Z -> prog A) t Q :
  wf t -> 0 < tw t ->
  (forall x, x < INITIAL_STRONG_VALUE -> safe (k x) (set_adj t) Q) -> (forall x, INITIAL_STRONG_VALUE <= x -> safe (k x) t Q) ->
  safe (read Strong ≫= k) t Q.
Proof.
  intros Ht Hw Hk Hk'. apply safe_bind. apply safe_access_counted; [done|done|]. intros s u i Hu Hi Ho Hou Hc.
  rewrite (c_impl _ _ _ Hc). cbn [get_word]. destruct (Z.lt_ge_cases (mStrong s) INITIAL_STRONG_VALUE) as [Hlt|Hge].
  - destruct Hi as [Hf Hb H1 _], Hc as [C1 C2 C3 C4 C5 C6]. eexists _, _, _. split; [done|].
    split; [|split; [|split; [|by apply Hk]]]; [counts|counts|].
    assert (i = false) as -> by (destruct i; [counts|done]).
    apply (inv_counted_intro _ _ false); [done|counts|done|by simpl; rewrite Ho, Hou|counts|]. split; done.
  - exists (mStrong s), s, t. split_and!; try done; try lia. by apply Hk'.
Qed.

(** ** Deletion *)

Lemma destructions_start s :
  destructions (Refs (mStrong s) (mWeak s) (mFlags s) false (impl s) (notes s ++ [Destroyed])) = destructions s + 1.
Proof. unfold destructions. simpl. rewrite List.filter_app, length_app. simpl. lia. Qed.

Lemma safe_destroy_last {A} (k : Z -> prog A) t Q :
  wf t -> 0 < db t -> safe (k 0) (set_db 0 t) Q -> safe (start_destructor ≫= k) t Q.
Proof.
  intros Ht Hd Hk. apply safe_bind. apply safe_access_counted; [done|counts|]. intros s u i Hu Hi Ho Hou Hc.
  rewrite (base_allocated s t u i) by (try done; unfold base_known; lia).
  destruct Hi as [Hf Hb H1 _], Hc as [C1 C2 C3 C4 C5 C6]. destruct C5 as [C5|(Hweak & E1 & E2 & ->)]; [counts|].
  eexists _, _, _. split; [done|]. split; [|split; [|split; [|apply Hk]]]; [counts|counts|].
  apply (inv_counted_intro _ _ false); [done|counts| |by simpl; rewrite Ho, Hou|counts|].
  - rewrite destructions_start, H1, C6. simpl in *. allocated.
  - split; try done; [left; counts|]. simpl in *. rewrite Hweak. allocated.
Qed.

Lemma safe_destroy_owned {A} (k : Z -> prog A) t i Q :
  wf t -> own t = [(true, i)] -> safe (k 0) (set_own [(false, i)] t) Q -> safe (start_destructor ≫= k) t Q.
Proof.
  intros Ht Ho Hk. apply safe_bind. apply (safe_access_owned _ _ _ true i); [done|]. intros s u Hu Hi Hou Hc.
  destruct Hi as [Hf Hb H1 _], Hc as [O1 O2 O3 O4 O5 O6 O7]. rewrite O2.
  eexists _, _, _. split; [done|]. split; [|split; [|split; [|apply Hk]]]; [counts|counts|].
  split; [done|counts|rewrite destructions_start, H1, O2; done|]. unfold phase. simpl. rewrite Hou. by split.
Qed.

Lemma safe_delete_impl {A} (k : Z -> prog A) t i Q :
  wf t -> own t = [(false, i)] -> safe (k 0) (set_own [] t) Q -> safe (delete_impl ≫= k) t Q.
Proof.
  intros Ht Ho Hk. apply safe_bind. apply (safe_access_owned _ _ _ false i); [done|]. intros s u Hu Hi Hou Hc.
  destruct Hi as [Hf Hb H1 _], Hc as [O1 O2 O3 O4 O5 O6 O7]. rewrite O1.
  eexists _, _, _. split; [done|]. split; [|split; [|split; [|apply Hk]]]; [counts|counts|].
  split; [done|counts|done|]. unfold phase. simpl. rewrite Hou. right. by split.
Qed.

(** ** Loops *)

Lemma safe_loop (J K : Z -> tok -> Prop) body i t Q :
  J i t -> (forall i t, J i t -> safe (body i) t (fun r t' => match r with inl i' => J i' t' | inr x => K x t' end)) ->
  (forall x t', K x t' -> Q x t') -> safe (loop body i) t Q.
Proof. intros. exists J, K. auto. Qed.

Lemma safe_loop_bind {A} (J K : Z -> tok -> Prop) body i (k : Z -> prog A) t Q :
  J i t -> (forall i t, J i t -> safe (body i) t (fun r t' => match r with inl i' => J i' t' | inr x => K x t' end)) ->
  (forall x t', K x t' -> safe (k x) t' Q) -> safe (loop body i ≫= k) t Q.
Proof. intros. apply safe_bind. by apply (safe_loop J K). Qed.

Lemma safe_last {A} (p : prog A) t Q : safe (p ≫= mret) t Q -> safe p t Q.
Proof.
  change (p ≫= mret) with (prog_bind p Return). revert t Q.
  induction p as [A a|A op k IH|A body IHb i k IH]; intros t Q; cbn [safe prog_bind].
  - auto.
  - intros Hs s u Hu Hi. destruct (Hs s u Hu Hi) as (x & s' & t' & ? & ? & ? & ? & ?). eauto 10.
  - intros (J & K & Hj & Hb & Hk). exists J, K. split_and!; eauto.
Qed.

End Logic.
