(* ===== verification/RefThreads.v ===== *)
(** * Threads that share an object

    Each thread holds a number of strong and of weak references to one object
    and calls the methods of [RefBase] that its references allow; the steps of
    the threads interleave.  The calls are shown to be safe in the logic of
    [RefLogic], from which the theorems about all interleavings follow. *)

From S2P Require Import Prelude RefBase RefLogic.

(** ** Calls *)

Inductive call : Type :=
| IncStrong | ForceIncStrong | DecStrong | CreateWeak | IncWeak | DecWeak | AttemptIncStrong | AttemptIncWeak
| GetStrongCount | GetWeakCount.

Section Threads.
Context {V : Virtuals}.

Definition code (c : call) : prog Z :=
  match c with
  | IncStrong => incStrong
  | ForceIncStrong => forceIncStrong
  | DecStrong => decStrong
  | CreateWeak => createWeak
  | IncWeak => incWeak
  | DecWeak => decWeak
  | AttemptIncStrong => attemptIncStrong
  | AttemptIncWeak => attemptIncWeak
  | GetStrongCount => getStrongCount
  | GetWeakCount => getWeakCount
  end.

(** The references that a call needs. *)
Definition allowed (c : call) (ns nw : Z) : bool :=
  match c with
  | IncStrong | ForceIncStrong | DecStrong | CreateWeak | GetStrongCount => 0 <? ns
  | DecWeak => 0 <? nw
  | IncWeak | AttemptIncStrong | AttemptIncWeak | GetWeakCount => 0 <? ns + nw
  end.

(** The references after a call that returned [x]. *)
Definition after (c : call) (x ns nw : Z) : Z * Z :=
  match c with
  | IncStrong | ForceIncStrong => (ns + 1, nw)
  | DecStrong => (ns - 1, nw)
  | CreateWeak | IncWeak => (ns, nw + 1)
  | DecWeak => (ns, nw - 1)
  | AttemptIncStrong => if x =? 0 then (ns, nw) else (ns + 1, nw)
  | AttemptIncWeak => if x =? 0 then (ns, nw) else (ns, nw + 1)
  | GetStrongCount | GetWeakCount => (ns, nw)
  end.

Record thread : Type := Thread { ns : Z; nw : Z; running : option (call * prog Z) }.

Definition config : Type := refs * list thread.

(** References of all threads. *)
Definition held (l : list thread) : Z := foldr (fun th n => ns th + nw th + n) 0 l.

(** The steps: a call starts, a thread makes a step, a call returns, or a
    thread passes references to another. *)
Inductive thread_step : config -> config -> Prop :=
| call_starts s l1 l2 a b c :
    allowed c a b = true -> held (l1 ++ Thread a b None :: l2) + Z.of_nat (length (l1 ++ Thread a b None :: l2)) <= MAX_REFS ->
    thread_step (s, l1 ++ Thread a b None :: l2) (s, l1 ++ Thread a b (Some (c, code c)) :: l2)
| thread_runs s s' l1 l2 a b c p p' :
    prog_step p s = Ret (p', s') ->
    thread_step (s, l1 ++ Thread a b (Some (c, p)) :: l2) (s', l1 ++ Thread a b (Some (c, p')) :: l2)
| call_returns s l1 l2 a b c x :
    thread_step (s, l1 ++ Thread a b (Some (c, Return x)) :: l2)
      (s, l1 ++ Thread (after c x a b).1 (after c x a b).2 None :: l2)
| references_move s l1 l2 l3 a b a' b' m n :
    0 <= m <= a -> 0 <= n <= b ->
    thread_step (s, l1 ++ Thread a b None :: l2 ++ Thread a' b' None :: l3)
      (s, l1 ++ Thread (a - m) (b - n) None :: l2 ++ Thread (a' + m) (b' + n) None :: l3)
| references_move_back s l1 l2 l3 a b a' b' m n :
    0 <= m <= a' -> 0 <= n <= b' ->
    thread_step (s, l1 ++ Thread a b None :: l2 ++ Thread a' b' None :: l3)
      (s, l1 ++ Thread (a + m) (b + n) None :: l2 ++ Thread (a' - m) (b' - n) None :: l3)
| thread_created s l : thread_step (s, l) (s, l ++ [Thread 0 0 None]).

(** ** Safety of the methods *)

Section Methods.
Variable weak : bool.
Abbreviation safe := (safe weak).

Ltac tok_wf := unfold wf, base_known in *; simpl in *; lia.

Lemma flags_weak : Z.land (Z.b2z weak) 1 = Z.b2z weak.
Proof. by destruct weak. Qed.

Lemma safe_destroy_alone t i Q :
  wf t -> own t = [(true, i)] -> weak || i = true -> Q 0 (set_own [] t) -> safe destroy_RefBase t Q.
Proof.
  intros Ht Ho Hwi HQ. unfold destroy_RefBase. apply (safe_destroy_owned _ _ _ i); [done|done|].
  apply (safe_read_owned _ _ _ _ false i); [tok_wf|done|]. intros s Hf Hw Hs. cbn [get_word]. rewrite Hs.
  destruct i; cbn [initial_part]; rewrite ?Z.eqb_refl.
  - apply safe_last. by apply (safe_delete_impl _ _ _ true).
  - rewrite orb_false_r in Hwi. cbn [Z.eqb INITIAL_STRONG_VALUE]. apply (safe_read_owned _ _ _ _ false false); [tok_wf|done|].
    intros s' Hf' _ _. cbn [get_word]. rewrite Hf', Hwi. cbn [Z.b2z negb].
    apply (safe_read_owned _ _ _ _ false false); [tok_wf|done|]. intros s2 _ Hw2 _. cbn [get_word]. rewrite Hw2.
    apply safe_last. by apply (safe_delete_impl _ _ _ false).
Qed.

Lemma safe_destroy_referenced t Q :
  weak = false -> wf t -> 0 < db t -> adj t = true -> Q 0 (set_db 0 t) -> safe destroy_RefBase t Q.
Proof.
  intros Hweak Ht Hd Ha HQ. unfold destroy_RefBase. apply safe_destroy_last; [done|done|].
  apply safe_read; [tok_wf|tok_wf|]. intros s u i Hu Hi Hc. cbn [get_word].
  assert (mStrong s <> INITIAL_STRONG_VALUE) as Hne.
  { destruct Hc as [_ _ C3 C4 _ _], Hi as [_ Hb _ _], Hu as (?&?&?&?).
    assert (i = false) as -> by (apply C4; simpl; by rewrite Ha).
    unfold MAX_REFS, wf in *. simpl in *. lia. }
  destruct (Z.eqb_spec (mStrong s) INITIAL_STRONG_VALUE); [done|].
  apply safe_read; [tok_wf|tok_wf|]. intros s' u' i' Hu' Hi' _. cbn [get_word]. rewrite (i_flags _ _ _ Hi'), Hweak. done.
Qed.

Lemma safe_decWeak t Q :
  wf t -> own t = [] -> 0 < tw t -> ts t + db t <= tw t - 1 -> (forall x, Q x (set_tw (tw t - 1) t)) -> safe decWeak t Q.
Proof.
  intros Ht Ho Hw Hl HQ. unfold decWeak. apply safe_dec_weak; [done|done|done| |].
  - intros c Hc. destruct (Z.eqb_spec c 1); [done|]. apply HQ.
  - intros i E0 E1 E2. cbn [Z.eqb negb]. set (t' := set_own _ _).
    assert (Hret : set_own [] t' = set_tw (tw t - 1) t) by (unfold set_own, set_tw; simpl; by rewrite Ho, E0).
    assert (Hwf : wf t') by tok_wf.
    apply (safe_read_owned _ _ _ _ (weak || i) i); [done|done|]. intros s Hf _ _. cbn [get_word]. rewrite Hf.
    change OBJECT_LIFETIME_WEAK with 1. rewrite flags_weak. destruct (bool_dec weak true) as [Hweak|Hweak%not_true_is_false].
    + assert (Hb : Z.b2z weak = 1) by (by rewrite Hweak). rewrite Hb. cbn [Z.eqb OBJECT_LIFETIME_STRONG].
      apply (safe_virtual_owned _ _ _ _ _ i); [done|done|unfold t'; simpl; by rewrite Hweak|]. intros x.
      apply (safe_read_owned _ _ _ _ (weak || i) i); [done|done|]. intros s' Hf' _ _. cbn [get_word]. rewrite Hf', Hb.
      change (Z.land 1 OBJECT_LIFETIME_MASK =? OBJECT_LIFETIME_WEAK) with true.
      apply (safe_destroy_alone _ i); [done|unfold t'; simpl; by rewrite Hweak|by rewrite Hweak|]. rewrite Hret. apply HQ.
    + assert (Hb : Z.b2z weak = 0) by (by rewrite Hweak). rewrite Hb. cbn [Z.eqb OBJECT_LIFETIME_STRONG].
      apply (safe_read_owned _ _ _ _ (weak || i) i); [done|done|]. intros s' _ _ Hs'. cbn [get_word]. rewrite Hs'.
      destruct i; cbn [initial_part].
      * rewrite Z.eqb_refl. apply (safe_destroy_alone _ true); [done|unfold t'; simpl; by rewrite Hweak|by rewrite orb_true_r|].
        rewrite Hret. apply HQ.
      * change (0 =? INITIAL_STRONG_VALUE) with false. apply safe_last.
        apply (safe_delete_impl _ _ _ false); [done|unfold t'; simpl; by rewrite Hweak|].
        rewrite Hret. apply HQ.
Qed.

(** The token of a thread between calls. *)
Record idle_tok (n w : Z) (t : tok) : Prop := IdleTok {
  k_ns : 0 <= n; k_nw : 0 <= w; k_ts : ts t = n; k_tw : tw t = n + w; k_db : db t = 0; k_cr : 0 <= cr t;
  k_own : own t = []; k_adj : 0 < n -> adj t = true
}.

Lemma idle_wf n w t : idle_tok n w t -> wf t.
Proof. intros []. tok_wf. Qed.

(** A call may return with a result and references that fit. *)
Definition returns (c : call) (n w : Z) (x : Z) (t : tok) : Prop := idle_tok (after c x n w).1 (after c x n w).2 t.

Ltac idle := split; simpl; try done; try tok_wf.

Lemma safe_incWeak t Q : wf t -> 0 < tw t -> 0 < cr t -> Q 0 (set_cr (cr t - 1) (set_tw (tw t + 1) t)) -> safe incWeak t Q.
Proof. intros. unfold incWeak. by apply safe_inc_weak. Qed.

Lemma safe_attemptIncWeak n w t :
  idle_tok n w t -> 0 < n + w -> 0 < cr t -> safe attemptIncWeak t (returns AttemptIncWeak n w).
Proof.
  intros Ht Hnw Hc. pose proof (idle_wf _ _ _ Ht) as Hwf. destruct Ht. unfold attemptIncWeak.
  assert (Hread : forall k : Z -> prog Z, (forall x, 0 < x -> safe (k x) t (returns AttemptIncWeak n w)) -> safe (read Weak ≫= k) t (returns AttemptIncWeak n w)).
  { intros k Hk. apply safe_read; [done|tok_wf|]. intros s u i Hu Hi Hcount. apply Hk. cbn [get_word].
    rewrite (c_weak _ _ _ _ Hcount). destruct Hu as (?&?&?&?). tok_wf. }
  apply Hread. intros x Hx.
  apply (safe_loop_bind _ (fun x t' => 0 < x /\ t' = t) (fun x t' => 0 < x /\ t' = set_cr (cr t - 1) (set_tw (tw t + 1) t))); [done| |].
  - intros cur t' [Hcur ->]. destruct (Z.ltb_spec 0 cur); [|lia]. apply safe_cas_weak; [done|tok_wf|done|done|].
    cbn [Z.eqb]. apply safe_read; [done|tok_wf|]. intros s u i Hu Hi Hcount. split; [|done].
    cbn [get_word]. rewrite (c_weak _ _ _ _ Hcount). destruct Hu as (?&?&?&?). tok_wf.
  - intros cur t' [Hcur ->]. destruct (Z.ltb_spec 0 cur); [|lia]. cbn. idle.
Qed.

Lemma safe_fixup t (Q : Z -> tok -> Prop) : wf t -> 0 < ts t -> Q 1 (set_adj t) -> safe fixup t Q.
Proof.
  intros Ht Hs HQ. unfold fixup. assert (Hw : 0 < tw t) by tok_wf.
  assert (Hloop : forall x t', x < INITIAL_STRONG_VALUE /\ t' = set_adj t \/ INITIAL_STRONG_VALUE <= x /\ t' = t ->
    safe (fixup_loop x ≫= fun _ => mret 1) t' Q).
  { intros x t' Hx.
    apply (safe_loop_bind _ (fun x t' => x < INITIAL_STRONG_VALUE /\ t' = set_adj t \/ INITIAL_STRONG_VALUE <= x /\ t' = t)
      (fun _ t' => t' = set_adj t)); [done| |by intros ? ? ->].
    intros cur t2 [[Hlt ->]|[Hge ->]]; destruct (Z.leb_spec INITIAL_STRONG_VALUE cur); try lia; [done|].
    apply safe_cas_fixup; [done|done|done|done|]. cbn [Z.eqb].
    apply safe_read_strong; [done|done|by intros; left|by intros; right]. }
  apply safe_read_strong; [done|done| |]; intros x Hx; apply Hloop; auto.
Qed.

Lemma safe_drop_unneeded cur t (Q : Z -> tok -> Prop) : wf t -> 0 < ts t -> (forall x, Q x t) -> safe (drop_unneeded cur) t Q.
Proof.
  intros Ht Hs HQ. unfold drop_unneeded. destruct (_ && _); [|apply HQ]. apply safe_last. apply safe_virtual; [done|done|tok_wf|].
  apply HQ.
Qed.

Lemma safe_incStrong n w t : idle_tok n w t -> 0 < n -> 0 < cr t -> safe incStrong t (returns IncStrong n w).
Proof.
  intros Ht Hn Hc. pose proof (idle_wf _ _ _ Ht). destruct Ht. unfold incStrong. apply safe_mRefs; [done|tok_wf|].
  apply safe_bind, safe_incWeak; [done|tok_wf|done|].
  apply safe_inc_strong; [tok_wf|tok_wf|tok_wf|by apply k_adj0|]. intros x Hx.
  destruct (Z.eqb_spec x INITIAL_STRONG_VALUE); [lia|].
  cbn. idle; intros _; by apply k_adj0.
Qed.

Lemma safe_forceIncStrong n w t : idle_tok n w t -> 0 < n -> 0 < cr t -> safe forceIncStrong t (returns ForceIncStrong n w).
Proof.
  intros Ht Hn Hc. pose proof (idle_wf _ _ _ Ht). destruct Ht. unfold forceIncStrong. apply safe_mRefs; [done|tok_wf|].
  apply safe_bind, safe_incWeak; [done|tok_wf|done|].
  apply safe_inc_strong; [tok_wf|tok_wf|tok_wf|by apply k_adj0|]. intros x Hx.
  destruct (Z.eqb_spec x INITIAL_STRONG_VALUE); [lia|].
  destruct (Z.eqb_spec x 0); [lia|]. cbn. idle; intros _; by apply k_adj0.
Qed.

Lemma safe_decStrong n w t : idle_tok n w t -> 0 < n -> safe decStrong t (returns DecStrong n w).
Proof.
  intros Ht Hn. pose proof (idle_wf _ _ _ Ht). destruct Ht. unfold decStrong. apply safe_mRefs; [done|tok_wf|].
  assert (Hlast : forall t', wf t' -> ts t' = n - 1 -> tw t' = n + w -> db t' = 0 -> own t' = [] -> adj t' = true ->
    safe decWeak t' (returns DecStrong n w)).
  { intros t' Hwf E1 E2 E3 E4 E5. apply safe_decWeak; [done|done|tok_wf|tok_wf|]. intros x. cbn. split; simpl; try done; tok_wf. }
  apply safe_dec_strong; [done|tok_wf|by apply k_adj0| |].
  - intros c Hc. apply safe_bind. destruct (Z.eqb_spec c 1) as [->|Hne].
    + destruct Hc as [?|Hweak]; [done|]. assert (Hb : Z.b2z weak = 1) by (by rewrite Hweak).
      apply safe_virtual; [done|tok_wf|right; right; split; [done|tok_wf]|]. intros _.
      apply safe_read; [tok_wf|tok_wf|]. intros s u i Hu Hi _. cbn [get_word]. rewrite (i_flags _ _ _ Hi), Hb.
      change (Z.land 1 OBJECT_LIFETIME_MASK =? OBJECT_LIFETIME_STRONG) with false. apply Hlast; try done; try tok_wf.
      by apply k_adj0.
    + apply Hlast; try done; try tok_wf. by apply k_adj0.
  - intros Hweak E. assert (Hb : Z.b2z weak = 0) by (by rewrite Hweak). cbn [Z.eqb Pos.eqb]. apply safe_bind.
    apply safe_virtual; [done|tok_wf|tok_wf|]. intros _.
    apply safe_read; [tok_wf|tok_wf|]. intros s u i Hu Hi _. cbn [get_word]. rewrite (i_flags _ _ _ Hi), Hb.
    change (Z.land 0 OBJECT_LIFETIME_MASK =? OBJECT_LIFETIME_STRONG) with true.
    apply safe_destroy_referenced; [done|tok_wf|tok_wf|simpl; by apply k_adj0|].
    apply Hlast; try done; try tok_wf. simpl. by apply k_adj0.
Qed.

(** A promotion that did not succeed gives its weak reference back. *)
Lemma safe_give_up n w t :
  wf t -> ts t = n -> tw t = n + w + 1 -> db t = 0 -> own t = [] -> 0 <= n -> 0 <= w -> (0 < n -> adj t = true) ->
  safe (decWeak;; mret 0) t (returns AttemptIncStrong n w).
Proof.
  intros Hwf E1 E2 E3 E4 Hn Hw Ha. apply safe_bind, safe_decWeak; [done|done|tok_wf|tok_wf|]. intros x. cbn. idle.
Qed.

Lemma safe_promoted n w t :
  wf t -> ts t = n + 1 -> tw t = n + w + 1 -> db t = 0 -> own t = [] -> 0 <= n -> 0 <= w ->
  safe fixup t (returns AttemptIncStrong n w).
Proof. intros Hwf E1 E2 E3 E4 Hn Hw. apply safe_fixup; [done|tok_wf|]. cbn. idle. Qed.

Lemma safe_attemptIncStrong n w t :
  idle_tok n w t -> 0 < n + w -> 0 < cr t -> safe attemptIncStrong t (returns AttemptIncStrong n w).
Proof.
  intros Ht Hnw Hc. pose proof (idle_wf _ _ _ Ht) as Hwf. destruct Ht. unfold attemptIncStrong.
  apply safe_bind, safe_incWeak; [done|tok_wf|done|]. set (t1 := set_cr _ _). set (t2 := set_ts (ts t1 + 1) t1).
  assert (H1 : wf t1) by tok_wf. assert (H2 : wf t2) by tok_wf.
  assert (Hgive : safe (decWeak;; mret 0) t1 (returns AttemptIncStrong n w)) by (apply safe_give_up; try done; tok_wf).
  assert (Hgot : safe fixup t2 (returns AttemptIncStrong n w)) by (apply safe_promoted; try done; tok_wf).
  assert (Hfix : forall cur, safe (drop_unneeded cur;; fixup) t2 (returns AttemptIncStrong n w)).
  { intros cur. apply safe_bind, safe_drop_unneeded; [done|tok_wf|done]. }
  apply safe_read; [done|tok_wf|]. intros s u i Hu Hi _.
  apply (safe_loop_bind _ (fun _ t' => t' = t1)
    (fun cur t' => (cur <= 0 \/ cur = INITIAL_STRONG_VALUE) /\ t' = t1 \/ (0 < cur /\ cur <> INITIAL_STRONG_VALUE) /\ t' = t2)); [done| |].
  - intros cur t' ->.
    destruct (Z.ltb_spec 0 cur), (Z.eqb_spec cur INITIAL_STRONG_VALUE); cbn [andb negb]; try (left; split; [lia|done]).
    apply safe_cas_promote; [done|tok_wf|tok_wf|done|right; done|]. cbn [Z.eqb]. apply safe_read; [done|tok_wf|done].
  - intros cur t' [[Hcur ->]|[[Hpos Hne] ->]].
    2: { destruct (Z.leb_spec cur 0), (Z.eqb_spec cur INITIAL_STRONG_VALUE); try lia. done. }
    assert ((cur <=? 0) || (cur =? INITIAL_STRONG_VALUE) = true) as -> by (apply orb_true_iff; lia).
    apply safe_read; [done|tok_wf|]. intros s' u' i' Hu' Hi' _. cbn [get_word]. rewrite (i_flags _ _ _ Hi').
    change OBJECT_LIFETIME_WEAK with 1. rewrite flags_weak. destruct (bool_dec weak true) as [Hweak|Hweak%not_true_is_false].
    + assert (Hb : Z.b2z weak = 1) by (by rewrite Hweak). rewrite Hb. cbn [Z.eqb OBJECT_LIFETIME_STRONG].
      apply safe_virtual; [done|done|right; right; split; [done|tok_wf]|]. intros x. destruct (x =? 0); [done|].
      apply safe_revive; [done|done|tok_wf|tok_wf|]. intros y. apply Hfix.
    + assert (Hb : Z.b2z weak = 0) by (by rewrite Hweak). rewrite Hb. cbn [Z.eqb OBJECT_LIFETIME_STRONG].
      destruct (Z.leb_spec cur 0) as [|Hpos]; [done|].
      apply (safe_loop_bind _ (fun _ t' => t' = t1) (fun cur t' => cur <= 0 /\ t' = t1 \/ 0 < cur /\ t' = t2)); [done| |].
      * intros cur2 t' ->. destruct (Z.ltb_spec 0 cur2); [|left; done].
        apply safe_cas_promote; [done|tok_wf|tok_wf|done|right; done|]. cbn [Z.eqb]. apply safe_read; [done|tok_wf|done].
      * intros cur2 t' [[Hle ->]|[Hgt ->]]; destruct (Z.leb_spec cur2 0); try lia; [done|]. apply Hfix.
Qed.

(** Every call that the references allow is safe. *)
Lemma code_safe c n w t : idle_tok n w t -> allowed c n w = true -> 0 < cr t -> safe (code c) t (returns c n w).
Proof.
  intros Ht Ha Hc. pose proof (idle_wf _ _ _ Ht) as Hwf. pose proof Ht as [].
  destruct c; cbn [allowed] in Ha; apply Z.ltb_lt in Ha; cbn [code].
  - by apply safe_incStrong.
  - by apply safe_forceIncStrong.
  - by apply safe_decStrong.
  - apply safe_mRefs; [done|tok_wf|]. apply safe_incWeak; [done|tok_wf|done|]. cbn. idle.
  - apply safe_incWeak; [done|tok_wf|done|]. cbn. idle.
  - apply safe_decWeak; [done|done|tok_wf|tok_wf|]. intros x. cbn. idle.
  - by apply safe_attemptIncStrong.
  - by apply safe_attemptIncWeak.
  - apply safe_mRefs; [done|tok_wf|]. apply safe_last, safe_read; [done|tok_wf|]. done.
  - apply safe_last, safe_read; [done|tok_wf|]. done.
Qed.

End Methods.
End Threads.
