(* ===== verification/RefPool.v ===== *)
(** * The threads together

    The tokens of all threads add up to the state of the object.  Their sum
    does not depend on the order of the threads, up to the order of [own]. *)

From S2P Require Import Prelude RefBase RefLogic RefThreads.

(** ** Sums of tokens *)

Record tok_equiv (t u : tok) : Prop := TokEquiv {
  e_ts : ts t = ts u; e_tw : tw t = tw u; e_db : db t = db u; e_cr : cr t = cr u; e_adj : adj t = adj u; e_own : own t ≡ₚ own u
}.

#[global] Instance tok_equiv_equivalence : Equivalence tok_equiv.
Proof.
  split.
  - intros t. by split.
  - intros t u []. by split.
  - intros t u v [] []. split; congruence || by etrans.
Qed.

#[global] Instance add_tok_proper : Proper (tok_equiv ==> tok_equiv ==> tok_equiv) add_tok.
Proof. intros t t' [] u u' []. split; simpl; try congruence; try lia. by f_equiv. Qed.

Lemma add_tok_assoc t u v : tok_equiv (add_tok t (add_tok u v)) (add_tok (add_tok t u) v).
Proof. split; simpl; try lia; [by rewrite orb_assoc|by rewrite app_assoc]. Qed.

Lemma add_tok_comm t u : tok_equiv (add_tok t u) (add_tok u t).
Proof. split; simpl; try lia; [apply orb_comm|apply Permutation_app_comm]. Qed.

#[global] Instance inv_proper weak s : Proper (tok_equiv ==> iff) (inv weak s).
Proof.
  assert (H : forall t u, tok_equiv t u -> inv weak s t -> inv weak s u); [|intros t u E; split; apply H; [done|by symmetry]].
  intros t u [E1 E2 E3 E4 E5 E6] [? ? ? Hp]. split; try done; [lia|]. unfold phase in *.
  destruct (own t) as [|[b i] [|]] eqn:Eo; [| |done].
  - apply Permutation_nil_l in E6. rewrite <- E6. destruct Hp as [[? [i []]]|[]]; [left|right; split; congruence].
    split; [lia|]. exists i. split; rewrite <- ?E1, <- ?E2, <- ?E3, <- ?E5; done.
  - apply Permutation_singleton_l in E6. rewrite <- E6. destruct Hp. split; congruence.
Qed.

Definition total : list tok -> tok := foldr add_tok no_tok.

Lemma total_middle l1 t l2 : tok_equiv (total (l1 ++ t :: l2)) (add_tok t (total (l1 ++ l2))).
Proof.
  induction l1 as [|u l1 IH]; [done|]. simpl. rewrite IH, !add_tok_assoc. f_equiv. apply add_tok_comm.
Qed.

Lemma total_wf l : Forall wf l -> wf (total l).
Proof. induction 1; [done|]. simpl. by apply wf_add. Qed.

(** The sum depends on the parts only. *)
Lemma inv_only_sums weak s t u :
  inv weak s t -> ts u = ts t -> tw u = tw t -> db u = db t -> tw u + cr u <= MAX_REFS -> adj u = adj t -> own u = own t -> inv weak s u.
Proof.
  intros [? ? ? Hp] E1 E2 E3 E4 E5 E6. split; try done. unfold phase in *. rewrite E6, E2.
  destruct (own t) as [|[b i] [|]]; [| |done].
  - destruct Hp as [[? [i []]]|[]]; [left|right; split; congruence]. split; [done|]. exists i.
    split; rewrite ?E1, ?E2, ?E3, ?E5; done.
  - destruct Hp. split; congruence.
Qed.

(** ** The pool *)

Section Pool.
Context {V : Virtuals}.
Variable weak : bool.

(** The token fits what the thread is doing. *)
Definition thread_ok (th : thread) (t : tok) : Prop :=
  0 <= ns th /\ 0 <= nw th /\
  match running th with
  | None => idle_tok (ns th) (nw th) t /\ cr t = 0
  | Some (c, p) => wf t /\ tw t + cr t <= ns th + nw th + 1 /\ safe weak p t (returns c (ns th) (nw th))
  end.

Definition pool (x : config) : Prop := exists toks, Forall2 thread_ok x.2 toks /\ inv weak x.1 (total toks).

Lemma thread_ok_wf th t : thread_ok th t -> wf t.
Proof. intros (_ & _ & H). destruct (running th) as [[c p]|]; [apply H|]. eapply idle_wf, H. Qed.

Lemma threads_wf l toks : Forall2 thread_ok l toks -> Forall wf toks.
Proof. induction 1; constructor; [by eapply thread_ok_wf|done]. Qed.

(** The increments of a thread are at most one more than its references. *)
Lemma thread_ok_bound th t : thread_ok th t -> tw t + cr t <= ns th + nw th + 1.
Proof. intros (_ & _ & H). destruct (running th) as [[c p]|]; [apply H|]. destruct H as [[] ?]. lia. Qed.

Lemma pool_bound l toks :
  Forall2 thread_ok l toks -> tw (total toks) + cr (total toks) <= held l + Z.of_nat (length l).
Proof.
  induction 1 as [|th t l toks Ht _ IH]; simpl; [lia|]. apply thread_ok_bound in Ht. lia.
Qed.

Lemma held_middle l1 th l2 : held (l1 ++ th :: l2) = ns th + nw th + held (l1 ++ l2).
Proof. induction l1; simpl; lia. Qed.

(** One thread and the rest. *)
Lemma pool_split s l1 th l2 :
  pool (s, l1 ++ th :: l2) -> exists k1 t k2, Forall2 thread_ok l1 k1 /\ thread_ok th t /\ Forall2 thread_ok l2 k2 /\
    wf (total (k1 ++ k2)) /\ inv weak s (add_tok t (total (k1 ++ k2))).
Proof.
  intros (toks & Hf & Hi). apply Forall2_app_inv_l in Hf as (k1 & k & H1 & Hk & E). inversion Hk as [|? t ? k2 Ht H2]; subst.
  exists k1, t, k2. split_and!; try done; [|by rewrite <- total_middle]. apply total_wf, Forall_app. split; by eapply threads_wf.
Qed.

Lemma pool_join s l1 th l2 k1 t k2 :
  Forall2 thread_ok l1 k1 -> thread_ok th t -> Forall2 thread_ok l2 k2 -> inv weak s (add_tok t (total (k1 ++ k2))) ->
  pool (s, l1 ++ th :: l2).
Proof.
  intros H1 Ht H2 Hi. exists (k1 ++ t :: k2). split; [|by rewrite total_middle]. apply Forall2_app; [done|]. by constructor.
Qed.

(** Two idle threads and the rest. *)
Lemma pool_split2 s l1 a b l2 a' b' l3 :
  pool (s, l1 ++ Thread a b None :: l2 ++ Thread a' b' None :: l3) ->
  exists k1 t k2 t' k3, Forall2 thread_ok l1 k1 /\ thread_ok (Thread a b None) t /\ Forall2 thread_ok l2 k2 /\
    thread_ok (Thread a' b' None) t' /\ Forall2 thread_ok l3 k3 /\
    inv weak s (add_tok (add_tok t t') (total (k1 ++ k2 ++ k3))).
Proof.
  intros Hp. apply pool_split in Hp as (k1 & t & k & H1 & Ht & Hk & _ & Hi).
  apply Forall2_app_inv_l in Hk as (k2 & k' & H2 & Hk & ->). inversion Hk as [|? t' ? k3 Ht' H3]; subst.
  exists k1, t, k2, t', k3. split_and!; try done. by rewrite app_assoc, total_middle, <- app_assoc, add_tok_assoc in Hi.
Qed.

Lemma pool_join2 s l1 th l2 th' l3 k1 t k2 t' k3 :
  Forall2 thread_ok l1 k1 -> thread_ok th t -> Forall2 thread_ok l2 k2 -> thread_ok th' t' -> Forall2 thread_ok l3 k3 ->
  inv weak s (add_tok (add_tok t t') (total (k1 ++ k2 ++ k3))) -> pool (s, l1 ++ th :: l2 ++ th' :: l3).
Proof.
  intros H1 Ht H2 Ht' H3 Hi. eapply pool_join; [done|done| |].
  - apply Forall2_app; [done|]. by constructor.
  - by rewrite app_assoc, total_middle, <- app_assoc, add_tok_assoc.
Qed.

(** The token after references moved. *)
Definition moved (n w : Z) (a : bool) : tok := Tok n (n + w) 0 0 a [].

Lemma moved_ok n w a : 0 <= n -> 0 <= w -> (0 < n -> a = true) -> thread_ok (Thread n w None) (moved n w a).
Proof. intros Hn Hw Ha. split; [done|]. split; [done|]. split; [by split|done]. Qed.

(** A step of a running thread. *)
Lemma pool_runs s l1 l2 a b c p :
  pool (s, l1 ++ Thread a b (Some (c, p)) :: l2) ->
  exists p' s', prog_step p s = Ret (p', s') /\ pool (s', l1 ++ Thread a b (Some (c, p')) :: l2).
Proof.
  intros Hp. apply pool_split in Hp as (k1 & t & k2 & H1 & (Ha & Hb & Hwf & Hbd & Hs) & H2 & Hu & Hi). simpl in *.
  destruct (safe_step weak p t (total (k1 ++ k2)) s _ Hwf Hu Hi Hs) as (p' & s' & t' & E & Hwf' & Hle & Hi' & Hs').
  exists p', s'. split; [done|]. eapply (pool_join _ _ _ _ k1 t' k2); try done. split; [done|]. split; [done|]. simpl.
  split; [done|]. split; [lia|done].
Qed.

Lemma pool_moves s l1 l2 l3 a b a' b' m n :
  0 <= a - m -> 0 <= b - n -> 0 <= a' + m -> 0 <= b' + n ->
  pool (s, l1 ++ Thread a b None :: l2 ++ Thread a' b' None :: l3) ->
  pool (s, l1 ++ Thread (a - m) (b - n) None :: l2 ++ Thread (a' + m) (b' + n) None :: l3).
Proof.
  intros Hm Hn Hm' Hn' Hp. apply pool_split2 in Hp as (k1 & t & k2 & t' & k3 & H1 & Ht & H2 & Ht' & H3 & Hi).
  destruct Ht as (_ & _ & [? ? ? ? ? ? O1 A1] & Hc), Ht' as (_ & _ & [? ? ? ? ? ? O2 A2] & Hc'). simpl in *.
  assert (Hadj : 0 < a + a' -> adj t || adj t' = true).
  { intros ?. apply orb_true_iff. destruct (Z.lt_ge_cases 0 a); [left; auto|right; apply A2; lia]. }
  apply (pool_join2 _ _ _ _ _ _ k1 (moved (a - m) (b - n) (adj t || adj t')) k2 (moved (a' + m) (b' + n) (adj t || adj t')) k3); try done.
  - apply moved_ok; [done|done|]. intros ?. apply Hadj. lia.
  - apply moved_ok; [done|done|]. intros ?. apply Hadj. lia.
  - eapply inv_only_sums; [exact Hi|..]; simpl; try lia; try congruence.
    + pose proof (i_bound _ _ _ Hi). simpl in *. lia.
    + by destruct (adj t), (adj t').
    + by rewrite O1, O2.
Qed.

Lemma pool_step x y : thread_step x y -> pool x -> pool y.
Proof.
  intros [s l1 l2 a b c Hal Hmax|s s' l1 l2 a b c p p' E|s l1 l2 a b c v|s l1 l2 l3 a b a' b' m n Hm Hn|s l1 l2 l3 a b a' b' m n Hm Hn|s l] Hp.
  - apply pool_split in Hp as (k1 & t & k2 & H1 & (Ha & Hb & Hi & Hc) & H2 & Hu & Hinv). simpl in *. pose proof Hi as [].
    apply (pool_join _ _ _ _ k1 (set_cr 1 t) k2); try done.
    + split; [done|]. split; [done|]. simpl. split; [apply idle_wf in Hi; unfold wf in *; simpl; lia|]. split; [lia|].
      apply code_safe; try done.
    + pose proof (Hb2 := pool_bound _ _ (Forall2_app H1 H2)). rewrite held_middle, length_app in Hmax. rewrite length_app in Hb2.
      eapply inv_only_sums; [exact Hinv|..]; simpl in *; try done. lia.
  - apply pool_runs in Hp as (p2 & s2 & E2 & Hp). rewrite E in E2. by injection E2 as -> ->.
  - apply pool_split in Hp as (k1 & t & k2 & H1 & (Ha & Hb & Hwf & Hbd & Hs) & H2 & Hu & Hinv). cbn in Hs. unfold returns in Hs.
    apply (pool_join _ _ _ _ k1 (set_cr 0 t) k2); try done.
    + destruct Hs. split_and!; simpl; try done.
    + eapply inv_only_sums; [exact Hinv|..]; simpl; try done. pose proof (i_bound _ _ _ Hinv). unfold wf in *. simpl in *. lia.
  - apply pool_split2 in Hp as Hp'. destruct Hp' as (?&?&?&?&?&_&(?&?&_)&_&(?&?&_)&_). simpl in *. apply pool_moves; try lia.
    done.
  - replace (a + m) with (a - - m) by lia. replace (b + n) with (b - - n) by lia.
    replace (a' - m) with (a' + - m) by lia. replace (b' - n) with (b' + - n) by lia.
    apply pool_split2 in Hp as Hp'. destruct Hp' as (?&?&?&?&?&_&(?&?&_)&_&(?&?&_)&_). simpl in *. apply pool_moves; try lia.
    done.
  - destruct Hp as (toks & Hf & Hi). exists (toks ++ [no_tok]). split.
    + apply Forall2_app; [done|]. constructor; [|done]. by apply (moved_ok 0 0 false).
    + rewrite total_middle, app_nil_r. simpl. eapply inv_only_sums; [exact Hi|..]; simpl; try done. pose proof (i_bound _ _ _ Hi).
      simpl in *. lia.
Qed.

(** ** What the tokens say of the state *)

Lemma pool_idle s l th :
  pool (s, l) -> th ∈ l -> running th = None -> 0 < ns th + nw th ->
  impl s = true /\ (weak = true -> base s = true) /\ (0 < ns th -> base s = true /\ 0 < mStrong s < INITIAL_STRONG_VALUE).
Proof.
  intros Hp (l1 & l2 & ->)%list_elem_of_split Hr Hpos. apply pool_split in Hp as (k1 & t & k2 & _ & Ht & _ & Hu & Hi).
  pose proof (thread_ok_wf _ _ Ht) as Hwf.
  destruct Ht as (_ & _ & Ht). rewrite Hr in Ht. destruct Ht as [[] _].
  assert (0 < tw t) as Hw by lia. pose proof (own_empty weak s t _ Hi Hu Hwf Hw) as Ho.
  destruct (inv_counted weak s _ Hi Ho) as [i Hc]; [unfold wf in *; simpl; lia|]. split_and!; [apply Hc| |].
  - intros ->. by rewrite (c_base _ _ _ _ Hc).
  - intros Hn. split; [apply (base_allocated weak s t (total (k1 ++ k2)) i); [done|done|unfold base_known; lia|done]|].
    destruct Hc as [_ _ C3 C4 _ _], Hi as [_ Hb _ _]. assert (i = false) as -> by (apply C4; simpl; by rewrite k_adj).
    unfold wf, MAX_REFS in *. simpl in *. lia.
Qed.

Definition strong_held (l : list thread) : Z := foldr (fun th n => ns th + n) 0 l.
Definition quiet (l : list thread) : Prop := Forall (fun th => running th = None) l.

Lemma quiet_total l toks :
  quiet l -> Forall2 thread_ok l toks ->
  ts (total toks) = strong_held l /\ tw (total toks) = held l /\ db (total toks) = 0 /\ own (total toks) = [] /\
  (0 < strong_held l -> adj (total toks) = true) /\ 0 <= strong_held l <= held l.
Proof.
  intros Hq H. induction H as [|th t l toks Ht _ IH]; [simpl; split_and!; try done; lia|].
  inversion Hq as [|? ? Hr Hq']; subst. destruct (IH Hq') as (E1 & E2 & E3 & E4 & E5 & E6).
  destruct Ht as (_ & _ & Ht). rewrite Hr in Ht. destruct Ht as [[? ? ? ? ? ? Eo Ea] _]. simpl. split_and!; try lia.
  - by rewrite Eo, E4.
  - intros ?. apply orb_true_iff. destruct (Z.lt_ge_cases 0 (ns th)); [left; auto|right; apply E5; lia].
Qed.

(** Between calls the counts are the references. *)
Lemma pool_quiet s l :
  quiet l -> pool (s, l) ->
  if 0 <? held l then
    impl s = true /\ mWeak s = held l /\
    (mStrong s = strong_held l \/ strong_held l = 0 /\ mStrong s = INITIAL_STRONG_VALUE) /\
    base s = weak || (0 <? mStrong s)
  else impl s = false /\ base s = false.
Proof.
  intros Hq (toks & Hf & Hi). destruct (quiet_total _ _ Hq Hf) as (E1 & E2 & E3 & E4 & E5 & E6). simpl in *.
  destruct (Z.ltb_spec 0 (held l)) as [Hpos|Hz].
  - destruct (inv_counted weak s _ Hi E4) as [i [C1 C2 C3 C4 C5 C6]]; [lia|]. rewrite E1 in *. split_and!; [done|lia| |].
    + destruct i; simpl in C3; [|left; lia]. right. destruct (Z.lt_ge_cases 0 (strong_held l)); [|lia]. by specialize (C4 (E5 H)).
    + rewrite C6, E3, C3. destruct weak; [done|]. destruct i; simpl.
      * symmetry. apply Z.ltb_lt. rewrite initial_value. lia.
      * by rewrite Z.add_0_r, orb_false_r.
  - destruct Hi as [_ _ _ Hp]. unfold phase in Hp. rewrite E4 in Hp. destruct Hp as [[? _]|[]]; [lia|done].
Qed.

(** ** The first reference *)

(** An object is created, has its life-time extended or not, and gets its
    first reference, a strong or a weak one, before it is shared. *)
Definition first_reference (strong : bool) : prog Z :=
  (if weak then extendObjectLifetime OBJECT_LIFETIME_WEAK else mret 0);;
  if strong then incStrong else createWeak.

Definition initial (strong : bool) : option config :=
  match run_alone 20 (first_reference strong) new_RefBase with
  | Ret (Some _, s) => Some (s, [Thread (Z.b2z strong) (Z.b2z (negb strong)) None])
  | _ => None
  end.

(** The first reference of either kind leaves these counts. *)
Lemma initial_state strong :
  initial strong = Some (Refs (if strong then 1 else INITIAL_STRONG_VALUE) 1 (Z.b2z weak) true true (if strong then [FirstRef] else []),
    [Thread (Z.b2z strong) (Z.b2z (negb strong)) None]).
Proof. unfold initial, first_reference. destruct weak, strong; vm_compute; reflexivity. Qed.

Lemma initial_pool strong x : initial strong = Some x -> pool x.
Proof.
  rewrite initial_state. intros [= <-]. exists [moved (Z.b2z strong) (Z.b2z (negb strong)) strong]. split.
  - constructor; [|done]. by destruct strong; apply moved_ok.
  - split; simpl; try by destruct strong. left. split; [by destruct strong|]. exists (negb strong).
    split; simpl; try by destruct strong.
    + left. by destruct strong.
    + by destruct weak, strong.
Qed.

Lemma reachable_pool strong x y : initial strong = Some x -> rtc thread_step x y -> pool y.
Proof. intros Hx Hr. apply initial_pool in Hx. induction Hr; [done|]. eauto using pool_step. Qed.

End Pool.
