(* ===== verification/RefTermination.v ===== *)
(** * Calls that are not disturbed finish

    The loops of [attemptIncStrong] and [attemptIncWeak] repeat an exchange
    that fails only when another thread has changed the count since it was
    read: a thread that runs alone needs at most two rounds of a loop. *)

From S2P Require Import Prelude RefBase RefLogic RefThreads RefPool.

(** ** Programs without loops *)

Fixpoint exec {A : Type} (p : prog A) (s : refs) : outcome (A * refs) :=
  match p with
  | Return a => Ret (a, s)
  | Access op k => match op s with Ret (x, s') => exec (k x) s' | Abort => Abort | Fault => Fault end
  | Loop _ _ _ => Abort
  end.

(** No loop, and at most [n] accesses. *)
Fixpoint straight {A : Type} (p : prog A) (n : nat) : Prop :=
  match p with
  | Return _ => True
  | Access op k => match n with O => False | S m => forall x, straight (k x) m end
  | Loop _ _ _ => False
  end.

(** A second round leaves the loop. *)
Definition two_rounds (body : Z -> prog (Z + Z)) : Prop := forall i s i1 s1 i2 s2,
  exec (body i) s = Ret (inl i1, s1) -> exec (body i1) s1 <> Ret (inl i2, s2).

(** At most [n] steps alone: a loop has bodies of two accesses. *)
Fixpoint within {A : Type} (p : prog A) (n : nat) : Prop :=
  match p with
  | Return _ => True
  | Access op k => match n with O => False | S m => forall x, within (k x) m end
  | Loop body i k => exists m, (6 + m <= n)%nat /\ (forall i, straight (body i) 2) /\ two_rounds body /\ forall x, within (k x) m
  end.

Lemma within_more {A} (p : prog A) m n : (m <= n)%nat -> within p m -> within p n.
Proof.
  revert m n. induction p as [A a|A op k IH|A body _ i k IH]; intros m n Hle; simpl; [done| |].
  - destruct m; [done|]. destruct n; [lia|]. intros H x. apply (IH x m); [lia|done].
  - intros (m' & ? & Hb & Ht & Hk). exists m'. split_and!; try done. lia.
Qed.

Lemma within_bind {A B} (p : prog A) (f : A -> prog B) m n : within p m -> (forall a, within (f a) n) -> within (p ≫= f) (m + n).
Proof.
  intros Hp Hf. change (p ≫= f) with (prog_bind p f). revert m Hp.
  induction p as [A a|A op k IH|A body _ i k IH]; intros m; simpl; [intros _; by apply (within_more _ n); [lia|]| |].
  - destruct m; [done|]. intros H x. simpl. by apply IH.
  - intros (m' & ? & Hb & Ht & Hk). exists (m' + n)%nat. split_and!; try done; [lia|]. intros x. by apply IH.
Qed.

(** The run has come to an end. *)
Definition ended {A} (r : outcome (option A * refs)) : Prop := match r with Ret (None, _) => False | _ => True end.

Lemma ended_more {A} (p : prog A) n m s : (n <= m)%nat -> ended (run_alone n p s) -> ended (run_alone m p s).
Proof.
  revert m p s. induction n as [|n IH]; intros m p s Hle.
  - destruct p; simpl; [by destruct m|done|done].
  - destruct m; [lia|]. destruct p as [a|op k|body i k]; simpl; [done| |].
    + destruct (op s) as [[x s']| |]; [|done|done]. apply IH. lia.
    + apply IH. lia.
Qed.

Lemma straight_run {A B} (p : prog A) (f : A -> prog B) b n s :
  straight p b -> (forall a s', exec p s = Ret (a, s') -> ended (run_alone n (f a) s')) -> ended (run_alone (b + n) (prog_bind p f) s).
Proof.
  revert b s. induction p as [A a|A op k IH|]; intros b s; simpl; [| |done].
  - intros _ H. apply (ended_more _ n); [lia|]. by apply H.
  - destruct b; [done|]. intros Hs H. simpl. destruct (op s) as [[x s']| |]; [|done|done]. by apply IH.
Qed.

Lemma within_run {A} (p : prog A) n s : within p n -> ended (run_alone n p s).
Proof.
  revert n s. induction p as [A a|A op k IH|A body _ i k IH]; intros n s; simpl; [by destruct n| |].
  - destruct n; [done|]. intros H. simpl. destruct (op s) as [[x s']| |]; [|done|done]. by apply IH.
  - intros (m & Hle & Hb & Ht & Hk). apply (ended_more _ (6 + m)); [done|]. cbn [run_alone prog_step Nat.add].
    apply (straight_run _ _ 2 (3 + m)); [done|]. intros [i1|x] s1 E1.
    + cbn [run_alone prog_step Nat.add]. apply (straight_run _ _ 2 m); [done|].
      intros [i2|x] s2 E2; [by destruct (Ht _ _ _ _ _ _ E1 E2)|]. by apply IH.
    + apply (ended_more _ m); [lia|]. by apply IH.
Qed.

(** ** The methods *)

(** A loop that repeats an exchange of one word. *)
Definition exchange_loop (guard : Z -> bool) (new : Z -> Z) (w : word) (cur : Z) : prog (Z + Z) :=
  if guard cur then
    failed ← android_atomic_cmpxchg cur (new cur) w;
    if failed =? 0 then mret (inr cur)
    else cur ← read w; mret (inl cur)
  else mret (inr cur).

Lemma exchange_straight guard new w i : straight (exchange_loop guard new w i) 2.
Proof. unfold exchange_loop. destruct (guard i); [|done]. cbn. intros x. by destruct (x =? 0). Qed.

Lemma exchange_two_rounds guard new w : two_rounds (exchange_loop guard new w).
Proof.
  intros i s i1 s1 i2 s2. unfold exchange_loop. destruct (guard i); cbn; [|done]. destruct (impl s) eqn:Ei; [|done].
  destruct (Z.eqb_spec (get_word w s) i); cbn; [done|]. rewrite Ei. intros [= <- <-]. destruct (guard _); cbn; [|done].
  rewrite Ei, Z.eqb_refl. done.
Qed.

Lemma within_exchange guard new w i n : (6 <= n)%nat -> within (loop (exchange_loop guard new w) i) n.
Proof. intros Hn. exists (n - 6)%nat. split_and!; [lia|apply exchange_straight|apply exchange_two_rounds|done]. Qed.

Section Calls.
Context {V : Virtuals}.

(** Step through a program without loops. *)
Ltac accesses := repeat first [done | intros ?; simpl | match goal with |- within (if ?b then _ else _) _ => destruct b end | match goal with |- context [if ?b then _ else _] => destruct b end].

Lemma within_destroy : within destroy_RefBase 5.
Proof. cbn. accesses. Qed.

Lemma within_decWeak : within decWeak 9.
Proof. cbn. accesses. Qed.

Lemma within_fixup : within fixup 7.
Proof.
  unfold fixup. change 7%nat with (1 + (6 + 0))%nat. apply (within_bind (read Strong)); [done|]. intros x.
  apply (within_bind (fixup_loop x)); [by apply (within_exchange (fun c => INITIAL_STRONG_VALUE <=? c) (fun c => c - INITIAL_STRONG_VALUE))|done].
Qed.

Lemma within_drop cur : within (drop_unneeded cur;; fixup) 8.
Proof. change 8%nat with (1 + 7)%nat. apply within_bind; [|intros _; apply within_fixup]. unfold drop_unneeded. by destruct (_ && _). Qed.

Lemma within_give_up : within (decWeak;; mret 0) 9.
Proof. change 9%nat with (9 + 0)%nat. by apply within_bind; [apply within_decWeak|]. Qed.

Lemma within_attemptIncStrong : within attemptIncStrong 24.
Proof.
  unfold attemptIncStrong. change 24%nat with (1 + (1 + (6 + (1 + 15))))%nat.
  apply (within_bind incWeak); [done|]. intros _. apply (within_bind (read Strong)); [done|]. intros x.
  apply (within_bind (promote_loop x)); [by apply (within_exchange (fun c => (0 <? c) && negb (c =? INITIAL_STRONG_VALUE)) (fun c => c + 1))|].
  intros cur.
  destruct (_ || _); [|by apply (within_more _ 7); [lia|apply within_fixup]].
  apply (within_bind (read Flags)); [done|]. intros flags. destruct (_ =? _).
  - destruct (cur <=? 0); [by apply (within_more _ 9); [lia|apply within_give_up]|]. change 15%nat with (6 + 9)%nat.
    apply (within_bind (first_promote_loop cur)); [by apply (within_exchange (fun c => 0 <? c) (fun c => c + 1))|]. intros c.
    destruct (c <=? 0); [apply within_give_up|]. by apply (within_more _ 8); [lia|apply within_drop].
  - change 15%nat with (1 + 14)%nat. apply within_bind; [done|]. intros agreed.
    destruct (agreed =? 0); [by apply (within_more _ 9); [lia|apply within_give_up]|].
    change 14%nat with (1 + 13)%nat. apply within_bind; [done|]. intros c. by apply (within_more _ 8); [lia|apply within_drop].
Qed.

Lemma within_code c : within (code c) 24.
Proof.
  destruct c; cbn [code]; try (cbn; accesses; fail); [apply within_attemptIncStrong|].
  unfold attemptIncWeak. change 24%nat with (1 + 23)%nat. apply (within_bind (read Weak)); [done|]. intros x.
  change 23%nat with (23 + 0)%nat.
  apply (within_bind (attemptIncWeak_loop x)); [|done]. apply (within_exchange (fun c => 0 <? c) (fun c => c + 1)). lia.
Qed.

(** ** What is left of a call *)

(** The rest of a call: the accesses of a round, then a program. *)
Definition rest (n : nat) (p : prog Z) : Prop :=
  exists (B : Type) (q : prog B) (f : B -> prog Z), p = prog_bind q f /\ straight q 2 /\ forall b, within (f b) n.

Lemma rest_within n p : rest n p -> within p (2 + n).
Proof.
  intros (B & q & f & -> & Hq & Hf). apply (within_bind q); [|done]. clear f Hf. revert Hq. generalize 2%nat as m.
  induction q as [|B op k IH|]; intros m; simpl; [done| |done]. destruct m; [done|]. intros H x. by apply IH.
Qed.

Lemma within_rest n p : within p n -> rest n p.
Proof. intros H. by exists unit, (Return tt), (fun _ => p). Qed.

Lemma within_step n p s p' s' : within p n -> prog_step p s = Ret (p', s') -> rest n p'.
Proof.
  destruct p as [a|op k|body i k]; simpl.
  - intros _ [= <- <-]. by apply within_rest.
  - destruct n; [done|]. intros H. destruct (op s) as [[x s2]| |]; intros [= <- <-]. apply within_rest.
    apply (within_more _ n); [lia|done].
  - intros (m & Hle & Hb & Ht & Hk) [= <- <-].
    exists (Z + Z)%type, (body i), (fun r => match r with inl i' => Loop body i' k | inr x => k x end).
    split; [done|]. split; [apply Hb|]. intros [i'|x].
    + by exists m.
    + apply (within_more _ m); [lia|done].
Qed.

Lemma rest_step n p s p' s' : rest n p -> prog_step p s = Ret (p', s') -> rest n p'.
Proof.
  intros (B & q & f & -> & Hq & Hf). destruct q as [b|op k|]; [exact (within_step n (f b) s p' s' (Hf b))| |done].
  simpl. destruct (op s) as [[x s2]| |]; intros [= <- <-]. exists B, (k x), f. split; [done|]. split; [|done].
  simpl in Hq. specialize (Hq x). clear f Hf. revert Hq. generalize (k x) as q. clear. intros q.
  assert (Hm : (1 <= 2)%nat) by lia. revert Hm.
  generalize 1%nat, 2%nat. induction q as [|B op' k' IH|]; intros m m2 Hm; simpl; [done| |done].
  destruct m; [done|]. destruct m2; [lia|]. intros H y. apply (IH y m); [lia|done].
Qed.

Definition call_rests (th : thread) : Prop := match running th with None => True | Some (_, p) => rest 24 p end.

Lemma rests_step x y : thread_step x y -> Forall call_rests x.2 -> Forall call_rests y.2.
Proof.
  intros [s l1 l2 a b c _ _|s s' l1 l2 a b c p p' E|s l1 l2 a b c v|s l1 l2 l3 a b a' b' m n _ _|s l1 l2 l3 a b a' b' m n _ _|s l]; simpl;
    rewrite ?Forall_app, ?Forall_cons, ?Forall_app, ?Forall_cons; intros H; destruct_and?; split_and?; try done.
  - apply (within_rest 24 (code c)), within_code.
  - by eapply (rest_step 24 p).
Qed.

(** The steps of one thread. *)
Inductive alone (i : nat) : config -> config -> Prop :=
| alone_runs s s' l a b c p p' :
    l !! i = Some (Thread a b (Some (c, p))) -> prog_step p s = Ret (p', s') ->
    alone i (s, l) (s', <[i := Thread a b (Some (c, p'))]> l).

Lemma pool_finishes weak n s l i a b c p :
  pool weak (s, l) -> l !! i = Some (Thread a b (Some (c, p))) -> ended (run_alone n p s) ->
  exists k x s', (k <= n)%nat /\ nsteps (alone i) k (s, l) (s', <[i := Thread a b (Some (c, Return x))]> l).
Proof.
  revert s l p. induction n as [|n IH]; intros s l p Hp Hl He.
  - destruct p as [x| |]; [|done|done]. exists 0%nat, x, s. split; [lia|]. rewrite list_insert_id by done. constructor.
  - assert (Hne : (exists x, p = Return x) \/ ~ exists x, p = Return x) by (destruct p; [left; eauto|right; by intros []|right; by intros []]); destruct Hne as [[x ->]|Hne].
    + exists 0%nat, x, s. split; [lia|]. rewrite list_insert_id by done. constructor.
    + assert (Hlt : (i < length l)%nat) by (by eapply lookup_lt_Some). rewrite <- (take_drop_middle l i _ Hl) in Hp.
      apply pool_runs in Hp as (p' & s' & E & Hp).
      assert (He' : ended (run_alone n p' s')) by (destruct p; [by destruct Hne; eauto|cbn [run_alone] in He; by rewrite E in He|cbn [run_alone] in He; by rewrite E in He]).
      rewrite <- insert_take_drop in Hp by done.
      destruct (IH s' _ p' Hp) as (k & x & s2 & Hk & Hs); [by apply list_lookup_insert_eq|done|].
      exists (S k), x, s2. split; [lia|]. rewrite list_insert_insert_eq in Hs. econstructor; [by econstructor|done].
Qed.

End Calls.
