(* ===== verification/RefProps.v ===== *)
(** * Theorems about shared objects

    For every interleaving of the calls of any number of threads: no step
    touches deleted memory, the counts are the references between calls, the
    object is deleted exactly once, and a thread left alone finishes its call. *)

From S2P Require Import Prelude RefBase RefLogic RefThreads RefPool RefTermination.

(** ** Schedules

    An executable interleaving. *)
Inductive action : Type :=
| Start (i : nat) (c : call) | Run (i : nat) | Finish (i : nat) | Give (i j : nat) (m n : Z) | Create.

Section Schedules.
Context {V : Virtuals}.

Definition act (x : config) (d : action) : option config :=
  let '(s, l) := x in
  match d with
  | Start i c =>
      match l !! i with
      | Some (Thread a b None) =>
          if allowed c a b && (held l + Z.of_nat (length l) <=? MAX_REFS) then Some (s, <[i := Thread a b (Some (c, code c))]> l) else None
      | _ => None
      end
  | Run i =>
      match l !! i with
      | Some (Thread a b (Some (c, p))) =>
          match prog_step p s with Ret (p', s') => Some (s', <[i := Thread a b (Some (c, p'))]> l) | _ => None end
      | _ => None
      end
  | Finish i =>
      match l !! i with
      | Some (Thread a b (Some (c, Return x))) => Some (s, <[i := Thread (after c x a b).1 (after c x a b).2 None]> l)
      | _ => None
      end
  | Give i j m n =>
      match l !! i, drop (S i) l !! j with
      | Some (Thread a b None), Some (Thread a' b' None) =>
          if (0 <=? m) && (m <=? a) && (0 <=? n) && (n <=? b)
          then Some (s, take i l ++ Thread (a - m) (b - n) None :: <[j := Thread (a' + m) (b' + n) None]> (drop (S i) l)) else None
      | _, _ => None
      end
  | Create => Some (s, l ++ [Thread 0 0 None])
  end.

Definition schedule (l : list action) (x : config) : option config := foldl (fun r d => x ← r; act x d) (Some x) l.

(** An update in the middle of a list. *)
Lemma list_middle {A} (l : list A) i x y : l !! i = Some x -> exists l1 l2, l = l1 ++ x :: l2 /\ <[i := y]> l = l1 ++ y :: l2.
Proof.
  intros Hl. exists (take i l), (drop (S i) l). split; [by rewrite take_drop_middle|]. apply insert_take_drop.
  by eapply lookup_lt_Some.
Qed.

Lemma act_step x d y : act x d = Some y -> thread_step x y.
Proof.
  destruct x as [s l], d as [i c|i|i|i j m n|]; cbn [act].
  - destruct (l !! i) as [[a b [|]]|] eqn:El; try done. destruct (allowed c a b) eqn:Ea; [|done].
    destruct (Z.leb_spec (held l + Z.of_nat (length l)) MAX_REFS) as [Hle|]; [|done].
    intros [= <-]. destruct (list_middle l i _ (Thread a b (Some (c, code c))) El) as (l1 & l2 & -> & ->). by constructor.
  - destruct (l !! i) as [[a b [[c p]|]]|] eqn:El; try done. destruct (prog_step p s) as [[p' s']| |] eqn:Ep; try done.
    intros [= <-]. destruct (list_middle l i _ (Thread a b (Some (c, p'))) El) as (l1 & l2 & -> & ->). by constructor.
  - destruct (l !! i) as [[a b [[c [v| |]]|]]|] eqn:El; try done.
    intros [= <-]. destruct (list_middle l i _ (Thread (after c v a b).1 (after c v a b).2 None) El) as (l1 & l2 & -> & ->).
    constructor.
  - destruct (l !! i) as [[a b [|]]|] eqn:El; try done. destruct (drop (S i) l !! j) as [[a' b' [|]]|] eqn:Ej; try done.
    destruct (_ && _) eqn:E; [|done]. intros [= <-]. apply take_drop_middle in El as E'. rewrite <- E' at 1.
    destruct (list_middle _ j _ (Thread (a' + m) (b' + n) None) Ej) as (l1 & l2 & -> & ->). constructor; lia.
  - intros [= <-]. constructor.
Qed.

Lemma schedule_steps l x y : schedule l x = Some y -> rtc thread_step x y.
Proof.
  unfold schedule. revert x. induction l as [|d l IH]; intros x; simpl; [intros [= ->]; constructor|].
  destruct (act x d) as [z|] eqn:E; simpl.
  - intros H. apply (rtc_l _ _ z); [by eapply act_step|by apply IH].
  - intros H. exfalso. clear E IH. induction l; [done|by apply IHl].
Qed.

Lemma schedule_reached l x :
  match schedule l x with Some _ => true | None => false end = true ->
  rtc thread_step x ((default x (schedule l x)).1, (default x (schedule l x)).2).
Proof. destruct (schedule l x) as [[s l']|] eqn:E; [|done]. intros _. by apply (schedule_steps l). Qed.

End Schedules.

(** ** Safety *)

Section Theorems.
Context {V : Virtuals}.

(** C25: whatever threads do with the references they hold, and however their
    steps interleave, no step of any call touches an object or a
    [weakref_impl] that has been deleted; between its calls a thread that holds
    a strong reference finds the object and a strong count between 1 and
    [INITIAL_STRONG_VALUE], one that holds a weak reference finds the
    [weakref_impl], and the object too when its life-time is extended; and the
    destructor has run exactly once when the object is gone, never before. *)
Theorem references_safe weak strong x s l :
  initial weak strong = Some x -> rtc thread_step x (s, l) ->
  (forall th c p, th ∈ l -> running th = Some (c, p) -> exists p' s', prog_step p s = Ret (p', s')) /\
  (forall th, th ∈ l -> running th = None -> 0 < ns th -> base s = true /\ impl s = true /\ 0 < mStrong s < INITIAL_STRONG_VALUE) /\
  (forall th, th ∈ l -> running th = None -> 0 < ns th + nw th -> impl s = true /\ (weak = true -> base s = true)) /\
  destructions s = if base s then 0 else 1.
Proof.
  intros Hx Hr. pose proof (reachable_pool _ _ _ _ Hx Hr) as Hp. split_and!.
  - intros [a b r] c p (l1 & l2 & ->)%list_elem_of_split Er. simpl in Er. subst r. apply pool_runs in Hp as (p' & s' & E & _).
    eauto.
  - intros th Hth Hn Hpos. assert (0 <= nw th) as Hw.
    { apply list_elem_of_split in Hth as (l1 & l2 & ->). apply pool_split in Hp as (?&?&?&_&(_&?&_)&_). done. }
    edestruct pool_idle as (? & ? & H); [done..|lia|]. destruct (H Hpos). done.
  - intros th Hth Hn Hpos. edestruct pool_idle as (? & ? & _); done.
  - destruct Hp as (toks & _ & Hi). apply (i_once _ _ _ Hi).
Qed.

(** C26: between calls the weak count is the number of references of both
    kinds, the strong count the number of strong references (or the initial
    value when none was ever taken), the object exists exactly while there is
    a strong reference, none was ever taken, or its life-time is extended, and
    the [weakref_impl] exists exactly while there is a reference. *)
Theorem references_counted weak strong x s l :
  initial weak strong = Some x -> rtc thread_step x (s, l) -> quiet l ->
  if 0 <? held l then
    impl s = true /\ mWeak s = held l /\
    (mStrong s = strong_held l \/ strong_held l = 0 /\ mStrong s = INITIAL_STRONG_VALUE) /\
    base s = weak || (0 <? mStrong s)
  else impl s = false /\ base s = false.
Proof. intros Hx Hr Hq. by eapply pool_quiet, reachable_pool. Qed.

(** C27: in every reachable state a thread in the middle of a call finishes it
    in at most 26 steps when the other threads pause: a loop of
    [attemptIncStrong] or [attemptIncWeak] goes round again only when another
    thread has changed the count. *)
Theorem call_finishes weak strong x s l i a b c p :
  initial weak strong = Some x -> rtc thread_step x (s, l) -> l !! i = Some (Thread a b (Some (c, p))) ->
  exists k v s', (k <= 26)%nat /\ nsteps (alone i) k (s, l) (s', <[i := Thread a b (Some (c, Return v))]> l).
Proof.
  intros Hx Hr Hl. pose proof (reachable_pool _ _ _ _ Hx Hr) as Hp.
  assert (Hrest : Forall call_rests x.2) by (rewrite initial_state in Hx; injection Hx as <-; by repeat constructor).
  assert (Hrests : Forall call_rests l) by (clear Hx Hl Hp; change l with (s, l).2; induction Hr; [done|by eapply IHHr, rests_step]).
  eapply pool_finishes; [done|done|]. apply within_run. apply (rest_within 24). exact (proj1 (Forall_lookup _ _) Hrests _ _ Hl).
Qed.

End Theorems.

(** ** Witnesses

    One thread drops the last strong reference while another promotes its weak
    reference; the promotion comes first and keeps the object. *)
Definition promote_and_drop : list action :=
  [Create; Start 0 CreateWeak; Run 0; Run 0; Finish 0; Give 0 0 0 1;
   Start 1 AttemptIncStrong; Run 1; Run 1; Start 0 DecStrong; Run 0; Run 1; Run 1; Run 1; Run 0; Run 0; Run 0; Run 1].

Definition promote_start : config := (Refs 1 1 0 true true [FirstRef], [Thread 1 0 None]).

(** In the middle of the calls, and after them. *)
Definition promote_middle : config := default promote_start (schedule (V := default_virtuals) (take 13 promote_and_drop) promote_start).
Definition promote_end : config := default promote_start (schedule (V := default_virtuals) (promote_and_drop ++ [Finish 0; Finish 1]) promote_start).

Lemma promote_middle_reached : rtc (thread_step (V := default_virtuals)) promote_start (promote_middle.1, promote_middle.2).
Proof. apply (schedule_reached (V := default_virtuals) (take 13 promote_and_drop)). vm_compute. reflexivity. Qed.

Lemma promote_end_reached : rtc (thread_step (V := default_virtuals)) promote_start (promote_end.1, promote_end.2).
Proof. apply (schedule_reached (V := default_virtuals) (promote_and_drop ++ [Finish 0; Finish 1])). vm_compute. reflexivity. Qed.

(** The theorem at the state where the promotion has succeeded and the drop is under way. *)
Lemma references_safe_witness :
  (length promote_middle.2 = 2)%nat /\ destructions promote_middle.1 = if base promote_middle.1 then 0 else 1.
Proof.
  split; [reflexivity|].
  exact (proj2 (proj2 (proj2 (@references_safe default_virtuals false true promote_start promote_middle.1 promote_middle.2 (initial_state false true) promote_middle_reached)))).
Defined.

(** The theorem after both calls: one strong reference is left. *)
Lemma references_counted_witness : held promote_end.2 = 2 /\ mWeak promote_end.1 = held promote_end.2.
Proof.
  split; [reflexivity|].
  exact (proj1 (proj2 (@references_counted default_virtuals false true promote_start promote_end.1 promote_end.2 (initial_state false true) promote_end_reached
    ltac:(repeat constructor)))).
Defined.

(** What is left of the promotion. *)
Definition promote_rest : prog Z :=
  match promote_middle.2 !! 1%nat with Some (Thread _ _ (Some (_, p))) => p | _ => Return 0 end.

Lemma promote_rest_lookup : promote_middle.2 !! 1%nat = Some (Thread 0 1 (Some (AttemptIncStrong, promote_rest))).
Proof.
  assert (exists p, promote_middle.2 !! 1%nat = Some (Thread 0 1 (Some (AttemptIncStrong, p)))) as [p E] by (eexists; reflexivity).
  unfold promote_rest. by rewrite E.
Qed.

(** The theorem for the thread that promotes. *)
Lemma call_finishes_witness : exists k v s', (k <= 26)%nat /\
  nsteps (alone 1) k (promote_middle.1, promote_middle.2)
    (s', <[1%nat := Thread 0 1 (Some (AttemptIncStrong, Return v))]> promote_middle.2).
Proof.
  apply (@call_finishes default_virtuals false true promote_start promote_middle.1 promote_middle.2 1 0 1 AttemptIncStrong promote_rest
    (initial_state false true) promote_middle_reached promote_rest_lookup).
Defined.

(** ** A race that the calls above exclude

    Two threads run; [true] is a step of the first. *)
Fixpoint interleave (l : list bool) (p q : prog Z) (s : refs) : outcome (prog Z * prog Z * refs) :=
  match l with
  | [] => Ret (p, q, s)
  | true :: l => match prog_step p s with Ret (p', s') => interleave l p' q s' | Abort => Abort | Fault => Fault end
  | false :: l => match prog_step q s with Ret (q', s') => interleave l p q' s' | Abort => Abort | Fault => Fault end
  end.

(** An object with one weak reference and no strong one. *)
Definition only_weak : refs := Refs INITIAL_STRONG_VALUE 1 0 true true [].

(** The first strong reference is taken through a raw pointer while another
    thread promotes the weak reference: both remove [INITIAL_STRONG_VALUE], and
    the strong count is negative although there are two strong references. *)
Lemma first_reference_race (V : Virtuals) : exists s,
  interleave ([true; true; true] ++ repeat false 9 ++ [true; true]) incStrong attemptIncStrong only_weak = Ret (Return 0, Return 1, s) /\
  mStrong s = 2 - INITIAL_STRONG_VALUE /\ mWeak s = 3.
Proof. eexists. split; [vm_compute; reflexivity|]. split; reflexivity. Qed.

(** Without overlap the count is right. *)
Lemma first_reference_no_race (V : Virtuals) : exists s,
  interleave (repeat true 5 ++ repeat false 9) incStrong attemptIncStrong only_weak = Ret (Return 0, Return 1, s) /\
  mStrong s = 2 /\ mWeak s = 3.
Proof. eexists. split; [vm_compute; reflexivity|]. split; reflexivity. Qed.

(** Two threads promote at the same time: the slower one calls [onLastStrongRef]
    although [onIncStrongAttempted] was not called and both hold a strong
    reference. *)
Lemma spurious_last_strong_ref (V : Virtuals) : exists s,
  interleave (repeat false 4 ++ repeat true 9 ++ repeat false 8) attemptIncStrong attemptIncStrong only_weak = Ret (Return 1, Return 1, s) /\
  mStrong s = 2 /\ notes s = [LastStrongRef].
Proof. eexists. split; [vm_compute; reflexivity|]. split; reflexivity. Qed.
