(* ===== verification/RefTracking.v ===== *)
(** * libshims/RefBase.cpp with [DEBUG_REFS]: the tracking of references

    When [DEBUG_REFS] is set, a [weakref_impl] keeps a list of the strong and
    one of the weak references, with the address of each owner.  The methods
    are those of [RefBase] with the calls of the tracking functions in between;
    the lists are changed with [mMutex] held, so a call is one step, which
    needs the [weakref_impl].  The call stacks of the entries are left out. *)

From S2P Require Import Prelude RefBase RefThreads.

(** ** The lists *)

(** [ref]: the count before the change, negative for a decrement. *)
Record ref_entry : Type := RefEntry { id : Z; ref : Z }.

(** [missing]: the identifiers whose removal was reported as an error. *)
Record tracking : Type := Tracking {
  mStrongRefs : list ref_entry; mWeakRefs : list ref_entry; mTrackEnabled : bool; mRetain : bool; missing : list Z
}.

Definition new_tracking (enabled_by_default : bool) : tracking := Tracking [] [] enabled_by_default false [].

(** Which of the two lists. *)
Definition get_refs (strong : bool) (d : tracking) : list ref_entry := if strong then mStrongRefs d else mWeakRefs d.
Definition set_refs (strong : bool) (l : list ref_entry) (d : tracking) : tracking :=
  if strong then Tracking l (mWeakRefs d) (mTrackEnabled d) (mRetain d) (missing d)
  else Tracking (mStrongRefs d) l (mTrackEnabled d) (mRetain d) (missing d).

Definition addRef (strong : bool) (i mRef : Z) (d : tracking) : tracking :=
  if mTrackEnabled d then set_refs strong (RefEntry i mRef :: get_refs strong d) d else d.

(** The entries without the first one of the owner; [None] if there is none. *)
Fixpoint remove_entry (i : Z) (l : list ref_entry) : option (list ref_entry) :=
  match l with
  | [] => None
  | e :: rest => if id e =? i then Some rest else rest' ← remove_entry i rest; Some (e :: rest')
  end.

Definition removeRef (strong : bool) (i : Z) (d : tracking) : tracking :=
  if mTrackEnabled d then
    match remove_entry i (get_refs strong d) with
    | Some l => set_refs strong l d
    | None => Tracking (mStrongRefs d) (mWeakRefs d) (mTrackEnabled d) (mRetain d) (missing d ++ [i])
    end
  else d.

Definition renameRefsId (strong : bool) (old_id new_id : Z) (d : tracking) : tracking :=
  if mTrackEnabled d then
    set_refs strong (map (fun e => if id e =? old_id then RefEntry new_id (ref e) else e) (get_refs strong d)) d
  else d.

Definition addStrongRef (i : Z) (s : refs) (d : tracking) : tracking := addRef true i (mStrong s) d.
Definition removeStrongRef (i : Z) (s : refs) (d : tracking) : tracking :=
  if negb (mRetain d) then removeRef true i d else addRef true i (s32 (- mStrong s)) d.
Definition renameStrongRefId (old_id new_id : Z) : tracking -> tracking := renameRefsId true old_id new_id.
Definition addWeakRef (i : Z) (s : refs) (d : tracking) : tracking := addRef false i (mWeak s) d.
Definition removeWeakRef (i : Z) (s : refs) (d : tracking) : tracking :=
  if negb (mRetain d) then removeRef false i d else addRef false i (s32 (- mWeak s)) d.
Definition renameWeakRefId (old_id new_id : Z) : tracking -> tracking := renameRefsId false old_id new_id.

Definition trackMe (track retain : bool) (d : tracking) : tracking := Tracking (mStrongRefs d) (mWeakRefs d) track retain (missing d).

Definition renameRefId (old_id new_id : Z) (d : tracking) : tracking := renameWeakRefId old_id new_id (renameStrongRefId old_id new_id d).

(** ** Arrays of pointers *)

(** [memory]: the object, or 0, that the variable at an address points to;
    [tracked]: the lists of the objects. *)
Record arrays : Type := Arrays { memory : gmap Z Z; tracked : gmap Z tracking }.

(** [RefBase::renameRefs]: nothing without [DEBUG_REFS]. *)
Fixpoint rename_loop (n : nat) (renamer : nat -> M arrays unit) : M arrays unit :=
  match n with
  | O => mret tt
  | S n' => rename_loop n' renamer;; renamer n'
  end.
Definition renameRefs (debug : bool) (n : nat) (renamer : nat -> M arrays unit) : M arrays unit :=
  if debug then rename_loop n renamer else mret tt.

(** Where the element [k] of an array is. *)
Definition element (size a : Z) (k : nat) : Z := a + size * Z.of_nat k.

(** [Renamer::operator()]: the object of a null pointer is not there. *)
Definition Renamer (size d s : Z) (k : nat) : M arrays unit := fun w =>
  match memory w !! element size d k with
  | None => Fault
  | Some o =>
      match tracked w !! o with
      | None => Fault
      | Some t =>
          Ret (tt, Arrays (memory w) (<[o := renameRefId (element size s k) (element size d k) t]> (tracked w)))
      end
  end.

Definition memmove (size d s : Z) (n : nat) (m : gmap Z Z) : gmap Z Z :=
  foldr (fun k m' => partial_alter (fun _ => m !! element size s k) (element size d k) m') m (seq 0 n).

(** [ReferenceMover::move_references] for [sp] and for [wp], whose [size]s
    differ, and the functions that call it. *)
Definition move_references (debug : bool) (size d s : Z) (n : nat) : M arrays unit :=
  w ← get;
  put (Arrays (memmove size d s n (memory w)) (tracked w));;
  renameRefs debug n (Renamer size d s).
Definition sizeof_sp : Z := 4.
Definition sizeof_wp : Z := 8.
Definition move_forward_type_sp (debug : bool) : Z -> Z -> nat -> M arrays unit := move_references debug sizeof_sp.
Definition move_backward_type_sp (debug : bool) : Z -> Z -> nat -> M arrays unit := move_references debug sizeof_sp.
Definition move_forward_type_wp (debug : bool) : Z -> Z -> nat -> M arrays unit := move_references debug sizeof_wp.
Definition move_backward_type_wp (debug : bool) : Z -> Z -> nat -> M arrays unit := move_references debug sizeof_wp.

(** The lines of [printRefs], and of the report of the destructor: the sign,
    the owner and the count. *)
Definition line (e : ref_entry) : bool * Z * Z := (0 <=? ref e, id e, ref e).
Definition printRefsLocked (l : list ref_entry) : list (bool * Z * Z) := map line l.
Definition printRefs (d : tracking) : list (bool * Z * Z) * list (bool * Z * Z) :=
  (printRefsLocked (mStrongRefs d), printRefsLocked (mWeakRefs d)).

(** [~weakref_impl]: the references that remain; nothing when they are
    retained. *)
Definition destroy_weakref_impl (d : tracking) : list (bool * Z * Z) * list (bool * Z * Z) :=
  if mRetain d then ([], []) else printRefs d.

(** ** Programs with tracking steps *)

Inductive tprog (A : Type) : Type :=
| TReturn (a : A)
| TAccess (op : M refs Z) (k : Z -> tprog A)
| TLoop (body : Z -> prog (Z + Z)) (i : Z) (k : Z -> tprog A)
| TTrack (f : refs -> tracking -> tracking) (k : tprog A).
Arguments TReturn {A} a.
Arguments TAccess {A} op k.
Arguments TLoop {A} body i k.
Arguments TTrack {A} f k.

Fixpoint tprog_bind {A B} (p : tprog A) (f : A -> tprog B) : tprog B :=
  match p with
  | TReturn a => f a
  | TAccess op k => TAccess op (fun x => tprog_bind (k x) f)
  | TLoop body i k => TLoop body i (fun x => tprog_bind (k x) f)
  | TTrack g k => TTrack g (tprog_bind k f)
  end.

(** A program without tracking, and what follows. *)
Fixpoint after_prog {B A} (p : prog B) (f : B -> tprog A) : tprog A :=
  match p with
  | Return b => f b
  | Access op k => TAccess op (fun x => after_prog (k x) f)
  | Loop body i k => TLoop body i (fun x => after_prog (k x) f)
  end.

#[global] Instance tprog_ret : MRet tprog := fun A => TReturn.
#[global] Instance tprog_mbind : MBind tprog := fun A B f p => tprog_bind p f.

Definition untracked {A} (p : prog A) : tprog A := after_prog p TReturn.
Definition track (f : refs -> tracking -> tracking) : tprog Z := TTrack f (TReturn 0).

Definition tprog_step {A} (p : tprog A) (s : refs) (d : tracking) : outcome (tprog A * refs * tracking) :=
  match p with
  | TReturn a => Ret (TReturn a, s, d)
  | TAccess op k =>
      match op s with
      | Ret (x, s') => Ret (k x, s', d)
      | Abort => Abort
      | Fault => Fault
      end
  | TLoop body i k =>
      Ret (after_prog (body i) (fun r => match r with inl i' => TLoop body i' k | inr x => k x end), s, d)
  | TTrack f k => if impl s then Ret (k, s, f s d) else Fault
  end.

(** ** The methods *)

Section Methods.
Context {V : Virtuals}.

Definition t_incWeak (i : Z) : tprog Z :=
  track (addWeakRef i);;
  untracked (android_atomic_inc Weak);;
  mret 0.

Definition t_decWeak (i : Z) : tprog Z :=
  track (removeWeakRef i);;
  untracked decWeak.

Definition t_createWeak (i : Z) : tprog Z :=
  untracked mRefs;;
  t_incWeak i.

Definition t_attemptIncWeak (i : Z) : tprog Z :=
  curCount ← untracked (read Weak);
  curCount ← untracked (attemptIncWeak_loop curCount);
  if 0 <? curCount then track (addWeakRef i);; mret 1 else mret 0.

Definition t_incStrong (i : Z) : tprog Z :=
  untracked mRefs;;
  t_incWeak i;;
  track (addStrongRef i);;
  c ← untracked (android_atomic_inc Strong);
  if negb (c =? INITIAL_STRONG_VALUE) then mret 0 else
  untracked (android_atomic_add (- INITIAL_STRONG_VALUE) Strong);;
  untracked onFirstRef.

Definition t_decStrong (i : Z) : tprog Z :=
  untracked mRefs;;
  track (removeStrongRef i);;
  c ← untracked (android_atomic_dec Strong);
  (if c =? 1 then
     untracked onLastStrongRef;;
     flags ← untracked (read Flags);
     if Z.land flags OBJECT_LIFETIME_MASK =? OBJECT_LIFETIME_STRONG then untracked destroy_RefBase
     else mret 0
   else mret 0);;
  t_decWeak i.

Definition t_forceIncStrong (i : Z) : tprog Z :=
  untracked mRefs;;
  t_incWeak i;;
  track (addStrongRef i);;
  c ← untracked (android_atomic_inc Strong);
  if c =? INITIAL_STRONG_VALUE then
    untracked (android_atomic_add (- INITIAL_STRONG_VALUE) Strong);;
    untracked onFirstRef
  else if c =? 0 then untracked onFirstRef
  else mret 0.

(** The end of [attemptIncStrong], with the strong reference taken. *)
Definition t_fixup (i : Z) : tprog Z :=
  track (addStrongRef i);;
  untracked fixup.

Definition t_attemptIncStrong (i : Z) : tprog Z :=
  t_incWeak i;;
  curCount ← untracked (read Strong);
  curCount ← untracked (promote_loop curCount);
  if (curCount <=? 0) || (curCount =? INITIAL_STRONG_VALUE) then
    flags ← untracked (read Flags);
    if Z.land flags OBJECT_LIFETIME_WEAK =? OBJECT_LIFETIME_STRONG then
      if curCount <=? 0 then t_decWeak i;; mret 0 else
      curCount ← untracked (first_promote_loop curCount);
      if curCount <=? 0 then t_decWeak i;; mret 0 else
      untracked (drop_unneeded curCount);;
      t_fixup i
    else
      agreed ← untracked (onIncStrongAttempted FIRST_INC_STRONG);
      if agreed =? 0 then t_decWeak i;; mret 0 else
      curCount ← untracked (android_atomic_inc Strong);
      untracked (drop_unneeded curCount);;
      t_fixup i
  else t_fixup i.

Definition t_code (c : call) (i : Z) : tprog Z :=
  match c with
  | IncStrong => t_incStrong i
  | ForceIncStrong => t_forceIncStrong i
  | DecStrong => t_decStrong i
  | CreateWeak => t_createWeak i
  | IncWeak => t_incWeak i
  | DecWeak => t_decWeak i
  | AttemptIncStrong => t_attemptIncStrong i
  | AttemptIncWeak => t_attemptIncWeak i
  | GetStrongCount => untracked getStrongCount
  | GetWeakCount => untracked getWeakCount
  end.

End Methods.
