(* ===== verification/RefTrackingProps.v ===== *)
(** * The build with tracking is equivalent to the build without

    The tracking steps change only the lists, and where one is about to be made
    the [weakref_impl] is allocated, so the two builds reach the same counts
    and life-times; the lists have the owners of the references. *)

From S2P Require Import Prelude RefBase RefLogic RefThreads RefPool RefTracking.

(** ** Programs that differ by tracking steps *)

(** An access of the [weakref_impl]. *)
Definition guarded (op : M refs Z) : Prop := forall s, impl s = false -> op s = Fault.

(** [last]: the result with which the program may end in a tracking step. *)
Inductive erases {A : Type} (last : option A) : tprog A -> prog A -> Prop :=
| er_return a : erases last (TReturn a) (Return a)
| er_access op tk k : (forall x, erases last (tk x) (k x)) -> erases last (TAccess op tk) (Access op k)
| er_loop body i tk k : (forall x, erases last (tk x) (k x)) -> erases last (TLoop body i tk) (Loop body i k)
| er_track f tp op k : guarded op -> erases last tp (Access op k) -> erases last (TTrack f tp) (Access op k)
| er_last f a : last = Some a -> erases last (TTrack f (TReturn a)) (Return a).

Lemma erases_bind {A B} last (tp : tprog A) (p : prog A) (tf : A -> tprog B) f :
  erases None tp p -> (forall a, erases last (tf a) (f a)) -> erases last (tp ≫= tf) (p ≫= f).
Proof.
  intros Hp Hf. unfold mbind, tprog_mbind, prog_mbind.
  induction Hp as [a|op tk k _ IH|body i tk k _ IH|g tp op k Hg _ IH|g a Hl]; simpl.
  - apply Hf.
  - by constructor.
  - by constructor.
  - by apply er_track.
  - done.
Qed.

Lemma erases_after {A B} last (p : prog B) (tf : B -> tprog A) f :
  (forall b, erases last (tf b) (f b)) -> erases last (after_prog p tf) (prog_bind p f).
Proof.
  intros Hf.
  induction p as [B b|B op k IH|B body _ i k IH]; simpl; [apply Hf|constructor; intros x; by apply IH|constructor; intros x; by apply IH].
Qed.

Lemma erases_refl {A} last (p : prog A) : erases last (untracked p) p.
Proof.
  unfold untracked. induction p as [A a|A op k IH|A body _ i k IH]; simpl; constructor; intros x; apply IH.
Qed.

(** Code without tracking, and what follows. *)
Lemma erases_untracked {A B} last (p : prog B) (tf : B -> tprog A) f :
  (forall b, erases last (tf b) (f b)) -> erases last (untracked p ≫= tf) (p ≫= f).
Proof. intros Hf. apply erases_bind; [apply erases_refl|done]. Qed.

Lemma erases_track {A} last g (tp : tprog A) op k : guarded op -> erases last tp (Access op k) -> erases last (track g ≫= fun _ => tp) (Access op k).
Proof. apply er_track. Qed.

Lemma guarded_add v w : guarded (fun s => if impl s then Ret (get_word w s, set_word w (s32 (get_word w s + v)) s) else Fault).
Proof. by intros s ->. Qed.
Lemma guarded_read w : guarded (fun s => if impl s then Ret (get_word w s, s) else Fault).
Proof. by intros s ->. Qed.

(** ** The methods *)

Section Methods.
Context {V : Virtuals}.

Create HintDb erases.
Hint Resolve erases_refl er_return guarded_add guarded_read : erases.

Ltac erase :=
  repeat first
    [ progress eauto 2 with erases
    | apply erases_untracked; intros ?
    | match goal with |- erases _ (if ?b then _ else _) (if ?b then _ else _) => destruct b end ].

Lemma erases_incWeak last i : erases last (t_incWeak i) incWeak.
Proof. apply erases_track; [apply guarded_add|]. constructor. intros x. constructor. Qed.

Lemma erases_decWeak last i : erases last (t_decWeak i) decWeak.
Proof. apply erases_track; [apply guarded_add|]. apply (erases_refl last decWeak). Qed.

Lemma erases_give_up last i : erases last (t_decWeak i;; mret 0) (decWeak;; mret 0).
Proof. apply erases_bind; [apply erases_decWeak|]. intros _. constructor. Qed.

Lemma erases_fixup last i : erases last (t_fixup i) fixup.
Proof. apply erases_track; [apply guarded_read|]. apply (erases_refl last fixup). Qed.

(** The tracking step in front of an atomic operation, and what follows. *)
Lemma erases_track_add last g v w (tf : Z -> tprog Z) f :
  (forall c, erases last (tf c) (f c)) ->
  erases last (track g;; (untracked (android_atomic_add v w) ≫= tf)) (android_atomic_add v w ≫= f).
Proof. intros Hf. apply erases_track; [apply guarded_add|]. constructor. intros x. apply Hf. Qed.

Lemma erases_incStrong last i : erases last (t_incStrong i) incStrong.
Proof.
  apply erases_untracked. intros _. apply erases_bind; [apply erases_incWeak|]. intros _. apply erases_track_add. intros c. erase.
Qed.

Lemma erases_forceIncStrong last i : erases last (t_forceIncStrong i) forceIncStrong.
Proof.
  apply erases_untracked. intros _. apply erases_bind; [apply erases_incWeak|]. intros _. apply erases_track_add. intros c. erase.
Qed.

Lemma erases_decStrong last i : erases last (t_decStrong i) decStrong.
Proof.
  apply erases_untracked. intros _. apply erases_track_add. intros c. apply erases_bind; [|intros _; apply erases_decWeak]. erase.
Qed.

Lemma erases_attemptIncStrong last i : erases last (t_attemptIncStrong i) attemptIncStrong.
Proof.
  pose proof erases_give_up. pose proof erases_fixup. apply erases_bind; [apply erases_incWeak|]. intros _. erase.
Qed.

Lemma erases_attemptIncWeak i : erases (Some 1) (t_attemptIncWeak i) attemptIncWeak.
Proof.
  apply erases_untracked. intros cur. apply erases_untracked. intros c. destruct (0 <? c); [by apply er_last|constructor].
Qed.

(** Only [attemptIncWeak] ends with a tracking step. *)
Definition last_of (c : call) : option Z := match c with AttemptIncWeak => Some 1 | _ => None end.

Lemma erases_code c i : erases (last_of c) (t_code c i) (code c).
Proof.
  destruct c; simpl.
  - apply erases_incStrong.
  - apply erases_forceIncStrong.
  - apply erases_decStrong.
  - apply erases_untracked. intros _. apply erases_incWeak.
  - apply erases_incWeak.
  - apply erases_decWeak.
  - apply erases_attemptIncStrong.
  - apply erases_attemptIncWeak.
  - apply erases_refl.
  - apply erases_refl.
Qed.

(** ** Threads *)

Record tthread : Type := TThread { tns : Z; tnw : Z; trunning : option (call * tprog Z) }.

Definition tconfig : Type := refs * tracking * list tthread.

Definition theld (l : list tthread) : Z := foldr (fun th n => tns th + tnw th + n) 0 l.

(** The steps of [thread_step]; a call has the address of an owner.  The
    tracking can be switched and owners renamed at any time. *)
Inductive tracked_step : tconfig -> tconfig -> Prop :=
| t_call_starts s d l1 l2 a b c i :
    allowed c a b = true -> theld (l1 ++ TThread a b None :: l2) + Z.of_nat (length (l1 ++ TThread a b None :: l2)) <= MAX_REFS ->
    tracked_step (s, d, l1 ++ TThread a b None :: l2) (s, d, l1 ++ TThread a b (Some (c, t_code c i)) :: l2)
| t_thread_runs s d s' d' l1 l2 a b c p p' :
    tprog_step p s d = Ret (p', s', d') ->
    tracked_step (s, d, l1 ++ TThread a b (Some (c, p)) :: l2) (s', d', l1 ++ TThread a b (Some (c, p')) :: l2)
| t_call_returns s d l1 l2 a b c x :
    tracked_step (s, d, l1 ++ TThread a b (Some (c, TReturn x)) :: l2)
      (s, d, l1 ++ TThread (after c x a b).1 (after c x a b).2 None :: l2)
| t_references_move s d l1 l2 l3 a b a' b' m n :
    0 <= m <= a -> 0 <= n <= b ->
    tracked_step (s, d, l1 ++ TThread a b None :: l2 ++ TThread a' b' None :: l3)
      (s, d, l1 ++ TThread (a - m) (b - n) None :: l2 ++ TThread (a' + m) (b' + n) None :: l3)
| t_references_move_back s d l1 l2 l3 a b a' b' m n :
    0 <= m <= a' -> 0 <= n <= b' ->
    tracked_step (s, d, l1 ++ TThread a b None :: l2 ++ TThread a' b' None :: l3)
      (s, d, l1 ++ TThread (a + m) (b + n) None :: l2 ++ TThread (a' - m) (b' - n) None :: l3)
| t_thread_created s d l : tracked_step (s, d, l) (s, d, l ++ [TThread 0 0 None])
| t_track_me s d l track retain : tracked_step (s, d, l) (s, trackMe track retain d, l)
| t_rename s d l old_id new_id : tracked_step (s, d, l) (s, renameRefId old_id new_id d, l).

(** Threads at the same place. *)
Definition thread_match (t : tthread) (u : thread) : Prop :=
  tns t = ns u /\ tnw t = nw u /\
  match trunning t, running u with
  | None, None => True
  | Some (c, tp), Some (c', p) => c = c' /\ erases (last_of c) tp p
  | _, _ => False
  end.

Definition matched (y : tconfig) (x : config) : Prop := y.1.1 = x.1 /\ Forall2 thread_match y.2 x.2.

Lemma matched_middle s d l1 t l2 x :
  matched (s, d, l1 ++ t :: l2) x -> exists k1 u k2, x = (s, k1 ++ u :: k2) /\ Forall2 thread_match l1 k1 /\ thread_match t u /\ Forall2 thread_match l2 k2.
Proof.
  destruct x as [s' l]. intros [E Hf]. simpl in *. subst s'. apply Forall2_app_inv_l in Hf as (k1 & k & H1 & Hk & ->).
  inversion Hk as [|? u ? k2 Hu H2]; subst. by exists k1, u, k2.
Qed.

Lemma matched_back s l1 u l2 y :
  matched y (s, l1 ++ u :: l2) -> exists d k1 t k2, y = (s, d, k1 ++ t :: k2) /\ Forall2 thread_match k1 l1 /\ thread_match t u /\ Forall2 thread_match k2 l2.
Proof.
  destruct y as [[s' d] l]. intros [E Hf]. simpl in *. subst s'. apply Forall2_app_inv_r in Hf as (k1 & k & H1 & Hk & ->).
  inversion Hk as [|t ? k2 ? Hu H2]; subst. by exists d, k1, t, k2.
Qed.

Lemma matched_join s d l1 t l2 k1 u k2 :
  Forall2 thread_match l1 k1 -> thread_match t u -> Forall2 thread_match l2 k2 -> matched (s, d, l1 ++ t :: l2) (s, k1 ++ u :: k2).
Proof. intros H1 Ht H2. split; [done|]. simpl. apply Forall2_app; [done|]. by constructor. Qed.

Lemma matched_held l k : Forall2 thread_match l k -> theld l = held k.
Proof. induction 1 as [|t u l k (E1 & E2 & _) _ IH]; simpl; [done|]. rewrite E1, E2, IH. done. Qed.

Lemma idle_match a b u : thread_match (TThread a b None) u -> u = Thread a b None.
Proof. destruct u as [n w r]. intros (E1 & E2 & E3). simpl in *. subst. by destruct r. Qed.

Lemma idle_match_back a b t : thread_match t (Thread a b None) -> t = TThread a b None.
Proof. destruct t as [n w r]. intros (E1 & E2 & E3). simpl in *. subst. destruct r as [[]|]; done. Qed.

Lemma running_match a b c tp u : thread_match (TThread a b (Some (c, tp))) u -> exists p, u = Thread a b (Some (c, p)) /\ erases (last_of c) tp p.
Proof. destruct u as [n w r]. intros (E1 & E2 & E3). simpl in *. subst. destruct r as [[c' p]|]; [|done]. destruct E3 as [<- E3]. by exists p. Qed.

Lemma running_match_back a b c p t : thread_match t (Thread a b (Some (c, p))) -> exists tp, t = TThread a b (Some (c, tp)) /\ erases (last_of c) tp p.
Proof. destruct t as [n w r]. intros (E1 & E2 & E3). simpl in *. subst. destruct r as [[c' tp]|]; [|done]. destruct E3 as [-> E3]. by exists tp. Qed.

(** ** Simulations *)

Lemma loop_erases last body (i : Z) tk k :
  (forall x, erases last (tk x) (k x)) ->
  erases (A := Z) last (after_prog (body i) (fun r => match r with inl i' => TLoop body i' tk | inr x => tk x end))
    (prog_bind (body i) (fun r => match r with inl i' => Loop body i' k | inr x => k x end)).
Proof. intros Hk. apply erases_after. intros [i'|x]; [by apply er_loop|apply Hk]. Qed.

(** A step of the tracked program is one of the other or changes the lists
    only. *)
Lemma step_erases last (tp : tprog Z) p s d tp' s' d' :
  erases last tp p -> tprog_step tp s d = Ret (tp', s', d') ->
  (s' = s /\ erases last tp' p) \/ exists p', prog_step p s = Ret (p', s') /\ erases last tp' p'.
Proof.
  intros He. destruct He as [a|op tk k Hk|body i tk k Hk|f tp op k Hg He|f a Hl]; simpl.
  - intros [= <- <- _]. left. split; [done|constructor].
  - destruct (op s) as [[x s1]| |]; [|done|done]. intros [= <- <- _]. right. eauto.
  - intros [= <- <- _]. right. eexists. split; [done|]. by apply loop_erases.
  - destruct (impl s); [|done]. intros [= <- <- _]. left. done.
  - destruct (impl s); [|done]. intros [= <- <- _]. left. split; [done|constructor].
Qed.

(** Where a tracking step is due the [weakref_impl] is allocated. *)
Lemma track_allocated weak s k1 k2 a b c f tp p :
  pool weak (s, k1 ++ Thread a b (Some (c, p)) :: k2) -> erases (last_of c) (TTrack f tp) p -> impl s = true.
Proof.
  intros Hp He. inversion He as [| | |? ? op k Hg _|? x Hl]; subst.
  - apply pool_runs in Hp as (p' & s' & E & _). simpl in E. destruct (impl s) eqn:Ei; [done|]. by rewrite (Hg s Ei) in E.
  - assert (Hc : c = AttemptIncWeak /\ x = 1) by (destruct c; simpl in Hl; try discriminate Hl; by injection Hl as <-).
    destruct Hc as [-> ->]. assert (Hab : 0 <= a /\ 0 <= b).
    { pose proof Hp as Hp'. by apply pool_split in Hp' as (?&?&?&_&(?&?&_)&_). }
    pose proof (pool_step weak _ _ (call_returns s k1 k2 a b AttemptIncWeak 1) Hp) as Hq.
    apply (pool_idle weak s _ (Thread a (b + 1) None)) in Hq as [? _]; [done| |done|simpl; lia].
    simpl. apply elem_of_app. right. apply elem_of_cons. by left.
Qed.

Lemma tracked_runs weak s d k1 k2 a b c tp p :
  pool weak (s, k1 ++ Thread a b (Some (c, p)) :: k2) -> erases (last_of c) tp p -> exists r, tprog_step tp s d = Ret r.
Proof.
  intros Hp He. destruct tp as [x|op k|body i k|f tp]; simpl; [by eexists| |by eexists|].
  - inversion He as [|? ? k' Hk| | |]; subst. apply pool_runs in Hp as (p' & s' & E & _). simpl in E.
    destruct (op s) as [[x s1]| |]; [by eexists|done|done].
  - rewrite (track_allocated weak s k1 k2 a b c f tp p Hp He). by eexists.
Qed.

(** The other build follows every step of the tracked one. *)
Lemma erase_step weak y y' x : tracked_step y y' -> matched y x -> pool weak x -> exists x', rtc thread_step x x' /\ matched y' x'.
Proof.
  intros Hs Hm Hp.
  destruct Hs as [s d l1 l2 a b c i Hal Hmax|s d s' d' l1 l2 a b c p p' E|s d l1 l2 a b c v|s d l1 l2 l3 a b a' b' m n H1 H2|s d l1 l2 l3 a b a' b' m n H1 H2|s d l|s d l tr re|s d l o n].
  - apply matched_middle in Hm as (k1 & u & k2 & -> & F1 & ->%idle_match & F2).
    exists (s, k1 ++ Thread a b (Some (c, code c)) :: k2). split.
    + apply rtc_once, call_starts; [done|].
      assert (Hf : Forall2 thread_match (l1 ++ TThread a b None :: l2) (k1 ++ Thread a b None :: k2)) by (apply Forall2_app; [done|by constructor]).
      rewrite <- (matched_held _ _ Hf), <- (Forall2_length _ _ _ Hf). done.
    + apply matched_join; [done| |done]. split_and!; try done. simpl. split; [done|apply erases_code].
  - apply matched_middle in Hm as (k1 & u & k2 & -> & F1 & (q & -> & He)%running_match & F2).
    destruct (step_erases _ _ _ _ _ _ _ _ He E) as [[-> He']|(q' & Eq & He')].
    + eexists. split; [reflexivity|]. by apply matched_join.
    + eexists. split; [by apply rtc_once, thread_runs|]. by apply matched_join.
  - apply matched_middle in Hm as (k1 & u & k2 & -> & F1 & (q & -> & He)%running_match & F2). inversion He; subst.
    eexists. split; [by apply rtc_once, call_returns|]. by apply matched_join.
  - apply matched_middle in Hm as (k1 & u & k & -> & F1 & ->%idle_match & F2).
    apply Forall2_app_inv_l in F2 as (k2 & k' & F2 & F3 & ->).
    inversion F3 as [|? u ? k3 Hu F3']; subst. apply idle_match in Hu as ->. eexists.
    split; [by apply rtc_once, references_move|].
    apply matched_join; [done|done|]. apply Forall2_app; [done|by constructor].
  - apply matched_middle in Hm as (k1 & u & k & -> & F1 & ->%idle_match & F2).
    apply Forall2_app_inv_l in F2 as (k2 & k' & F2 & F3 & ->).
    inversion F3 as [|? u ? k3 Hu F3']; subst. apply idle_match in Hu as ->. eexists.
    split; [by apply rtc_once, references_move_back|].
    apply matched_join; [done|done|]. apply Forall2_app; [done|by constructor].
  - destruct x as [s' k]. destruct Hm as [E Hf]. simpl in *. subst s'. eexists. split; [by apply rtc_once, thread_created|].
    split; [done|]. apply Forall2_app; [done|]. by constructor.
  - by exists x.
  - by exists x.
Qed.

(** Tracking steps up to the next step of the other build. *)
Lemma reach_head last (tp : tprog Z) p s d l1 l2 a b c :
  erases last tp p -> impl s = true \/ (forall f q, tp <> TTrack f q) ->
  exists d' tp', rtc tracked_step (s, d, l1 ++ TThread a b (Some (c, tp)) :: l2) (s, d', l1 ++ TThread a b (Some (c, tp')) :: l2) /\
    erases last tp' p /\ forall f q, tp' <> TTrack f q.
Proof.
  intros He Hi. revert d. induction He as [x|op tk k Hk _|body i tk k Hk _|f tp op k Hg He IH|f x Hl]; intros d.
  - exists d, (TReturn x). split; [done|]. split; [constructor|done].
  - exists d, (TAccess op tk). split; [done|]. split; [by constructor|done].
  - exists d, (TLoop body i tk). split; [done|]. split; [by constructor|done].
  - destruct Hi as [Hi|Hi]; [|by destruct (Hi f tp)]. destruct (IH ltac:(by left) (f s d)) as (d' & tp' & Hs & He' & Hn).
    exists d', tp'. split; [|done].
    eapply rtc_l; [|exact Hs]. apply t_thread_runs. simpl. by rewrite Hi.
  - destruct Hi as [Hi|Hi]; [|by destruct (Hi f (TReturn x))]. exists (f s d), (TReturn x). split; [|split; [constructor|done]].
    apply rtc_once, t_thread_runs. simpl. by rewrite Hi.
Qed.

(** The tracked build follows every step of the other. *)
Lemma track_step weak x x' y : thread_step x x' -> matched y x -> pool weak x -> exists y', rtc tracked_step y y' /\ matched y' x'.
Proof.
  intros Hs Hm Hp.
  destruct Hs as [s l1 l2 a b c Hal Hmax|s s' l1 l2 a b c p p' E|s l1 l2 a b c v|s l1 l2 l3 a b a' b' m n H1 H2|s l1 l2 l3 a b a' b' m n H1 H2|s l].
  - apply matched_back in Hm as (d & k1 & u & k2 & -> & F1 & ->%idle_match_back & F2).
    exists (s, d, k1 ++ TThread a b (Some (c, t_code c 0)) :: k2). split.
    + apply rtc_once, t_call_starts; [done|].
      assert (Hf : Forall2 thread_match (k1 ++ TThread a b None :: k2) (l1 ++ Thread a b None :: l2)) by (apply Forall2_app; [done|by constructor]).
      rewrite (matched_held _ _ Hf), (Forall2_length _ _ _ Hf). done.
    + apply matched_join; [done| |done]. split_and!; try done. simpl. split; [done|apply erases_code].
  - apply matched_back in Hm as (d & k1 & u & k2 & -> & F1 & (tp & -> & He)%running_match_back & F2).
    destruct (reach_head _ tp p s d k1 k2 a b c He) as (d' & tp' & Hr & He' & Hn).
    { destruct tp as [| | |f tp]; try (right; done). left. by eapply track_allocated. }
    assert (Hlast : exists tp2, tracked_step (s, d', k1 ++ TThread a b (Some (c, tp')) :: k2) (s', d', k1 ++ TThread a b (Some (c, tp2)) :: k2) /\ erases (last_of c) tp2 p').
    { destruct He' as [x|op tk k Hk|body i tk k Hk|f q op k Hg He'|f x Hl]; try (by destruct (Hn f q)); try (by destruct (Hn f (TReturn x))).
      - injection E as <- <-. exists (TReturn x). split; [by apply t_thread_runs|constructor].
      - simpl in E. destruct (op s) as [[y s1]| |] eqn:Eo; [|done|done]. injection E as <- <-. exists (tk y). split; [|done].
        apply t_thread_runs. simpl. by rewrite Eo.
      - injection E as <- <-. eexists. split; [by apply t_thread_runs|]. by apply loop_erases. }
    destruct Hlast as (tp2 & Hl & He2). eexists. split; [eapply rtc_r; [exact Hr|exact Hl]|]. by apply matched_join.
  - apply matched_back in Hm as (d & k1 & u & k2 & -> & F1 & (tp & -> & He)%running_match_back & F2).
    destruct (reach_head _ tp _ s d k1 k2 a b c He) as (d' & tp' & Hr & He' & Hn).
    { destruct tp as [| | |f tp]; try (right; done). left. by eapply track_allocated. }
    inversion He' as [x| | | |f x Hl]; subst; [|by destruct (Hn f (TReturn v))]. eexists.
    split; [eapply rtc_r; [exact Hr|apply t_call_returns]|]. by apply matched_join.
  - apply matched_back in Hm as (d & k1 & u & k & -> & F1 & ->%idle_match_back & F2).
    apply Forall2_app_inv_r in F2 as (k2 & k' & F2 & F3 & ->).
    inversion F3 as [|t ? k3 ? Hu F3']; subst. apply idle_match_back in Hu as ->. eexists.
    split; [by apply rtc_once, t_references_move|].
    apply matched_join; [done|done|]. apply Forall2_app; [done|by constructor].
  - apply matched_back in Hm as (d & k1 & u & k & -> & F1 & ->%idle_match_back & F2).
    apply Forall2_app_inv_r in F2 as (k2 & k' & F2 & F3 & ->).
    inversion F3 as [|t ? k3 ? Hu F3']; subst. apply idle_match_back in Hu as ->. eexists.
    split; [by apply rtc_once, t_references_move_back|].
    apply matched_join; [done|done|]. apply Forall2_app; [done|by constructor].
  - destruct y as [[s' d] k]. destruct Hm as [E Hf]. simpl in *. subst s'. eexists. split; [by apply rtc_once, t_thread_created|].
    split; [done|]. apply Forall2_app; [done|]. by constructor.
Qed.

End Methods.

(** ** Equivalence *)

(** The threads of a configuration in which no call runs, with tracking. *)
Definition with_tracking (d : tracking) (x : config) : tconfig := (x.1, d, map (fun th => TThread (ns th) (nw th) None) x.2).

Section Equivalence.
Context {V : Virtuals}.
Variables (weak strong : bool) (d : tracking) (x0 : config).
Hypothesis Hx0 : initial weak strong = Some x0.

Lemma initial_matched : matched (with_tracking d x0) x0.
Proof.
  destruct (initial_state weak strong) as []. rewrite initial_state in Hx0. injection Hx0 as <-. split; [done|]. simpl.
  by repeat constructor.
Qed.

Lemma tracked_reach y : rtc tracked_step (with_tracking d x0) y -> exists x, rtc thread_step x0 x /\ matched y x.
Proof.
  intros Hr. apply rtc_ind_r with (P := fun y => exists x, rtc thread_step x0 x /\ matched y x) in Hr; [done| |].
  - exists x0. split; [done|apply initial_matched].
  - intros y1 y2 _ Hs (x & Hx & Hm). destruct (erase_step weak y1 y2 x Hs Hm (reachable_pool _ _ _ _ Hx0 Hx)) as (x' & Hx' & Hm').
    exists x'. split; [by etrans|done].
Qed.

Lemma untracked_reach x : rtc thread_step x0 x -> exists y, rtc tracked_step (with_tracking d x0) y /\ matched y x.
Proof.
  intros Hr. pose proof Hr as Hr'.
  apply rtc_ind_r with (P := fun x => rtc thread_step x0 x -> exists y, rtc tracked_step (with_tracking d x0) y /\ matched y x) in Hr; [by apply Hr| |].
  - intros _. exists (with_tracking d x0). split; [done|apply initial_matched].
  - intros x1 x2 H1 Hs IH _. destruct (IH H1) as (y & Hy & Hm).
    destruct (track_step weak x1 x2 y Hs Hm (reachable_pool _ _ _ _ Hx0 H1)) as (y' & Hy' & Hm').
    exists y'. split; [by etrans|done].
Qed.

End Equivalence.

(** C28: the build with [DEBUG_REFS] is equivalent to the one without: from the
    same first reference, every interleaving with tracking, whatever the owners
    and the settings, has an interleaving without it that ends with the same
    counts, flags, life-times and virtual calls and the threads at the same
    places, and the other way round; and no step with tracking touches a
    [weakref_impl] that has been deleted. *)
Theorem tracking_build_equivalent (V : Virtuals) weak strong d x0 :
  initial weak strong = Some x0 ->
  (forall y, rtc tracked_step (with_tracking d x0) y ->
    (exists x, rtc thread_step x0 x /\ matched y x) /\
    forall t c tp, t ∈ y.2 -> trunning t = Some (c, tp) -> exists r, tprog_step tp y.1.1 y.1.2 = Ret r) /\
  (forall x, rtc thread_step x0 x -> exists y, rtc tracked_step (with_tracking d x0) y /\ matched y x).
Proof.
  intros Hx. split; [|by apply (untracked_reach weak strong d x0)]. intros y Hy.
  destruct (tracked_reach weak strong d x0 Hx y Hy) as (x & Hr & Hm). split; [by exists x|].
  intros [a b run] c tp (l1 & l2 & El)%list_elem_of_split Er. destruct y as [[s d'] l]. simpl in *. subst l run.
  apply matched_middle in Hm as (k1 & u & k2 & -> & _ & (p & -> & He)%running_match & _).
  eapply tracked_runs; [by apply (reachable_pool weak strong x0)|done].
Qed.

Definition tracked_start : config := (Refs 1 1 0 true true [FirstRef], [Thread 1 0 None]).

Lemma tracking_build_equivalent_witness : exists y,
  rtc (tracked_step (V := default_virtuals)) (with_tracking (new_tracking true) tracked_start) y /\
  matched y (Refs 1 1 0 true true [FirstRef], [Thread 1 0 None; Thread 0 0 None]).
Proof.
  destruct (tracking_build_equivalent default_virtuals false true (new_tracking true) tracked_start) as [_ H]; [vm_compute; reflexivity|].
  apply H. apply rtc_once. apply (thread_created _ [Thread 1 0 None]).
Defined.

(** ** The lists have the owners *)

Lemma remove_entry_some i l : i ∈ map id l -> exists l', remove_entry i l = Some l' /\ map id l ≡ₚ i :: map id l'.
Proof.
  induction l as [|e l IH]; simpl; [by intros ?%elem_of_nil|]. destruct (Z.eqb_spec (id e) i) as [<-|Hne].
  - intros _. by exists l.
  - intros [->|Hi]%elem_of_cons; [done|]. destruct (IH Hi) as (l' & -> & Hp). exists (e :: l'). simpl. split; [done|]. rewrite Hp.
    apply Permutation_swap.
Qed.

(** The owners of the strong and of the weak references. *)
Definition owners : Type := list Z * list Z.

(** What an owner does, with the tracking calls of the method it uses; a
    strong reference is also a weak one. *)
Inductive owner_step : owners * tracking -> owners * tracking -> Prop :=
| own_strong s i strong weak d :
    owner_step ((strong, weak), d) ((i :: strong, weak), addStrongRef i s (addWeakRef i s d))
| disown_strong s i strong strong' weak d :
    strong ≡ₚ i :: strong' ->
    owner_step ((strong, weak), d) ((strong', weak), removeWeakRef i s (removeStrongRef i s d))
| own_weak s i strong weak d :
    owner_step ((strong, weak), d) ((strong, i :: weak), addWeakRef i s d)
| disown_weak s i strong weak weak' d :
    weak ≡ₚ i :: weak' ->
    owner_step ((strong, weak), d) ((strong, weak'), removeWeakRef i s d).

(** The lists have the owners, and no removal has failed. *)
Definition lists_owners (x : owners * tracking) : Prop :=
  mTrackEnabled x.2 = true /\ mRetain x.2 = false /\ missing x.2 = [] /\
  map id (mStrongRefs x.2) ≡ₚ x.1.1 /\ map id (mWeakRefs x.2) ≡ₚ x.1.1 ++ x.1.2.

Lemma remove_entry_owner i l ids : map id l ≡ₚ i :: ids -> exists l', remove_entry i l = Some l' /\ map id l' ≡ₚ ids.
Proof.
  intros Hp. destruct (remove_entry_some i l) as (l' & He & Hl); [rewrite Hp; apply elem_of_cons; by left|].
  exists l'. split; [done|]. apply (Permutation_cons_inv (a := i)). by rewrite <- Hl.
Qed.

Lemma owner_step_lists x y : owner_step x y -> lists_owners x -> lists_owners y.
Proof.
  destruct 1 as [s i strong weak [l1 l2 e r ms]|s i strong strong' weak [l1 l2 e r ms] Hs|s i strong weak [l1 l2 e r ms]|s i strong weak weak' [l1 l2 e r ms] Hw];
    intros (He & Hr & Hm & H1 & H2); simpl in *; subst.
  - repeat split; simpl; [by rewrite H1|by rewrite H2].
  - destruct (remove_entry_owner i l1 strong') as (l1' & E1 & H1'); [by rewrite H1|].
    destruct (remove_entry_owner i l2 (strong' ++ weak)) as (l2' & E2 & H2'); [by rewrite H2, Hs|].
    unfold removeStrongRef, removeRef. simpl. rewrite E1. unfold removeWeakRef, removeRef. simpl. rewrite E2. by repeat split.
  - repeat split; simpl; [done|]. rewrite H2. apply Permutation_middle.
  - destruct (remove_entry_owner i l2 (strong ++ weak')) as (l2' & E2 & H2'); [rewrite H2, Hw; symmetry; apply Permutation_middle|].
    unfold removeWeakRef, removeRef. simpl. rewrite E2. by repeat split.
Qed.

(** Whatever owners do from a new object on, the lists are the owners, each as
    often as it owns a reference, and no removal is reported as an error. *)
Lemma lists_have_owners y : rtc owner_step (([], []), new_tracking true) y -> lists_owners y.
Proof.
  assert (Hn : lists_owners (([], []), new_tracking true)) by by repeat split.
  revert Hn. generalize ((([] : list Z), ([] : list Z)), new_tracking true). intros x Hx Hr.
  induction Hr as [|x z y Hs _ IH]; [done|]. apply IH. by eapply owner_step_lists.
Qed.

(** Renaming leaves the counts of entries alone. *)
Lemma renameRefId_keeps old_id new_id d :
  map ref (mStrongRefs (renameRefId old_id new_id d)) = map ref (mStrongRefs d) /\
  map ref (mWeakRefs (renameRefId old_id new_id d)) = map ref (mWeakRefs d).
Proof.
  destruct d as [l1 l2 [] r ms]; [|done]. simpl. split; rewrite map_map; apply map_ext; intros e; by destruct (id e =? old_id).
Qed.
