(* ===== verification/RefMoveProps.v ===== *)
(** * The owners of references after an array of pointers has moved

    [move_references] copies the pointers and tells each object the new
    address of its owner, one element after the other.  The lists of the
    objects are right afterwards unless an object is at two places of which
    one is the new address of the other. *)

From S2P Require Import Prelude RefBase RefThreads RefTracking.

(** ** Renaming *)

(** The lists with other identifiers. *)
Definition map_ids (f : Z -> Z) (t : tracking) : tracking :=
  if mTrackEnabled t then
    let rename e := RefEntry (f (id e)) (ref e) in
    Tracking (map rename (mStrongRefs t)) (map rename (mWeakRefs t)) true (mRetain t) (missing t)
  else t.

Lemma renameRefId_ids a b t : renameRefId a b t = map_ids (fun i => if i =? a then b else i) t.
Proof.
  destruct t as [l1 l2 [] r ms]; [|done]. unfold renameRefId, renameWeakRefId, renameStrongRefId, renameRefsId, map_ids. simpl.
  f_equal; apply map_ext; intros [i c]; simpl; by destruct (i =? a).
Qed.

Lemma map_ids_compose f g h t : (forall i, g (f i) = h i) -> map_ids g (map_ids f t) = map_ids h t.
Proof.
  intros Hf. destruct t as [l1 l2 [] r ms]; [|done]. unfold map_ids. simpl. rewrite !map_map.
  f_equal; apply map_ext; intros [i c]; simpl; by rewrite Hf.
Qed.

Lemma map_ids_same f t : (forall i, f i = i) -> map_ids f t = t.
Proof.
  intros Hf. destruct t as [l1 l2 [] r ms]; [|done]. unfold map_ids. simpl.
  f_equal; rewrite <- (List.map_id l1) at 2 || rewrite <- (List.map_id l2) at 2; apply map_ext; intros [i c]; simpl; by rewrite Hf.
Qed.

(** ** The array *)

Section Move.
Context (size d s : Z) (ptrs : list Z).

(** The identifier is that of one of the first [n] elements, which points to
    the object. *)
Definition owns_before (n : nat) (o i : Z) : bool :=
  existsb (fun k => (i =? element size s k) && bool_decide (ptrs !! k = Some o)) (seq 0 n).

(** The owner after the first [n] elements were renamed. *)
Definition new_owner (n : nat) (o i : Z) : Z := if owns_before n o i then i + (d - s) else i.

(** No object is at two places such that the new address of the first is the
    old one of the second. *)
Hypothesis no_clash : forall i k, (i < k < length ptrs)%nat -> element size d i = element size s k -> ptrs !! i <> ptrs !! k.

Lemma owns_before_S n o i :
  owns_before (S n) o i = owns_before n o i || ((i =? element size s n) && bool_decide (ptrs !! n = Some o)).
Proof. unfold owns_before. rewrite seq_S, existsb_app. simpl. by rewrite orb_false_r. Qed.

Lemma owns_before_at n o i : owns_before n o i = true -> exists k, (k < n)%nat /\ i = element size s k /\ ptrs !! k = Some o.
Proof. unfold owns_before. rewrite existsb_exists. intros (k & [_ Hk]%in_seq & [?%Z.eqb_eq ?%bool_decide_eq_true]%andb_true_iff). by exists k. Qed.

Lemma element_moved k : element size s k + (d - s) = element size d k.
Proof. unfold element. lia. Qed.

Lemma new_owner_S n o i : (n < length ptrs)%nat -> ptrs !! n = Some o ->
  (if new_owner n o i =? element size s n then element size d n else new_owner n o i) = new_owner (S n) o i.
Proof.
  intros Hn Ho. unfold new_owner. rewrite owns_before_S, (bool_decide_true _ Ho), andb_true_r.
  destruct (owns_before n o i) eqn:E; simpl.
  - apply owns_before_at in E as (k & Hk & -> & Hp). rewrite element_moved.
    destruct (Z.eqb_spec (element size d k) (element size s n)) as [Hd|]; [|done].
    exfalso. apply (no_clash k n); [lia|done|congruence].
  - destruct (Z.eqb_spec i (element size s n)) as [->|]; [by rewrite element_moved|done].
Qed.

Lemma new_owner_other n o i : ptrs !! n <> Some o -> new_owner n o i = new_owner (S n) o i.
Proof. intros Ho. unfold new_owner. by rewrite owns_before_S, (bool_decide_false _ Ho), andb_false_r, orb_false_r. Qed.

(** What the lists are after the first [n] elements. *)
Definition renamed (n : nat) (m : gmap Z tracking) : gmap Z tracking := map_imap (fun o t => Some (map_ids (new_owner n o) t)) m.

Lemma renamed_lookup n m o : renamed n m !! o = map_ids (new_owner n o) <$> m !! o.
Proof. unfold renamed. rewrite map_lookup_imap. by destruct (m !! o). Qed.

Lemma renamed_S n m o t : (n < length ptrs)%nat -> ptrs !! n = Some o -> m !! o = Some t ->
  <[o := renameRefId (element size s n) (element size d n) (map_ids (new_owner n o) t)]> (renamed n m) = renamed (S n) m.
Proof.
  intros Hn Ho Ht. apply map_eq. intros o'. rewrite renamed_lookup, renameRefId_ids. destruct (decide (o' = o)) as [->|Hne].
  - rewrite lookup_insert_eq, Ht. simpl. f_equal. apply map_ids_compose. intros i. by apply new_owner_S.
  - rewrite lookup_insert_ne, renamed_lookup by done. destruct (m !! o'); simpl; [|done]. f_equal.
    rewrite <- (map_ids_compose (new_owner n o') (fun i => i) (new_owner (S n) o')); [by rewrite (map_ids_same (fun i => i))|].
    intros i. apply new_owner_other. congruence.
Qed.

Lemma rename_loop_runs mem m n : (n <= length ptrs)%nat ->
  (forall k o, ptrs !! k = Some o -> mem !! element size d k = Some o /\ is_Some (m !! o)) ->
  rename_loop n (Renamer size d s) (Arrays mem m) = Ret (tt, Arrays mem (renamed n m)).
Proof.
  intros Hn Hp. induction n as [|n IH]; simpl.
  - unfold mret, M_ret. do 3 f_equal. apply map_eq. intros o. rewrite renamed_lookup. destruct (m !! o); simpl; [|done].
    by rewrite map_ids_same.
  - rewrite (bind_run _ _ _ (Arrays mem (renamed n m)) tt) by (apply IH; lia).
    destruct (lookup_lt_is_Some_2 ptrs n) as [o Ho]; [lia|]. destruct (Hp n o Ho) as [Hm [t Ht]].
    unfold Renamer. simpl. rewrite Hm, renamed_lookup, Ht. simpl. do 3 f_equal. apply renamed_S; [lia|done|done].
Qed.

End Move.

Lemma element_inj size a k l : 0 < size -> element size a k = element size a l -> k = l.
Proof. unfold element. nia. Qed.

(** The copy holds what the array held. *)
Lemma array_moved_lookup size d s n m k : 0 < size -> (k < n)%nat -> memmove size d s n m !! element size d k = m !! element size s k.
Proof.
  intros Hs Hk. unfold memmove. assert (Hin : k ∈ seq 0 n) by (apply elem_of_seq; lia). clear Hk.
  generalize dependent (seq 0 n). intros ks Hin. induction ks as [|j ks IH]; [by apply elem_of_nil in Hin|]. simpl.
  destruct (decide (j = k)) as [->|Hne]; [by rewrite lookup_partial_alter_eq|].
  rewrite lookup_partial_alter_ne; [|by intros ?%element_inj]. apply IH. by apply elem_of_cons in Hin as [->|].
Qed.

(** The move: the pointers are copied, and every object has the new addresses
    of its owners. *)
Lemma move_renames_owners size d s ptrs w : 0 < size ->
  (forall k o, ptrs !! k = Some o -> memory w !! element size s k = Some o /\ is_Some (tracked w !! o)) ->
  (forall i k, (i < k < length ptrs)%nat -> element size d i = element size s k -> ptrs !! i <> ptrs !! k) ->
  exists w', move_references true size d s (length ptrs) w = Ret (tt, w') /\
    (forall k o, ptrs !! k = Some o -> memory w' !! element size d k = Some o) /\
    forall o, tracked w' !! o = map_ids (new_owner size d s ptrs (length ptrs) o) <$> tracked w !! o.
Proof.
  intros Hs Hp Hc. destruct w as [mem m]. simpl in *.
  assert (Hm : forall k o, ptrs !! k = Some o -> memmove size d s (length ptrs) mem !! element size d k = Some o).
  { intros k o Ho. rewrite array_moved_lookup; [by apply Hp|done|by eapply lookup_lt_Some]. }
  eexists. split; [|split].
  - unfold move_references, renameRefs. simpl. unfold mbind, M_bind, get, put. simpl.
    apply (rename_loop_runs size d s ptrs Hc); [lia|].
    intros k o Ho. split; [by apply Hm|by eapply Hp].
  - done.
  - intros o. apply renamed_lookup.
Qed.

(** Moving down, or to a place that does not overlap, is always right. *)
Lemma move_down_no_clash size d s (ptrs : list Z) : 0 < size -> d <= s \/ s + size * Z.of_nat (length ptrs) <= d ->
  forall i k, (i < k < length ptrs)%nat -> element size d i = element size s k -> ptrs !! i <> ptrs !! k.
Proof. intros Hs Hd i k Hik He. exfalso. unfold element in He. nia. Qed.

(** Two adjacent pointers to one object, moved up by one place: the new
    address of the first is the one that is renamed next. *)
Definition pair_array : arrays :=
  Arrays (<[100 := 7]> (<[104 := 7]> ∅))
    (<[7 := Tracking [RefEntry 100 1; RefEntry 104 2] [RefEntry 100 1; RefEntry 104 2] true false []]> ∅).

Lemma rename_overlap_collapses : exists w,
  move_forward_type_sp true 104 100 2 pair_array = Ret (tt, w) /\
  memory w !! 104 = Some 7 /\ memory w !! 108 = Some 7 /\
  (map id ∘ mStrongRefs <$> tracked w !! 7) = Some [108; 108].
Proof. eexists. repeat split. Qed.

(** An array with a null pointer cannot be moved. *)
Lemma null_pointer_faults :
  move_backward_type_sp true 96 100 1 (Arrays (<[100 := 0]> ∅) ∅) = Fault /\
  is_Some (match move_backward_type_sp false 96 100 1 (Arrays (<[100 := 0]> ∅) ∅) with Ret w => Some w | _ => None end).
Proof. split; [reflexivity|by eexists]. Qed.
