(* ===== verification/WeakPointer.v ===== *)
(** * libshims/RefBase.h: the pointer class [wp<T>]

    Variables of type [wp<T>] and strong references refer to objects on a
    heap; every operation is a sequence of calls of [RefBase] on the objects.
    The calls run one after the other: their interleavings are the subject of
    [RefThreads].  The class [sp<T>] is not part of the repository: it occurs
    only as a pointer, null or not, whose owner calls [incStrong] when it
    copies the pointer and [decStrong] when it drops it. *)

From S2P Require Import Prelude RefBase RefLogic RefThreads RefPool.

(** ** State *)

(** An object and its [weakref_impl] have the same number; [None] is null. *)
Record wp : Type := Wp { m_ptr : option nat; m_refs : option nat }.

(** [wps]: the variables of type [wp], [None] once destroyed; [strongs]: the
    pointers that own strong references. *)
Record pointers : Type := Pointers {
  objs : gmap nat refs; fresh : nat; wps : list (option wp); strongs : list (option nat)
}.

Definition no_pointers : pointers := Pointers ∅ 0 [] [].

Definition with_objs (m : gmap nat refs) (s : pointers) : pointers := Pointers m (fresh s) (wps s) (strongs s).
Definition with_wps (l : list (option wp)) (s : pointers) : pointers := Pointers (objs s) (fresh s) l (strongs s).
Definition with_strongs (l : list (option nat)) (s : pointers) : pointers := Pointers (objs s) (fresh s) (wps s) l.

Abbreviation PM := (M pointers).

Section Operations.
Context {V : Virtuals}.

(** A call on an object; 26 steps are enough for one that is not disturbed. *)
Definition on_object (a : nat) (c : call) : PM Z := fun s =>
  match objs s !! a with
  | None => Fault
  | Some r =>
      match run_alone 26 (code c) r with
      | Ret (Some x, r') => Ret (x, with_objs (<[a := r']> (objs s)) s)
      | Abort => Abort
      | _ => Fault
      end
  end.

(** A call through [m_refs]. *)
Definition on_refs (r : option nat) (c : call) : PM Z := match r with None => fault | Some a => on_object a c end.

Definition get_wp (i : nat) : PM wp := fun s => match wps s !! i with Some (Some v) => Ret (v, s) | _ => Fault end.
Definition set_wp (i : nat) (v : option wp) : PM unit := fun s => Ret (tt, with_wps (<[i := v]> (wps s)) s).
Definition add_wp (v : wp) : PM unit := fun s => Ret (tt, with_wps (wps s ++ [Some v]) s).
Definition get_strong (j : nat) : PM (option nat) := fun s => match strongs s !! j with Some p => Ret (p, s) | None => Fault end.
Definition set_strong (j : nat) (p : option nat) : PM unit := fun s => Ret (tt, with_strongs (<[j := p]> (strongs s)) s).
Definition add_strong (p : option nat) : PM unit := fun s => Ret (tt, with_strongs (strongs s ++ [p]) s).

(** ** Constructors and the destructor *)

(** Constructors that do not set [m_refs] leave in it what the memory holds,
    [junk]. *)
Definition wp_default (junk : option nat) : PM unit := add_wp (Wp None junk).

(** The constructor from a [T] pointer; those from a [U] pointer and from
    strong pointers are the same. *)
Definition wp_from_ptr (junk other : option nat) : PM unit :=
  match other with
  | None => add_wp (Wp None junk)
  | Some a => on_object a CreateWeak;; add_wp (Wp (Some a) (Some a))
  end.

Definition wp_from_sp (junk : option nat) (j : nat) : PM unit := other ← get_strong j; wp_from_ptr junk other.

(** The call on the references of a pointer that is not null. *)
Definition through (v : wp) (c : call) : PM Z := match m_ptr v with None => mret 0 | Some _ => on_refs (m_refs v) c end.

Definition wp_copy (i : nat) : PM unit :=
  other ← get_wp i;
  through other IncWeak;;
  add_wp (Wp (m_ptr other) (m_refs other)).

(** The constructor from [wp<U>] copies [m_refs] only when there is an object. *)
Definition wp_convert (junk : option nat) (i : nat) : PM unit :=
  other ← get_wp i;
  match m_ptr other with
  | None => add_wp (Wp None junk)
  | Some a => on_refs (m_refs other) IncWeak;; add_wp (Wp (Some a) (m_refs other))
  end.

Definition wp_destroy (i : nat) : PM unit :=
  v ← get_wp i;
  through v DecWeak;;
  set_wp i None.

(** ** Assignments *)

(** The old reference is given back and the variable changed. *)
Definition replace_wp (i : nat) (ptr newRefs : option nat) : PM unit :=
  v ← get_wp i;
  through v DecWeak;;
  set_wp i (Some (Wp ptr newRefs)).

Definition assign_ptr (i : nat) (other : option nat) : PM unit :=
  match other with None => mret 0 | Some a => on_object a CreateWeak end;;
  replace_wp i other other.

Definition assign_wp (i j : nat) : PM unit :=
  other ← get_wp j;
  through other IncWeak;;
  replace_wp i (m_ptr other) (m_refs other).

Definition assign_sp (i j : nat) : PM unit := other ← get_strong j; assign_ptr i other.

Definition set_object_and_refs (i : nat) (other refs : option nat) : PM unit :=
  through (Wp other refs) IncWeak;;
  replace_wp i other refs.

Definition clear (i : nat) : PM unit :=
  v ← get_wp i;
  match m_ptr v with
  | None => mret tt
  | Some _ => on_refs (m_refs v) DecWeak;; set_wp i (Some (Wp None (m_refs v)))
  end.

(** ** Promotion *)

Definition promote (i : nat) : PM unit :=
  v ← get_wp i;
  match m_ptr v with
  | None => add_strong None
  | Some a => ok ← on_refs (m_refs v) AttemptIncStrong; add_strong (if ok =? 0 then None else Some a)
  end.

(** [operator ==] and [operator !=] of two pointers. *)
Definition wp_eq (v o : wp) : bool := bool_decide (m_ptr v = m_ptr o) && bool_decide (m_refs v = m_refs o).
Definition wp_ne (v o : wp) : bool := negb (bool_decide (m_refs v = m_refs o)).

(** ** Strong references *)

(** [new T] and its first reference, before the object is known to others;
    [extended]: its constructor extends the life-time; [strong]: the first
    reference is a strong one. *)
Definition new_object (extended strong : bool) : PM unit := fun s =>
  match run_alone 26 (first_reference extended strong) new_RefBase with
  | Ret (Some _, r) =>
      Ret (tt, Pointers (<[fresh s := r]> (objs s)) (S (fresh s))
        (if strong then wps s else wps s ++ [Some (Wp (Some (fresh s)) (Some (fresh s)))])
        (if strong then strongs s ++ [Some (fresh s)] else strongs s))
  | Abort => Abort
  | _ => Fault
  end.

(** The owner of a strong pointer takes another reference, or drops it. *)
Definition take_strong (j : nat) : PM unit :=
  p ← get_strong j;
  match p with None => mret 0 | Some a => on_object a IncStrong end;;
  add_strong p.

Definition drop_strong (j : nat) : PM unit :=
  p ← get_strong j;
  match p with None => mret 0 | Some a => on_object a DecStrong end;;
  set_strong j None.

(** ** Operations of a client *)

Inductive pointer_op : Type :=
| WpDefault (junk : option nat) | WpFromSp (junk : option nat) (j : nat) | WpCopy (i : nat) | WpConvert (junk : option nat) (i : nat)
| WpDestroy (i : nat) | AssignWp (i j : nat) | AssignSp (i j : nat) | AssignNull (i : nat) | SetObjectAndRefs (i j : nat)
| Clear (i : nat) | Promote (i : nat) | NewObject (extended strong : bool) | TakeStrong (j : nat) | DropStrong (j : nat).

(** [SetObjectAndRefs i j] takes object and references from the variable [j]. *)
Definition pointer_step (o : pointer_op) : PM unit :=
  match o with
  | WpDefault junk => wp_default junk
  | WpFromSp junk j => wp_from_sp junk j
  | WpCopy i => wp_copy i
  | WpConvert junk i => wp_convert junk i
  | WpDestroy i => wp_destroy i
  | AssignWp i j => assign_wp i j
  | AssignSp i j => assign_sp i j
  | AssignNull i => assign_ptr i None
  | SetObjectAndRefs i j => other ← get_wp j; set_object_and_refs i (m_ptr other) (m_refs other)
  | Clear i => clear i
  | Promote i => promote i
  | NewObject extended strong => new_object extended strong
  | TakeStrong j => take_strong j
  | DropStrong j => drop_strong j
  end.

(** The variables that an operation names exist, and there is room for one
    more reference. *)
Definition live (s : pointers) (i : nat) : bool := match wps s !! i with Some (Some _) => true | _ => false end.
Definition op_ok (s : pointers) (o : pointer_op) : bool :=
  (Z.of_nat (length (wps s)) + Z.of_nat (length (strongs s)) + 3 <=? MAX_REFS) &&
  match o with
  | WpDefault _ | NewObject _ _ => true
  | WpFromSp _ j | TakeStrong j | DropStrong j => (j <? length (strongs s))%nat
  | WpCopy i | WpConvert _ i | WpDestroy i | AssignNull i | Clear i | Promote i => live s i
  | AssignWp i j | SetObjectAndRefs i j => live s i && live s j
  | AssignSp i j => live s i && (j <? length (strongs s))%nat
  end.

(** The states that clients reach. *)
Inductive pointers_reach : pointers -> Prop :=
| reach_none : pointers_reach no_pointers
| reach_op s o s' : pointers_reach s -> op_ok s o = true -> pointer_step o s = Ret (tt, s') -> pointers_reach s'.

(** Executable sequences. *)
Fixpoint pointer_run (l : list pointer_op) (s : pointers) : option pointers :=
  match l with
  | [] => Some s
  | o :: l' =>
      if op_ok s o then match pointer_step o s with Ret (_, s') => pointer_run l' s' | _ => None end else None
  end.

End Operations.

(** ** LightRefBase *)

(** Only strong references: a count and whether the object is allocated. *)
Module LightRefBase.

Record light : Type := Light { mCount : Z; allocated : bool }.

Definition new_light : light := Light 0 true.

Definition incStrong : M light unit := fun s =>
  if allocated s then Ret (tt, Light (s32 (mCount s + 1)) true) else Fault.

Definition decStrong : M light unit := fun s =>
  if allocated s then
    let old := mCount s in
    let s' := Light (s32 (old - 1)) true in
    if old =? 1 then Ret (tt, Light (mCount s') false) else Ret (tt, s')
  else Fault.

Definition getStrongCount : M light Z := fun s => if allocated s then Ret (mCount s, s) else Fault.

(** [true] takes a reference, [false] drops one. *)
Definition light_step (take : bool) : M light unit := if take then incStrong else decStrong.

Fixpoint light_run (l : list bool) : M light unit :=
  match l with
  | [] => mret tt
  | b :: l' => light_step b;; light_run l'
  end.

(** The references that owners hold after the operations, when each is
    allowed: a reference is taken by an owner or as the first one, and dropped
    by an owner. *)
Fixpoint holders (n : Z) (l : list bool) : option Z :=
  match l with
  | [] => Some n
  | true :: l' => if n + 1 <? 2 ^ 31 then holders (n + 1) l' else None
  | false :: l' => if 1 <? n then holders (n - 1) l' else if (n =? 1) && bool_decide (l' = []) then Some 0 else None
  end.

End LightRefBase.
