(* ===== verification/WeakPointerProps.v ===== *)
(** * Weak pointers: counts and promotion

    The references that the pointers own are the counts of the objects, so a
    client that uses its variables only through [wp] reaches no deleted object.
    The proof reads each operation as calls on one object, each of which keeps
    the invariant of [RefPool]. *)

From S2P Require Import Prelude RefBase RefLogic RefThreads RefPool RefTermination WeakPointer.

(** ** Counting references *)

Definition one (a : nat) (p : option nat) : Z := if decide (p = Some a) then 1 else 0.
Definition refs_to (a : nat) (l : list (option nat)) : Z := foldr (fun p n => one a p + n) 0 l.
Definition owner (v : option wp) : option nat := v ≫= m_ptr.

Lemma one_range a p : 0 <= one a p <= 1.
Proof. unfold one. case_decide; lia. Qed.

Lemma one_none a : one a None = 0.
Proof. done. Qed.

Lemma one_self a : one a (Some a) = 1.
Proof. unfold one. by rewrite decide_True. Qed.

Lemma refs_to_app a l k : refs_to a (l ++ k) = refs_to a l + refs_to a k.
Proof. induction l; simpl; lia. Qed.

Lemma refs_to_range a l : 0 <= refs_to a l <= Z.of_nat (length l).
Proof. induction l as [|p l IH]; simpl; [lia|]. pose proof (one_range a p). lia. Qed.

Lemma refs_to_insert a l i p q : l !! i = Some p -> refs_to a (<[i := q]> l) = refs_to a l - one a p + one a q.
Proof.
  revert i. induction l as [|x l IH]; intros [|i]; simpl; [done|done|intros [= <-]; lia|].
  intros H. rewrite (IH _ H). lia.
Qed.

Lemma refs_to_lookup a l i : l !! i = Some (Some a) -> 0 < refs_to a l.
Proof.
  intros H. pose proof (refs_to_insert a l i _ None H) as E. rewrite one_self, one_none in E.
  pose proof (refs_to_range a (<[i := None]> l)). lia.
Qed.

Section Pointers.
Context {V : Virtuals}.

(** ** A call that is not disturbed *)

Lemma run_returns weak n s a b c p :
  pool weak (s, [Thread a b (Some (c, p))]) -> ended (run_alone n p s) ->
  exists x s', run_alone n p s = Ret (Some x, s') /\ pool weak (s', [Thread a b (Some (c, Return x))]).
Proof.
  revert s p. induction n as [|n IH]; intros s p Hp He; destruct p as [x|op k|body i k]; try (by exists x, s); try done;
    apply (pool_runs weak s [] []) in Hp as (p' & s' & E & Hp); cbn [run_alone] in *; rewrite E in *; by apply IH.
Qed.

Lemma call_alone weak s a b c :
  pool weak (s, [Thread a b None]) -> allowed c a b = true -> a + b + 1 <= MAX_REFS ->
  exists x s', run_alone 26 (code c) s = Ret (Some x, s') /\
    pool weak (s', [Thread (after c x a b).1 (after c x a b).2 None]).
Proof.
  intros Hp Hal Hm. apply (pool_step _ _ _ (call_starts s [] [] a b c Hal ltac:(simpl; lia))) in Hp. simpl in Hp.
  destruct (run_returns weak 26 s a b c (code c) Hp) as (x & s' & E & Hp').
  - apply (ended_more _ 24); [lia|]. apply within_run, within_code.
  - exists x, s'. split; [done|]. apply (pool_step _ _ _ (call_returns s' [] [] a b c x) Hp').
Qed.

(** ** Calls that leave the strong count alone *)

Fixpoint keeps_strong {A : Type} (p : prog A) : Prop :=
  match p with
  | Return _ => True
  | Access op k => (forall s x s', op s = Ret (x, s') -> mStrong s' = mStrong s) /\ forall x, keeps_strong (k x)
  | Loop body i k => (forall j, keeps_strong (body j)) /\ forall x, keeps_strong (k x)
  end.

Lemma keeps_strong_bind {A B} (p : prog A) (f : A -> prog B) : keeps_strong p -> (forall a, keeps_strong (f a)) -> keeps_strong (prog_bind p f).
Proof.
  intros Hp Hf. induction p as [A a|A op k IH|A body _ i k IH]; simpl in *; [apply Hf| |];
    (split; [apply Hp|]); intros x; apply IH; try done; apply Hp.
Qed.

Lemma keeps_run {A} n : forall (p : prog A) s x s', keeps_strong p -> run_alone n p s = Ret (Some x, s') -> mStrong s' = mStrong s.
Proof.
  induction n as [|n IH]; intros [a|op k|body i k] s x s' Hp; cbn [run_alone prog_step]; try done; try (by intros [= <- <-]).
  - destruct Hp as [Ho Hk]. destruct (op s) as [[y s1]| |] eqn:E; [|done|done]. intros H.
    rewrite (IH _ _ _ _ (Hk y) H). by eapply Ho.
  - intros H. apply IH in H; [done|]. destruct Hp as [Hb Hk]. apply keeps_strong_bind; [apply Hb|]. by intros [j|y]; [|apply Hk].
Qed.

Ltac keeps :=
  repeat first
    [ lazymatch goal with |- keeps_strong (prog_bind _ _) => apply keeps_strong_bind; [|intros ?] end
    | lazymatch goal with |- keeps_strong (if ?b then _ else _) => destruct b end
    | lazymatch goal with |- keeps_strong (Access _ _) => split; [|intros ?] end
    | lazymatch goal with |- keeps_strong (Return _) => exact I end
    | lazymatch goal with |- keeps_strong (mret _) => exact I end
    | progress cbv beta iota
    | lazymatch goal with |- forall s : refs, _ => intros s ? ?; destruct (impl s), (base s); by first [discriminate|intros [= <- <-]] end ].

Lemma keeps_destroy : keeps_strong destroy_RefBase.
Proof. unfold destroy_RefBase, start_destructor, read, delete_impl, access, mbind, prog_mbind. keeps. Qed.

Lemma keeps_decWeak : keeps_strong decWeak.
Proof.
  pose proof keeps_destroy. unfold decWeak, onLastWeakRef, virtual_call, android_atomic_dec, android_atomic_add, read, delete_impl, access, mbind, prog_mbind.
  keeps; done.
Qed.

Lemma keeps_incWeak : keeps_strong incWeak.
Proof. unfold incWeak, android_atomic_inc, android_atomic_add, access, mbind, prog_mbind. keeps. Qed.

(** ** What promotion answers *)

(** Every run of the program returns [c]. *)
Fixpoint returns_only {A} (c : A) (p : prog A) : Prop :=
  match p with
  | Return a => a = c
  | Access _ k => forall x, returns_only c (k x)
  | Loop _ _ k => forall x, returns_only c (k x)
  end.

Lemma returns_only_bind {A B} (c : B) (p : prog A) (f : A -> prog B) : (forall a, returns_only c (f a)) -> returns_only c (p ≫= f).
Proof.
  intros H. unfold mbind, prog_mbind. induction p as [A a|A op k IH|A body _ i k IH]; simpl; [apply H| |]; intros x; by apply IH.
Qed.

Lemma returns_only_run {A} (c : A) n (p : prog A) s x s' : returns_only c p -> run_alone n p s = Ret (Some x, s') -> x = c.
Proof.
  revert p s. induction n as [|n IH]; intros p s Hp; destruct p as [a|op k|body i k]; cbn [run_alone]; try done;
    try (intros [= <- <-]; exact Hp); unfold prog_step.
  - destruct (op s) as [[y s1]| |]; [|done|done]. apply IH, Hp.
  - apply IH. apply (returns_only_bind c (body i)). intros [i'|y]; [exact Hp|apply Hp].
Qed.

Lemma give_up_returns : returns_only 0 (decWeak;; mret 0).
Proof. by apply returns_only_bind. Qed.

Lemma keeps_give_up : keeps_strong (decWeak;; mret 0).
Proof. apply keeps_strong_bind; [apply keeps_decWeak|done]. Qed.

Lemma fixup_returns : returns_only 1 fixup.
Proof. apply (returns_only_bind 1 (read Strong)). intros y. by apply (returns_only_bind 1 (fixup_loop y)). Qed.

Lemma drop_returns cur : returns_only 1 (drop_unneeded cur;; fixup).
Proof. apply returns_only_bind. intros _. apply fixup_returns. Qed.

(** There is a strong reference; or there was none so far; or, when the
    life-time is extended, the object agrees. *)
Definition promotes (r : refs) : bool :=
  if (0 <? mStrong r) && negb (mStrong r =? INITIAL_STRONG_VALUE) then true
  else if Z.land (mFlags r) OBJECT_LIFETIME_WEAK =? OBJECT_LIFETIME_STRONG then 0 <? mStrong r
  else vIncStrongAttempted FIRST_INC_STRONG (notes r).

Lemma run_access {A} n op (k : Z -> prog A) s x s' :
  run_alone n (Access op k) s = Ret (Some x, s') -> exists n' y s1, op s = Ret (y, s1) /\ run_alone n' (k y) s1 = Ret (Some x, s').
Proof. destruct n as [|n]; [done|]. cbn [run_alone prog_step]. destruct (op s) as [[y s1]| |]; [|done|done]. by exists n, y, s1. Qed.

Lemma run_loop {A} n body i (k : Z -> prog A) s x s' :
  run_alone n (Loop body i k) s = Ret (Some x, s') ->
  exists n', run_alone n' (prog_bind (body i) (fun r => match r with inl i' => Loop body i' k | inr y => k y end)) s = Ret (Some x, s').
Proof. destruct n as [|n]; [done|]. cbn [run_alone prog_step]. by exists n. Qed.

Lemma attempt_answer n r x r' : impl r = true -> run_alone n attemptIncStrong r = Ret (Some x, r') ->
  x = Z.b2z (promotes r) /\ (x = 0 -> mStrong r' = mStrong r).
Proof.
  destruct r as [st w f b i nt]. simpl. intros -> H. unfold promotes. simpl.
  apply run_access in H as (n1 & ? & s1 & [= <- <-] & H). simpl in H.
  apply run_access in H as (n2 & ? & s2 & [= <- <-] & H). simpl in H.
  apply run_loop in H as (n3 & H). destruct (_ && _) eqn:Es.
  - apply run_access in H as (n4 & ? & s4 & E & H). simpl in E. rewrite Z.eqb_refl in E. injection E as <- <-. simpl in H.
    rewrite andb_true_iff, negb_true_iff, Z.ltb_lt in Es. destruct Es as [? Es]. rewrite Es, (proj2 (Z.leb_gt _ _)) in H by done.
    apply returns_only_run with (c := 1) in H as ->; [done|apply fixup_returns].
  - simpl in H.
    assert (Hst : (st <=? 0) || (st =? INITIAL_STRONG_VALUE) = true) by (destruct (st =? _); [by rewrite orb_true_r|]; rewrite andb_true_r in Es; rewrite orb_false_r; lia).
    rewrite Hst in H. apply run_access in H as (n4 & ? & s4 & [= <- <-] & H). simpl in H. destruct (Z.land f _ =? _).
    + destruct (Z.leb_spec st 0).
      * rewrite (proj2 (Z.ltb_ge 0 st)) by done. pose proof (keeps_run _ _ _ _ _ keeps_give_up H) as Hk.
        apply returns_only_run with (c := 0) in H as ->; [done|apply give_up_returns].
      * rewrite (proj2 (Z.ltb_lt 0 st)) by done. apply run_loop in H as (n5 & H). rewrite (proj2 (Z.ltb_lt 0 st)) in H by done.
        apply run_access in H as (n6 & ? & s6 & E & H). simpl in E. rewrite Z.eqb_refl in E. injection E as <- <-. simpl in H.
        rewrite (proj2 (Z.leb_gt _ _)) in H by done. apply returns_only_run with (c := 1) in H as ->; [done|apply drop_returns].
    + apply run_access in H as (n5 & ? & s5 & E & H). simpl in E. destruct b; [|done]. injection E as <- <-.
      destruct (vIncStrongAttempted _ _); simpl in H.
      * apply run_access in H as (n6 & ? & s6 & [= <- <-] & H).
        apply returns_only_run with (c := 1) in H as ->; [done|apply drop_returns].
      * pose proof (keeps_run _ _ _ _ _ keeps_give_up H) as Hk.
        apply returns_only_run with (c := 0) in H as ->; [done|apply give_up_returns].
Qed.

(** ** The strong count over the calls *)

Lemma keeps_attemptIncWeak : keeps_strong attemptIncWeak.
Proof.
  unfold attemptIncWeak, attemptIncWeak_loop, loop, read, android_atomic_cmpxchg, access, mbind, prog_mbind.
  apply keeps_strong_bind; [keeps|intros c]. apply keeps_strong_bind; [split; [intros j|done]|by intros]. keeps.
  intros s y s'. destruct (impl s), (get_word Weak s =? j); by first [discriminate|intros [= <- <-]].
Qed.

(** [decStrong] of the last strong reference. *)
Lemma last_decStrong n r x r' : mStrong r = 1 -> run_alone n decStrong r = Ret (Some x, r') -> mStrong r' = 0.
Proof.
  intros E1 H. apply run_access in H as (n1 & y & s1 & E & H). destruct (base r); [|done]. injection E as <- <-. simpl in H.
  apply run_access in H as (n2 & y & s2 & E & H). destruct (impl r); [|done]. injection E as <- <-. apply keeps_run in H.
  - rewrite H. simpl. by rewrite E1.
  - pose proof keeps_destroy. pose proof keeps_decWeak. apply keeps_strong_bind; [|done].
    unfold onLastStrongRef, virtual_call, read, access, mbind, prog_mbind. keeps; done.
Qed.

(** [h]: a strong reference was held before. Then the count is that of the strong
    references for good; otherwise it still is the initial value. *)
Definition strong_history (h : bool) (r : refs) : Prop :=
  if h then mStrong r < INITIAL_STRONG_VALUE else mStrong r = INITIAL_STRONG_VALUE.

Lemma after_strong c x a b : (after c x a b).1 <= a + 1.
Proof. destruct c; simpl; try destruct (x =? 0); simpl; lia. Qed.

Lemma call_history weak r a b c x r' h :
  pool weak (r, [Thread a b None]) -> allowed c a b = true -> 0 <= a -> 0 <= b -> a + b + 1 <= MAX_REFS ->
  run_alone 26 (code c) r = Ret (Some x, r') -> pool weak (r', [Thread (after c x a b).1 (after c x a b).2 None]) ->
  (0 < a -> h = true) -> strong_history h r -> 0 < (after c x a b).1 + (after c x a b).2 ->
  strong_history (h || (0 <? (after c x a b).1)) r'.
Proof.
  intros Hp Hal Ha Hb Hm Hrun Hp' Hh Hhist Hpos.
  assert (Hq : forall u v, quiet [Thread u v None]) by (by constructor).
  apply (pool_quiet weak r _ (Hq a b)) in Hp. apply (pool_quiet weak r' _ (Hq _ _)) in Hp'.
  simpl in Hp, Hp'. rewrite !Z.add_0_r in Hp, Hp'. rewrite (proj2 (Z.ltb_lt _ _) Hpos) in Hp'.
  assert (Hab : 0 < a + b) by (destruct c; simpl in Hal; lia). rewrite (proj2 (Z.ltb_lt _ _) Hab) in Hp.
  destruct Hp as (Hi & _ & Hst & _), Hp' as (_ & _ & Hst' & _).
  destruct (Z.ltb_spec 0 (after c x a b).1) as [Hpos'|Hz].
  { rewrite orb_true_r. unfold strong_history. destruct Hst' as [->|[? _]]; [|lia]. unfold MAX_REFS in Hm. rewrite initial_value in Hm |- *.
    pose proof (after_strong c x a b). lia. }
  rewrite orb_false_r. destruct (Z.ltb_spec 0 a) as [Hpa|Hza].
  - rewrite (Hh Hpa) in *. assert (c = DecStrong /\ a = 1) as [-> ->].
    { clear Hrun Hst Hst' Hhist. destruct c; simpl in Hz; try destruct (x =? 0); simpl in Hz; try lia; (split; [done|lia]). }
    destruct Hst as [Hst|[? _]]; [|lia]. unfold strong_history.
    rewrite (last_decStrong 26 r x r' Hst Hrun), initial_value. lia.
  - assert (mStrong r' = mStrong r) as E; [|unfold strong_history in *; by rewrite E].
    destruct c; simpl in Hal; try lia; simpl in Hz.
    + by apply keeps_run in Hrun; [|apply keeps_incWeak].
    + by apply keeps_run in Hrun; [|apply keeps_decWeak].
    + destruct (attempt_answer 26 r x r' Hi Hrun) as [_ Hx]. apply Hx. destruct (Z.eqb_spec x 0); [done|]. simpl in Hz. lia.
    + by apply keeps_run in Hrun; [|apply keeps_attemptIncWeak].
    + apply keeps_run in Hrun; [done|]. unfold code, getWeakCount, read, access. keeps.
Qed.

(** ** The invariant *)

(** What is remembered of an object: whether its life-time was extended when it
    was made, and whether somebody held a strong reference since. *)
Definition past : Type := nat -> bool * bool.

(** [es] and [ew]: a strong and a weak reference that an operation in progress
    owns. *)
Definition strong_refs (es : option nat) (s : pointers) (a : nat) : Z := refs_to a (strongs s) + one a es.
Definition weak_refs (ew : option nat) (s : pointers) (a : nat) : Z := refs_to a (owner <$> wps s) + one a ew.

Definition counted_by (G : past) (m : gmap nat refs) (S W : nat -> Z) : Prop := forall a,
  match m !! a with
  | None => S a = 0 /\ W a = 0 /\ (G a).2 = false
  | Some r => pool (G a).1 (r, [Thread (S a) (W a) None]) /\ (0 < S a -> (G a).2 = true) /\
      (0 < S a + W a -> strong_history (G a).2 r)
  end.

Lemma counted_ext G m S W G' S' W' : counted_by G m S W -> (forall a, G' a = G a) -> (forall a, S' a = S a) -> (forall a, W' a = W a) ->
  counted_by G' m S' W'.
Proof. intros H E0 E1 E2 a. rewrite E0, E1, E2. apply H. Qed.

(** A pointer to an object has the object's references. *)
Definition typed (v : option wp) : Prop := forall w a, v = Some w -> m_ptr w = Some a -> m_refs w = Some a.

Record ok (G : past) (es ew : option nat) (s : pointers) : Prop := Ok {
  ok_counts : counted_by G (objs s) (strong_refs es s) (weak_refs ew s);
  ok_typed : Forall typed (wps s);
  ok_fresh : forall a, (fresh s <= a)%nat -> objs s !! a = None
}.

Definition room (s : pointers) : Prop := Z.of_nat (length (wps s)) + Z.of_nat (length (strongs s)) + 3 <= MAX_REFS.

Lemma refs_bound es ew s a :
  0 <= strong_refs es s a /\ 0 <= weak_refs ew s a /\
  strong_refs es s a + weak_refs ew s a <= Z.of_nat (length (wps s)) + Z.of_nat (length (strongs s)) + 2.
Proof.
  unfold strong_refs, weak_refs. pose proof (refs_to_range a (strongs s)). pose proof (refs_to_range a (owner <$> wps s)) as Hw.
  rewrite length_fmap in Hw. pose proof (one_range a es). pose proof (one_range a ew). lia.
Qed.

(** Later, somebody who holds a strong reference is remembered. *)
Definition remember (G : past) (s : pointers) : past := fun a => ((G a).1, (G a).2 || (0 <? refs_to a (strongs s))).

Lemma ok_closed G es ew s b : ok G es ew s -> (G b).2 || (0 <? strong_refs es s b) = (G b).2.
Proof.
  intros [Hc _ _]. specialize (Hc b). destruct (Z.ltb_spec 0 (strong_refs es s b)) as [Hp|]; [|apply orb_false_r].
  rewrite orb_true_r. destruct (objs s !! b); [symmetry; by apply Hc|lia].
Qed.

(** A call on one object changes its counts; the variables are changed so that
    they own what the object counts. *)
Lemma on_object_ok G es ew a c s :
  ok G es ew s -> room s -> allowed c (strong_refs es s a) (weak_refs ew s a) = true ->
  exists x r', on_object a c s = Ret (x, with_objs (<[a := r']> (objs s)) s) /\
    forall G' es' ew' s',
      objs s' = <[a := r']> (objs s) -> fresh s' = fresh s -> Forall typed (wps s') ->
      (forall b, strong_refs es' s' b = if decide (b = a) then (after c x (strong_refs es s a) (weak_refs ew s a)).1 else strong_refs es s b) ->
      (forall b, weak_refs ew' s' b = if decide (b = a) then (after c x (strong_refs es s a) (weak_refs ew s a)).2 else weak_refs ew s b) ->
      (forall b, G' b = ((G b).1, (G b).2 || (0 <? strong_refs es' s' b))) ->
      ok G' es' ew' s'.
Proof.
  intros Hok Hr Hal. pose proof Hok as [Hc Ht Hf]. pose proof (refs_bound es ew s a) as (Hs & Hw & Hb). unfold room in Hr.
  unfold on_object. pose proof (Hc a) as Ha. destruct (objs s !! a) as [r|] eqn:E.
  - destruct Ha as (Hp & Hh & Hhist). destruct (call_alone _ r _ _ c Hp Hal ltac:(lia)) as (x & r' & Hrun & Hp'). rewrite Hrun.
    exists x, r'. split; [done|]. intros G' es' ew' s' Eo Ef Ht' Es Ew EG. split; [|done|].
    + intros b. rewrite Eo, EG, Es, Ew. destruct (decide (b = a)) as [->|Hne].
      * rewrite lookup_insert_eq. split; [done|]. simpl. split; [intros H%Z.ltb_lt; rewrite H; apply orb_true_r|].
        intros Hpos. eapply (call_history (G a).1 r); try done; [lia|]. apply Hhist. destruct c; simpl in Hal; lia.
      * rewrite lookup_insert_ne by done. rewrite (ok_closed G es ew s b Hok). simpl. apply Hc.
    + intros b. rewrite Eo, Ef. intros Hb'. rewrite lookup_insert_ne; [by apply Hf|]. intros ->. by rewrite Hf in E.
  - destruct Ha as (E1 & E2 & _). rewrite E1, E2 in Hal. by destruct c.
Qed.

(** The same, when no strong pointer changes. *)
Lemma on_object_weak G ew a c s :
  ok G None ew s -> room s -> allowed c (strong_refs None s a) (weak_refs ew s a) = true ->
  (forall x ns nw, (after c x ns nw).1 = ns) ->
  exists x r', on_object a c s = Ret (x, with_objs (<[a := r']> (objs s)) s) /\
    forall ew' s',
      objs s' = <[a := r']> (objs s) -> fresh s' = fresh s -> Forall typed (wps s') -> strongs s' = strongs s ->
      (forall b, weak_refs ew' s' b = if decide (b = a) then (after c x (strong_refs None s a) (weak_refs ew s a)).2 else weak_refs ew s b) ->
      ok G None ew' s'.
Proof.
  intros Hok Hr Hal Hc. destruct (on_object_ok G None ew a c s Hok Hr Hal) as (x & r' & E & H). exists x, r'. split; [done|].
  intros ew' s' Eo Ef Ht Est Ew.
  assert (Es : forall b, strong_refs None s' b = strong_refs None s b) by (intros b; unfold strong_refs; by rewrite Est).
  apply H; try done.
  - intros b. rewrite Es, Hc. by case_decide; subst.
  - intros b. rewrite Es, (ok_closed G None ew s b Hok). by destruct (G b).
Qed.

Section Steps.
Variable G : past.

Lemma ok_get_wp es ew s i v : ok G es ew s -> wps s !! i = Some (Some v) -> forall a, m_ptr v = Some a -> m_refs v = Some a /\ 0 < refs_to a (owner <$> wps s).
Proof.
  intros H Hi a Ha. pose proof (ok_typed _ _ _ _ H) as Ht. rewrite Forall_lookup in Ht. split; [by eapply Ht|].
  apply (refs_to_lookup a _ i). rewrite list_lookup_fmap, Hi. simpl. by rewrite <- Ha.
Qed.

(** ** Parts of the operations *)

Ltac counts := unfold strong_refs, weak_refs in *; simpl in *; unfold one in *; repeat case_decide; simplify_eq; try lia.

(** The same variables and another object heap. *)
Definition heap_changed (s s' : pointers) : Prop := wps s' = wps s /\ strongs s' = strongs s.

Lemma add_wp_ok s v : ok G None (m_ptr v) s -> typed (Some v) -> ok G None None (with_wps (wps s ++ [Some v]) s).
Proof.
  intros [Hc Ht Hf] Hv. split; [|simpl; by apply Forall_app_2, Forall_singleton|done].
  eapply counted_ext; [exact Hc|done|done|]. intros a. unfold weak_refs. simpl. rewrite fmap_app, refs_to_app. simpl. rewrite one_none.
  lia.
Qed.

(** A reference is taken through an object that a strong pointer owns. *)
Lemma create_weak_ok s j a :
  ok G None None s -> room s -> strongs s !! j = Some (Some a) ->
  exists x s', on_object a CreateWeak s = Ret (x, s') /\ ok G None (Some a) s' /\ heap_changed s s'.
Proof.
  intros H Hr Hj. destruct (on_object_weak G None a CreateWeak s H Hr) as (x & r' & E & Hok); [|done|].
  - apply Z.ltb_lt. pose proof (refs_to_lookup _ _ _ Hj). counts.
  - eexists x, _. split; [exact E|]. split; [|done]. apply Hok; try done; [apply H|]; intros b; counts.
Qed.

(** A reference is taken through another [wp]. *)
Lemma inc_weak_ok s i v :
  ok G None None s -> room s -> wps s !! i = Some (Some v) ->
  exists x s', through v IncWeak s = Ret (x, s') /\ ok G None (m_ptr v) s' /\ heap_changed s s'.
Proof.
  intros H Hr Hi. unfold through. destruct (m_ptr v) as [a|] eqn:Ea; [|by exists 0, s].
  destruct (ok_get_wp _ _ _ _ _ H Hi a Ea) as [-> Hp]. simpl.
  destruct (on_object_weak G None a IncWeak s H Hr) as (x & r' & E & Hok); [|done|].
  - apply Z.ltb_lt. pose proof (refs_to_range a (strongs s)). counts.
  - eexists x, _. split; [exact E|]. split; [|done]. apply Hok; try done; [apply H|]; intros b; counts.
Qed.

(** The old reference is given back and the variable gets the new one. *)
Lemma dec_weak_ok s i v v' :
  ok G None (owner v') s -> room s -> wps s !! i = Some (Some v) -> typed v' ->
  exists x s', through v DecWeak s = Ret (x, s') /\ ok G None None (with_wps (<[i := v']> (wps s)) s') /\ heap_changed s s'.
Proof.
  intros H Hr Hi Hv. assert (Ht : Forall typed (<[i := v']> (wps s))) by (apply Forall_insert; [apply H|done]).
  assert (Hw : forall b, refs_to b (owner <$> <[i := v']> (wps s)) = refs_to b (owner <$> wps s) - one b (m_ptr v) + one b (owner v')).
  { intros b. rewrite list_fmap_insert. apply refs_to_insert. rewrite list_lookup_fmap, Hi. done. }
  unfold through. destruct (m_ptr v) as [a|] eqn:Ea.
  - destruct (ok_get_wp _ _ _ _ _ H Hi a Ea) as [-> Hp]. simpl.
    destruct (on_object_weak G (owner v') a DecWeak s H Hr) as (x & r' & E & Hok); [|done|].
    + apply Z.ltb_lt. pose proof (one_range a (owner v')). unfold weak_refs. lia.
    + eexists x, _. split; [exact E|]. split; [|done].
      apply Hok; try done; intros b; unfold weak_refs; simpl; rewrite ?Hw; unfold one; repeat case_decide; simplify_eq; lia.
  - exists 0, s. split; [done|]. split; [|done]. destruct H as [Hc _ Hf]. split; [|done|done].
    eapply counted_ext; [exact Hc|done|done|]. intros b. unfold weak_refs. simpl. rewrite Hw, !one_none. lia.
Qed.

Lemma heap_room s s' : heap_changed s s' -> room s -> room s'.
Proof. unfold room. by intros [-> ->]. Qed.

Lemma get_wp_run s i v : wps s !! i = Some (Some v) -> get_wp i s = Ret (v, s).
Proof. unfold get_wp. by intros ->. Qed.

Lemma get_strong_run s j p : strongs s !! j = Some p -> get_strong j s = Ret (p, s).
Proof. unfold get_strong. by intros ->. Qed.

(** ** The operations *)

(** An operation that returns keeps the invariant. *)
Definition good (m : M pointers unit) (s : pointers) : Prop := exists s', m s = Ret (tt, s') /\ ok (remember G s') None None s'.

Lemma good_weak (m : M pointers unit) s s' : m s = Ret (tt, s') -> ok G None None s' -> good m s.
Proof.
  intros E H. exists s'. split; [done|]. pose proof H as [Hc Ht Hf]. split; [|done|done]. eapply counted_ext; [exact Hc| |done|done].
  intros a. unfold remember. pose proof (ok_closed G None None s' a H) as Ec. unfold strong_refs in Ec. rewrite one_none, Z.add_0_r in Ec.
  rewrite Ec. by destruct (G a).
Qed.

Lemma good_run {A} (m : M pointers A) (k : A -> M pointers unit) s x s' : m s = Ret (x, s') -> good (k x) s' -> good (m ≫= k) s.
Proof. unfold good. intros E. by rewrite (bind_run _ _ _ _ _ E). Qed.

Lemma add_wp_good s v : ok G None (m_ptr v) s -> typed (Some v) -> good (add_wp v) s.
Proof. intros H Hv. eapply good_weak; [done|]. by apply add_wp_ok. Qed.

Lemma typed_null junk : typed (Some (Wp None junk)).
Proof. by intros w a [= <-]. Qed.

Lemma add_null_good s junk : ok G None None s -> good (add_wp (Wp None junk)) s.
Proof. intros H. apply add_wp_good; [done|apply typed_null]. Qed.

Lemma typed_object a : typed (Some (Wp (Some a) (Some a))).
Proof. by intros w b [= <-] [= <-]. Qed.

Lemma typed_same es ew s i v : ok G es ew s -> wps s !! i = Some (Some v) -> typed (Some (Wp (m_ptr v) (m_refs v))).
Proof. intros H Hi w a [= <-] Ha. simpl in *. by eapply ok_get_wp. Qed.

Lemma replace_good s i v ptr newRefs :
  ok G None ptr s -> room s -> wps s !! i = Some (Some v) -> typed (Some (Wp ptr newRefs)) -> good (replace_wp i ptr newRefs) s.
Proof.
  intros H Hr Hi Hv. eapply good_run; [by apply get_wp_run|].
  destruct (dec_weak_ok s i v (Some (Wp ptr newRefs)) H Hr Hi Hv) as (x & s' & E & Hok & Ew & _).
  eapply good_run; [exact E|]. eapply good_weak; [done|]. by rewrite Ew.
Qed.

Lemma wp_from_ptr_good s junk j p : ok G None None s -> room s -> strongs s !! j = Some p -> good (wp_from_ptr junk p) s.
Proof.
  intros H Hr Hj. destruct p as [a|]; [|by apply add_null_good].
  destruct (create_weak_ok s j a H Hr Hj) as (x & s' & E & Hok & _). eapply good_run; [exact E|].
  apply add_wp_good; [done|apply typed_object].
Qed.

Lemma wp_copy_good s i v : ok G None None s -> room s -> wps s !! i = Some (Some v) -> good (wp_copy i) s.
Proof.
  intros H Hr Hi. eapply good_run; [by apply get_wp_run|]. destruct (inc_weak_ok s i v H Hr Hi) as (x & s' & E & Hok & _).
  eapply good_run; [exact E|]. apply add_wp_good; [done|exact (typed_same _ _ _ _ _ H Hi)].
Qed.

Lemma wp_convert_good s junk i v : ok G None None s -> room s -> wps s !! i = Some (Some v) -> good (wp_convert junk i) s.
Proof.
  intros H Hr Hi. eapply good_run; [by apply get_wp_run|]. destruct (inc_weak_ok s i v H Hr Hi) as (x & s' & E & Hok & _).
  unfold through in E. destruct (m_ptr v) as [a|] eqn:Ea; [|by apply add_null_good].
  eapply good_run; [exact E|]. apply add_wp_good; [done|]. rewrite <- Ea. exact (typed_same _ _ _ _ _ H Hi).
Qed.

Lemma wp_destroy_good s i v : ok G None None s -> room s -> wps s !! i = Some (Some v) -> good (wp_destroy i) s.
Proof.
  intros H Hr Hi. eapply good_run; [by apply get_wp_run|].
  destruct (dec_weak_ok s i v None H Hr Hi) as (x & s' & E & Hok & Ew & _); [done|].
  eapply good_run; [exact E|]. eapply good_weak; [done|]. by rewrite Ew.
Qed.

Lemma assign_ptr_good s i v j p :
  ok G None None s -> room s -> wps s !! i = Some (Some v) -> strongs s !! j = Some p -> good (assign_ptr i p) s.
Proof.
  intros H Hr Hi Hj. unfold assign_ptr. destruct p as [a|].
  - destruct (create_weak_ok s j a H Hr Hj) as (x & s' & E & Hok & Hh). eapply good_run; [exact E|].
    apply (replace_good s' i v); [done|by eapply heap_room| |apply typed_object]. by rewrite (proj1 Hh).
  - eapply good_run; [done|]. by apply (replace_good s i v); try apply typed_null.
Qed.

Lemma assign_null_good s i v : ok G None None s -> room s -> wps s !! i = Some (Some v) -> good (assign_ptr i None) s.
Proof. intros H Hr Hi. eapply good_run; [done|]. by apply (replace_good s i v); try apply typed_null. Qed.

(** [w = o]; with [i = j] the new reference is taken before the old is given
    back. *)
Lemma assign_wp_good s i j v o :
  ok G None None s -> room s -> wps s !! i = Some (Some v) -> wps s !! j = Some (Some o) ->
  good (through o IncWeak;; replace_wp i (m_ptr o) (m_refs o)) s.
Proof.
  intros H Hr Hi Hj. destruct (inc_weak_ok s j o H Hr Hj) as (x & s' & E & Hok & Hh). eapply good_run; [exact E|].
  apply (replace_good s' i v); [done|by eapply heap_room|by rewrite (proj1 Hh)|exact (typed_same _ _ _ _ _ H Hj)].
Qed.

Lemma clear_good s i v : ok G None None s -> room s -> wps s !! i = Some (Some v) -> good (clear i) s.
Proof.
  intros H Hr Hi. eapply good_run; [by apply get_wp_run|].
  destruct (dec_weak_ok s i v (Some (Wp None (m_refs v))) H Hr Hi) as (x & s' & E & Hok & Ew & _); [apply typed_null|].
  unfold through in E. destruct (m_ptr v) as [a|]; [|by eapply good_weak]. eapply good_run; [exact E|]. eapply good_weak; [done|].
  by rewrite Ew.
Qed.

Lemma remembered s b : remember G s b = ((G b).1, (G b).2 || (0 <? strong_refs None s b)).
Proof. unfold strong_refs. by rewrite one_none, Z.add_0_r. Qed.

Lemma add_null_strong s : ok G None None s -> ok G None None (with_strongs (strongs s ++ [None]) s).
Proof.
  intros [Hc ? ?]. split; [|done|done]. eapply counted_ext; [exact Hc|done| |done].
  intros b. unfold strong_refs. simpl. rewrite refs_to_app. simpl. rewrite one_none. lia.
Qed.

Lemma promote_good s i v : ok G None None s -> room s -> wps s !! i = Some (Some v) -> good (promote i) s.
Proof.
  intros H Hr Hi. eapply good_run; [by apply get_wp_run|]. destruct (m_ptr v) as [a|] eqn:Ea.
  - destruct (ok_get_wp _ _ _ _ _ H Hi a Ea) as [-> Hp].
    destruct (on_object_ok G None None a AttemptIncStrong s H Hr) as (x & r' & E & Hok).
    + apply Z.ltb_lt. pose proof (refs_to_range a (strongs s)). counts.
    + eapply good_run; [exact E|]. eexists. split; [done|].
      apply Hok; try done; [apply H| | |apply remembered]; intros b; unfold strong_refs; simpl;
        rewrite ?refs_to_app; simpl; destruct (x =? 0); simpl; counts.
  - eapply good_weak; [done|]. by apply add_null_strong.
Qed.

Lemma take_strong_good s j p : ok G None None s -> room s -> strongs s !! j = Some p -> good (take_strong j) s.
Proof.
  intros H Hr Hj. eapply good_run; [by apply get_strong_run|]. destruct p as [a|].
  - destruct (on_object_ok G None None a IncStrong s H Hr) as (x & r' & E & Hok).
    + apply Z.ltb_lt. pose proof (refs_to_lookup _ _ _ Hj). counts.
    + eapply good_run; [exact E|]. eexists. split; [done|].
      apply Hok; try done; [apply H| | |apply remembered]; intros b; unfold strong_refs; simpl;
        rewrite ?refs_to_app; counts.
  - eapply good_run; [done|]. eapply good_weak; [done|]. by apply add_null_strong.
Qed.

Lemma drop_strong_good s j p : ok G None None s -> room s -> strongs s !! j = Some p -> good (drop_strong j) s.
Proof.
  intros H Hr Hj. eapply good_run; [by apply get_strong_run|]. destruct p as [a|].
  - destruct (on_object_ok G None None a DecStrong s H Hr) as (x & r' & E & Hok).
    + apply Z.ltb_lt. pose proof (refs_to_lookup _ _ _ Hj). counts.
    + eapply good_run; [exact E|]. eexists. split; [done|].
      apply Hok; try done; [apply H| | |apply remembered]; intros b; unfold strong_refs; simpl;
        rewrite ?(refs_to_insert b _ _ _ _ Hj); counts.
  - eapply good_run; [done|]. eapply good_weak; [|exact H]. unfold set_strong. rewrite list_insert_id by done. by destruct s.
Qed.

(** A new object has no past. *)
Definition created (a : nat) (extended : bool) : past := fun b => if decide (b = a) then (extended, (G b).2) else G b.

End Steps.

Lemma new_object_good G s extended strong : ok G None None s -> good (created G (fresh s) extended) (new_object extended strong) s.
Proof.
  intros [Hc Ht Hf]. pose proof (initial_pool extended strong _ (initial_state extended strong)) as Hp. revert Hp.
  set (r := Refs _ _ _ _ _ _). intros Hp.
  assert (Hh : strong_history strong r) by (unfold strong_history, r; destruct strong; simpl; rewrite ?initial_value; lia).
  assert (En : run_alone 26 (first_reference extended strong) new_RefBase = Ret (Some 0, r)) by (unfold r; destruct extended, strong; vm_compute; reflexivity).
  clearbody r.
  unfold good, new_object. rewrite En. eexists. split; [done|]. specialize (Hf (fresh s) (Nat.le_refl _)) as Hn. split; simpl.
  - intros b. pose proof (Hc b) as Hb. unfold remember, created. unfold strong_refs, weak_refs in *. clear En. simpl in *.
    destruct (decide (b = fresh s)) as [->|Hne].
    + rewrite Hn in Hb. destruct Hb as (E1 & E2 & E3). rewrite lookup_insert_eq. rewrite !one_none in *. simpl. rewrite E3.
      assert (Es : refs_to (fresh s) (if strong then strongs s ++ [Some (fresh s)] else strongs s) = Z.b2z strong).
      { destruct strong; rewrite ?refs_to_app; simpl; rewrite ?one_self; lia. }
      assert (Ew : refs_to (fresh s) (owner <$> (if strong then wps s else wps s ++ [Some (Wp (Some (fresh s)) (Some (fresh s)))])) = Z.b2z (negb strong)).
      { destruct strong; rewrite ?fmap_app, ?refs_to_app; simpl; rewrite ?one_self; lia. }
      rewrite Es, Ew, !Z.add_0_r. split; [exact Hp|]. by destruct strong.
    + assert (Es : refs_to b (if strong then strongs s ++ [Some (fresh s)] else strongs s) = refs_to b (strongs s)).
      { destruct strong; rewrite ?refs_to_app; simpl; unfold one; rewrite ?decide_False by congruence; lia. }
      assert (Ew : refs_to b (owner <$> (if strong then wps s else wps s ++ [Some (Wp (Some (fresh s)) (Some (fresh s)))])) = refs_to b (owner <$> wps s)).
      { destruct strong; rewrite ?fmap_app, ?refs_to_app; simpl; unfold one; rewrite ?decide_False by congruence; lia. }
      rewrite lookup_insert_ne by done. rewrite Es, Ew. pose proof (ok_closed G None None s b (Ok _ _ _ _ Hc Ht ltac:(by intros; apply Hf))) as Ecl.
      unfold strong_refs in Ecl. rewrite one_none, Z.add_0_r in Ecl. rewrite Ecl. by destruct (G b) eqn:Eg.
  - destruct strong; [done|]. apply Forall_app_2; [done|]. apply Forall_singleton, typed_object.
  - intros b Hb. rewrite lookup_insert_ne by lia. apply Hf. lia.
Qed.

(** What is remembered after an operation on the state [s]. *)
Definition next_past (G : past) (s : pointers) (o : pointer_op) (s' : pointers) : past :=
  remember (match o with NewObject extended _ => created G (fresh s) extended | _ => G end) s'.

Lemma live_get s i : live s i = true -> exists v, wps s !! i = Some (Some v).
Proof. unfold live. destruct (wps s !! i) as [[v|]|]; [by exists v|done|done]. Qed.

Lemma strong_get s j : (j <? length (strongs s))%nat = true -> exists p, strongs s !! j = Some p.
Proof. intros H%Nat.ltb_lt. by apply lookup_lt_is_Some. Qed.

Lemma pointer_step_good G s o : ok G None None s -> op_ok s o = true ->
  exists s', pointer_step o s = Ret (tt, s') /\ ok (next_past G s o s') None None s'.
Proof.
  assert (Hg : forall G', good G' (pointer_step o) s -> (match o with NewObject e _ => created G (fresh s) e | _ => G end) = G' ->
    exists s', pointer_step o s = Ret (tt, s') /\ ok (next_past G s o s') None None s').
  { intros G' (s' & E & H) <-. by exists s'. }
  intros H Ho. eapply Hg; [|reflexivity]. clear Hg. revert H Ho.
  intros H. unfold op_ok. rewrite andb_true_iff, Z.leb_le. intros [Hr Ho]. change (room s) in Hr.
  destruct o; simpl; rewrite ?andb_true_iff in Ho; destruct_and?;
    repeat match goal with
    | Hl : live _ _ = true |- _ => apply live_get in Hl as [? ?]
    | Hl : (_ <? _)%nat = true |- _ => apply strong_get in Hl as [? ?]
    end.
  - by apply add_null_good.
  - eapply good_run; [by apply get_strong_run|]. by eapply wp_from_ptr_good.
  - by eapply wp_copy_good.
  - by eapply wp_convert_good.
  - by eapply wp_destroy_good.
  - eapply good_run; [by apply get_wp_run|]. by eapply assign_wp_good.
  - eapply good_run; [by apply get_strong_run|]. by eapply assign_ptr_good.
  - by eapply assign_null_good.
  - match goal with Hj : wps s !! j = Some (Some ?o) |- _ => destruct o as [p r] end.
    eapply good_run; [by apply get_wp_run|]. by eapply (assign_wp_good G s i j _ (Wp p r)).
  - by eapply clear_good.
  - by eapply promote_good.
  - by apply new_object_good.
  - by eapply take_strong_good.
  - by eapply drop_strong_good.
Qed.

Definition no_past : past := fun _ => (false, false).

Lemma no_pointers_ok : ok no_past None None no_pointers.
Proof. by split. Qed.

(** The states that clients reach, with what is remembered. *)
Inductive story : past -> pointers -> Prop :=
| story_none : story no_past no_pointers
| story_op G s o s' : story G s -> op_ok s o = true -> pointer_step o s = Ret (tt, s') -> story (next_past G s o s') s'.

Lemma story_ok G s : story G s -> ok G None None s.
Proof.
  induction 1 as [|G s o s' _ IH Ho E]; [apply no_pointers_ok|]. destruct (pointer_step_good G s o IH Ho) as (s2 & E2 & H).
  rewrite E in E2. by injection E2 as <-.
Qed.

Lemma reach_story s : pointers_reach s -> exists G, story G s.
Proof. induction 1 as [|s o s' _ [G IH] Ho E]; [by eexists; constructor|]. eexists. by econstructor. Qed.

Lemma reach_ok s : pointers_reach s -> exists G, ok G None None s.
Proof. intros [G H]%reach_story. exists G. by apply story_ok. Qed.

(** ** What the invariant says of an object *)

Lemma ok_object G s a r :
  ok G None None s -> objs s !! a = Some r ->
  let n := refs_to a (strongs s) in
  let w := refs_to a (owner <$> wps s) in
  if 0 <? n + w then impl r = true /\ mFlags r = Z.b2z (G a).1 /\ mWeak r = n + w /\
    mStrong r = (if (G a).2 then n else INITIAL_STRONG_VALUE) /\ base r = (G a).1 || negb (G a).2 || (0 <? n)
  else impl r = false /\ base r = false.
Proof.
  intros H Er. pose proof (ok_counts _ _ _ _ H a) as Hc. rewrite Er in Hc. destruct Hc as (Hp & Hh & Hhist).
  unfold strong_refs, weak_refs in *. rewrite one_none, !Z.add_0_r in *. cbv zeta.
  assert (Hq : quiet [Thread (refs_to a (strongs s)) (refs_to a (owner <$> wps s)) None]) by (by constructor).
  assert (Hfl : mFlags r = Z.b2z (G a).1) by (destruct Hp as (toks & _ & Hi); exact (i_flags _ _ _ Hi)).
  apply (pool_quiet _ r _ Hq) in Hp. simpl in Hp. rewrite !Z.add_0_r in Hp.
  destruct (Z.ltb_spec 0 (refs_to a (strongs s) + refs_to a (owner <$> wps s))) as [Hpos|]; [|done].
  destruct Hp as (? & ? & Hst & Hb). specialize (Hhist Hpos). unfold strong_history in Hhist. split_and!; try done.
  - destruct (G a).2; [destruct Hst as [?|[_ ?]]; [done|lia]|done].
  - rewrite Hb. destruct (G a).1; [done|]. simpl. destruct (G a).2; simpl.
    + destruct Hst as [->|[_ ?]]; [done|lia].
    + apply Z.ltb_lt. rewrite Hhist, initial_value. lia.
Qed.

(** A strong reference and a bound on the count make promotion succeed. *)
Lemma ok_promotes G s a r :
  ok G None None s -> room s -> objs s !! a = Some r -> 0 < refs_to a (strongs s) -> promotes r = true.
Proof.
  intros H Hr Er Hn. pose proof (ok_object G s a r H Er) as Ho. cbv zeta in Ho. pose proof (refs_to_range a (strongs s)) as Hb.
  pose proof (refs_to_range a (owner <$> wps s)). rewrite (proj2 (Z.ltb_lt _ _)) in Ho by lia. destruct Ho as (_ & _ & _ & Est & _).
  assert ((G a).2 = true) as Eg.
  { pose proof (ok_counts _ _ _ _ H a) as Hc. rewrite Er in Hc. apply Hc. unfold strong_refs. rewrite one_none. lia. }
  rewrite Eg in Est.
  unfold room, MAX_REFS in Hr. unfold promotes. rewrite Est, (proj2 (Z.ltb_lt _ _)), (proj2 (Z.eqb_neq _ _)) by lia. done.
Qed.

Lemma promote_answers G s i a r :
  ok G None None s -> room s -> wps s !! i = Some (Some (Wp (Some a) (Some a))) -> objs s !! a = Some r ->
  exists s', promote i s = Ret (tt, s') /\ strongs s' = strongs s ++ [if promotes r then Some a else None] /\ wps s' = wps s.
Proof.
  intros H Hr Hi Er. destruct (ok_get_wp _ _ _ _ _ _ H Hi a eq_refl) as [_ Hp].
  pose proof (ok_object G s a r H Er) as Ho. cbv zeta in Ho. pose proof (refs_to_range a (strongs s)).
  rewrite (proj2 (Z.ltb_lt _ _)) in Ho by lia. destruct Ho as (Himpl & _ & _).
  destruct (on_object_ok G None None a AttemptIncStrong s H Hr) as (x & r' & E & _);
    [apply Z.ltb_lt; unfold strong_refs, weak_refs; rewrite !one_none; lia|].
  unfold promote. rewrite (bind_run _ _ _ _ _ (get_wp_run s i _ Hi)). simpl. rewrite (bind_run _ _ _ _ _ E). eexists.
  split; [done|]. split; [|done].
  simpl. unfold on_object in E. rewrite Er in E.
  destruct (run_alone 26 (code AttemptIncStrong) r) as [[[y|] r2]| |] eqn:Erun; try done.
  injection E as -> _. apply attempt_answer in Erun as [-> _]; [|done]. by destruct (promotes r).
Qed.

End Pointers.

(** ** Theorems *)

(** C29: from every state that clients of the pointers reach, an operation on
    variables that exist returns without touching deleted memory.  Afterwards
    every [wp] that is not null has the references of its object.  As long as
    a pointer to an object is left, its [weakref_impl] exists, its flags say
    whether its life-time was extended when it was made, the weak count is the
    number of pointers of both kinds, the strong count is the number of strong
    ones (or its initial value until somebody holds the first), and the object
    exists exactly if its life-time is extended, nobody has held it strongly
    yet, or somebody does: when the last strong pointer is dropped, an object
    of normal life-time is destroyed.  With the last pointer both are freed.
    The past [G] records which objects were extended and which were held. *)
Theorem weak_pointers_sound (V : Virtuals) G s o :
  story G s -> op_ok s o = true ->
  exists s', pointer_step o s = Ret (tt, s') /\
    (forall i v a, wps s' !! i = Some (Some v) -> m_ptr v = Some a -> m_refs v = Some a /\ is_Some (objs s' !! a)) /\
    (forall a r, objs s' !! a = Some r ->
      let n := refs_to a (strongs s') in
      let w := refs_to a (owner <$> wps s') in
      let extended := (next_past G s o s' a).1 in
      let held := (next_past G s o s' a).2 in
      if 0 <? n + w then
        impl r = true /\ mFlags r = Z.b2z extended /\ mWeak r = n + w /\
        mStrong r = (if held then n else INITIAL_STRONG_VALUE) /\ base r = extended || negb held || (0 <? n)
      else impl r = false /\ base r = false).
Proof.
  intros Hs%story_ok Ho. destruct (pointer_step_good G s o Hs Ho) as (s' & E & H). exists s'. split; [done|]. split.
  - intros i v a Hi Ha. destruct (ok_get_wp _ _ _ _ _ _ H Hi a Ha) as [Hr Hp]. split; [done|]. apply is_Some_alt.
    pose proof (ok_counts _ _ _ _ H a) as Hc. destruct (objs s' !! a); [done|]. unfold weak_refs in Hc. rewrite one_none in Hc. lia.
  - intros a r Er. by apply (ok_object _ s' a r H).
Qed.

(** C30: promoting a [wp] that is not null adds a strong pointer to its
    object if there is a strong reference, if there was none so far, or, when
    the object's life-time is extended, if the object agrees, and a null
    pointer otherwise; while somebody owns a strong reference to the object it
    never fails. *)
Theorem promote_result (V : Virtuals) s i a r :
  pointers_reach s -> op_ok s (Promote i) = true ->
  wps s !! i = Some (Some (Wp (Some a) (Some a))) -> objs s !! a = Some r ->
  (exists s', promote i s = Ret (tt, s') /\ strongs s' = strongs s ++ [if promotes r then Some a else None] /\ wps s' = wps s) /\
  (0 < refs_to a (strongs s) -> promotes r = true).
Proof.
  intros [G Hs]%reach_ok Ho Hi Er. unfold op_ok in Ho. apply andb_true_iff in Ho as [Hr%Z.leb_le _].
  split; [by eapply promote_answers|]. by eapply ok_promotes.
Qed.

(** ** A run *)

Lemma run_reaches (V : Virtuals) l s s' : pointers_reach s -> pointer_run l s = Some s' -> pointers_reach s'.
Proof.
  revert s. induction l as [|o l IH]; intros s Hs; simpl; [by intros [= <-]|].
  destruct (op_ok s o) eqn:Ho; [|done]. destruct (pointer_step o s) as [[[] s1]| |] eqn:E; [|done|done]. apply IH.
  by eapply reach_op.
Qed.

(** An object with a strong and two weak pointers, one of them assigned to
    itself and cleared; the strong pointer is dropped. *)
Definition pointer_story : list pointer_op :=
  [NewObject false true; WpFromSp None 0; WpCopy 0; AssignWp 1 1; Clear 1; Promote 0; DropStrong 0].
Definition pointer_story_end : pointers :=
  default no_pointers (pointer_run (V := default_virtuals) pointer_story no_pointers).

Lemma pointer_story_reached : pointers_reach (V := default_virtuals) pointer_story_end.
Proof.
  eapply (run_reaches default_virtuals pointer_story no_pointers); [constructor|]. vm_compute. reflexivity.
Qed.

(** The object is held strongly and then only weakly: it is destroyed. *)
Lemma weak_pointers_sound_witness : exists G s s' r,
  story (V := default_virtuals) G s /\ pointer_step (V := default_virtuals) (DropStrong 0) s = Ret (tt, s') /\
  objs s' !! 0%nat = Some r /\ mStrong r = 0 /\ base r = false /\ impl r = true.
Proof.
  destruct (pointer_run (V := default_virtuals) [NewObject false true; WpFromSp None 0] no_pointers) as [s|] eqn:Es; [|by vm_compute in Es].
  assert (Hs : exists G, story (V := default_virtuals) G s).
  { apply reach_story, (run_reaches default_virtuals [NewObject false true; WpFromSp None 0] no_pointers); [constructor|exact Es]. }
  destruct Hs as [G Hs]. destruct (weak_pointers_sound default_virtuals G s (DropStrong 0) Hs) as (s' & E & _ & Hr);
    [vm_compute in Es; injection Es as <-; vm_compute; reflexivity|].
  exists G, s, s'. destruct (objs s' !! 0%nat) as [r|] eqn:Er; [|vm_compute in Es; injection Es as <-; vm_compute in E; injection E as <-; by vm_compute in Er].
  exists r. split; [exact Hs|]. split; [exact E|]. split; [reflexivity|].
  vm_compute in Es; injection Es as <-; vm_compute in E; injection E as <-. vm_compute in Er. injection Er as <-. by vm_compute.
Defined.

Definition pointer_story_object : refs := default new_RefBase (objs pointer_story_end !! 0%nat).

Lemma promote_result_witness : exists s',
  promote (V := default_virtuals) 0 pointer_story_end = Ret (tt, s') /\ strongs s' = [None; Some 0%nat; Some 0%nat].
Proof.
  destruct (promote_result default_virtuals pointer_story_end 0 0 pointer_story_object pointer_story_reached) as [(s' & E & Es & _) _];
    [vm_compute; reflexivity|vm_compute; reflexivity|vm_compute; reflexivity|].
  exists s'. split; [exact E|]. rewrite Es. vm_compute. reflexivity.
Defined.

(** ** Comparisons *)

(** A pointer that was cleared keeps [m_refs]: next to a copy made before it
    is neither equal nor unequal. *)
Lemma cleared_neither_equal (a : nat) :
  let copy := Wp (Some a) (Some a) in
  let cleared := Wp None (Some a) in
  wp_eq cleared copy = false /\ wp_ne cleared copy = false.
Proof. unfold wp_eq, wp_ne. simpl. by rewrite !bool_decide_true. Qed.

Lemma cleared_neither_equal_run : exists s v w,
  pointer_run (V := default_virtuals) [NewObject false true; WpFromSp None 0; WpCopy 0; Clear 1] no_pointers = Some s /\
  wps s = [Some v; Some w] /\ wp_eq w v = false /\ wp_ne w v = false.
Proof. eexists _, (Wp (Some 0%nat) (Some 0%nat)), (Wp None (Some 0%nat)). split; [vm_compute; reflexivity|]. split; [reflexivity|]. split; reflexivity. Qed.

(** Two null pointers differ when the memory they were made in did. *)
Lemma null_pointers_differ : exists s v w,
  pointer_run (V := default_virtuals) [WpDefault None; WpDefault (Some 7%nat)] no_pointers = Some s /\
  wps s = [Some v; Some w] /\ m_ptr v = None /\ m_ptr w = None /\ wp_eq v w = false.
Proof. eexists _, (Wp None None), (Wp None (Some 7%nat)). split_and!; try (vm_compute; reflexivity); reflexivity. Qed.

(** ** LightRefBase *)

(** The count is the number of holders, and the object is deleted when the last
    of them drops its reference. *)
Lemma light_counted l n m :
  0 <= n < 2 ^ 31 -> LightRefBase.holders n l = Some m ->
  LightRefBase.light_run l (LightRefBase.Light n true) = Ret (tt, LightRefBase.Light m ((0 <? m) || bool_decide (l = []))).
Proof.
  revert n. induction l as [|[] l IH]; intros n Hn; simpl.
  - intros [= <-]. by rewrite orb_true_r.
  - destruct (Z.ltb_spec (n + 1) (2 ^ 31)); [|done]. intros Hh. rewrite (bind_run _ _ _ (LightRefBase.Light (n + 1) true) tt).
    + rewrite (IH (n + 1)) by (done || lia). do 3 f_equal. destruct l; [|done]. injection Hh as <-.
      by rewrite (proj2 (Z.ltb_lt 0 _)) by lia.
    + unfold LightRefBase.light_step, LightRefBase.incStrong. simpl. by rewrite s32_small by lia.
  - destruct (Z.ltb_spec 1 n).
    + intros Hh. rewrite (bind_run _ _ _ (LightRefBase.Light (n - 1) true) tt).
      * rewrite (IH (n - 1)) by (done || lia). do 3 f_equal. destruct l; [|done]. injection Hh as <-.
        by rewrite (proj2 (Z.ltb_lt 0 _)) by lia.
      * unfold LightRefBase.light_step, LightRefBase.decStrong. simpl. rewrite s32_small by lia.
        by rewrite (proj2 (Z.eqb_neq n 1)) by lia.
    + destruct (Z.eqb_spec n 1) as [->|]; [|done]. destruct (bool_decide_reflect (l = [])) as [->|]; [|done]. by intros [= <-].
Qed.

(** One owner takes a second reference, and both are dropped. *)
Lemma light_counted_run : LightRefBase.light_run [true; true; false; false] LightRefBase.new_light = Ret (tt, LightRefBase.Light 0 false).
Proof. exact (light_counted [true; true; false; false] 0 0 ltac:(lia) eq_refl). Qed.
