(* ===== verification/WeakPointerOrder.v ===== *)
(** * libshims/RefBase.h: the comparisons of [wp<T>], and its templates over [U]

    The order of pointers is that of the addresses of the objects and, for
    equal pointers, of their [weakref_impl]s; sorted vectors of [wp]s rely on
    it. *)

From S2P Require Import Prelude RefBase RefThreads WeakPointer.

(** Where the objects and their [weakref_impl]s are. *)
Class Layout : Type := {
  object_at : nat -> Z;
  refs_at : nat -> Z;
  object_at_positive a : 0 < object_at a;
  refs_at_positive a : 0 < refs_at a;
  object_at_inj a b : object_at a = object_at b -> a = b;
  refs_at_inj a b : refs_at a = refs_at b -> a = b
}.

(** ** Operators *)

Section Operators.
Context {L : Layout}.

Definition ptr_address (p : option nat) : Z := match p with None => 0 | Some a => object_at a end.
Definition refs_address (p : option nat) : Z := match p with None => 0 | Some a => refs_at a end.

(** [operator ==] of a [wp<T>] and a [wp<U>]. *)
Definition wp_eq_U (v o : wp) : bool := ptr_address (m_ptr v) =? ptr_address (m_ptr o).
Definition wp_ne_U (v o : wp) : bool := negb (wp_eq_U v o).

Definition wp_gt (v o : wp) : bool :=
  if ptr_address (m_ptr v) =? ptr_address (m_ptr o) then refs_address (m_refs o) <? refs_address (m_refs v)
  else ptr_address (m_ptr o) <? ptr_address (m_ptr v).
Definition wp_lt (v o : wp) : bool :=
  if ptr_address (m_ptr v) =? ptr_address (m_ptr o) then refs_address (m_refs v) <? refs_address (m_refs o)
  else ptr_address (m_ptr v) <? ptr_address (m_ptr o).
Definition wp_le (v o : wp) : bool := negb (wp_gt v o).
Definition wp_ge (v o : wp) : bool := negb (wp_lt v o).

(** [COMPARE_WEAK]: the operators with an [sp] or a pointer compare the
    pointers only. *)
Definition compare_weak (op : Z -> Z -> bool) (v : wp) (o : option nat) : bool := op (ptr_address (m_ptr v)) (ptr_address o).

(** ** The order *)

Lemma ptr_address_inj p q : ptr_address p = ptr_address q -> p = q.
Proof.
  destruct p as [a|], q as [b|]; simpl; intros E; [by f_equal; apply object_at_inj| | |done].
  - pose proof (object_at_positive a). lia.
  - pose proof (object_at_positive b). lia.
Qed.

Lemma refs_address_inj p q : refs_address p = refs_address q -> p = q.
Proof.
  destruct p as [a|], q as [b|]; simpl; intros E; [by f_equal; apply refs_at_inj| | |done].
  - pose proof (refs_at_positive a). lia.
  - pose proof (refs_at_positive b). lia.
Qed.

(** The order of two pointers by their addresses. *)
Definition address_lt (v o : wp) : Prop :=
  ptr_address (m_ptr v) < ptr_address (m_ptr o) \/
  ptr_address (m_ptr v) = ptr_address (m_ptr o) /\ refs_address (m_refs v) < refs_address (m_refs o).

Lemma wp_lt_spec v o : wp_lt v o = true <-> address_lt v o.
Proof.
  unfold wp_lt, address_lt. destruct (Z.eqb_spec (ptr_address (m_ptr v)) (ptr_address (m_ptr o))); rewrite Z.ltb_lt; lia.
Qed.

Lemma wp_gt_spec v o : wp_gt v o = true <-> address_lt o v.
Proof.
  unfold wp_gt, address_lt. destruct (Z.eqb_spec (ptr_address (m_ptr v)) (ptr_address (m_ptr o))); rewrite Z.ltb_lt; lia.
Qed.

Lemma wp_eq_spec v o : wp_eq v o = true <-> v = o.
Proof.
  unfold wp_eq. rewrite andb_true_iff, !bool_decide_eq_true. destruct v, o. simpl. split; [by intros [-> ->]|by intros [= -> ->]].
Qed.

Lemma address_lt_trichotomy v o : address_lt v o \/ v = o \/ address_lt o v.
Proof.
  unfold address_lt.
  destruct (Z.lt_trichotomy (ptr_address (m_ptr v)) (ptr_address (m_ptr o))) as [?|[E|?]]; [by do 2 left| |by do 2 right; left].
  destruct (Z.lt_trichotomy (refs_address (m_refs v)) (refs_address (m_refs o))) as [?|[E'|?]]; [by left; right| |by right; right; right].
  right; left. destruct v, o. f_equal; [by apply ptr_address_inj|by apply refs_address_inj].
Qed.

#[export] Instance address_lt_strict : StrictOrder address_lt.
Proof. unfold address_lt. split; [intros v Hv; lia|intros v o p H1 H2; lia]. Qed.

(** The operators are those of one strict total order, with [==] the equality;
    [!=] is not its negation. *)
Lemma wp_operators_ordered v o :
  (wp_lt v o = true <-> address_lt v o) /\ (wp_gt v o = true <-> address_lt o v) /\
  (wp_le v o = true <-> address_lt v o \/ wp_eq v o = true) /\
  (wp_ge v o = true <-> address_lt o v \/ wp_eq v o = true).
Proof.
  rewrite wp_eq_spec. unfold wp_le, wp_ge. rewrite !negb_true_iff, <- !not_true_iff_false, wp_lt_spec, wp_gt_spec.
  repeat split; try done.
  - destruct (address_lt_trichotomy v o) as [?|[?|?]]; tauto.
  - intros [H|<-]; [|apply irreflexivity; apply _]. intros H'. by apply (irreflexivity address_lt v), (transitivity H H').
  - destruct (address_lt_trichotomy v o) as [?|[?|?]]; tauto.
  - intros [H|<-]; [|apply irreflexivity; apply _]. intros H'. by apply (irreflexivity address_lt v), (transitivity H' H).
Qed.

(** On pointers that were set from objects all the comparisons agree. *)
Definition whole (v : wp) : Prop := exists a, v = Wp (Some a) (Some a).

Lemma whole_comparisons v o : whole v -> whole o ->
  wp_eq_U v o = wp_eq v o /\ wp_ne v o = negb (wp_eq v o) /\ wp_ne_U v o = negb (wp_eq v o) /\ wp_lt v o = compare_weak Z.ltb v (m_ptr o).
Proof.
  intros [a ->] [b ->]. unfold wp_ne_U, wp_eq_U, wp_ne, wp_eq, wp_lt, compare_weak. simpl. destruct (decide (a = b)) as [->|Hne].
  - rewrite Z.eqb_refl, !bool_decide_true by done. repeat split. by rewrite !Z.ltb_irrefl.
  - rewrite !bool_decide_false by congruence.
    destruct (Z.eqb_spec (object_at a) (object_at b)) as [?%object_at_inj|]; [done|]. done.
Qed.

(** For null pointers with different memory behind [m_refs], the comparison
    with a [wp<U>] is equal and less at once. *)
Lemma equal_and_less a : wp_eq_U (Wp None None) (Wp None (Some a)) = true /\ wp_lt (Wp None None) (Wp None (Some a)) = true.
Proof. split; [done|]. apply wp_lt_spec. right. simpl. split; [done|apply refs_at_positive]. Qed.

End Operators.

(** ** Templates over [U] *)

(** A [U] pointer converts to a [T] pointer to the same object, so the
    functions are those for [T]; the copy from a [wp<U>] is [wp_convert]. *)
Section Templates.
Context {V : Virtuals}.

Definition wp_from_U_ptr : option nat -> option nat -> PM unit := wp_from_ptr.
Definition wp_from_U_sp : option nat -> nat -> PM unit := wp_from_sp.
Definition assign_U_ptr : nat -> option nat -> PM unit := assign_ptr.
Definition assign_U_wp : nat -> nat -> PM unit := assign_wp.
Definition assign_U_sp : nat -> nat -> PM unit := assign_sp.

End Templates.
