(* ===== verification/MemoryHeapPmem.v ===== *)
(** * libshims/MemoryHeapPmem.cpp: sub-regions of a pmem heap

    A heap hands out sub-regions as reference counted objects, keeps weak
    pointers to them in [mAllocations], and can revoke them all.  Threads map
    regions, pass their references on, drop them and revoke; a region is
    destroyed by the thread that drops its last strong reference.

    A strong reference is one of [held], those of the clients, or one that a
    thread owns in the middle of a function; by [RefBase] their number is the
    strong count, and a weak pointer is promoted exactly when it is not zero.
    Functions that hold [mLock] are one step: nothing that they call waits or
    takes the lock.  The code is that with [HAVE_ANDROID_OS]. *)

From S2P Require Import Prelude.

(** ** Data *)

(** An [ioctl] on the heap's descriptor, with the region that it concerns. *)
Inductive ioctl : Type := PMEM_MAP (r : nat) (offset len : Z) | PMEM_UNMAP (r : nat) (offset len : Z).

(** [size0] is the size at the construction; [freed]: the destructor is done. *)
Record SubRegionMemory : Type := SubRegion { mSize : Z; mOffset : Z; size0 : Z; held : Z; freed : bool }.

(** The loop of [MemoryHeapPmem::revoke]: its copy of the allocations and the
    index. *)
Record revoke_loop : Type := RevokeLoop { allocations : list nat; index : nat }.

(** Who called [SubRegionMemory::revoke]: the loop, or the destructor, which in
    turn was run by a client or at the end of a round of the loop. *)
Inductive caller : Type := FromLoop (k : revoke_loop) | FromDestructor (k : option revoke_loop).

(** [SubRegionMemory::revoke] tests [mSize], makes the [ioctl], and clears
    [mSize]. *)
Inductive phase : Type := TestSize | Unmap | ClearSize.

Inductive thread : Type :=
| Idle
| Mapping (r : nat)
| StartRevoke
| Revoking (k : revoke_loop)
| SubRevoke (ph : phase) (r : nat) (c : caller)
| DropMemory (r : nat) (k : revoke_loop)
| Removing (r : nat) (k : option revoke_loop).

(** [heapID] is the descriptor, -1 when the construction failed. *)
Record heap : Type := Heap { heapID : Z; heapSize : Z; heapFlags : Z; mParentHeap : bool }.

Record pstate : Type := PState {
  pheap : heap; regions : gmap nat SubRegionMemory; mAllocations : list nat; threads : list thread; ioctls : list ioctl
}.

Definition with_regions (m : gmap nat SubRegionMemory) (s : pstate) : pstate :=
  PState (pheap s) m (mAllocations s) (threads s) (ioctls s).
Definition with_allocations (l : list nat) (s : pstate) : pstate :=
  PState (pheap s) (regions s) l (threads s) (ioctls s).
Definition with_thread (i : nat) (t : thread) (s : pstate) : pstate :=
  PState (pheap s) (regions s) (mAllocations s) (<[i := t]> (threads s)) (ioctls s).
Definition with_ioctl (c : ioctl) (s : pstate) : pstate :=
  PState (pheap s) (regions s) (mAllocations s) (threads s) (ioctls s ++ [c]).

Definition set_mSize (x : Z) (m : SubRegionMemory) : SubRegionMemory := SubRegion x (mOffset m) (size0 m) (held m) (freed m).
Definition set_held (x : Z) (m : SubRegionMemory) : SubRegionMemory := SubRegion (mSize m) (mOffset m) (size0 m) x (freed m).
Definition set_freed (m : SubRegionMemory) : SubRegionMemory := SubRegion (mSize m) (mOffset m) (size0 m) (held m) true.

(** ** The heap *)

Definition pagesize : Z := 4096.

(** [(size + pagesize-1) & ~(pagesize-1)] in 32 bits. *)
Definition round_up (size : Z) : Z := Z.land (u32 (size + pagesize - 1)) (u32 (Z.lnot (pagesize - 1))).

(** [MemoryHeapPmem::MemoryHeapPmem]: whether the parent has a device, what
    [open] and [ioctl(PMEM_CONNECT)] return; the state of the default
    constructor of the base class stays when one of them fails. *)
Definition new_heap (device : bool) (fd err size flags parentFlags : Z) : heap :=
  if device then
    if 0 <=? fd then
      if err <? 0 then Heap (-1) 0 0 false
      else Heap fd size (Z.lor parentFlags flags) true
    else Heap (-1) 0 0 false
  else Heap (-1) 0 0 false.

(** [slap] and [unslap] map and hide the whole heap; [errno] is that after the
    [ioctl], which succeeded or not. *)
Definition slap (h : heap) (errno : Z) : Z * (Z * Z) := (- errno, (0, round_up (heapSize h))).
Definition unslap (h : heap) (errno : Z) : Z * (Z * Z) := (- errno, (0, round_up (heapSize h))).

(** ** References *)

(** The references that threads own. *)
Definition holds_ref (r : nat) (t : thread) : bool :=
  match t with
  | Mapping r' | SubRevoke _ r' (FromLoop _) | DropMemory r' _ => bool_decide (r = r')
  | _ => false
  end.

(** The thread runs the destructor of the region. *)
Definition destroys (r : nat) (t : thread) : bool :=
  match t with
  | SubRevoke _ r' (FromDestructor _) | Removing r' _ => bool_decide (r = r')
  | _ => false
  end.

Definition count {A} (f : A -> bool) (l : list A) : Z := foldr (fun x n => Z.b2z (f x) + n) 0 l.

Definition strong (s : pstate) (r : nat) : Z :=
  match regions s !! r with Some m => held m | None => 0 end + count (holds_ref r) (threads s).

(** ** Functions *)

(** [SortedVector::add] and [remove] of a weak pointer. *)
Fixpoint insert_sorted (r : nat) (l : list nat) : list nat :=
  match l with
  | [] => [r]
  | x :: rest => if (r <? x)%nat then r :: l else if (r =? x)%nat then l else x :: insert_sorted r rest
  end.
Definition remove_item (r : nat) (l : list nat) : list nat := filter (fun x => x <> r) l.

(** The constructor of [SubRegionMemory]: [r] is the new object; without
    [ndebug] its memory is filled. *)
Definition new_SubRegionMemory (ndebug : bool) (r : nat) (offset size : Z) (s : pstate) : outcome pstate :=
  if ndebug || ((0 <=? offset) && (offset + size <=? heapSize (pheap s))) then
    let s := with_regions (<[r := SubRegion size offset size 0 false]> (regions s)) s in
    Ret (if 0 <? size then with_ioctl (PMEM_MAP r offset (round_up size)) s else s)
  else Fault.

(** [getMemory] stores what the caller asks for. *)
Definition getMemory (want_offset want_size : bool) (m : SubRegionMemory) : option Z * option Z :=
  (if want_offset then Some (mOffset m) else None, if want_size then Some (mSize m) else None).

(** [createMemory]; [None] is the null pointer. *)
Definition createMemory (ndebug : bool) (r : nat) (offset size : Z) (s : pstate) : outcome (option pstate) :=
  if 0 <? heapID (pheap s) then
    match new_SubRegionMemory ndebug r offset size s with
    | Ret s' => Ret (Some s')
    | Abort => Abort
    | Fault => Fault
    end
  else Ret None.

(** [mAllocations.add(memory)] with the lock held; the reference is returned. *)
Definition mapMemory_add (r : nat) (m : SubRegionMemory) (s : pstate) : pstate :=
  with_allocations (insert_sorted r (mAllocations s)) (with_regions (<[r := set_held (held m + 1) m]> (regions s)) s).

(** [remove]. *)
Definition remove (r : nat) (s : pstate) : pstate := with_allocations (remove_item r (mAllocations s)) s.

(** The thread drops a strong reference: it goes on at [k], or runs the
    destructor if it was the last. *)
Definition after_drop (i : nat) (r : nat) (k : option revoke_loop) (s : pstate) : pstate :=
  let back := match k with None => Idle | Some k => Revoking k end in
  let s := with_thread i back s in
  if strong s r =? 0 then with_thread i (SubRevoke TestSize r (FromDestructor k)) s else s.

Definition next_round (k : revoke_loop) : revoke_loop := RevokeLoop (allocations k) (S (index k)).

(** [SubRegionMemory::revoke] returns to its caller. *)
Definition revoke_returns (r : nat) (c : caller) : thread :=
  match c with
  | FromLoop k => DropMemory r k
  | FromDestructor k => Removing r k
  end.

(** The steps of [SubRegionMemory::revoke]. *)
Definition SubRegionMemory_revoke (i : nat) (ph : phase) (r : nat) (c : caller) (s : pstate) : option pstate :=
  match ph with
  | TestSize =>
      m ← regions s !! r;
      Some (with_thread i (if mSize m =? 0 then revoke_returns r c else SubRevoke Unmap r c) s)
  | Unmap =>
      m ← regions s !! r;
      Some (with_thread i (SubRevoke ClearSize r c) (with_ioctl (PMEM_UNMAP r (mOffset m) (mSize m)) s))
  | ClearSize =>
      m ← regions s !! r;
      Some (with_thread i (revoke_returns r c) (with_regions (<[r := set_mSize 0 m]> (regions s)) s))
  end.

(** The next step of a thread inside a function. *)
Definition thread_goes (i : nat) (t : thread) (s : pstate) : option pstate :=
  match t with
  | Idle => None
  | Mapping r => m ← regions s !! r; Some (with_thread i Idle (mapMemory_add r m s))
  | StartRevoke => Some (with_thread i (Revoking (RevokeLoop (mAllocations s) 0)) s)
  | Revoking k =>
      match allocations k !! index k with
      | None => Some (with_thread i Idle s)
      | Some r =>
          Some (with_thread i (if 0 <? strong s r then SubRevoke TestSize r (FromLoop k) else Revoking (next_round k)) s)
      end
  | SubRevoke ph r c => SubRegionMemory_revoke i ph r c s
  | DropMemory r k => Some (after_drop i r (Some (next_round k)) s)
  | Removing r k =>
      m ← regions s !! r;
      Some (with_thread i (match k with None => Idle | Some k => Revoking k end)
        (with_regions (<[r := set_freed m]> (regions s)) (remove r s)))
  end.

(** ** Actions of the clients *)

Inductive action : Type :=
| Map (ndebug : bool) (r : nat) (offset size : Z)
| Copy (r : nat) | Drop (r : nat) | Revoke | Go.

(** What the thread [i] does next; [None]: it cannot, or the client breaks the
    rules: a region has a size of 32 bits, and without [NDEBUG] it lies inside
    the heap, since the constructor fills it (outside, [createMemory] faults). *)
Definition perform (i : nat) (a : action) (s : pstate) : option pstate :=
  t ← threads s !! i;
  match t, a with
  | Idle, Map ndebug r offset size =>
      if bool_decide (regions s !! r = None) && (0 <=? size) && (size <? 2 ^ 32) then
        match createMemory ndebug r offset size s with
        | Ret (Some s') => Some (with_thread i (Mapping r) s')
        | Ret None => Some s
        | _ => None
        end
      else None
  | Idle, Copy r =>
      m ← regions s !! r;
      if 0 <? held m then Some (with_regions (<[r := set_held (held m + 1) m]> (regions s)) s) else None
  | Idle, Drop r =>
      m ← regions s !! r;
      if 0 <? held m then Some (after_drop i r None (with_regions (<[r := set_held (held m - 1) m]> (regions s)) s)) else None
  | Idle, Revoke => Some (with_thread i StartRevoke s)
  | Idle, Go => None
  | _, Go => thread_goes i t s
  | _, _ => None
  end.
