(* ===== verification/MemoryHeapProps.v ===== *)
(** * Regions of a pmem heap: life-time and revocation

    The invariant counts, for every region, the threads that own a reference
    to it, run its destructor or revoke it. *)

From S2P Require Import Prelude MemoryHeapPmem.

(** ** Counting threads *)

Lemma count_insert {A} (f : A -> bool) l i x y :
  l !! i = Some x -> count f (<[i := y]> l) = count f l - Z.b2z (f x) + Z.b2z (f y).
Proof.
  revert i. induction l as [|z l IH]; intros [|i]; simpl; [done|done|intros [= ->]; lia|].
  intros H. rewrite (IH _ H). lia.
Qed.

Lemma b2z_range b : 0 <= Z.b2z b <= 1.
Proof. destruct b; simpl; lia. Qed.

Lemma count_nonneg {A} (f : A -> bool) l : 0 <= count f l.
Proof. induction l as [|x l IH]; simpl; [lia|]. pose proof (b2z_range (f x)). lia. Qed.

Lemma count_lookup {A} (f : A -> bool) l i x : l !! i = Some x -> f x = true -> 0 < count f l.
Proof.
  intros Hi Hf. revert i Hi. induction l as [|z l IH]; intros [|i]; simpl; try done.
  - intros [= ->]. rewrite Hf. simpl. pose proof (count_nonneg f l). lia.
  - intros Hi. specialize (IH _ Hi). pose proof (b2z_range (f z)). lia.
Qed.

Lemma count_zero {A} (f : A -> bool) l i x : count f l = 0 -> l !! i = Some x -> f x = false.
Proof. intros Hc Hi. destruct (f x) eqn:E; [|done]. pose proof (count_lookup f l i x Hi E). lia. Qed.

Lemma count_replicate {A} (f : A -> bool) n x : f x = false -> count f (replicate n x) = 0.
Proof. intros Hf. induction n; simpl; [done|]. rewrite Hf. done. Qed.

Lemma count_app {A} (f : A -> bool) l k : count f (l ++ k) = count f l + count f k.
Proof. induction l; simpl; lia. Qed.

(** ** Where threads are *)

Definition maps (r : nat) (t : thread) : bool := match t with Mapping r' => bool_decide (r = r') | _ => false end.

(** The region has been revoked and the caller of [SubRegionMemory::revoke]
    goes on. *)
Definition revoked (r : nat) (t : thread) : bool :=
  match t with DropMemory r' _ | Removing r' _ => bool_decide (r = r') | _ => false end.


(** In [MemoryHeapPmem::revoke]. *)
Definition in_revoke (t : thread) : bool :=
  match t with
  | StartRevoke | Revoking _ | SubRevoke _ _ (FromLoop _) | SubRevoke _ _ (FromDestructor (Some _)) | DropMemory _ _
  | Removing _ (Some _) => true
  | _ => false
  end.


Lemma maps_holds r l : count (maps r) l <= count (holds_ref r) l.
Proof.
  induction l as [|t l IH]; simpl; [done|].
  pose proof (b2z_range (holds_ref r t)). destruct t; simpl in *; lia.
Qed.

Lemma revoked_known r l : count (revoked r) l <= count (holds_ref r) l + count (destroys r) l.
Proof.
  induction l as [|t l IH]; simpl; [done|].
  pose proof (b2z_range (holds_ref r t)). pose proof (b2z_range (destroys r t)). destruct t; simpl in *; lia.
Qed.

Definition is_unmap (r : nat) (c : ioctl) : bool := match c with PMEM_UNMAP r' _ _ => bool_decide (r = r') | _ => false end.
Definition unmaps (s : pstate) (r : nat) : Z := count (is_unmap r) (ioctls s).

(** ** Reachable states *)

Definition start (h : heap) (n : nat) : pstate := PState h ∅ [] (replicate n Idle) [].

(** [one]: [revoke] is called by one thread at a time. *)
Inductive reach (one : bool) : pstate -> Prop :=
| reach_start h n : reach one (start h n)
| reach_perform s i a s' :
    reach one s -> (one = true -> a = Revoke -> count in_revoke (threads s) = 0) -> perform i a s = Some s' -> reach one s'.

(** ** The invariant *)

(** A region is referenced, in its destructor, or freed; it is on its way into
    [mAllocations], in it, or freed. *)
Record region_ok (s : pstate) (r : nat) (m : SubRegionMemory) : Prop := RegionOk {
  g_held : 0 <= held m;
  g_life : Z.b2z (0 <? strong s r) + count (destroys r) (threads s) + Z.b2z (freed m) = 1;
  g_list : count (maps r) (threads s) + Z.b2z (bool_decide (r ∈ mAllocations s)) + Z.b2z (freed m) = 1;
  g_size : 0 <= mSize m /\ 0 <= size0 m;
  g_revoked : 0 < count (revoked r) (threads s) \/ freed m = true -> mSize m = 0
}.

(** Nothing refers to a region that was never created. *)
Record region_absent (s : pstate) (r : nat) : Prop := RegionAbsent {
  a_held : count (holds_ref r) (threads s) = 0;
  a_destroys : count (destroys r) (threads s) = 0;
  a_list : r ∉ mAllocations s;
  a_unmaps : unmaps s r = 0
}.

Definition regions_ok (s : pstate) : Prop := forall r,
  match regions s !! r with Some m => region_ok s r m | None => region_absent s r end.




Lemma elem_insert_sorted r l x : x ∈ insert_sorted r l <-> x = r \/ x ∈ l.
Proof.
  induction l as [|y l IH]; simpl; [set_solver|]. destruct (Nat.ltb_spec r y); [set_solver|].
  destruct (Nat.eqb_spec r y); set_solver.
Qed.

Lemma elem_remove_item r l x : x ∈ remove_item r l <-> x <> r /\ x ∈ l.
Proof. unfold remove_item. rewrite list_elem_of_filter. done. Qed.

(** ** Steps keep the invariant *)

Lemma strong_thread s i t t' r :
  threads s !! i = Some t -> strong (with_thread i t' s) r = strong s r - Z.b2z (holds_ref r t) + Z.b2z (holds_ref r t').
Proof. intros Hi. unfold strong. simpl. rewrite (count_insert _ _ _ _ _ Hi). lia. Qed.

Lemma strong_nonneg s r : regions_ok s -> 0 <= strong s r.
Proof.
  intros Hok. specialize (Hok r). unfold strong. pose proof (count_nonneg (holds_ref r) (threads s)).
  destruct (regions s !! r); [pose proof (g_held _ _ _ Hok)|]; lia.
Qed.

(** Only a thread moves, and what it owns and does with every region stays; a
    region that it has revoked is empty. *)
Lemma thread_moves s i t t' :
  regions_ok s -> threads s !! i = Some t ->
  (forall b, holds_ref b t' = holds_ref b t /\ destroys b t' = destroys b t /\ maps b t' = maps b t /\
     (revoked b t' = true -> revoked b t = true \/ forall m, regions s !! b = Some m -> mSize m = 0)) ->
  regions_ok (with_thread i t' s).
Proof.
  intros Hok Hi Ht b. specialize (Hok b). destruct (Ht b) as (E1 & E2 & E3 & E4). simpl. destruct (regions s !! b) as [m|] eqn:Eb.
  - destruct Hok as [G1 G2 G3 G4 G5].
    split; simpl; rewrite ?(count_insert _ _ _ _ _ Hi), ?(strong_thread _ _ _ _ _ Hi), ?E1, ?E2, ?E3; try done.
    + rewrite !Z.sub_add. done.
    + lia.
    + intros [Hr|Hf]; [|by apply G5; right].
      destruct (revoked b t') eqn:E; simpl in Hr.
      * destruct (E4 eq_refl) as [Ex|Hm]; [|by apply Hm]. apply G5. left. by apply (count_lookup _ _ _ _ Hi).
      * apply G5. left. pose proof (b2z_range (revoked b t)). lia.
  - destruct Hok as [A1 A2 A3 A4]. split; simpl; rewrite ?(count_insert _ _ _ _ _ Hi), ?E1, ?E2; try done; lia.
Qed.

Lemma known_region s i t r :
  regions_ok s -> threads s !! i = Some t -> holds_ref r t = true \/ destroys r t = true -> exists m, regions s !! r = Some m.
Proof.
  intros Hok Hi Ht. specialize (Hok r). destruct (regions s !! r) as [m|]; [by exists m|]. destruct Hok as [A1 A2 _ _].
  destruct Ht as [Ht|Ht]; pose proof (count_lookup _ _ _ _ Hi Ht); lia.
Qed.

(** A region changes, but not who refers to it. *)
Lemma region_changes s r m m' :
  regions_ok s -> regions s !! r = Some m -> held m' = held m -> freed m' = freed m -> 0 <= mSize m' -> size0 m' = size0 m ->
  (mSize m = 0 -> mSize m' = 0) -> regions_ok (with_regions (<[r := m']> (regions s)) s).
Proof.
  intros Hok Hr Eh Ef Hs Es Hz b. specialize (Hok b). simpl. destruct (decide (b = r)) as [->|Hne].
  - rewrite lookup_insert_eq. rewrite Hr in Hok. destruct Hok as [G1 G2 G3 G4 G5].
    assert (E : strong (with_regions (<[r := m']> (regions s)) s) r = strong s r) by (unfold strong; simpl; rewrite lookup_insert_eq, Hr; lia).
    split; simpl; rewrite ?E, ?Ef, ?Eh, ?Es; try done; [lia|]. intros H. apply Hz, G5, H.
  - rewrite lookup_insert_ne by done. destruct (regions s !! b) as [mb|] eqn:Eb.
    + assert (E : strong (with_regions (<[r := m']> (regions s)) s) b = strong s b) by (unfold strong; simpl; by rewrite lookup_insert_ne).
      destruct Hok as [G1 G2 G3 G4 G5]. split; simpl; rewrite ?E; try done.
    + destruct Hok as [A1 A2 A3 A4]. by split.
Qed.

(** The clients' references to a region change. *)
Lemma held_changes s r m x :
  regions_ok s -> regions s !! r = Some m -> 0 <= x -> (0 < strong s r -> 0 < strong s r - held m + x) ->
  (strong s r = 0 -> x = held m) -> regions_ok (with_regions (<[r := set_held x m]> (regions s)) s).
Proof.
  intros Hok Hr Hx Hs Hz b. specialize (Hok b) as Hb. simpl. destruct (decide (b = r)) as [->|Hne].
  - rewrite lookup_insert_eq. rewrite Hr in Hb. destruct Hb as [G1 G2 G3 G4 G5]. pose proof (strong_nonneg s r Hok).
    assert (E : strong (with_regions (<[r := set_held x m]> (regions s)) s) r = strong s r - held m + x) by (unfold strong; simpl; rewrite lookup_insert_eq, Hr; simpl; lia).
    split; simpl; rewrite ?E; try done. destruct (Z.ltb_spec 0 (strong s r)).
    + rewrite (proj2 (Z.ltb_lt 0 _)) by auto. done.
    + rewrite (proj2 (Z.ltb_ge 0 _)); [done|]. rewrite Hz by lia. lia.
  - rewrite lookup_insert_ne by done. destruct (regions s !! b) as [mb|] eqn:Eb.
    + assert (E : strong (with_regions (<[r := set_held x m]> (regions s)) s) b = strong s b) by (unfold strong; simpl; by rewrite lookup_insert_ne).
      destruct Hb as [G1 G2 G3 G4 G5]. split; simpl; rewrite ?E; try done.
    + destruct Hb as [A1 A2 A3 A4]. by split.
Qed.

(** A thread drops one strong reference, its own or a client's. *)
Lemma drop_ok s i t r m x k :
  regions_ok s -> threads s !! i = Some t -> regions s !! r = Some m -> 0 <= x -> held m - x + Z.b2z (holds_ref r t) = 1 ->
  (forall b, b <> r -> holds_ref b t = false) -> (forall b, destroys b t = false /\ maps b t = false) ->
  regions_ok (after_drop i r k (with_regions (<[r := set_held x m]> (regions s)) s)).
Proof.
  intros Hok Hi Hr Hx Hone Hh Hdm. unfold after_drop. set (s1 := with_regions _ s).
  set (back := match k with None => Idle | Some k => Revoking k end).
  assert (Hback : forall b, holds_ref b back = false /\ destroys b back = false /\ maps b back = false /\ revoked b back = false) by (by destruct k).
  assert (Hi1 : threads s1 !! i = Some t) by done.
  assert (Es : strong (with_thread i back s1) r = strong s r - 1).
  { rewrite (strong_thread s1 _ _ _ _ Hi1). unfold strong. simpl. rewrite lookup_insert_eq, Hr. simpl.
    destruct (Hback r) as (-> & _). simpl. lia. }
  set (t' := if strong (with_thread i back s1) r =? 0 then SubRevoke TestSize r (FromDestructor k) else back).
  assert (Ef : (if strong (with_thread i back s1) r =? 0 then with_thread i (SubRevoke TestSize r (FromDestructor k)) (with_thread i back s1) else with_thread i back s1)
    = with_thread i t' s1).
  { unfold t'. destruct (_ =? 0); [|done]. unfold with_thread. simpl. by rewrite list_insert_insert_eq. }
  rewrite Ef.
  assert (Ht' : forall b, holds_ref b t' = false /\ maps b t' = false /\ revoked b t' = false /\ destroys b t' = (strong s r - 1 =? 0) && bool_decide (b = r)).
  { intros b. unfold t'. rewrite Es. destruct (Hback b) as (? & ? & ? & ?).
    destruct (strong s r - 1 =? 0); split_and!; simpl; done. }
  intros b. specialize (Hok b) as Hb. destruct (Ht' b) as (E1 & E2 & E3 & E4). destruct (Hdm b) as [E5 E6]. simpl.
  assert (Est : strong (with_thread i t' s1) b = strong s b - (if decide (b = r) then 1 else 0)).
  { rewrite (strong_thread s1 _ _ _ _ Hi1), E1. unfold strong. simpl. destruct (decide (b = r)) as [->|Hne].
    - rewrite lookup_insert_eq, Hr. simpl. lia.
    - rewrite lookup_insert_ne, (Hh b Hne) by done. simpl. lia. }
  assert (Hrev : 0 < count (revoked b) (threads s) - Z.b2z (revoked b t) + 0 -> 0 < count (revoked b) (threads s)) by (pose proof (b2z_range (revoked b t)); lia).
  destruct (decide (b = r)) as [->|Hne].
  - rewrite lookup_insert_eq. rewrite Hr in Hb. destruct Hb as [G1 G2 G3 G4 G5]. pose proof (strong_nonneg s r Hok).
    split; simpl; rewrite ?Est, ?(count_insert _ _ _ _ _ Hi), ?E2, ?E3, ?E4, ?E5, ?E6; simpl; try done; try lia.
    + rewrite bool_decide_true, andb_true_r by done.
      destruct (Z.ltb_spec 0 (strong s r)), (Z.ltb_spec 0 (strong s r - 1)), (Z.eqb_spec (strong s r - 1) 0); simpl in *; try lia.
      all: unfold strong in *; rewrite Hr in *; pose proof (count_nonneg (holds_ref r) (threads s)); destruct (holds_ref r t) eqn:Eh; simpl in *;
        [pose proof (count_lookup _ _ _ _ Hi Eh)|]; lia.
    + intros [H'|H']; apply G5; [left; auto|by right].
  - rewrite lookup_insert_ne by done. rewrite bool_decide_false, andb_false_r in E4 by done.
    destruct (regions s !! b) as [mb|] eqn:Eb.
    + destruct Hb as [G1 G2 G3 G4 G5].
      split; simpl; rewrite ?Est, ?(count_insert _ _ _ _ _ Hi), ?E2, ?E3, ?E4, ?E5, ?E6; simpl; rewrite ?Z.sub_0_r, ?Z.add_0_r; try done.
      intros [H'|H']; apply G5; [left; apply Hrev; lia|by right].
    + destruct Hb as [A1 A2 A3 A4].
      split; simpl; rewrite ?(count_insert _ _ _ _ _ Hi), ?E1, ?E4, ?(Hh b Hne), ?E5; simpl; try done; lia.
Qed.

(** An [ioctl] for a region that exists. *)
Lemma ioctl_ok s c r :
  regions_ok s -> is_Some (regions s !! r) -> (forall b, is_unmap b c = true -> b = r) -> regions_ok (with_ioctl c s).
Proof.
  intros Hok Hr Hc b. specialize (Hok b). simpl. destruct (regions s !! b) as [m|] eqn:Eb; [by destruct Hok|].
  destruct Hok as [A1 A2 A3 A4]. split; try done. unfold unmaps in *. simpl. rewrite count_app. simpl.
  destruct (is_unmap b c) eqn:E; [|simpl; lia]. apply Hc in E as ->. rewrite Eb in Hr. by destruct Hr.
Qed.

(** A weak pointer is promoted. *)
Lemma promote_ok s i k r :
  regions_ok s -> threads s !! i = Some (Revoking k) -> 0 < strong s r -> regions_ok (with_thread i (SubRevoke TestSize r (FromLoop k)) s).
Proof.
  intros Hok Hi Hs b. specialize (Hok b) as Hb. simpl.
  pose proof (strong_thread s i _ (SubRevoke TestSize r (FromLoop k)) b Hi) as E. simpl in E.
  destruct (regions s !! b) as [m|] eqn:Eb.
  - destruct Hb as [G1 G2 G3 G4 G5].
    split; simpl; rewrite ?E, ?(count_insert _ _ _ _ _ Hi); simpl; rewrite ?Z.sub_0_r, ?Z.add_0_r; try done.
    case_bool_decide as Hbr; simpl; [|by rewrite Z.add_0_r]. subst b. rewrite (proj2 (Z.ltb_lt 0 (strong s r))) in G2 by done.
    rewrite (proj2 (Z.ltb_lt _ _)) by lia. done.
  - destruct Hb as [A1 A2 A3 A4]. split; simpl; rewrite ?(count_insert _ _ _ _ _ Hi); simpl; try done; [|lia].
    rewrite bool_decide_false; [simpl; lia|]. intros ->. unfold strong in Hs. rewrite Eb in Hs. lia.
Qed.

(** A new region and its thread. *)
Lemma create_ok s i r offset size :
  regions_ok s -> threads s !! i = Some Idle -> regions s !! r = None -> 0 <= size ->
  regions_ok (with_thread i (Mapping r) (with_regions (<[r := SubRegion size offset size 0 false]> (regions s)) s)).
Proof.
  intros Hok Hi Hr Hz b. specialize (Hok b) as Hb. simpl. set (s1 := with_regions _ s).
  assert (Hi1 : threads s1 !! i = Some Idle) by done.
  pose proof (strong_thread s1 i _ (Mapping r) b Hi1) as E. simpl in E. unfold strong at 2 in E. simpl in E.
  destruct (decide (b = r)) as [->|Hne].
  - rewrite lookup_insert_eq in *. rewrite Hr in Hb. destruct Hb as [A1 A2 A3 A4]. rewrite bool_decide_true in E by done.
    simpl in E.
    pose proof (maps_holds r (threads s)). pose proof (revoked_known r (threads s)).
    pose proof (count_nonneg (maps r) (threads s)). pose proof (count_nonneg (revoked r) (threads s)).
    assert (Hm : count (maps r) (threads s) = 0) by lia. assert (Hrv : count (revoked r) (threads s) = 0) by lia.
    split; simpl; rewrite ?E, ?A1, ?(count_insert _ _ _ _ _ Hi), ?A2, ?Hm, ?Hrv; simpl; try done; try lia.
    + rewrite bool_decide_true, bool_decide_false by done. done.
  - rewrite lookup_insert_ne in * by done. rewrite bool_decide_false in E by done. simpl in E.
    destruct (regions s !! b) as [m|] eqn:Eb.
    + assert (E' : strong (with_thread i (Mapping r) s1) b = strong s b) by (rewrite E; unfold strong; rewrite Eb; lia).
      destruct Hb as [G1 G2 G3 G4 G5].
      split; simpl; rewrite ?E', ?(count_insert _ _ _ _ _ Hi); simpl; rewrite ?(bool_decide_false (b = r)), ?Z.sub_0_r, ?Z.add_0_r by done; done.
    + destruct Hb as [A1 A2 A3 A4].
      split; simpl; rewrite ?(count_insert _ _ _ _ _ Hi); simpl; rewrite ?(bool_decide_false (b = r)) by done; simpl; try done; lia.
Qed.

(** The new region goes into [mAllocations] and its reference to the client. *)
Lemma add_ok s i r m :
  regions_ok s -> threads s !! i = Some (Mapping r) -> regions s !! r = Some m -> regions_ok (with_thread i Idle (mapMemory_add r m s)).
Proof.
  intros Hok Hi Hr b. specialize (Hok b) as Hb. simpl. set (s1 := mapMemory_add r m s).
  assert (Hi1 : threads s1 !! i = Some (Mapping r)) by done.
  pose proof (strong_thread s1 i _ Idle b Hi1) as E. simpl in E. unfold strong at 2 in E. simpl in E.
  destruct (decide (b = r)) as [->|Hne].
  - rewrite lookup_insert_eq in *. rewrite Hr in Hb. destruct Hb as [G1 G2 G3 G4 G5]. rewrite bool_decide_true in E by done.
    simpl in E.
    assert (E' : strong (with_thread i Idle s1) r = strong s r) by (rewrite E; unfold strong; rewrite Hr; lia).
    assert (Hm : 0 < count (maps r) (threads s)) by (apply (count_lookup _ _ _ _ Hi); simpl; by rewrite bool_decide_true).
    split; simpl; rewrite ?E', ?(count_insert _ _ _ _ _ Hi); simpl; rewrite ?Z.sub_0_r, ?Z.add_0_r; try done; try lia.
    rewrite !bool_decide_true by (done || (apply elem_insert_sorted; by left)). simpl.
    pose proof (b2z_range (bool_decide (r ∈ mAllocations s))). pose proof (b2z_range (freed m)). simpl in *. lia.
  - rewrite lookup_insert_ne in * by done. rewrite bool_decide_false in E by done. simpl in E.
    assert (Hl : bool_decide (b ∈ insert_sorted r (mAllocations s)) = bool_decide (b ∈ mAllocations s)) by (apply bool_decide_ext; rewrite elem_insert_sorted; naive_solver).
    destruct (regions s !! b) as [mb|] eqn:Eb.
    + assert (E' : strong (with_thread i Idle s1) b = strong s b) by (rewrite E; unfold strong; rewrite Eb; lia).
      destruct Hb as [G1 G2 G3 G4 G5].
      split; simpl; rewrite ?E', ?(count_insert _ _ _ _ _ Hi), ?Hl; simpl; rewrite ?(bool_decide_false (b = r)), ?Z.sub_0_r, ?Z.add_0_r by done; done.
    + destruct Hb as [A1 A2 A3 A4].
      split; simpl; rewrite ?(count_insert _ _ _ _ _ Hi); simpl; rewrite ?(bool_decide_false (b = r)) by done; simpl; try done; try lia.
      rewrite elem_insert_sorted. naive_solver.
Qed.

(** The end of a destructor. *)
Lemma remove_ok s i r k m t' :
  regions_ok s -> threads s !! i = Some (Removing r k) -> regions s !! r = Some m -> (t' = Idle \/ exists k', t' = Revoking k') ->
  regions_ok (with_thread i t' (with_regions (<[r := set_freed m]> (regions s)) (MemoryHeapPmem.remove r s))).
Proof.
  intros Hok Hi Hr Ht' b. specialize (Hok b) as Hb. simpl. set (s1 := with_regions _ _).
  assert (Hi1 : threads s1 !! i = Some (Removing r k)) by done.
  assert (Hb' : holds_ref b t' = false /\ destroys b t' = false /\ maps b t' = false /\ revoked b t' = false) by (by destruct Ht' as [->|[k' ->]]).
  destruct Hb' as (E1 & E2 & E3 & E4).
  pose proof (strong_thread s1 i _ t' b Hi1) as E. rewrite E1 in E. simpl in E. unfold strong at 2 in E. simpl in E.
  destruct (decide (b = r)) as [->|Hne].
  - rewrite lookup_insert_eq in *. rewrite Hr in Hb. destruct Hb as [G1 G2 G3 G4 G5]. simpl in E.
    assert (E' : strong (with_thread i t' s1) r = strong s r) by (rewrite E; unfold strong; rewrite Hr; lia).
    assert (Hd : 0 < count (destroys r) (threads s)) by (apply (count_lookup _ _ _ _ Hi); simpl; by rewrite bool_decide_true).
    assert (Hrv : 0 < count (revoked r) (threads s)) by (apply (count_lookup _ _ _ _ Hi); simpl; by rewrite bool_decide_true).
    pose proof (b2z_range (0 <? strong s r)). pose proof (b2z_range (freed m)). pose proof (strong_nonneg s r Hok).
    assert (Hs : strong s r = 0) by (destruct (Z.ltb_spec 0 (strong s r)); simpl in *; lia).
    assert (Hm : count (maps r) (threads s) = 0).
    { pose proof (maps_holds r (threads s)). pose proof (count_nonneg (maps r) (threads s)). unfold strong in Hs.
      rewrite Hr in Hs. lia. }
    split; simpl; rewrite ?E', ?(count_insert _ _ _ _ _ Hi), ?E2, ?E3, ?E4; simpl; rewrite ?(bool_decide_true (r = r)) by done; simpl; try done; try lia.
    rewrite bool_decide_false by (rewrite elem_remove_item; naive_solver). simpl. lia.
  - rewrite lookup_insert_ne in * by done.
    assert (Hl : bool_decide (b ∈ remove_item r (mAllocations s)) = bool_decide (b ∈ mAllocations s)) by (apply bool_decide_ext; rewrite elem_remove_item; naive_solver).
    destruct (regions s !! b) as [mb|] eqn:Eb.
    + assert (E' : strong (with_thread i t' s1) b = strong s b) by (rewrite E; unfold strong; rewrite Eb; lia).
      destruct Hb as [G1 G2 G3 G4 G5].
      split; simpl; rewrite ?E', ?(count_insert _ _ _ _ _ Hi), ?Hl, ?E2, ?E3, ?E4; simpl; rewrite ?(bool_decide_false (b = r)) by done; simpl; rewrite ?Z.sub_0_r, ?Z.add_0_r; done.
    + destruct Hb as [A1 A2 A3 A4].
      split; simpl; rewrite ?(count_insert _ _ _ _ _ Hi), ?E1, ?E2; simpl; rewrite ?(bool_decide_false (b = r)) by done; simpl; try done; try lia.
      rewrite elem_remove_item. naive_solver.
Qed.

Lemma revoke_returns_same c r b :
  holds_ref b (revoke_returns r c) = holds_ref b (SubRevoke ClearSize r c) /\ destroys b (revoke_returns r c) = destroys b (SubRevoke ClearSize r c) /\
  maps b (revoke_returns r c) = false /\ revoked b (revoke_returns r c) = bool_decide (b = r).
Proof. by destruct c. Qed.

Lemma go_ok s i t s' : regions_ok s -> threads s !! i = Some t -> thread_goes i t s = Some s' -> regions_ok s'.
Proof.
  intros Hok Hi. destruct t as [|r| |k|ph r c|r k|r k]; simpl; [done|..].
  - destruct (known_region s i _ r Hok Hi) as [m Em]; [left; simpl; by rewrite bool_decide_true|]. rewrite Em. simpl.
    intros [= <-]. by apply add_ok.
  - intros [= <-]. by apply (thread_moves s i StartRevoke).
  - destruct (allocations k !! index k) as [r|]; [|intros [= <-]; by apply (thread_moves s i (Revoking k))].
    intros [= <-]. destruct (Z.ltb_spec 0 (strong s r)); [by apply promote_ok|by apply (thread_moves s i (Revoking k))].
  - destruct (known_region s i _ r Hok Hi) as [m Em].
    { destruct c; [left|right]; simpl; by rewrite bool_decide_true. }
    destruct ph; cbn [SubRegionMemory_revoke]; rewrite Em; simpl; intros [= <-].
    + apply (thread_moves s i (SubRevoke TestSize r c)); [done|done|]. intros b.
      destruct (revoke_returns_same c r b) as (E1 & E2 & E3 & E4).
      destruct (Z.eqb_spec (mSize m) 0) as [Hz|Hz]; [|done]. rewrite E1, E2, E3, E4. split_and!; try done.
      intros ->%bool_decide_eq_true. right. intros m'. rewrite Em. by intros [= <-].
    + apply (thread_moves (with_ioctl _ s) i (SubRevoke Unmap r c)); [|done|done]. apply (ioctl_ok s _ r); [done|by rewrite Em|].
      intros b. simpl. by intros ->%bool_decide_eq_true.
    + apply (thread_moves (with_regions _ s) i (SubRevoke ClearSize r c)); [|done|].
      * apply (region_changes s r m); try done.
      * intros b. destruct (revoke_returns_same c r b) as (E1 & E2 & E3 & E4). rewrite E1, E2, E3, E4. split_and!; try done.
        intros ->%bool_decide_eq_true. right. intros m'. simpl. rewrite lookup_insert_eq. by intros [= <-].
  - destruct (known_region s i _ r Hok Hi) as [m Em]; [left; simpl; by rewrite bool_decide_true|]. intros [= <-].
    assert (E : s = with_regions (<[r := set_held (held m) m]> (regions s)) s).
    { destruct s. unfold with_regions. simpl in *. f_equal. rewrite insert_id; [done|]. rewrite Em. by destruct m. }
    rewrite E. apply (drop_ok s i (DropMemory r k)); try done.
    + pose proof (Hok r) as Hr. rewrite Em in Hr. apply Hr.
    + simpl. rewrite bool_decide_true by done. simpl. lia.
    + intros b Hne. simpl. by rewrite bool_decide_false.
  - destruct (known_region s i _ r Hok Hi) as [m Em]; [right; simpl; by rewrite bool_decide_true|]. rewrite Em. simpl.
    intros [= <-].
    apply (remove_ok s i r k m); try done. destruct k; [right; by eexists|by left].
Qed.

Lemma perform_ok s i a s' : regions_ok s -> perform i a s = Some s' -> regions_ok s'.
Proof.
  intros Hok. unfold perform. destruct (threads s !! i) as [t|] eqn:Hi; [|done]. simpl.
  assert (Hgo : thread_goes i t s = Some s' -> regions_ok s') by (by apply go_ok).
  destruct t as [|r0| |k0|ph0 r0 c0|r0 k0|r0 k0]; destruct a as [ndebug r offset size|r|r| |]; try done.
  - destruct (bool_decide _) eqn:Er; [|done]. apply bool_decide_eq_true in Er. destruct (Z.leb_spec 0 size); [|done].
    destruct (size <? 2 ^ 32); [|done]. simpl.
    unfold createMemory, new_SubRegionMemory. destruct (0 <? heapID _); [|by intros [= <-]]. destruct (_ || _); [|done].
    pose proof (create_ok s i r offset size Hok Hi Er ltac:(done)) as Hc. destruct (0 <? size); intros [= <-]; [|done].
    by apply (ioctl_ok _ (PMEM_MAP r offset (round_up size)) r) in Hc; [|simpl; by rewrite lookup_insert_eq|].
  - destruct (regions s !! r) as [m|] eqn:Er; [|done]. simpl. destruct (Z.ltb_spec 0 (held m)); [|done]. intros [= <-].
    pose proof (Hok r) as Hr. rewrite Er in Hr. apply held_changes; try done; try lia. unfold strong. rewrite Er.
    pose proof (count_nonneg (holds_ref r) (threads s)). lia.
  - destruct (regions s !! r) as [m|] eqn:Er; [|done]. simpl. destruct (Z.ltb_spec 0 (held m)); [|done]. intros [= <-].
    apply (drop_ok s i Idle); try done; try lia. simpl. lia.
  - intros [= <-]. by apply (thread_moves s i Idle).
Qed.

Lemma start_ok h n : regions_ok (start h n).
Proof. intros r. simpl. rewrite lookup_empty. split; simpl; try (by apply count_replicate); [set_solver|done]. Qed.

Lemma reached_ok one s : reach one s -> regions_ok s.
Proof. induction 1 as [h n|s i a s' _ IH _ E]; [apply start_ok|by eapply perform_ok]. Qed.

(** ** What stays *)
















(** ** One revocation at a time *)













(** ** The calls of ioctl *)

















(** ** Theorems *)

(** The region that a thread works on. *)
Definition region_of (t : thread) : option nat :=
  match t with Mapping r | SubRevoke _ r _ | DropMemory r _ | Removing r _ => Some r | _ => None end.

Lemma region_of_known r t : region_of t = Some r -> holds_ref r t = true \/ destroys r t = true.
Proof. destruct t as [|r'| |k|ph r' [k|k]|r' k|r' k]; simpl; try done; intros [= ->]; rewrite bool_decide_true by done; auto. Qed.

Lemma allocations_exact s b : match regions s !! b with Some m => region_ok s b m | None => region_absent s b end ->
  b ∈ mAllocations s <-> exists m, regions s !! b = Some m /\ freed m = false /\ forall j, threads s !! j <> Some (Mapping b).
Proof.
  destruct (regions s !! b) as [m|]; intros H.
  - pose proof (g_list _ _ _ H) as Hl. pose proof (count_nonneg (maps b) (threads s)). split.
    + intros Hin. rewrite bool_decide_true in Hl by done. exists m. split; [done|]. split; [destruct (freed m); [simpl in Hl; lia|done]|].
      intros j Hj. assert (maps b (Mapping b) = true) as Hm by (simpl; by apply bool_decide_true).
      pose proof (count_lookup _ _ _ _ Hj Hm). pose proof (b2z_range (freed m)). simpl in Hl. lia.
    + intros (m' & [= <-] & Hf & Hj). rewrite Hf in Hl. destruct (bool_decide_reflect (b ∈ mAllocations s)); [done|]. exfalso.
      simpl in Hl. assert (Hc : 0 < count (maps b) (threads s)) by lia. clear -Hj Hc.
      induction (threads s) as [|t l IH]; [done|]. simpl in Hc. destruct (maps b t) eqn:Et.
      * destruct t; try done. simpl in Et. apply bool_decide_eq_true in Et as <-. by destruct (Hj 0%nat).
      * apply IH; [intros j; apply (Hj (S j))|done].
  - split; [intros Hin; by destruct (a_list _ _ H)|by intros (m & ? & _)].
Qed.

(** C31: whatever threads do with the regions of a heap, and however they
    interleave with any number of revocations: a thread inside a function can
    always go on; the region that it works on exists and its destructor has not
    finished; a region in its destructor is destroyed by one thread, has no
    references, and is revoked by no other thread; and [mAllocations] has exactly
    the regions whose destructor has not finished, but for one that a thread
    has created and not yet added.  (Clients map inside the heap, or the build
    has [NDEBUG]: [map_outside_heap].) *)
Theorem pmem_regions_safe one s i t r :
  reach one s -> threads s !! i = Some t -> region_of t = Some r ->
  is_Some (thread_goes i t s) /\
  (exists m, regions s !! r = Some m /\ freed m = false) /\
  (destroys r t = true -> strong s r = 0 /\ forall j t', threads s !! j = Some t' -> j <> i -> region_of t' <> Some r) /\
  (forall b, b ∈ mAllocations s <->
     exists m, regions s !! b = Some m /\ freed m = false /\ forall j, threads s !! j <> Some (Mapping b)).
Proof.
  intros Hr%reached_ok Hi Et. pose proof (region_of_known r t Et) as Hk. destruct (known_region s i t r Hr Hi Hk) as [m Em].
  pose proof (Hr r) as Hm. rewrite Em in Hm. pose proof (strong_nonneg s r Hr) as Hnn.
  pose proof (b2z_range (freed m)). pose proof (b2z_range (0 <? strong s r)). pose proof (count_nonneg (destroys r) (threads s)).
  assert (Hh : holds_ref r t = true -> 0 < strong s r).
  { intros E. pose proof (count_lookup _ _ _ _ Hi E). pose proof (g_held _ _ _ Hm). unfold strong. rewrite Em. lia. }
  split_and!.
  - destruct t as [|r'| |k|[] r' c|r' k|r' k]; simpl in *; try done; injection Et as ->; rewrite ?Em; done.
  - exists m. split; [done|]. pose proof (g_life _ _ _ Hm) as G. destruct (freed m); [|done]. exfalso. simpl in G.
    destruct Hk as [E|E].
    + rewrite (proj2 (Z.ltb_lt _ _)) in G by auto. simpl in G. lia.
    + pose proof (count_lookup _ _ _ _ Hi E). lia.
  - intros E. pose proof (g_life _ _ _ Hm) as G. pose proof (count_lookup _ _ _ _ Hi E) as Hd.
    assert (Hs : strong s r = 0) by (destruct (Z.ltb_spec 0 (strong s r)); simpl in G; lia). split; [done|].
    intros j t' Hj Hne [Hh'|Hd']%region_of_known.
    + pose proof (count_lookup _ _ _ _ Hj Hh'). pose proof (g_held _ _ _ Hm). unfold strong in Hs. rewrite Em in Hs. lia.
    + pose proof (count_insert (destroys r) (threads s) i t Idle Hi) as Ec. rewrite E in Ec. simpl in Ec.
      pose proof (count_lookup (destroys r) (<[i := Idle]> (threads s)) j t' ltac:(by rewrite list_lookup_insert_ne) Hd'). lia.
  - intros b. pose proof (Hr b) as Hb. by apply allocations_exact.
Qed.


(** ** Runs *)

Fixpoint run (l : list (nat * action)) (s : pstate) : option pstate :=
  match l with [] => Some s | (i, a) :: l' => s' ← perform i a s; run l' s' end.


Lemma run_reach l s s' : reach false s -> run l s = Some s' -> reach false s'.
Proof.
  revert s. induction l as [|[i a] l IH]; intros s Hs; simpl; [by intros [= <-]|].
  destruct (perform i a s) as [s1|] eqn:E; [|done]. simpl.
  apply IH. by eapply reach_perform.
Qed.


Definition pmem : heap := new_heap true 9 0 65536 0 0.
Definition two_threads : pstate := start pmem 2.

(** A client maps a region; a second thread starts to revoke it while the first
    drops its reference, so that the second runs the destructor. *)
Definition revoke_and_drop : list (nat * action) :=
  [(0, Map true 3 4096 100); (0, Go); (1, Revoke); (1, Go); (1, Go); (1, Go); (0, Drop 3); (1, Go); (1, Go); (1, Go)]%nat.
Definition destroying : pstate := default two_threads (run revoke_and_drop two_threads).

Lemma destroying_reached : reach false destroying.
Proof. apply (run_reach revoke_and_drop two_threads); [constructor|vm_compute; reflexivity]. Qed.


Lemma pmem_regions_safe_witness : strong destroying 3 = 0 /\ is_Some (thread_goes 1 (SubRevoke TestSize 3 (FromDestructor (Some (RevokeLoop [3%nat] 1)))) destroying).
Proof.
  destruct (pmem_regions_safe false destroying 1 (SubRevoke TestSize 3 (FromDestructor (Some (RevokeLoop [3%nat] 1)))) 3 destroying_reached) as (H1 & _ & H2 & _);
    [vm_compute; reflexivity|reflexivity|]. split; [|exact H1]. apply H2. vm_compute. reflexivity.
Defined.



(** Two revocations at the same time unmap a region twice. *)
Definition two_revocations : list (nat * action) :=
  [(0, Map true 3 4096 100); (0, Go); (0, Revoke); (1, Revoke); (0, Go); (1, Go); (0, Go); (1, Go); (0, Go); (1, Go); (0, Go); (1, Go)]%nat.

Lemma two_revocations_unmap_twice : exists s, run two_revocations two_threads = Some s /\ unmaps s 3 = 2.
Proof. eexists. split; [vm_compute; reflexivity|]. reflexivity. Qed.

(** ** The length of a mapping *)

Lemma round_up_multiple size : 0 <= size -> size + pagesize <= 2 ^ 32 -> round_up size = (size + pagesize - 1) / pagesize * pagesize.
Proof.
  intros H1 H2. unfold round_up, pagesize in *. rewrite (u32_small (size + 4096 - 1)) by lia.
  assert (Hm : u32 (Z.lnot (4096 - 1)) = Z.shiftl (Z.ones 20) 12) by reflexivity. rewrite Hm.
  replace (size + 4096 - 1) with (size + 4095) by lia. set (x := size + 4095) in *. assert (Hx : 0 <= x < 2 ^ 32) by lia.
  clearbody x.
  apply Z.bits_inj'. intros n Hn. rewrite Z.land_spec, Z.shiftl_spec by lia. change 4096 with (2 ^ 12).
  rewrite <- Z.shiftl_mul_pow2, <- Z.shiftr_div_pow2 by lia. rewrite Z.shiftl_spec by lia.
  destruct (Z.ltb_spec n 12).
  - rewrite !(Z.testbit_neg_r _ (n - 12)) by lia. by rewrite andb_false_r.
  - rewrite Z.shiftr_spec by lia. replace (n - 12 + 12) with n by lia. destruct (Z.ltb_spec (n - 12) 20).
    + rewrite Z.ones_spec_low by lia. by rewrite andb_true_r.
    + rewrite Z.ones_spec_high, andb_false_r by lia. symmetry. rewrite Z.testbit_false by lia.
      rewrite Z.div_small; [done|]. split; [lia|]. apply Z.lt_le_trans with (2 ^ 32); [lia|]. apply Z.pow_le_mono_r; lia.
Qed.

(** A region is mapped in whole pages and unmapped with its own length. *)
Lemma unmapped_length_differs size :
  0 < size -> size + pagesize <= 2 ^ 32 -> (round_up size = size <-> size mod pagesize = 0).
Proof. intros H1 H2. rewrite round_up_multiple by lia. unfold pagesize in *. Z.to_euclidean_division_equations. lia. Qed.

(** A heap without a device, or whose device cannot be opened or connected,
    creates no memory. *)
Lemma failed_heap_maps_nothing device fd err size flags pf ndebug r offset len s :
  (device = false \/ fd < 0 \/ err < 0) -> pheap s = new_heap device fd err size flags pf ->
  createMemory ndebug r offset len s = Ret None.
Proof.
  intros H E. unfold createMemory. rewrite E. unfold new_heap. destruct device; [|done]. destruct (Z.leb_spec 0 fd); [|done].
  destruct (Z.ltb_spec err 0); [done|]. destruct H as [?|[?|?]]; [done|lia|lia].
Qed.

(** [mapMemory] does not compare its arguments with the size of the heap. *)
Lemma map_outside_heap : createMemory false 3 65536 1 two_threads = Fault /\
  exists s, createMemory true 3 65536 1 two_threads = Ret (Some s) /\ ioctls s = [PMEM_MAP 3 65536 4096].
Proof. split; [reflexivity|]. eexists. split; reflexivity. Qed.
