(* ===== verification/Gralloc.v ===== *)
(** * include/gralloc_priv.h and libshims/GraphicBufferMapper.cpp: graphic buffers

    The handle of a buffer is a [native_handle]: a header with the numbers of
    descriptors and integers, and these words.  [private_handle_t] gives the
    words names, and [validate] tells its handles from others. *)

From S2P Require Import Prelude MemoryHeapPmem MemoryHeapProps.

(** ** Constants *)

(** hardware/gralloc.h. *)
Class GrallocHeader : Type := {
  GRALLOC_USAGE_PRIVATE_0 : Z; GRALLOC_USAGE_PRIVATE_1 : Z; GRALLOC_USAGE_PRIVATE_2 : Z; GRALLOC_USAGE_PRIVATE_3 : Z
}.

Section Usage.
Context {G : GrallocHeader}.

Definition GRALLOC_USAGE_PRIVATE_MM_HEAP : Z := GRALLOC_USAGE_PRIVATE_0.
Definition GRALLOC_USAGE_PRIVATE_UI_CONTIG_HEAP : Z := GRALLOC_USAGE_PRIVATE_1.
Definition GRALLOC_USAGE_PRIVATE_SYSTEM_HEAP : Z := GRALLOC_USAGE_PRIVATE_2.
Definition GRALLOC_USAGE_PRIVATE_ADSP_HEAP : Z := GRALLOC_USAGE_PRIVATE_3.
Definition GRALLOC_USAGE_PRIVATE_IOMMU_HEAP : Z := 16777216.
Definition GRALLOC_USAGE_PRIVATE_UNCACHED : Z := 33554432.
Definition GRALLOC_USAGE_PRIVATE_INTERNAL_ONLY : Z := 67108864.
Definition GRALLOC_USAGE_PRIVATE_EXTERNAL_ONLY : Z := 134217728.
Definition GRALLOC_USAGE_PRIVATE_OPAQUE_SURFACE : Z := 1048576.
Definition GRALLOC_USAGE_PRIVATE_WFD : Z := 2097152.
Definition GRALLOC_USAGE_PRIVATE_CAMERA_HEAP : Z := 4194304.
Definition GRALLOC_USAGE_PRIVATE_SECURE_DISPLAY : Z := 8388608.
Definition GRALLOC_HEAP_MASK : Z :=
  Z.lor (Z.lor (Z.lor (Z.lor GRALLOC_USAGE_PRIVATE_UI_CONTIG_HEAP GRALLOC_USAGE_PRIVATE_SYSTEM_HEAP) GRALLOC_USAGE_PRIVATE_IOMMU_HEAP)
    GRALLOC_USAGE_PRIVATE_MM_HEAP) GRALLOC_USAGE_PRIVATE_ADSP_HEAP.

End Usage.

(** Operations of the module; the third has another name with
    [HAVE_NEW_GRALLOC]. *)
Definition GRALLOC_MODULE_PERFORM_CREATE_HANDLE_FROM_BUFFER : Z := 1.
Definition GRALLOC_MODULE_PERFORM_GET_STRIDE : Z := 2.
Definition GRALLOC_MODULE_PERFORM_GET_CUSTOM_STRIDE_FROM_HANDLE : Z := 3.
Definition GRALLOC_MODULE_PERFORM_GET_YUV_PLANE_INFO : Z := 4.

Definition INTERLACE_MASK : Z := 128.
Definition S3D_FORMAT_MASK : Z := 1044480.

(** Pixel formats. *)
Definition HAL_PIXEL_FORMAT_NV12 : Z := 21.
Definition HAL_PIXEL_FORMAT_NV12_ENCODEABLE : Z := 258.
Definition HAL_PIXEL_FORMAT_YCbCr_420_SP_VENUS : Z := 2141391876.
Definition HAL_PIXEL_FORMAT_YCbCr_420_SP_TILED : Z := 2141391875.
Definition HAL_PIXEL_FORMAT_YCbCr_420_SP : Z := 265.
Definition HAL_PIXEL_FORMAT_YCrCb_420_SP_ADRENO : Z := 2141391873.
Definition HAL_PIXEL_FORMAT_YCrCb_422_SP : Z := 267.
Definition HAL_PIXEL_FORMAT_R_8 : Z := 269.
Definition HAL_PIXEL_FORMAT_RG_88 : Z := 270.
Definition HAL_PIXEL_FORMAT_YCbCr_444_SP : Z := 271.
Definition HAL_PIXEL_FORMAT_YCrCb_444_SP : Z := 272.
Definition HAL_PIXEL_FORMAT_YCrCb_422_I : Z := 273.
Definition HAL_PIXEL_FORMAT_NV21_ZSL : Z := 274.
Definition HAL_PIXEL_FORMAT_INTERLACE : Z := 384.

(** Formats of 3D contents. *)
Definition HAL_NO_3D : Z := 0.
Definition HAL_3D_IN_SIDE_BY_SIDE_L_R : Z := 65536.
Definition HAL_3D_IN_TOP_BOTTOM : Z := 131072.
Definition HAL_3D_IN_INTERLEAVE : Z := 262144.
Definition HAL_3D_IN_SIDE_BY_SIDE_R_L : Z := 524288.
Definition HAL_3D_OUT_SIDE_BY_SIDE : Z := 4096.
Definition HAL_3D_OUT_TOP_BOTTOM : Z := 8192.
Definition HAL_3D_OUT_INTERLEAVE : Z := 16384.
Definition HAL_3D_OUT_MONOSCOPIC : Z := 32768.

Definition BUFFER_TYPE_UI : Z := 0.
Definition BUFFER_TYPE_VIDEO : Z := 1.

(** Flags of a handle. *)
Definition PRIV_FLAGS_FRAMEBUFFER : Z := 1.
Definition PRIV_FLAGS_USES_PMEM : Z := 2.
Definition PRIV_FLAGS_USES_PMEM_ADSP : Z := 4.
Definition PRIV_FLAGS_USES_ION : Z := 8.
Definition PRIV_FLAGS_USES_ASHMEM : Z := 16.
Definition PRIV_FLAGS_NEEDS_FLUSH : Z := 32.
Definition PRIV_FLAGS_DO_NOT_FLUSH : Z := 64.
Definition PRIV_FLAGS_SW_LOCK : Z := 128.
Definition PRIV_FLAGS_NONCONTIGUOUS_MEM : Z := 256.
Definition PRIV_FLAGS_HWC_LOCK : Z := 512.
Definition PRIV_FLAGS_SECURE_BUFFER : Z := 1024.
Definition PRIV_FLAGS_UNSYNCHRONIZED : Z := 2048.
Definition PRIV_FLAGS_NOT_MAPPED : Z := 4096.
Definition PRIV_FLAGS_EXTERNAL_ONLY : Z := 8192.
Definition PRIV_FLAGS_PROTECTED_BUFFER : Z := 16384.
Definition PRIV_FLAGS_OPAQUE_SURFACE : Z := 24576.
Definition PRIV_FLAGS_INTERNAL_ONLY : Z := 32768.
Definition PRIV_FLAGS_VIDEO_ENCODER : Z := 65536.
Definition PRIV_FLAGS_CAMERA_WRITE : Z := 131072.
Definition PRIV_FLAGS_CAMERA_READ : Z := 262144.
Definition PRIV_FLAGS_HW_COMPOSER : Z := 524288.
Definition PRIV_FLAGS_HW_TEXTURE : Z := 1048576.
Definition PRIV_FLAGS_ITU_R_601 : Z := 2097152.
Definition PRIV_FLAGS_ITU_R_601_FR : Z := 4194304.
Definition PRIV_FLAGS_ITU_R_709 : Z := 8388608.
Definition PRIV_FLAGS_SECURE_DISPLAY : Z := 16777216.

Definition PAGE_SIZE : Z := 4096.
Definition ROUND_UP_PAGESIZE (x : Z) : Z := Z.land (u32 (u32 x + PAGE_SIZE - 1)) (u32 (Z.lnot (PAGE_SIZE - 1))).

(** ** Handles *)

(** [words]: the descriptors and integers behind the header. *)
Record native_handle : Type := NativeHandle { version : Z; numFds : Z; numInts : Z; words : list Z }.

Record private_handle_t : Type := PrivateHandle {
  fd : Z; fd_metadata : Z; magic : Z; flags : Z; size : Z; offset : Z; bufferType : Z; base : Z; offset_metadata : Z;
  gpuaddr : Z; format : Z; width : Z; height : Z; base_metadata : Z
}.

Definition sizeof_native_handle : Z := 12.
Definition sNumInts : Z := 12.
Definition sNumFds : Z := 2.
(** The four characters 'gmsm'. *)
Definition sMagic : Z := Z.shiftl 103 24 + Z.shiftl 109 16 + Z.shiftl 115 8 + 109.

(** The memory of a handle. *)
Definition words_of (h : private_handle_t) : list Z :=
  [fd h; fd_metadata h; magic h; flags h; size h; offset h; bufferType h; base h; offset_metadata h; gpuaddr h; format h; width h; height h;
   base_metadata h].
Definition native (h : private_handle_t) : native_handle := NativeHandle sizeof_native_handle sNumFds sNumInts (words_of h).

(** [(private_handle_t* ) in]: the words with names; reading them needs all of
    them. *)
Definition cast (h : native_handle) : option private_handle_t :=
  match words h with
  | fd :: fdm :: magic :: flags :: size :: offset :: ty :: base :: offm :: gpu :: format :: width :: height :: basem :: _ =>
      Some (PrivateHandle fd fdm magic flags size offset ty base offm gpu format width height basem)
  | _ => None
  end.

(** The constructor; [eFd], [eOffset] and [eBase] are -1, 0 and 0 by default. *)
Definition new_private_handle (fd size flags bufferType format width height eFd eOffset eBase : Z) : private_handle_t :=
  PrivateHandle fd eFd sMagic flags size 0 bufferType 0 eOffset 0 format width height eBase.

(** The memory after the destructor. *)
Definition destroy (h : private_handle_t) : private_handle_t :=
  PrivateHandle (fd h) (fd_metadata h) 0 (flags h) (size h) (offset h) (bufferType h) (base h) (offset_metadata h) (gpuaddr h)
    (format h) (width h) (height h) (base_metadata h).

Definition usesPhysicallyContiguousMemory (h : private_handle_t) : bool := negb (Z.land (flags h) PRIV_FLAGS_USES_PMEM =? 0).

Definition EINVAL : Z := 22.

(** A character of the magic number in the message about a bad handle. *)
Definition magic_char (magic shift : Z) : Z :=
  let c := Z.land (Z.shiftr magic shift) 255 in if c =? 0 then 45 else c.
Definition magic_chars (magic : Z) : list Z := [magic_char magic 24; magic_char magic 16; magic_char magic 8; magic_char magic 0].

(** [validate]: the result and the characters in the message, if there is one.
    The message has the magic number of every handle that is not null; it is
    the third word. *)
Definition validate (h : option native_handle) : outcome (Z * option (list Z)) :=
  match h with
  | None => Ret (- EINVAL, Some [63; 63; 63; 63])
  | Some h =>
      let header_ok := (version h =? sizeof_native_handle) && (numInts h =? sNumInts) && (numFds h =? sNumFds) in
      match words h !! 2%nat with
      | None => Fault
      | Some magic => if header_ok && (magic =? sMagic) then Ret (0, None) else Ret (- EINVAL, Some (magic_chars magic))
      end
  end.

Definition dynamicCast (h : option native_handle) : outcome (option native_handle) :=
  match validate h with
  | Ret (r, _) => Ret (if r =? 0 then h else None)
  | Abort => Abort
  | Fault => Fault
  end.

(** ** GraphicBufferMapper *)

(** [lock] with the usage as an [int] calls that of the library, which has it
    unsigned. *)
Definition lock {H R A B} (lock_unsigned : H -> Z -> R -> A -> B) (handle : H) (usage : Z) (bounds : R) (vaddr : A) : B :=
  lock_unsigned handle (u32 usage) bounds vaddr.

(** ** Properties *)

(** The next multiple of the page size, when there is one. *)
Lemma ROUND_UP_PAGESIZE_multiple x : 0 <= x -> x + PAGE_SIZE <= 2 ^ 32 ->
  ROUND_UP_PAGESIZE x = (x + PAGE_SIZE - 1) / PAGE_SIZE * PAGE_SIZE.
Proof.
  intros H1 H2. unfold PAGE_SIZE in *. pose proof (round_up_multiple x) as E. unfold pagesize in E. rewrite <- E by lia.
  unfold ROUND_UP_PAGESIZE, round_up, PAGE_SIZE, pagesize. by rewrite (u32_small x) by lia.
Qed.

(** A handle is complete when its words are as many as its header says. *)
Definition complete (h : native_handle) : Prop := Z.of_nat (length (words h)) = numFds h + numInts h.

(** [dynamicCast] accepts exactly the complete handles with the right header
    and magic number, and all the fields of those can be read. *)
Lemma dynamicCast_sound h r : complete h -> dynamicCast (Some h) = Ret (Some r) ->
  r = h /\ exists p, cast h = Some p /\ native p = h /\ magic p = sMagic.
Proof.
  destruct h as [v nf ni ws]. unfold complete, dynamicCast, validate. cbn [words numFds numInts version]. intros Hc.
  destruct (ws !! 2%nat) as [mg|] eqn:Em; [|done].
  destruct ((v =? sizeof_native_handle) && (ni =? sNumInts) && (nf =? sNumFds)) eqn:Eh; cbn [andb]; [|done].
  apply andb_true_iff in Eh as [[->%Z.eqb_eq ->%Z.eqb_eq]%andb_true_iff ->%Z.eqb_eq].
  destruct (Z.eqb_spec mg sMagic) as [->|]; [|done]. intros [= <-]. split; [done|].
  unfold sNumFds, sNumInts in Hc. do 14 (destruct ws as [|? ws]; [simpl in Hc; lia|]). destruct ws; [|simpl in Hc; lia].
  simpl in Em. injection Em as ->. by eexists.
Qed.

(** A handle of the constructor is accepted, and has its arguments; after the
    destructor it is refused. *)
Lemma constructed_handle fd size flags bufferType format width height eFd eOffset eBase :
  let h := new_private_handle fd size flags bufferType format width height eFd eOffset eBase in
  complete (native h) /\ cast (native h) = Some h /\ dynamicCast (Some (native h)) = Ret (Some (native h)) /\
  dynamicCast (Some (native (destroy h))) = Ret None.
Proof. done. Qed.

(** A handle that is too short for a magic number is read behind its end, for
    the message that it is invalid. *)
Lemma short_handle_read_outside : complete (NativeHandle sizeof_native_handle 1 0 [7]) /\ validate (Some (NativeHandle sizeof_native_handle 1 0 [7])) = Fault.
Proof. done. Qed.

(** The flag of opaque surfaces is that of two others. *)
Lemma opaque_surface_overlaps : PRIV_FLAGS_OPAQUE_SURFACE = Z.lor PRIV_FLAGS_EXTERNAL_ONLY PRIV_FLAGS_PROTECTED_BUFFER.
Proof. done. Qed.

(** The other flags are different bits. *)
Definition single_flags : list Z :=
  [PRIV_FLAGS_FRAMEBUFFER; PRIV_FLAGS_USES_PMEM; PRIV_FLAGS_USES_PMEM_ADSP; PRIV_FLAGS_USES_ION; PRIV_FLAGS_USES_ASHMEM; PRIV_FLAGS_NEEDS_FLUSH; PRIV_FLAGS_DO_NOT_FLUSH; PRIV_FLAGS_SW_LOCK; PRIV_FLAGS_NONCONTIGUOUS_MEM; PRIV_FLAGS_HWC_LOCK; PRIV_FLAGS_SECURE_BUFFER; PRIV_FLAGS_UNSYNCHRONIZED; PRIV_FLAGS_NOT_MAPPED; PRIV_FLAGS_EXTERNAL_ONLY; PRIV_FLAGS_PROTECTED_BUFFER; PRIV_FLAGS_INTERNAL_ONLY; PRIV_FLAGS_VIDEO_ENCODER; PRIV_FLAGS_CAMERA_WRITE; PRIV_FLAGS_CAMERA_READ; PRIV_FLAGS_HW_COMPOSER; PRIV_FLAGS_HW_TEXTURE; PRIV_FLAGS_ITU_R_601; PRIV_FLAGS_ITU_R_601_FR; PRIV_FLAGS_ITU_R_709; PRIV_FLAGS_SECURE_DISPLAY].

Lemma single_flags_disjoint : Forall (fun f => Z.pow 2 (Z.log2 f) = f) single_flags /\ NoDup single_flags.
Proof. split; [repeat constructor|]. apply (bool_decide_unpack _ (dec := NoDup_dec _)). vm_compute. exact I. Qed.

(** The formats of 3D contents are inside the mask. *)
Lemma s3d_formats : Forall (fun f => Z.land f S3D_FORMAT_MASK = f)
  [HAL_NO_3D; HAL_3D_IN_SIDE_BY_SIDE_L_R; HAL_3D_IN_TOP_BOTTOM; HAL_3D_IN_INTERLEAVE; HAL_3D_IN_SIDE_BY_SIDE_R_L; HAL_3D_OUT_SIDE_BY_SIDE; HAL_3D_OUT_TOP_BOTTOM; HAL_3D_OUT_INTERLEAVE; HAL_3D_OUT_MONOSCOPIC].
Proof. repeat constructor. Qed.
