(* ===== verification/RilQueue.v ===== *)
(** * libril/rilSocketQueue.h: the queues of the SAP socket

    [Ril_queue<SapSocketRequest>]: a list of requests linked through [p_next].
    The requests and the message headers that they point to are blocks of a
    heap; every function holds the mutex of the queue and is one step.  A
    queue represents a list of requests: a new request goes to the front, and
    [dequeue] takes the front. *)

From S2P Require Import Prelude.

(** ** State *)

(** [SapSocketRequest]; [curr] is the block of the header. *)
Record SapSocketRequest : Type := Request { token : Z; curr : nat; p_next : option nat; socketId : Z }.

(** The header of a message; [h_payload] is the block of its bytes. *)
Record MsgHeader : Type := Header { h_token : Z; h_type : Z; h_id : Z; h_error : Z; h_payload : option nat }.

(** The heap and the field [front]. *)
Record qstate : Type := QState { nodes : gmap nat SapSocketRequest; headers : gmap nat MsgHeader; front : option nat }.

Definition with_next (n : option nat) (r : SapSocketRequest) : SapSocketRequest := Request (token r) (curr r) n (socketId r).
Definition with_nodes (m : gmap nat SapSocketRequest) (f : option nat) (q : qstate) : qstate := QState m (headers q) f.

Definition load_node (a : nat) : M qstate SapSocketRequest := fun q =>
  match nodes q !! a with Some r => Ret (r, q) | None => Fault end.
Definition load_header (a : nat) : M qstate MsgHeader := fun q =>
  match headers q !! a with Some h => Ret (h, q) | None => Fault end.
Definition store_node (a : nat) (f : SapSocketRequest -> SapSocketRequest) : M qstate unit := fun q =>
  match nodes q !! a with Some r => Ret (tt, with_nodes (<[a := f r]> (nodes q)) (front q) q) | None => Fault end.
Definition free_node (a : nat) : M qstate unit := fun q =>
  match nodes q !! a with Some _ => Ret (tt, with_nodes (delete a (nodes q)) (front q) q) | None => Fault end.
Definition set_front (f : option nat) : M qstate unit := fun q => Ret (tt, with_nodes (nodes q) f q).

(** ** Operations *)

(** The constructor. *)
Definition new_front : option nat := None.

Definition empty : M qstate Z := fun q => Ret (match front q with None => 1 | Some _ => 0 end, q).

(** [None]: the thread waits for the condition. *)
Definition dequeue : M qstate (option nat) :=
  e ← empty;
  if negb (e =? 0) then mret None else
  q ← get;
  match front q with
  | None => fault
  | Some temp =>
      r ← load_node temp;
      match p_next r with
      | Some n => set_front (Some n)
      | None => set_front None
      end;;
      mret (Some temp)
  end.

Definition enqueue (request : nat) : M qstate unit :=
  q ← get;
  match front q with
  | None => set_front (Some request);; store_node request (with_next None)
  | Some f => store_node request (with_next (Some f));; set_front (Some request)
  end.

(** [T **ppCur]: the front, or the link of a node. *)
Definition read_link (ppCur : option nat) : M qstate (option nat) :=
  match ppCur with
  | None => q ← get; mret (front q)
  | Some a => r ← load_node a; mret (p_next r)
  end.
Definition write_link (ppCur : option nat) (n : option nat) : M qstate unit :=
  match ppCur with None => set_front n | Some a => store_node a (with_next n) end.

Fixpoint check_loop (fuel : nat) (id tok : Z) (ppCur : option nat) : M qstate Z :=
  match fuel with
  | O => fault
  | S fuel' =>
      cur ← read_link ppCur;
      match cur with
      | None => mret 0
      | Some temp =>
          r ← load_node temp;
          h ← load_header (curr r);
          if (tok =? token r) && (id =? h_id h) then
            write_link ppCur (p_next r);;
            free_node temp;;
            mret 1
          else check_loop fuel' id tok (Some temp)
      end
  end.

(** The list cannot be longer than the heap. *)
Definition checkAndDequeue (id tok : Z) : M qstate Z := q ← get; check_loop (S (size (nodes q))) id tok None.

(** ** The list that a queue represents *)

Fixpoint chain (m : gmap nat SapSocketRequest) (h : option nat) (l : list nat) : Prop :=
  match l with
  | [] => h = None
  | a :: l' => h = Some a /\ exists r, m !! a = Some r /\ chain m (p_next r) l'
  end.

(** What a block says, links aside. *)
Definition content (r : SapSocketRequest) : Z * nat * Z := (token r, curr r, socketId r).

(** The request [a] answers to this message id and token. *)
Definition matches (q : qstate) (id tok : Z) (a : nat) : bool :=
  match nodes q !! a with
  | Some r => match headers q !! curr r with Some h => (tok =? token r) && (id =? h_id h) | None => false end
  | None => false
  end.

Lemma queue_chain_frame m m' h l : chain m h l -> (forall a, a ∈ l -> m' !! a = m !! a) -> chain m' h l.
Proof.
  revert h. induction l as [|a l IH]; intros h; [done|]. intros (Hh & r & Hr & Hc) Hm. split; [done|]. exists r.
  rewrite Hm by apply list_elem_of_here. split; [done|]. apply IH; [done|]. intros b Hb. apply Hm. by apply list_elem_of_further.
Qed.

Lemma queue_chain_lookup m h l a : chain m h l -> a ∈ l -> is_Some (m !! a).
Proof.
  revert h. induction l as [|b l IH]; intros h; [by intros _ ?%not_elem_of_nil|]. intros (_ & r & Hr & Hc) Ha.
  apply elem_of_cons in Ha as [->|Ha]; eauto.
Qed.

Lemma dequeue_run q a l :
  chain (nodes q) (front q) (a :: l) -> exists f, dequeue q = Ret (Some a, with_nodes (nodes q) f q) /\ chain (nodes q) f l.
Proof.
  intros (Hf & r & Hr & Hc). exists (p_next r). split; [|done]. unfold dequeue, empty, load_node, set_front. unfold mbind, M_bind.
  cbn. rewrite Hf. cbn. rewrite Hf, Hr.
  by destruct (p_next r).
Qed.

Lemma dequeue_waits q : front q = None -> dequeue q = Ret (None, q).
Proof. intros Hf. unfold dequeue, empty, mbind, M_bind. cbn. by rewrite Hf. Qed.

Lemma enqueue_run q a r l :
  chain (nodes q) (front q) l -> a ∉ l -> nodes q !! a = Some r ->
  exists n, enqueue a q = Ret (tt, with_nodes (<[a := with_next n r]> (nodes q)) (Some a) q) /\ chain (<[a := with_next n r]> (nodes q)) (Some a) (a :: l).
Proof.
  intros Hc Ha Hr. exists (front q). split.
  - unfold enqueue, store_node, set_front, mbind, M_bind. cbn. destruct (front q); cbn; by rewrite Hr.
  - split; [done|]. exists (with_next (front q) r). split; [by rewrite lookup_insert_eq|]. eapply queue_chain_frame; [exact Hc|].
    intros b Hb. apply lookup_insert_ne. by intros ->.
Qed.

Definition link (q : qstate) (pp : option nat) : option nat := match pp with None => front q | Some b => nodes q !! b ≫= p_next end.

Lemma queue_link_run q pp : (forall b, pp = Some b -> is_Some (nodes q !! b)) -> read_link pp q = Ret (link q pp, q).
Proof.
  intros Hb. destruct pp as [b|]; [|done]. destruct (Hb b eq_refl) as [r Hr]. unfold read_link, load_node, mbind, M_bind. simpl.
  by rewrite Hr.
Qed.

Lemma check_loop_missing fuel id tok pp q l :
  (length l < fuel)%nat -> (forall b, pp = Some b -> is_Some (nodes q !! b)) -> chain (nodes q) (link q pp) l ->
  (forall a, a ∈ l -> matches q id tok a = false /\ exists r, nodes q !! a = Some r /\ is_Some (headers q !! curr r)) ->
  check_loop fuel id tok pp q = Ret (0, q).
Proof.
  revert fuel pp. induction l as [|c l IH]; intros fuel pp Hf Hpp Hc Hm; (destruct fuel as [|fuel]; [simpl in Hf; lia|]);
    cbn [check_loop]; rewrite (bind_run _ _ _ _ _ (queue_link_run q pp Hpp)).
  - simpl in Hc. by rewrite Hc.
  - destruct Hc as (Hh & r & Hr & Hc). rewrite Hh. destruct (Hm c (list_elem_of_here _ _)) as [Hk (r' & Hr' & h & Hh')].
    simplify_eq.
    unfold matches in Hk. rewrite Hr, Hh' in Hk. unfold load_node, load_header. unfold mbind, M_bind. rewrite Hr, Hh', Hk.
    apply IH; [simpl in Hf; lia|intros b [= <-]; eauto|simpl; by rewrite Hr|]. intros a Ha. apply Hm.
    by apply list_elem_of_further.
Qed.

(** The walk finds the first match, unlinks and frees it. *)
Lemma check_loop_found fuel id tok pp q l1 a l2 :
  (length l1 < fuel)%nat -> NoDup (l1 ++ a :: l2) ->
  (forall b, pp = Some b -> is_Some (nodes q !! b) /\ b ∉ l1 ++ a :: l2) -> chain (nodes q) (link q pp) (l1 ++ a :: l2) ->
  matches q id tok a = true ->
  (forall b, b ∈ l1 -> matches q id tok b = false /\ exists r, nodes q !! b = Some r /\ is_Some (headers q !! curr r)) ->
  exists m f, check_loop fuel id tok pp q = Ret (1, with_nodes m f q) /\ m !! a = None /\
    chain m (link (with_nodes m f q) pp) (l1 ++ l2) /\ (forall c, c <> a -> content <$> m !! c = content <$> nodes q !! c) /\
    (forall c, c <> a -> c ∉ l1 -> pp <> Some c -> m !! c = nodes q !! c) /\ (pp <> None -> f = front q).
Proof.
  revert fuel pp.
  induction l1 as [|c l1 IH]; intros fuel pp Hf Hnd Hpp Hc Hma Hml; (destruct fuel as [|fuel]; [simpl in Hf; lia|]);
    cbn [check_loop]; rewrite (bind_run _ _ _ _ _ (queue_link_run q pp (fun b Hb => proj1 (Hpp b Hb))));
    destruct Hc as (Hh & r & Hr & Hc); rewrite Hh.
  - unfold matches in Hma. rewrite Hr in Hma. destruct (headers q !! curr r) as [h|] eqn:Eh; [|done].
    unfold load_node, load_header. unfold mbind, M_bind. rewrite Hr, Eh, Hma. apply NoDup_cons in Hnd as [Ha _].
    destruct pp as [b|]; simpl.
    + destruct (Hpp b eq_refl) as [[rb Hb] Hnin]. assert (b <> a) by set_solver. unfold store_node. rewrite Hb. unfold free_node.
      simpl.
      rewrite lookup_insert_ne, Hr by done. eexists _, _. split; [done|]. split_and!.
      * apply lookup_delete_eq.
      * simpl. rewrite lookup_delete_ne, lookup_insert_eq by done. simpl. eapply queue_chain_frame; [exact Hc|]. intros d Hd.
        rewrite lookup_delete_ne, lookup_insert_ne by set_solver. done.
      * intros d Hd. rewrite lookup_delete_ne by done.
        destruct (decide (d = b)) as [->|]; [by rewrite lookup_insert_eq, Hb|by rewrite lookup_insert_ne].
      * intros d Hd _ Hne. rewrite lookup_delete_ne, lookup_insert_ne by congruence. done.
      * done.
    + unfold set_front, free_node. simpl. rewrite Hr. eexists _, _. split; [done|]. split_and!.
      * apply lookup_delete_eq.
      * simpl. eapply queue_chain_frame; [exact Hc|]. intros d Hd. apply lookup_delete_ne. by intros <-.
      * intros d Hd. by rewrite lookup_delete_ne.
      * intros d Hd _ _. by apply lookup_delete_ne.
      * done.
  - destruct (Hml c (list_elem_of_here _ _)) as [Hk (r' & Hr' & h & Hh')]. simplify_eq. unfold matches in Hk.
    rewrite Hr, Hh' in Hk.
    unfold load_node, load_header. unfold mbind, M_bind. rewrite Hr, Hh', Hk. simpl in Hnd. apply NoDup_cons in Hnd as [Hcn Hnd].
    destruct (IH fuel (Some c)) as (m & f & Hrun & Hm & Hc' & Hct & Hfr & Hff).
    + simpl in Hf. lia.
    + done.
    + intros b [= <-]. split; [eauto|done].
    + simpl. by rewrite Hr.
    + done.
    + intros b Hb. apply Hml. by apply list_elem_of_further.
    + exists m, f. specialize (Hff ltac:(done)). assert (c <> a) by set_solver. split; [done|]. split_and!; [done| |done| |done].
      * specialize (Hct c ltac:(done)) as Hctc. rewrite Hr in Hctc. destruct (m !! c) as [rc|] eqn:Ec; [|done].
        assert (link (with_nodes m f q) pp = Some c) as ->.
        { destruct pp as [b|]; simpl in *; [|by rewrite Hff]. destruct (Hpp b eq_refl) as [_ Hnin].
          rewrite Hfr; [done|set_solver|set_solver|set_solver]. }
        split; [done|]. exists rc. split; [done|]. simpl in Hc'. by rewrite Ec in Hc'.
      * intros d Hd Hdl Hne. apply Hfr; [done|set_solver|]. intros [= ->]. set_solver.
Qed.
