(* ===== verification/SapSocket.v ===== *)
(** * libril/RilSapSocket.cpp and RilSocket.cpp: the SIM access profile socket

    Records from the Bluetooth process are decoded into requests, queued,
    passed to the vendor library by the request threads, and answered when the
    vendor library completes them.  Requests, message headers and payloads are
    blocks of a heap.  The protobuf messages ([sap-api.pb.h], nanopb) and the
    control sockets are parameters. *)

From S2P Require Import Prelude RilQueue.

(** ** Parameters *)

(** The contents of a message. *)
Record Msg : Type := MkMsg { m_token : Z; m_type : Z; m_id : Z; m_error : Z; m_payload : option (list Z) }.

(** nanopb and the generated code: [pb_encode] and [pb_decode] of
    [MsgHeader], the encoding of the disconnect request, which has no fields,
    and the constants; [stack_garbage] is what an uninitialised field holds.
    [malloc_ok n]: the n-th allocation succeeds. *)
Class SapApi := {
  pb_encode : Msg -> option (list Z);
  pb_decode : list Z -> option Msg;
  encode_disconnect : option (list Z);
  MsgType_REQUEST : Z; MsgType_RESPONSE : Z; MsgType_UNSOL_RESPONSE : Z;
  MsgId_RIL_SIM_SAP_DISCONNECT : Z; Error_RIL_E_SUCCESS : Z;
  RIL_SOCKET : nat -> Z; SIM_COUNT : Z;
  stack_garbage : Z;
  malloc_ok : nat -> bool;
  android_get_control_socket : string -> Z;
  listen_result : Z -> Z
}.

(** ** State *)

(** [RilSapSocket] with the fields of [RilSocket].  [uimFuncs]: the pointer has
    been set; [listening], [watched]: the listen and the command event are in
    the event loop; [threads]: request threads that were started. *)
Record RilSapSocket : Type := Socket {
  name : string; id : Z; listenFd : Z; commandFd : Z;
  dispatchQueue : option nat; pendingResponseQueue : option nat;
  uimFuncs : bool; threads : nat; listening : bool; watched : bool
}.

(** A call of [onRequest]: message id, payload and token. *)
Record vendor_call : Type := Call { v_id : Z; v_data : list Z; v_token : nat }.

(** [head] is the list of the sockets; [writes]: calls of
    [blockingWrite_helper]; [fresh] numbers the allocations. *)
Record sap : Type := Sap {
  reqs : gmap nat SapSocketRequest; hdrs : gmap nat MsgHeader; pays : gmap nat (list Z); fresh : nat;
  head : list RilSapSocket; writes : list (Z * list Z); calls : list vendor_call
}.

Definition no_sockets : sap := Sap ∅ ∅ ∅ 0 [] [] [].

Definition with_reqs (m : gmap nat SapSocketRequest) (s : sap) : sap := Sap m (hdrs s) (pays s) (fresh s) (head s) (writes s) (calls s).
Definition with_hdrs (m : gmap nat MsgHeader) (s : sap) : sap := Sap (reqs s) m (pays s) (fresh s) (head s) (writes s) (calls s).
Definition with_pays (m : gmap nat (list Z)) (s : sap) : sap := Sap (reqs s) (hdrs s) m (fresh s) (head s) (writes s) (calls s).
Definition with_fresh (n : nat) (s : sap) : sap := Sap (reqs s) (hdrs s) (pays s) n (head s) (writes s) (calls s).
Definition with_head (l : list RilSapSocket) (s : sap) : sap := Sap (reqs s) (hdrs s) (pays s) (fresh s) l (writes s) (calls s).
Definition with_write (w : Z * list Z) (s : sap) : sap := Sap (reqs s) (hdrs s) (pays s) (fresh s) (head s) (writes s ++ [w]) (calls s).
Definition with_call (c : vendor_call) (s : sap) : sap := Sap (reqs s) (hdrs s) (pays s) (fresh s) (head s) (writes s) (calls s ++ [c]).

Definition with_queues (d p : option nat) (k : RilSapSocket) : RilSapSocket :=
  Socket (name k) (id k) (listenFd k) (commandFd k) d p (uimFuncs k) (threads k) (listening k) (watched k).
Definition with_listen (fd : Z) (l : bool) (k : RilSapSocket) : RilSapSocket :=
  Socket (name k) (id k) fd (commandFd k) (dispatchQueue k) (pendingResponseQueue k) (uimFuncs k) (threads k) l (watched k).
Definition with_command (fd : Z) (w : bool) (k : RilSapSocket) : RilSapSocket :=
  Socket (name k) (id k) (listenFd k) fd (dispatchQueue k) (pendingResponseQueue k) (uimFuncs k) (threads k) (listening k) w.
Definition with_thread (k : RilSapSocket) : RilSapSocket :=
  Socket (name k) (id k) (listenFd k) (commandFd k) (dispatchQueue k) (pendingResponseQueue k) (uimFuncs k) (S (threads k)) (listening k) (watched k).

Abbreviation SM := (M sap).

Section Operations.
Context {A : SapApi}.

(** ** Memory *)

Definition modify (f : sap -> sap) : SM unit := fun s => Ret (tt, f s).

(** [malloc] and [calloc]; [None] is [NULL]. *)
Definition malloc : SM (option nat) := fun s =>
  Ret (if malloc_ok (fresh s) then Some (fresh s) else None, with_fresh (S (fresh s)) s).

Definition load_req (a : nat) : SM SapSocketRequest := fun s => match reqs s !! a with Some r => Ret (r, s) | None => Fault end.
Definition load_hdr (a : nat) : SM MsgHeader := fun s => match hdrs s !! a with Some h => Ret (h, s) | None => Fault end.
Definition load_bytes (a : nat) : SM (list Z) := fun s => match pays s !! a with Some b => Ret (b, s) | None => Fault end.
Definition store_req (a : nat) (r : SapSocketRequest) : SM unit := modify (fun s => with_reqs (<[a := r]> (reqs s)) s).
Definition store_hdr (a : nat) (h : MsgHeader) : SM unit := modify (fun s => with_hdrs (<[a := h]> (hdrs s)) s).
Definition store_bytes (a : nat) (b : list Z) : SM unit := modify (fun s => with_pays (<[a := b]> (pays s)) s).
Definition free_req (a : nat) : SM unit := load_req a;; modify (fun s => with_reqs (delete a (reqs s)) s).
Definition free_hdr (a : nat) : SM unit := load_hdr a;; modify (fun s => with_hdrs (delete a (hdrs s)) s).
Definition free_bytes (a : nat) : SM unit := load_bytes a;; modify (fun s => with_pays (delete a (pays s)) s).

(** The socket [i] of the list. *)
Definition this (i : nat) : SM RilSapSocket := fun s => match head s !! i with Some k => Ret (k, s) | None => Fault end.
Definition update (i : nat) (f : RilSapSocket -> RilSapSocket) : SM unit := k ← this i; modify (fun s => with_head (<[i := f k]> (head s)) s).

(** An operation of one of the two queues. *)
Definition on_dispatch {B} (i : nat) (m : M qstate B) : SM B := fun s =>
  match head s !! i with
  | None => Fault
  | Some k =>
      match m (QState (reqs s) (hdrs s) (dispatchQueue k)) with
      | Ret (b, q) => Ret (b, with_head (<[i := with_queues (front q) (pendingResponseQueue k) k]> (head s)) (with_reqs (nodes q) s))
      | Abort => Abort
      | Fault => Fault
      end
  end.
Definition on_pending {B} (i : nat) (m : M qstate B) : SM B := fun s =>
  match head s !! i with
  | None => Fault
  | Some k =>
      match m (QState (reqs s) (hdrs s) (pendingResponseQueue k)) with
      | Ret (b, q) => Ret (b, with_head (<[i := with_queues (dispatchQueue k) (front q) k]> (head s)) (with_reqs (nodes q) s))
      | Abort => Abort
      | Fault => Fault
      end
  end.

(** ** The list of sockets *)

Fixpoint find_socket (l : list RilSapSocket) (socketId : Z) (i : nat) : option nat :=
  match l with
  | [] => None
  | k :: l => if socketId =? id k then Some i else find_socket l socketId (S i)
  end.

Definition getSocketById (socketId : Z) : SM (option nat) := s ← get; mret (find_socket (head s) socketId 0).

Definition SocketExists (socketName : string) : SM bool :=
  s ← get; mret (existsb (fun k => bool_decide (name k = socketName)) (head s)).

(** The constructor; without functions the pointer stays uninitialised. *)
Definition new_RilSapSocket (socketName : string) (socketId : Z) (inputUimFuncs : bool) : RilSapSocket :=
  Socket socketName socketId (-1) (-1) new_front new_front inputUimFuncs 0 false false.

Definition socketInit (i : nat) : SM Z :=
  k ← this i;
  let fd := android_get_control_socket (name k) in
  update i (with_listen fd (listening k));;
  let ret := listen_result fd in
  if ret <? 0 then mret ret else
  update i (with_listen fd true);;
  mret ret.

Definition addSocketToList (socketName : string) (socketid : Z) (funcs : bool) : SM unit :=
  exists_ ← SocketExists socketName;
  if exists_ : bool then mret tt else
  item ← malloc;
  match item with
  | None => mret tt
  | Some _ =>
      s ← get;
      modify (fun s => with_head (head s ++ [new_RilSapSocket socketName socketid funcs]) s);;
      socketInit (length (head s));;
      mret tt
  end.

Definition init_one (socketName expected : string) (socketid : Z) (funcs : bool) : SM unit :=
  if bool_decide (socketName = expected) then
    exists_ ← SocketExists socketName;
    if exists_ : bool then mret tt else addSocketToList socketName socketid funcs
  else mret tt.

Definition initSapSocket (socketName : string) (funcs : bool) : SM unit :=
  init_one socketName "sap_uim_socket1" (RIL_SOCKET 1) funcs;;
  (if 2 <=? SIM_COUNT then init_one socketName "sap_uim_socket2" (RIL_SOCKET 2) funcs else mret tt);;
  (if 3 <=? SIM_COUNT then init_one socketName "sap_uim_socket3" (RIL_SOCKET 3) funcs else mret tt);;
  (if 4 <=? SIM_COUNT then init_one socketName "sap_uim_socket4" (RIL_SOCKET 4) funcs else mret tt).

(** [RIL_register_socket] for [RIL_SAP_SOCKET]; [Init] returns functions or
    [NULL], or is [NULL] itself. *)
Definition RIL_register_socket (Init : option bool) : SM unit :=
  match Init with
  | None => mret tt
  | Some UimFuncs =>
      initSapSocket "sap_uim_socket1" UimFuncs;;
      (if 2 <=? SIM_COUNT then initSapSocket "sap_uim_socket2" UimFuncs else mret tt);;
      (if 3 <=? SIM_COUNT then initSapSocket "sap_uim_socket3" UimFuncs else mret tt);;
      (if 4 <=? SIM_COUNT then initSapSocket "sap_uim_socket4" UimFuncs else mret tt)
  end.

(** ** Requests *)

(** A call of the vendor library through [uimFuncs]. *)
Definition onRequest (i : nat) (h : MsgHeader) (t : nat) : SM unit :=
  k ← this i;
  if negb (uimFuncs k) then fault else
  match h_payload h with
  | None => fault
  | Some p => b ← load_bytes p; modify (with_call (Call (h_id h) b t))
  end.

Definition pushRecord (i : nat) (record : list Z) : SM unit :=
  reqHeader ← malloc;
  match reqHeader with
  | None => mret tt
  | Some reqHeader =>
      match pb_decode record with
      | None => mret tt
      | Some m =>
          s ← get;
          payload ← match m_payload m with
                    | None => mret None
                    | Some b => modify (with_fresh (S (fresh s)));; store_bytes (fresh s) b;; mret (Some (fresh s))
                    end;
          store_hdr reqHeader (Header (m_token m) (m_type m) (m_id m) (m_error m) payload);;
          recv ← malloc;
          match recv with
          | None => free_hdr reqHeader
          | Some recv =>
              k ← this i;
              store_req recv (Request (m_token m) reqHeader None (id k));;
              on_dispatch i (enqueue recv)
          end
      end
  end.

Definition dispatchRequest (i : nat) (req : nat) : SM unit :=
  currRequest ← malloc;
  match currRequest with
  | None => free_hdr req
  | Some currRequest =>
      h ← load_hdr req;
      k ← this i;
      store_req currRequest (Request (h_token h) req None (id k));;
      on_pending i (enqueue currRequest);;
      onRequest i h currRequest
  end.

(** One round of [processRequestsLoop]; without a request the thread waits. *)
Definition processRequest (i : nat) : SM unit :=
  req ← on_dispatch i dequeue;
  match req with
  | None => mret tt
  | Some req =>
      r ← load_req req;
      dispatchRequest i (curr r);;
      free_req req
  end.

(** ** Responses *)

Definition INT32_MAX : Z := 2 ^ 31 - 1.

(** [htonl] as bytes, and as the number it is on a little-endian machine. *)
Definition htonl_bytes (n : Z) : list Z :=
  [Z.land (Z.shiftr n 24) 255; Z.land (Z.shiftr n 16) 255; Z.land (Z.shiftr n 8) 255; Z.land n 255].
Definition htonl (n : Z) : Z :=
  Z.lor (Z.lor (Z.shiftl (Z.land n 255) 24) (Z.shiftl (Z.land (Z.shiftr n 8) 255) 16))
        (Z.lor (Z.shiftl (Z.land (Z.shiftr n 16) 255) 8) (Z.land (Z.shiftr n 24) 255)).

Definition sendResponse (i : nat) (m : Msg) : SM unit :=
  k ← this i;
  match pb_encode m with
  | None => mret tt
  | Some buffer =>
      if (Z.of_nat (length buffer) <=? INT32_MAX) && negb (commandFd k =? -1) then
        modify (with_write (commandFd k, htonl_bytes (Z.of_nat (length buffer)) ++ buffer))
      else mret tt
  end.

(** A message with a copy of the data as its payload. *)
Definition respond (i : nat) (tok type mid e : Z) (data : list Z) : SM unit :=
  payload ← malloc;
  match payload with
  | None => mret tt
  | Some payload =>
      store_bytes payload data;;
      sendResponse i (MkMsg tok type mid e (Some data));;
      free_bytes payload
  end.

Definition onRequestComplete (i : nat) (t : nat) (e : Z) (response : option (list Z)) : SM unit :=
  request ← load_req t;
  match response with
  | Some (b :: bs) =>
      h ← load_hdr (curr request);
      respond i (h_token h) MsgType_RESPONSE (h_id h) e (b :: bs)
  | _ => mret tt
  end;;
  hdr ← load_hdr (curr request);
  on_pending i (checkAndDequeue (h_id hdr) (h_token hdr));;
  free_hdr (curr request).

Definition sOnRequestComplete (t : nat) (e : Z) (response : option (list Z)) : SM unit :=
  request ← load_req t;
  sap_socket ← getSocketById (socketId request);
  match sap_socket with
  | Some i => onRequestComplete i t e response
  | None =>
      h ← load_hdr (curr request);
      match h_payload h with Some p => free_bytes p | None => mret tt end;;
      free_hdr (curr request);;
      free_req t
  end.

Definition onUnsolicitedResponse (i : nat) (unsolResponse : Z) (data : option (list Z)) : SM unit :=
  match data with
  | Some (b :: bs) => respond i stack_garbage MsgType_UNSOL_RESPONSE unsolResponse Error_RIL_E_SUCCESS (b :: bs)
  | _ => mret tt
  end.

Definition sOnUnsolicitedResponse (unsolResponse : Z) (data : option (list Z)) : SM unit :=
  sap_socket ← getSocketById (RIL_SOCKET 1);
  match sap_socket with
  | Some i => onUnsolicitedResponse i unsolResponse data
  | None => fault
  end.

(** ** Closing *)

Definition dispatchDisconnect (i : nat) (req : nat) : SM unit :=
  currRequest ← malloc;
  h ← load_hdr req;
  match currRequest with
  | None => match h_payload h with Some p => free_bytes p | None => mret tt end;; free_hdr req
  | Some currRequest =>
      store_req currRequest (Request (-1) req None 99);;
      onRequest i h currRequest
  end.

(** The payload is [written_size] bytes of a buffer of [n + 4]. *)
Definition sendDisconnect (i : nat) : SM unit :=
  match encode_disconnect with
  | None => mret tt
  | Some message =>
      let n := Z.of_nat (length message) in
      if n <=? INT32_MAX then
        let written_size := htonl n in
        let buffer := htonl_bytes n ++ message in
        payload ← malloc;
        match payload with
        | None => mret tt
        | Some payload =>
            if n + 4 <? written_size then fault else
            store_bytes payload (take (Z.to_nat written_size) buffer);;
            hdr ← malloc;
            match hdr with
            | None => free_bytes payload
            | Some hdr =>
                store_hdr hdr (Header stack_garbage MsgType_REQUEST MsgId_RIL_SIM_SAP_DISCONNECT Error_RIL_E_SUCCESS (Some payload));;
                dispatchDisconnect i hdr
            end
        end
      else mret tt
  end.

Definition onCommandsSocketClosed (i : nat) : SM unit := sendDisconnect i.

(** ** Connections *)

(** How reading from the stream ended. *)
Inductive stream_end : Type := WouldBlock | EndOfStream | StreamError.

Definition socketRequestsHandler (i : nat) (fd : Z) (records : list (list Z)) (ending : stream_end) : SM unit :=
  k ← this i;
  if negb (fd =? commandFd k) then abort else
  foldr (fun r m => pushRecord i r;; m) (mret tt) records;;
  match ending with
  | WouldBlock => mret tt
  | _ =>
      update i (with_command (-1) false);;
      k ← this i;
      update i (with_listen (listenFd k) true);;
      onCommandsSocketClosed i
  end.

Definition onNewCommandConnect (i : nat) : SM unit := update i with_thread.

(** [listenCallback] for the SAP socket: the result of [accept], and whether
    the peer is the Bluetooth process. *)
Definition listenCallback (i : nat) (accepted : Z) (is_bluetooth : bool) : SM unit :=
  k ← this i;
  if negb (commandFd k <? 0) then abort else
  if accepted <? 0 then update i (with_listen (listenFd k) true)
  else if negb is_bluetooth then
    onCommandsSocketClosed i;;
    k ← this i;
    update i (with_listen (listenFd k) true)
  else
    update i (with_command accepted true);;
    onNewCommandConnect i.

(** ** Accessors of [RilSocket] *)

Definition setListenFd (i : nat) (fd : Z) : SM unit := update i (fun k => with_listen fd (listening k) k).
Definition setCommandFd (i : nat) (fd : Z) : SM unit := update i (fun k => with_command fd (watched k) k).
Definition getListenFd (i : nat) : SM Z := k ← this i; mret (listenFd k).
Definition getCommandFd (i : nat) : SM Z := k ← this i; mret (commandFd k).

End Operations.
