(* ===== verification/SapInv.v ===== *)
(** * The heap of the SAP socket

    Every request block is on the dispatch queue, on the pending queue, or a
    disconnect request with the vendor library; each has a header and a
    payload of its own. *)

From S2P Require Import Prelude RilQueue SapSocket.

(** Documented behaviour of the parameters: a decoded header has its required
    payload, the disconnect request is empty, an encoded message is decoded
    to itself, 99 is no socket, and the device has one SIM. *)
Class SapLaws (A : SapApi) : Prop := {
  decode_payload r m : pb_decode r = Some m -> m_payload m <> None;
  disconnect_empty : encode_disconnect = Some [];
  decode_encode m b : pb_encode m = Some b -> m_payload m <> None -> pb_decode b = Some m;
  socket_ids : RIL_SOCKET 1 <> 99;
  one_sim : SIM_COUNT < 2
}.

(** ** Ownership *)

(** What the blocks say, links aside: token, header and socket. *)
Abbreviation owners := (gmap nat (Z * nat * Z)).

(** [dl], [pl], [xl]: the dispatch queue, the pending queue and the disconnect
    requests; [sid]: the socket; [n]: the next block. *)
Record heap_ok (m : owners) (hs : gmap nat MsgHeader) (ps : gmap nat (list Z)) (n : nat) (sid : Z) (dl pl xl : list nat) : Prop := HeapOk {
  o_nodup : NoDup (dl ++ pl ++ xl);
  o_dom : dom m = list_to_set (dl ++ pl ++ xl);
  o_req : forall a t c i, m !! a = Some (t, c, i) -> exists h p b, hs !! c = Some h /\ h_payload h = Some p /\ ps !! p = Some b /\
    (a ∈ dl ++ pl -> h_token h = t /\ i = sid) /\ (a ∈ xl -> i = 99);
  o_curr : forall a a' t t' c i i', m !! a = Some (t, c, i) -> m !! a' = Some (t', c, i') -> a = a';
  o_hdrs : forall c h, hs !! c = Some h -> exists a t i, m !! a = Some (t, c, i);
  o_pay : forall c c' h h' p, hs !! c = Some h -> hs !! c' = Some h' -> h_payload h = Some p -> h_payload h' = Some p -> c = c';
  o_keys : forall a a' t t' c c' i i' h h', a ∈ dl ++ pl -> a' ∈ dl ++ pl ->
    m !! a = Some (t, c, i) -> m !! a' = Some (t', c', i') -> hs !! c = Some h -> hs !! c' = Some h' ->
    h_id h = h_id h' -> h_token h = h_token h' -> a = a';
  o_fresh : forall a, (n <= a)%nat -> m !! a = None /\ hs !! a = None /\ ps !! a = None
}.

Lemma heap_in m hs ps n sid dl pl xl a : heap_ok m hs ps n sid dl pl xl -> a ∈ dl ++ pl ++ xl <-> is_Some (m !! a).
Proof. intros Hh. rewrite <- elem_of_dom, (o_dom _ _ _ _ _ _ _ _ Hh). by rewrite elem_of_list_to_set. Qed.

Lemma heap_fresh_more m hs ps n n' sid dl pl xl : (n <= n')%nat -> heap_ok m hs ps n sid dl pl xl -> heap_ok m hs ps n' sid dl pl xl.
Proof. intros Hn []. split; try done. intros a Ha. apply o_fresh0. lia. Qed.

(** A request takes the place of another with the same contents. *)
Lemma heap_dispatch m hs ps n sid a dl pl xl x :
  heap_ok m hs ps n sid (a :: dl) pl xl -> m !! a = Some x -> heap_ok (<[n := x]> (delete a m)) hs ps (S n) sid dl (n :: pl) xl.
Proof.
  intros Hh Hx. pose proof (heap_in _ _ _ _ _ _ _ _ n Hh) as Hin. destruct Hh as [Hnd Hdom Hreq Hcurr Hhdr Hpay Hkey Hfr].
  destruct (Hfr n ltac:(lia)) as [Hn _].
  assert (Hnot : n ∉ (a :: dl) ++ pl ++ xl) by (rewrite Hin, Hn; by intros [? ?]).
  assert (Hna : n <> a) by set_solver. simpl in Hnd. apply NoDup_cons in Hnd as [Ha Hnd].
  (** the block that a block of the new heap was *)
  set (old := fun b => if decide (b = n) then a else b).
  assert (Hold : forall b y, <[n := x]> (delete a m) !! b = Some y -> m !! old b = Some y /\ (b ∈ dl ++ n :: pl -> old b ∈ (a :: dl) ++ pl) /\ (b ∈ xl -> old b ∈ xl)).
  { intros b y. unfold old.
    destruct (decide (b = n)) as [->|Hb]; [rewrite lookup_insert_eq; intros [= <-]|rewrite lookup_insert_ne by done].
    - split; [done|]. split; [set_solver|]. intros ?. set_solver.
    - intros [Hba Hy]%lookup_delete_Some. split; [done|]. set_solver. }
  assert (Hinj : forall b b' y y', <[n := x]> (delete a m) !! b = Some y -> <[n := x]> (delete a m) !! b' = Some y' -> old b = old b' -> b = b').
  { intros b b' y y'. unfold old. destruct (decide (b = n)) as [->|], (decide (b' = n)) as [->|]; try done.
    - intros _. rewrite lookup_insert_ne by done. intros [? _]%lookup_delete_Some. done.
    - rewrite lookup_insert_ne by done. intros [? _]%lookup_delete_Some. done. }
  split.
  - apply NoDup_app in Hnd as (H1 & H2 & H3). apply NoDup_app. split_and!; [done| |].
    + intros b Hb. simpl. rewrite elem_of_cons. intros [->|Hb']; [set_solver|]. by apply (H2 b).
    + simpl. apply NoDup_cons. split; [set_solver|done].
  - rewrite dom_insert_L, dom_delete_L, Hdom. rewrite !list_to_set_app_L. simpl. rewrite ?list_to_set_app_L. set_solver.
  - intros b t c i Hb. destruct (Hold b _ Hb) as (Hm & H1 & H2). destruct (Hreq _ _ _ _ Hm) as (h & p & bs & ? & ? & ? & H3 & H4).
    exists h, p, bs. split_and!; auto.
  - intros b b' t t' c i i' Hb Hb'. destruct (Hold b _ Hb) as (Hm & _), (Hold b' _ Hb') as (Hm' & _). eapply Hinj; eauto.
  - intros c h Hc. destruct (Hhdr c h Hc) as (b & t & i & Hb). destruct (decide (b = a)) as [->|Hne].
    + exists n, t, i. rewrite lookup_insert_eq. congruence.
    + exists b, t, i. rewrite lookup_insert_ne by (intros <-; rewrite Hn in Hb; done). by apply lookup_delete_Some.
  - done.
  - intros b b' t t' c c' i i' h h' Hb Hb' Hm Hm' Hc Hc' E1 E2.
    destruct (Hold b _ Hm) as (Hmo & H1 & _), (Hold b' _ Hm') as (Hmo' & H2 & _).
    eapply Hinj; [done|done|]. eapply (Hkey (old b) (old b')); eauto.
  - intros b Hb. destruct (Hfr b ltac:(lia)) as (? & ? & ?). split_and!; try done. rewrite lookup_insert_ne by lia.
    apply lookup_delete_None. auto.
Qed.

(** The lists without the block [a]. *)
Record removed (a : nat) (dl pl xl dl' pl' xl' : list nat) : Prop := Removed {
  r_nodup : NoDup (dl' ++ pl' ++ xl');
  r_live : forall b, b ∈ dl' ++ pl' <-> b ∈ dl ++ pl /\ b <> a;
  r_x : forall b, b ∈ xl' <-> b ∈ xl /\ b <> a
}.

Lemma nodup_middle (l1 l2 : list nat) a : NoDup (l1 ++ a :: l2) -> NoDup (l1 ++ l2) /\ a ∉ l1 ++ l2.
Proof. intros H. rewrite <- Permutation_middle in H. by apply NoDup_cons in H as [? ?]. Qed.

Lemma removed_dispatch a dl pl xl : NoDup ((a :: dl) ++ pl ++ xl) -> removed a (a :: dl) pl xl dl pl xl.
Proof. intros H. apply (nodup_middle [] (dl ++ pl ++ xl)) in H as [H1 H2]. simpl in *. split; [done|set_solver|set_solver]. Qed.

Lemma removed_pending a dl l1 l2 xl : NoDup (dl ++ (l1 ++ a :: l2) ++ xl) -> removed a dl (l1 ++ a :: l2) xl dl (l1 ++ l2) xl.
Proof.
  intros H. rewrite <- (app_assoc l1), <- app_comm_cons, app_assoc in H. apply nodup_middle in H as [H1 H2]. split.
  - rewrite <- (app_assoc l1), app_assoc. done.
  - set_solver.
  - set_solver.
Qed.

Lemma removed_disconnect a dl pl l1 l2 : NoDup (dl ++ pl ++ l1 ++ a :: l2) -> removed a dl pl (l1 ++ a :: l2) dl pl (l1 ++ l2).
Proof.
  intros H. rewrite !app_assoc in H. apply nodup_middle in H as [H1 H2]. split.
  - by rewrite !app_assoc.
  - set_solver.
  - set_solver.
Qed.

(** A request goes with its header; other payloads stay. *)
Lemma heap_drop m hs ps ps' n sid dl pl xl dl' pl' xl' a t c i h :
  heap_ok m hs ps n sid dl pl xl -> m !! a = Some (t, c, i) -> hs !! c = Some h ->
  (forall p, Some p <> h_payload h -> ps' !! p = ps !! p) -> (forall p, ps !! p = None -> ps' !! p = None) ->
  removed a dl pl xl dl' pl' xl' ->
  heap_ok (delete a m) (delete c hs) ps' n sid dl' pl' xl'.
Proof.
  intros [Hnd Hdom Hreq Hcurr Hhdr Hpay Hkey Hfr] Ha Hc Hps Hps' [Rn Rl Rx]. split.
  - done.
  - rewrite dom_delete_L, Hdom. apply set_eq. intros b.
    rewrite elem_of_difference, !elem_of_list_to_set, !app_assoc, !(elem_of_app (_ ++ _)), Rl, Rx, elem_of_singleton. tauto.
  - intros b t' c' i' [Hne Hb]%lookup_delete_Some. destruct (Hreq _ _ _ _ Hb) as (h' & p & bs & H1 & H2 & H3 & H4 & H5).
    assert (c' <> c) by (intros ->; apply Hne; eauto). exists h', p, bs. rewrite lookup_delete_ne by done.
    split_and!; [done|done| | |].
    + rewrite Hps; [done|]. intros E. symmetry in E. eauto.
    + intros [? _]%Rl. by apply H4.
    + intros [? _]%Rx. by apply H5.
  - intros b b' ? ? ? ? ? [_ ?]%lookup_delete_Some [_ ?]%lookup_delete_Some. eauto.
  - intros c' h' [Hne Hc']%lookup_delete_Some. destruct (Hhdr _ _ Hc') as (b & t' & i' & Hb). exists b, t', i'.
    apply lookup_delete_Some. split; [|done]. intros ->. congruence.
  - intros c1 c2 h1 h2 p [_ ?]%lookup_delete_Some [_ ?]%lookup_delete_Some. eauto.
  - intros b b' ? ? ? ? ? ? ? ? [? _]%Rl [? _]%Rl [_ ?]%lookup_delete_Some [_ ?]%lookup_delete_Some [_ ?]%lookup_delete_Some [_ ?]%lookup_delete_Some.
    eauto.
  - intros b Hb. destruct (Hfr b Hb) as (? & ? & ?).
    split_and!; [apply lookup_delete_None; auto|apply lookup_delete_None; auto|auto].
Qed.

(** A new request with a new header and payload, at the front of the dispatch
    queue or among the disconnect requests. *)
Lemma heap_add m hs ps n sid dl pl xl dl' xl' a c p t h b i :
  heap_ok m hs ps n sid dl pl xl -> (n <= a)%nat -> (n <= c)%nat -> (n <= p)%nat -> h_payload h = Some p ->
  dl' = a :: dl /\ xl' = xl /\ h_token h = t /\ i = sid /\
    (forall a' t' c' i' h', a' ∈ dl ++ pl -> m !! a' = Some (t', c', i') -> hs !! c' = Some h' -> h_id h' = h_id h -> h_token h' <> h_token h) \/
  dl' = dl /\ xl' = a :: xl /\ i = 99 ->
  heap_ok (<[a := (t, c, i)]> m) (<[c := h]> hs) (<[p := b]> ps) (S (Nat.max a (Nat.max c p))) sid dl' pl xl'.
Proof.
  intros Hh Hna Hnc Hnp Hp Hcase. pose proof (heap_in _ _ _ _ _ _ _ _ a Hh) as Hin.
  destruct Hh as [Hnd Hdom Hreq Hcurr Hhdr Hpay Hkey Hfr].
  destruct (Hfr a Hna) as (Fa & _ & _), (Hfr c Hnc) as (_ & Fc & _), (Hfr p Hnp) as (_ & _ & Fp).
  assert (Hnot : a ∉ dl ++ pl ++ xl) by (rewrite Hin, Fa; by intros [? ?]).
  assert (Hcm : forall b' t' i', m !! b' <> Some (t', c, i')) by (intros b' t' i' E; destruct (Hreq _ _ _ _ E) as (? & ? & ? & ? & _); congruence).
  assert (Hphs : forall c' h', hs !! c' = Some h' -> h_payload h' <> Some p).
  { intros c' h' E E'. destruct (Hhdr _ _ E) as (b' & t' & i' & Hb').
    destruct (Hreq _ _ _ _ Hb') as (h2 & p2 & ? & ? & ? & ? & _). congruence. }
  assert (Hmem : forall b', b' <> a -> (b' ∈ dl' ++ pl <-> b' ∈ dl ++ pl) /\ (b' ∈ xl' <-> b' ∈ xl)).
  { intros b' Hne. destruct Hcase as [(-> & -> & _)|(-> & -> & _)]; set_solver. }
  assert (Hdl : a ∈ dl' ++ pl -> h_token h = t /\ i = sid /\
    forall a' t' c' i' h', a' ∈ dl ++ pl -> m !! a' = Some (t', c', i') -> hs !! c' = Some h' -> h_id h' = h_id h -> h_token h' <> h_token h).
  { destruct Hcase as [(-> & -> & ? & ? & Hk)|(-> & -> & _)]; [done|]. set_solver. }
  split.
  - destruct Hcase as [(-> & -> & _)|(-> & -> & _)]; [by apply NoDup_cons|].
    rewrite (app_assoc dl), <- Permutation_middle, <- app_assoc. by apply NoDup_cons.
  - rewrite dom_insert_L, Hdom. apply set_eq. intros b'. rewrite elem_of_union, !elem_of_list_to_set, elem_of_singleton.
    destruct Hcase as [(-> & -> & _)|(-> & -> & _)]; set_solver.
  - intros b' t' c' i' [[<- [= <- <- <-]]|[Hne Hb']]%lookup_insert_Some.
    + exists h, p, b. rewrite !lookup_insert_eq. split_and!; try done; [intros H; split; by apply Hdl|].
      destruct Hcase as [(-> & -> & _)|(-> & -> & ?)]; [set_solver|done].
    + destruct (Hreq _ _ _ _ Hb') as (h' & p' & bs & H1 & H2 & H3 & H4 & H5). destruct (Hmem b' ltac:(done)) as [M1 M2].
      exists h', p', bs. rewrite !lookup_insert_ne by congruence. split_and!; try done; [intros ?%M1; auto|intros ?%M2; auto].
  - intros b1 b2 t1 t2 c1 i1 i2 [[<- [= <- <- <-]]|[Hne Hb1]]%lookup_insert_Some [[<- E2]|[Hne2 Hb2]]%lookup_insert_Some; try done; simplify_eq.
    + by destruct (Hcm _ _ _ Hb2).
    + by destruct (Hcm _ _ _ Hb1).
    + eauto.
  - intros c' h' [[<- <-]|[Hne Hc']]%lookup_insert_Some; [exists a, t, i; by rewrite lookup_insert_eq|].
    destruct (Hhdr _ _ Hc') as (b' & t' & i' & Hb'). exists b', t', i'. rewrite lookup_insert_ne; [done|]. intros <-. congruence.
  - intros c1 c2 h1 h2 p' [[<- <-]|[Hne Hc1]]%lookup_insert_Some [[<- <-]|[Hne2 Hc2]]%lookup_insert_Some P1 P2; try done; simplify_eq.
    + by destruct (Hphs _ _ Hc2).
    + by destruct (Hphs _ _ Hc1).
    + eauto.
  - intros b1 b2 t1 t2 c1 c2 i1 i2 h1 h2 B1 B2 M1 M2 C1 C2 E1 E2.
    destruct (decide (b1 = a)) as [->|N1], (decide (b2 = a)) as [->|N2]; [done|..].
    + rewrite lookup_insert_eq in M1. rewrite lookup_insert_ne in M2 by done. simplify_eq. rewrite lookup_insert_eq in C1.
      rewrite lookup_insert_ne in C2 by (intros <-; by destruct (Hcm _ _ _ M2)). simplify_eq. destruct (Hdl B1) as (_ & _ & Hk).
      destruct (Hk b2 t2 c2 i2 h2); try done. by apply Hmem in B2.
    + rewrite lookup_insert_eq in M2. rewrite lookup_insert_ne in M1 by done. simplify_eq. rewrite lookup_insert_eq in C2.
      rewrite lookup_insert_ne in C1 by (intros <-; by destruct (Hcm _ _ _ M1)). simplify_eq. destruct (Hdl B2) as (_ & _ & Hk).
      destruct (Hk b1 t1 c1 i1 h1); try done. by apply Hmem in B1.
    + rewrite lookup_insert_ne in M1, M2 by done. rewrite lookup_insert_ne in C1 by (intros <-; by destruct (Hcm _ _ _ M1)).
      rewrite lookup_insert_ne in C2 by (intros <-; by destruct (Hcm _ _ _ M2)). apply (Hmem b1) in B1; [|done].
      apply (Hmem b2) in B2; [|done]. eauto.
  - intros b' Hb'. destruct (Hfr b' ltac:(lia)) as (? & ? & ?). rewrite !lookup_insert_ne by lia. done.
Qed.
