(* ===== verification/SapSystem.v ===== *)
(** * The SAP socket keeps its heap

    Every handler of the SAP socket, run in a state whose heap is in order,
    runs without a fault and leaves such a state. *)

From S2P Require Import Prelude RilQueue SapSocket SapInv.

Section System.
Context {A : SapApi} {L : SapLaws A}.

(** The socket of the only SIM [k]; [done]: the tokens that the vendor library
    has completed. *)
Record sap_ok (s : sap) (k : RilSapSocket) (dl pl xl done : list nat) : Prop := SapOk {
  s_head : head s = [k];
  s_id : id k = RIL_SOCKET 1;
  s_funcs : uimFuncs k = true;
  s_disp : chain (reqs s) (dispatchQueue k) dl;
  s_pend : chain (reqs s) (pendingResponseQueue k) pl;
  s_heap : heap_ok (content <$> reqs s) (hdrs s) (pays s) (fresh s) (id k) dl pl xl;
  s_vendor : v_token <$> calls s ≡ₚ done ++ pl ++ xl
}.

(** ** Running an operation *)

Lemma on_dispatch_run {B} (m : M qstate B) s k b q :
  head s = [k] -> m (QState (reqs s) (hdrs s) (dispatchQueue k)) = Ret (b, q) ->
  on_dispatch 0 m s = Ret (b, with_head [with_queues (front q) (pendingResponseQueue k) k] (with_reqs (nodes q) s)).
Proof. intros Hh Hm. unfold on_dispatch. rewrite Hh. cbn. by rewrite Hm. Qed.

Lemma on_pending_run {B} (m : M qstate B) s k b q :
  head s = [k] -> m (QState (reqs s) (hdrs s) (pendingResponseQueue k)) = Ret (b, q) ->
  on_pending 0 m s = Ret (b, with_head [with_queues (dispatchQueue k) (front q) k] (with_reqs (nodes q) s)).
Proof. intros Hh Hm. unfold on_pending. rewrite Hh. cbn. by rewrite Hm. Qed.

Lemma malloc_run s : malloc s = Ret (if malloc_ok (fresh s) then Some (fresh s) else None, with_fresh (S (fresh s)) s).
Proof. done. Qed.

Lemma this_run s k : head s = [k] -> this 0 s = Ret (k, s).
Proof. intros Hh. unfold this. by rewrite Hh. Qed.

Lemma sap_update_run s k f : head s = [k] -> update 0 f s = Ret (tt, with_head [f k] s).
Proof. intros Hh. unfold update. rewrite (bind_run _ _ _ _ _ (this_run s k Hh)). unfold modify. by rewrite Hh. Qed.

Lemma load_hdr_run s a h : hdrs s !! a = Some h -> load_hdr a s = Ret (h, s).
Proof. unfold load_hdr. by intros ->. Qed.

Lemma sap_load_req_run s a r : reqs s !! a = Some r -> load_req a s = Ret (r, s).
Proof. unfold load_req. by intros ->. Qed.

Lemma load_bytes_run s a b : pays s !! a = Some b -> load_bytes a s = Ret (b, s).
Proof. unfold load_bytes. by intros ->. Qed.

Lemma free_hdr_run s a h : hdrs s !! a = Some h -> free_hdr a s = Ret (tt, with_hdrs (delete a (hdrs s)) s).
Proof. intros Hh. unfold free_hdr. by rewrite (bind_run _ _ _ _ _ (load_hdr_run s a h Hh)). Qed.

Lemma free_req_run s a r : reqs s !! a = Some r -> free_req a s = Ret (tt, with_reqs (delete a (reqs s)) s).
Proof. intros Hh. unfold free_req. by rewrite (bind_run _ _ _ _ _ (sap_load_req_run s a r Hh)). Qed.

Lemma free_bytes_run s a b : pays s !! a = Some b -> free_bytes a s = Ret (tt, with_pays (delete a (pays s)) s).
Proof. intros Hh. unfold free_bytes. by rewrite (bind_run _ _ _ _ _ (load_bytes_run s a b Hh)). Qed.

(** ** Changes that do not touch the heap *)

(** What a handler may change of the socket while the queues stay. *)
Lemma sap_ok_socket s k k' dl pl xl done :
  sap_ok s k dl pl xl done -> id k' = id k -> uimFuncs k' = uimFuncs k -> dispatchQueue k' = dispatchQueue k ->
  pendingResponseQueue k' = pendingResponseQueue k -> sap_ok (with_head [k'] s) k' dl pl xl done.
Proof. intros [] E1 E2 E3 E4. split; simpl; rewrite ?E1, ?E2, ?E3, ?E4; done. Qed.

Lemma sap_ok_write s k w dl pl xl done : sap_ok s k dl pl xl done -> sap_ok (with_write w s) k dl pl xl done.
Proof. intros []. by split. Qed.

(** A payload that no header points to. *)
Lemma sap_ok_more s k n b dl pl xl done :
  sap_ok s k dl pl xl done -> (fresh s <= n)%nat -> sap_ok (with_pays (<[n := b]> (pays s)) (with_fresh (S n) s)) k dl pl xl done.
Proof.
  intros [? ? ? ? ? Hh ?] Hn. split; try done. simpl. destruct Hh as [? ? Hreq ? ? ? ? Hfr]. split; try done.
  - intros a t c i Ha. destruct (Hreq _ _ _ _ Ha) as (h & p & bs & ? & ? & Hp & ?). exists h, p, bs. split_and!; try tauto.
    rewrite lookup_insert_ne; [done|]. intros <-. destruct (Hfr n Hn) as (_ & _ & E). congruence.
  - intros a Ha. destruct (Hfr a ltac:(lia)) as (? & ? & ?). rewrite lookup_insert_ne by lia. done.
Qed.

Lemma sap_ok_fresh s k n dl pl xl done : sap_ok s k dl pl xl done -> (fresh s <= n)%nat -> sap_ok (with_fresh n s) k dl pl xl done.
Proof. intros [] Hn. split; try done. simpl. by eapply heap_fresh_more. Qed.

(** ** Outstanding keys *)

(** A message id and a token of a request of the client that is not answered. *)
Definition outstanding (s : sap) (key : Z * Z) : Prop :=
  exists a r h, reqs s !! a = Some r /\ socketId r <> 99 /\ hdrs s !! curr r = Some h /\ key = (h_id h, h_token h).

Definition record_key (r : list Z) : option (Z * Z) := m ← pb_decode r; Some (m_id m, m_token m).

Definition same_connection (k k' : RilSapSocket) : Prop :=
  commandFd k' = commandFd k /\ listenFd k' = listenFd k /\ listening k' = listening k /\ watched k' = watched k /\ threads k' = threads k.

Lemma pushRecord_ok s k dl pl xl done r :
  sap_ok s k dl pl xl done -> (forall key, record_key r = Some key -> ~ outstanding s key) ->
  exists s' k' dl', pushRecord 0 r s = Ret (tt, s') /\ sap_ok s' k' dl' pl xl done /\ same_connection k k' /\
    writes s' = writes s /\ calls s' = calls s /\ (forall key, outstanding s' key -> outstanding s key \/ record_key r = Some key).
Proof.
  intros Hok Hkey. unfold pushRecord. rewrite (bind_run _ _ _ _ _ (malloc_run s)).
  assert (Hstop : forall n, (fresh s <= n)%nat -> exists s' k' dl', Ret (tt, with_fresh n s) = Ret (tt, s') /\ sap_ok s' k' dl' pl xl done /\ same_connection k k' /\
    writes s' = writes s /\ calls s' = calls s /\ (forall key, outstanding s' key -> outstanding s key \/ record_key r = Some key)).
  { intros n Hn. eexists _, k, dl. split; [done|]. split; [by apply sap_ok_fresh|]. split_and!; try done. intros key H. by left. }
  destruct (malloc_ok (fresh s)); [|apply Hstop; lia]. destruct (pb_decode r) as [m|] eqn:Em; [|apply Hstop; lia].
  destruct (m_payload m) as [b|] eqn:Eb; [|by apply decode_payload in Em].
  unfold mbind, M_bind. cbn -[lookup insert]. set (n := fresh s).
  set (hd := Header (m_token m) (m_type m) (m_id m) (m_error m) (Some (S n))).
  pose proof Hok as [Hhd Hid Hfu Hdi Hpe Hhe Hve]. pose proof Hhe as [_ _ Hreq _ _ _ _ Hfr].
  destruct (Hfr n ltac:(lia)) as (_ & Fn & _). destruct (Hfr (S (S n)) ltac:(unfold n; lia)) as (Fa & _ & _).
  assert (Fr : reqs s !! S (S n) = None) by (by rewrite lookup_fmap, fmap_None in Fa).
  assert (Hnin : forall l h, chain (reqs s) h l -> S (S n) ∉ l) by (intros l h Hc Hin; destruct (queue_chain_lookup _ _ _ _ Hc Hin); congruence).
  destruct (malloc_ok (S (S n))).
  - unfold this. cbn -[lookup insert]. rewrite Hhd. cbn -[insert].
    set (rq := Request (m_token m) n None (id k)).
    destruct (enqueue_run (QState (<[S (S n) := rq]> (reqs s)) (<[n := hd]> (hdrs s)) (dispatchQueue k)) (S (S n)) rq dl) as (nx & Hrun & Hch).
    { simpl. eapply queue_chain_frame; [exact Hdi|]. intros x Hx. apply lookup_insert_ne. intros <-. by apply (Hnin _ _ Hdi). }
    { by apply (Hnin _ _ Hdi). }
    { simpl. apply lookup_insert_eq. }
    erewrite on_dispatch_run; [|exact Hhd|exact Hrun]. cbn -[insert lookup] in Hch |- *. rewrite insert_insert_eq in *.
    eexists _, (with_queues (Some (S (S n))) (pendingResponseQueue k) k), (S (S n) :: dl). split; [done|].
    split; [|split_and!; try done].
    + split; cbn -[insert lookup]; try done.
      * eapply queue_chain_frame; [exact Hpe|]. intros x Hx. apply lookup_insert_ne. intros <-. by apply (Hnin _ _ Hpe).
      * rewrite fmap_insert. apply (heap_fresh_more _ _ _ (S (Nat.max (S (S n)) (Nat.max n (S n))))); [lia|].
        apply (heap_add _ _ _ (fresh s) _ dl _ xl); [done|unfold n; lia|unfold n; lia|unfold n; lia|done|].
        left. split_and!; try done. intros a' t' c' i' h' Ha' Hm' Hh' E1 E2.
        apply (Hkey (m_id m, m_token m)); [unfold record_key; by rewrite Em|].
        destruct (Hreq _ _ _ _ Hm') as (h2 & p2 & b2 & G1 & _ & _ & G2 & _). rewrite lookup_fmap in Hm'.
        destruct (reqs s !! a') as [r'|] eqn:Er; [|done]. simpl in Hm'. injection Hm' as <- <- <-. exists a', r', h'.
        destruct (G2 Ha') as [_ G3]. split_and!; try done; [rewrite G3, Hid; apply socket_ids|]. simpl in *. congruence.
    + intros key (a & r' & h & Hr & H99 & Hh & ->). cbn -[insert lookup] in Hr, Hh.
      apply lookup_insert_Some in Hr as [[<- <-]|[Hne Hr]].
      * right. simpl in Hh. rewrite lookup_insert_eq in Hh. injection Hh as <-. unfold record_key. by rewrite Em.
      * left. exists a, r', h. split_and!; try done. rewrite lookup_insert_ne in Hh; [done|]. intros E. rewrite <- E in Hh.
        destruct (Hreq a (token r') (curr r') (socketId r')) as (h2 & _ & _ & G & _); [rewrite lookup_fmap, Hr; done|congruence].
  - rewrite (free_hdr_run _ n hd) by (simpl; apply lookup_insert_eq). cbn -[insert lookup delete].
    rewrite delete_insert_id by done.
    eexists _, k, dl. split; [done|]. split; [|split_and!; try done].
    + pose proof (sap_ok_fresh _ _ (S (S (S n))) _ _ _ _ (sap_ok_more s k (S n) b _ _ _ _ Hok ltac:(unfold n; lia)) ltac:(simpl; lia)) as [].
      by split.
    + intros key H. by left.
Qed.

Lemma chain_delete m h l a : chain m h l -> a ∉ l -> chain (delete a m) h l.
Proof. intros Hc Ha. eapply queue_chain_frame; [exact Hc|]. intros b Hb. apply lookup_delete_ne. by intros <-. Qed.

Lemma chain_insert m h l a r : chain m h l -> a ∉ l -> chain (<[a := r]> m) h l.
Proof. intros Hc Ha. eapply queue_chain_frame; [exact Hc|]. intros b Hb. apply lookup_insert_ne. by intros <-. Qed.

(** A block of the heap and its contents. *)
Lemma live_request s k dl pl xl done a :
  sap_ok s k dl pl xl done -> a ∈ dl ++ pl ++ xl -> exists r h p b, reqs s !! a = Some r /\ hdrs s !! curr r = Some h /\
    h_payload h = Some p /\ pays s !! p = Some b /\ (a ∈ dl ++ pl -> h_token h = token r /\ socketId r = id k) /\ (a ∈ xl -> socketId r = 99) /\
    (content <$> reqs s) !! a = Some (token r, curr r, socketId r).
Proof.
  intros Hok Ha. pose proof (s_heap _ _ _ _ _ _ Hok) as Hhe. apply (heap_in _ _ _ _ _ _ _ _ a Hhe) in Ha as [[[t c] i] Hx].
  destruct (o_req _ _ _ _ _ _ _ _ Hhe _ _ _ _ Hx) as (h & p & b & ? & ? & ? & ? & ?). pose proof Hx as Hx'.
  rewrite lookup_fmap in Hx.
  destruct (reqs s !! a) as [r|]; [|done]. simpl in Hx. injection Hx as <- <- <-. exists r, h, p, b. split_and!; done.
Qed.

(** A request thread that finds nothing waits; otherwise the newest request
    goes to the vendor library with its id and payload and waits for its
    answer, or is dropped when memory has run out. *)
Lemma processRequest_ok s k dl pl xl done :
  sap_ok s k dl pl xl done ->
  exists s' k', processRequest 0 s = Ret (tt, s') /\ same_connection k k' /\ writes s' = writes s /\
    (forall key, outstanding s' key -> outstanding s key) /\
    match dl with
    | [] => sap_ok s' k' [] pl xl done /\ calls s' = calls s
    | a :: dl' =>
        if malloc_ok (fresh s) then
          sap_ok s' k' dl' (fresh s :: pl) xl done /\
          exists r h p b, reqs s !! a = Some r /\ hdrs s !! curr r = Some h /\ h_payload h = Some p /\ pays s !! p = Some b /\
            calls s' = calls s ++ [Call (h_id h) b (fresh s)]
        else sap_ok s' k' dl' pl xl done /\ calls s' = calls s
    end.
Proof.
  intros Hok. pose proof Hok as [Hhd Hid Hfu Hdi Hpe Hhe Hve]. unfold processRequest. destruct dl as [|a dl].
  - erewrite bind_run by (eapply on_dispatch_run; [exact Hhd|]; by apply dequeue_waits). cbn -[lookup].
    eexists _, (with_queues (dispatchQueue k) (pendingResponseQueue k) k). split; [done|]. split_and!; done.
  - destruct (live_request _ _ _ _ _ _ a Hok) as (r & h & p & b & Hr & Hh & Hp & Hb & Hlive & _ & Hcont); [set_solver|].
    destruct Hlive as [Htok Hsid]; [set_solver|].
    destruct (dequeue_run (QState (reqs s) (hdrs s) (dispatchQueue k)) a dl Hdi) as (f & Hrun & Hf).
    erewrite bind_run by (eapply on_dispatch_run; [exact Hhd|exact Hrun]). cbn [front nodes with_nodes].
    pose proof (o_nodup _ _ _ _ _ _ _ _ Hhe) as Hnd. pose proof (nodup_middle [] (dl ++ pl ++ xl) a Hnd) as [_ Hna]. simpl in Hna.
    set (k1 := with_queues f (pendingResponseQueue k) k). set (s1 := with_head [k1] (with_reqs (reqs s) s)).
    rewrite (bind_run _ _ _ _ _ (sap_load_req_run s1 a r Hr)). unfold dispatchRequest.
    destruct (o_fresh _ _ _ _ _ _ _ _ Hhe (fresh s) ltac:(lia)) as (Fa & _ & _). rewrite lookup_fmap, fmap_None in Fa.
    assert (Hne : fresh s <> a) by (intros <-; congruence).
    destruct (malloc_ok (fresh s)) eqn:Emal.
    + set (rq := Request (h_token h) (curr r) None (id k)).
      destruct (enqueue_run (QState (<[fresh s := rq]> (reqs s)) (hdrs s) (pendingResponseQueue k)) (fresh s) rq pl) as (nx & Hen & Hch).
      { apply chain_insert; [exact Hpe|]. intros Hin. destruct (queue_chain_lookup _ _ _ _ Hpe Hin). congruence. }
      { intros Hin. destruct (queue_chain_lookup _ _ _ _ Hpe Hin). congruence. }
      { apply lookup_insert_eq. }
      assert (Hrun2 : dispatchRequest 0 (curr r) s1 = Ret (tt, with_call (Call (h_id h) b (fresh s)) (with_head [with_queues f (Some (fresh s)) k]
        (with_reqs (<[fresh s := with_next nx rq]> (reqs s)) (with_fresh (S (fresh s)) s))))).
      { unfold dispatchRequest. rewrite (bind_run _ _ _ _ _ (malloc_run s1)). cbn [fresh s1 with_head with_reqs]. rewrite Emal.
        erewrite bind_run by (by apply load_hdr_run). erewrite bind_run by (by eapply this_run). erewrite bind_run by reflexivity.
        erewrite bind_run by (eapply on_pending_run; [reflexivity|exact Hen]). cbn [front nodes with_nodes].
        rewrite insert_insert_eq.
        unfold onRequest. erewrite bind_run by (by eapply this_run). cbn [uimFuncs with_queues k1 negb]. rewrite Hfu, Hp.
        cbn [negb].
        erewrite bind_run by (by apply load_bytes_run). done. }
      fold (dispatchRequest 0 (curr r)). rewrite (bind_run _ _ _ _ _ Hrun2).
      rewrite (free_req_run _ a r) by (cbn -[insert lookup]; by rewrite lookup_insert_ne).
      eexists _, (with_queues f (Some (fresh s)) k). split; [done|]. split_and!; try done.
      * intros key (c & r' & h' & Hc & H99 & Hh' & ->). cbn -[insert lookup delete] in Hc, Hh'.
        apply lookup_delete_Some in Hc as [_ Hc].
        apply lookup_insert_Some in Hc as [[<- <-]|[_ Hc]]; [exists a, r, h'|by exists c, r', h']. split_and!; try done.
        rewrite Hsid, Hid. apply socket_ids.
      * split; cbn -[insert lookup delete chain]; try done.
        -- apply chain_delete; [|set_solver]. apply chain_insert; [done|]. intros Hin.
        destruct (queue_chain_lookup _ _ _ _ Hf Hin). simpl in *. congruence.
        -- cbn -[insert lookup delete chain] in Hch. rewrite insert_insert_eq in Hch. apply chain_delete; [exact Hch|].
        set_solver.
        -- rewrite delete_insert_ne by done. rewrite fmap_insert, fmap_delete. apply heap_dispatch; [done|]. rewrite Hcont.
        unfold content. simpl. congruence.
        -- rewrite fmap_app. simpl. rewrite Hve. rewrite <- Permutation_cons_append. simpl. apply Permutation_middle.
      * by exists r, h, p, b.
    + erewrite bind_run; [|rewrite (bind_run _ _ _ _ _ (malloc_run s1)); cbn [fresh s1 with_head with_reqs]; rewrite Emal; by eapply free_hdr_run].
      rewrite (free_req_run _ a r) by done. eexists _, k1. split; [done|]. split_and!; try done.
      * intros key (c & r' & h' & Hc & H99 & Hh' & ->). cbn -[insert lookup delete] in Hc, Hh'.
        apply lookup_delete_Some in Hc as [_ Hc].
        apply lookup_delete_Some in Hh' as [_ Hh']. by exists c, r', h'.
      * split; cbn -[insert lookup delete chain]; try done.
        -- apply chain_delete; [done|set_solver].
        -- apply chain_delete; [done|set_solver].
        -- rewrite fmap_delete. apply (heap_fresh_more _ _ _ (fresh s)); [lia|].
        by eapply (heap_drop _ _ _ _ _ _ (a :: dl)); [done..|apply removed_dispatch].
Qed.

(** ** Answers *)

(** What a message adds to the socket. *)
Definition frames (k : RilSapSocket) (m : Msg) : list (Z * list Z) :=
  match pb_encode m with
  | None => []
  | Some b => if (Z.of_nat (length b) <=? INT32_MAX) && negb (commandFd k =? -1) then [(commandFd k, htonl_bytes (Z.of_nat (length b)) ++ b)] else []
  end.

Definition reply (s : sap) (k : RilSapSocket) (m : Msg) : list (Z * list Z) := if malloc_ok (fresh s) then frames k m else [].

Lemma respond_ok s k dl pl xl done tok type mid e data :
  sap_ok s k dl pl xl done ->
  exists s', respond 0 tok type mid e data s = Ret (tt, s') /\ sap_ok s' k dl pl xl done /\ reqs s' = reqs s /\ hdrs s' = hdrs s /\ pays s' = pays s /\
    calls s' = calls s /\ writes s' = writes s ++ reply s k (MkMsg tok type mid e (Some data)).
Proof.
  intros Hok. unfold respond. rewrite (bind_run _ _ _ _ _ (malloc_run s)). unfold reply, frames. destruct (malloc_ok (fresh s)).
  2: { eexists. split; [done|]. split; [apply sap_ok_fresh; [done|lia]|]. by rewrite app_nil_r. }
  pose proof (s_head _ _ _ _ _ _ Hok) as Hhd.
  destruct (o_fresh _ _ _ _ _ _ _ _ (s_heap _ _ _ _ _ _ Hok) (fresh s) ltac:(lia)) as (_ & _ & Fp).
  erewrite bind_run by reflexivity. unfold sendResponse. set (m := MkMsg _ _ _ _ _). set (s1 := with_pays _ _).
  assert (Hsend : exists w, sendResponse 0 m s1 = Ret (tt, Sap (reqs s) (hdrs s) (<[fresh s := data]> (pays s)) (S (fresh s)) (head s) (writes s ++ w) (calls s)) /\ w = frames k m).
  { unfold sendResponse, frames. erewrite bind_run by (by apply this_run).
    destruct (pb_encode m) as [b|]; [|exists []; by rewrite app_nil_r].
    destruct (_ && _); [by eexists|exists []; by rewrite app_nil_r]. }
  destruct Hsend as (w & Hsend & ->). unfold frames in Hsend. fold (sendResponse 0 m). rewrite (bind_run _ _ _ _ _ Hsend).
  rewrite (free_bytes_run _ (fresh s) data) by (cbn -[lookup insert]; apply lookup_insert_eq). cbn -[delete insert].
  rewrite delete_insert_id by done.
  eexists. split; [done|]. split; [|done]. destruct (sap_ok_fresh s k (S (fresh s)) dl pl xl done Hok ltac:(lia)). by split.
Qed.

Lemma chain_size m h l : chain m h l -> NoDup l -> (length l <= size m)%nat.
Proof.
  intros Hc Hn. rewrite <- size_dom, <- (size_list_to_set (C := gset nat) l Hn). apply subseteq_size.
  intros a Ha%elem_of_list_to_set.
  apply elem_of_dom. by eapply queue_chain_lookup.
Qed.

(** The pending request is found by its id and token, which no other has. *)
Lemma check_pending s k dl l1 t l2 xl done r h :
  sap_ok s k dl (l1 ++ t :: l2) xl done -> reqs s !! t = Some r -> hdrs s !! curr r = Some h ->
  exists m f, on_pending 0 (checkAndDequeue (h_id h) (h_token h)) s = Ret (1, with_head [with_queues (dispatchQueue k) f k] (with_reqs m s)) /\
    chain m f (l1 ++ l2) /\ chain m (dispatchQueue k) dl /\ content <$> m = delete t (content <$> reqs s).
Proof.
  intros Hok Hr Hh. pose proof Hok as [Hhd Hid Hfu Hdi Hpe Hhe Hve]. pose proof (o_nodup _ _ _ _ _ _ _ _ Hhe) as Hnd.
  assert (Hnp : NoDup (l1 ++ t :: l2)) by (apply NoDup_app in Hnd as (_ & _ & Hnd); by apply NoDup_app in Hnd as (? & _)).
  assert (Hin : forall b, b ∈ l1 ++ t :: l2 -> b ∈ dl ++ l1 ++ t :: l2) by (intros; apply elem_of_app; by right).
  set (q := QState (reqs s) (hdrs s) (pendingResponseQueue k)).
  assert (Hlive : forall b, b ∈ l1 ++ t :: l2 -> exists rb hb, reqs s !! b = Some rb /\ hdrs s !! curr rb = Some hb /\ h_token hb = token rb /\
    (content <$> reqs s) !! b = Some (token rb, curr rb, socketId rb)).
  { intros b Hb. destruct (live_request _ _ _ _ _ _ b Hok) as (rb & hb & ? & ? & ? & ? & ? & ? & Hl & _ & ?); [set_solver|].
    exists rb, hb. split_and!; try done. apply Hl. set_solver. }
  destruct (Hlive t ltac:(set_solver)) as (rt & ht & Hrt & Hht & Htok & Hct).
  rewrite Hr in Hrt. injection Hrt as <-. rewrite Hh in Hht. injection Hht as <-.
  destruct (check_loop_found (S (size (reqs s))) (h_id h) (h_token h) None q l1 t l2) as (m & f & Hrun & Hm & Hc & Hct' & Hfr & _).
  - pose proof (chain_size _ _ _ Hpe Hnp) as Hlen. rewrite length_app in Hlen. simpl in Hlen. lia.
  - done.
  - done.
  - done.
  - unfold matches. simpl. by rewrite Hr, Hh, Htok, !Z.eqb_refl.
  - intros b Hb. destruct (Hlive b ltac:(set_solver)) as (rb & hb & Hrb & Hhb & Htb & Hcb). split; [|simpl; eauto].
    unfold matches. simpl. rewrite Hrb, Hhb. apply not_true_is_false. intros [E1%Z.eqb_eq E2%Z.eqb_eq]%andb_true_iff.
    assert (b = t) as ->; [|by apply nodup_middle in Hnp as [_ ?]; set_solver].
    eapply (o_keys _ _ _ _ _ _ _ _ Hhe b t); try done; [apply Hin; set_solver|apply Hin; set_solver|congruence].
  - exists m, f. simpl in Hfr, Hct'. split_and!.
    + by erewrite on_pending_run by (try exact Hhd; exact Hrun).
    + exact Hc.
    + eapply queue_chain_frame; [exact Hdi|]. intros b Hb. apply Hfr; [| |done].
      * intros ->. apply NoDup_app in Hnd as (_ & Hd & _). apply (Hd t Hb). set_solver.
      * intros Hb'. apply NoDup_app in Hnd as (_ & Hd & _). apply (Hd b Hb). set_solver.
    + apply map_eq. intros b. rewrite lookup_fmap. destruct (decide (b = t)) as [->|Hne].
      * by rewrite Hm, lookup_delete_eq.
      * rewrite lookup_delete_ne, lookup_fmap by done. by apply Hct'.
Qed.

(** The vendor library completes a request of the client. *)
Lemma sap_complete_pending s k dl l1 t l2 xl done e response :
  sap_ok s k dl (l1 ++ t :: l2) xl done ->
  exists s' k' r h, sOnRequestComplete t e response s = Ret (tt, s') /\ same_connection k k' /\
    sap_ok s' k' dl (l1 ++ l2) xl (t :: done) /\ reqs s !! t = Some r /\ hdrs s !! curr r = Some h /\ calls s' = calls s /\
    (forall key, outstanding s' key -> outstanding s key) /\ reqs s' !! t = None /\ hdrs s' !! curr r = None /\
    writes s' = writes s ++ match response with
      | Some (b :: bs) => reply s k (MkMsg (h_token h) MsgType_RESPONSE (h_id h) e (Some (b :: bs)))
      | _ => [] end.
Proof.
  intros Hok. destruct (live_request _ _ _ _ _ _ t Hok) as (r & h & p & b & Hr & Hh & Hp & Hb & Hl & _ & Hct); [set_solver|].
  destruct Hl as [Htok Hsid]; [set_solver|]. unfold sOnRequestComplete. rewrite (bind_run _ _ _ _ _ (sap_load_req_run s t r Hr)).
  erewrite bind_run by reflexivity. rewrite (s_head _ _ _ _ _ _ Hok). cbn [find_socket]. rewrite Hsid, Z.eqb_refl.
  unfold onRequestComplete. rewrite (bind_run _ _ _ _ _ (sap_load_req_run s t r Hr)).
  set (resp := match response with Some _ => _ | None => _ end).
  assert (Hresp : exists s1, resp s = Ret (tt, s1) /\ sap_ok s1 k dl (l1 ++ t :: l2) xl done /\ reqs s1 = reqs s /\ hdrs s1 = hdrs s /\ pays s1 = pays s /\
    calls s1 = calls s /\ writes s1 = writes s ++ match response with
      | Some (b :: bs) => reply s k (MkMsg (h_token h) MsgType_RESPONSE (h_id h) e (Some (b :: bs))) | _ => [] end).
  { unfold resp. destruct response as [[|x bs]|]; [exists s; by rewrite app_nil_r| |exists s; by rewrite app_nil_r].
    rewrite (bind_run _ _ _ _ _ (load_hdr_run s _ h Hh)). by apply respond_ok. }
  destruct Hresp as (s1 & Hrun & Hok1 & E1 & E2 & E3 & E4 & E5). rewrite (bind_run _ _ _ _ _ Hrun).
  rewrite <- E1 in Hr, Hct. rewrite <- E2 in Hh. rewrite (bind_run _ _ _ _ _ (load_hdr_run s1 _ h Hh)).
  destruct (check_pending _ _ _ _ _ _ _ _ _ _ Hok1 Hr Hh) as (m & f & Hck & Hc1 & Hc2 & Hm). rewrite (bind_run _ _ _ _ _ Hck).
  rewrite (free_hdr_run _ (curr r) h) by done. eexists _, (with_queues (dispatchQueue k) f k), r, h. split; [done|].
  cbn -[lookup delete].
  split_and!; try done.
  - destruct Hok1 as [Hhd Hid Hfu Hdi Hpe Hhe Hve]. split; cbn -[lookup delete chain]; try done.
    + rewrite Hm. eapply (heap_drop _ _ _ _ _ _ dl (l1 ++ t :: l2) xl); [done|exact Hct|done|done|done|].
      apply removed_pending, (o_nodup _ _ _ _ _ _ _ _ Hhe).
    + rewrite Hve. rewrite <- (app_assoc l1). simpl. rewrite (app_assoc done), <- Permutation_middle. by rewrite <- !app_assoc.
  - by rewrite <- E1.
  - by rewrite <- E2.
  - intros key (a & r' & h' & Ha & H99 & Hh' & ->). cbn -[lookup delete] in Ha, Hh'. apply lookup_delete_Some in Hh' as [_ Hh'].
    assert (Hx : (content <$> m) !! a = Some (content r')) by (by rewrite lookup_fmap, Ha). rewrite Hm in Hx.
    apply lookup_delete_Some in Hx as [_ Hx].
    rewrite lookup_fmap in Hx. cbn -[lookup] in Hx. rewrite E1 in Hx. destruct (reqs s !! a) as [r2|] eqn:E; [|done]. simpl in Hx.
    injection Hx as G1 G2 G3.
    exists a, r2, h'. rewrite G2, G3, <- E2. done.
  - assert (Hx : (content <$> m) !! t = None) by (rewrite Hm; apply lookup_delete_eq). by rewrite lookup_fmap, fmap_None in Hx.
  - apply lookup_delete_eq.
Qed.

(** The vendor library completes a disconnect request. *)
Lemma complete_disconnect s k dl pl l1 t l2 done e response :
  sap_ok s k dl pl (l1 ++ t :: l2) done ->
  exists s', sOnRequestComplete t e response s = Ret (tt, s') /\ sap_ok s' k dl pl (l1 ++ l2) (t :: done) /\ calls s' = calls s /\
    writes s' = writes s /\ (forall key, outstanding s' key -> outstanding s key).
Proof.
  intros Hok. destruct (live_request _ _ _ _ _ _ t Hok) as (r & h & p & b & Hr & Hh & Hp & Hb & _ & Hx & Hct); [set_solver|].
  unfold sOnRequestComplete. rewrite (bind_run _ _ _ _ _ (sap_load_req_run s t r Hr)). erewrite bind_run by reflexivity.
  pose proof Hok as [Hhd Hid Hfu Hdi Hpe Hhe Hve]. rewrite Hhd. cbn [find_socket]. rewrite Hx by set_solver.
  pose proof socket_ids as H99. destruct (Z.eqb_spec 99 (id k)) as [E|_]; [congruence|].
  rewrite (bind_run _ _ _ _ _ (load_hdr_run s _ h Hh)).
  rewrite Hp, (bind_run _ _ _ _ _ (free_bytes_run s p b Hb)). erewrite bind_run by (by eapply free_hdr_run).
  rewrite (free_req_run _ t r) by done. eexists. split; [done|]. cbn -[lookup delete].
  pose proof (o_nodup _ _ _ _ _ _ _ _ Hhe) as Hnd.
  assert ((t ∉ dl) /\ (t ∉ pl)) as [Hn1 Hn2] by (rewrite !app_assoc in Hnd; apply nodup_middle in Hnd as [_ ?]; set_solver).
  split_and!; try done.
  - split; cbn -[lookup delete chain]; try done.
    + by apply chain_delete.
    + by apply chain_delete.
    + rewrite fmap_delete.
      eapply (heap_drop _ _ _ _ _ _ dl pl (l1 ++ t :: l2)); [done|exact Hct|done| | |by apply removed_disconnect].
      * rewrite Hp. intros p' Hne. apply lookup_delete_ne. congruence.
      * intros p' ?. apply lookup_delete_None. by right.
    + rewrite Hve. rewrite !app_assoc. rewrite <- Permutation_middle. by rewrite <- !app_assoc.
  - intros key (a & r' & h' & Ha & Hne & Hh' & ->). cbn -[lookup delete] in Ha, Hh'.
    apply lookup_delete_Some in Ha as [_ Ha]. apply lookup_delete_Some in Hh' as [_ Hh']. by exists a, r', h'.
Qed.

(** ** Closing and connecting *)

Lemma htonl_0 : htonl 0 = 0.
Proof. reflexivity. Qed.

(** The disconnect request goes to the vendor library, or is dropped when
    memory has run out. *)
Lemma sendDisconnect_ok s k dl pl xl done :
  sap_ok s k dl pl xl done ->
  exists s' xl', sendDisconnect 0 s = Ret (tt, s') /\ sap_ok s' k dl pl xl' done /\ writes s' = writes s /\
    (forall key, outstanding s' key -> outstanding s key).
Proof.
  intros Hok. unfold sendDisconnect. rewrite disconnect_empty. cbv zeta. cbn [length]. change (Z.of_nat 0) with 0.
  change (0 <=? INT32_MAX) with true. rewrite htonl_0. change (0 + 4 <? 0) with false. cbv iota.
  rewrite (bind_run _ _ _ _ _ (malloc_run s)).
  assert (Hstop : forall n, (fresh s <= n)%nat -> exists s' xl', Ret (tt, with_fresh n s) = Ret (tt, s') /\ sap_ok s' k dl pl xl' done /\ writes s' = writes s /\
    (forall key, outstanding s' key -> outstanding s key)).
  { intros n Hn. eexists _, xl. split; [done|]. split_and!; try done. by apply sap_ok_fresh. }
  destruct (malloc_ok (fresh s)); [|apply Hstop; lia]. cbn [Z.to_nat take htonl_bytes app].
  pose proof Hok as [Hhd Hid Hfu Hdi Hpe Hhe Hve]. set (n := fresh s) in *.
  assert (Hfree : forall c, (n <= c)%nat -> reqs s !! c = None /\ hdrs s !! c = None /\ pays s !! c = None).
  { intros c Hc. destruct (o_fresh _ _ _ _ _ _ _ _ Hhe c Hc) as (F & ? & ?). by rewrite lookup_fmap, fmap_None in F. }
  destruct (Hfree n ltac:(lia)) as (_ & _ & Fp), (Hfree (S n) ltac:(lia)) as (_ & Fh & _), (Hfree (S (S n)) ltac:(lia)) as (Fr & _ & _).
  erewrite bind_run by reflexivity. erewrite bind_run by apply malloc_run. cbn [fresh with_pays with_fresh].
  destruct (malloc_ok (S n)).
  2: { erewrite free_bytes_run by (cbn -[lookup insert]; apply lookup_insert_eq). cbn -[lookup insert delete]. fold n.
       rewrite delete_insert_id by done.
    destruct (Hstop (S (S n)) ltac:(lia)) as (s' & xl' & E & H). injection E as <-. eexists _, xl'. split; [done|exact H]. }
  erewrite bind_run by reflexivity. unfold dispatchDisconnect. erewrite bind_run by apply malloc_run.
  set (hd := Header _ _ _ _ _). erewrite bind_run by (apply (load_hdr_run _ _ hd); cbn -[lookup insert]; apply lookup_insert_eq).
  cbn [fresh with_hdrs with_pays with_fresh]. destruct (malloc_ok (S (S n))).
  - erewrite bind_run by reflexivity. unfold onRequest. erewrite bind_run by (by apply this_run). rewrite Hfu.
    cbn [negb hd h_payload].
    erewrite bind_run by (apply load_bytes_run; cbn -[lookup insert]; apply lookup_insert_eq). eexists _, (S (S n) :: xl).
    split; [done|]. split_and!; try done.
    + split; cbn -[lookup insert chain]; try done.
      * apply chain_insert; [done|]. intros Hin. destruct (queue_chain_lookup _ _ _ _ Hdi Hin). congruence.
      * apply chain_insert; [done|]. intros Hin. destruct (queue_chain_lookup _ _ _ _ Hpe Hin). congruence.
      * rewrite fmap_insert. apply (heap_fresh_more _ _ _ (S (Nat.max (S (S n)) (Nat.max (S n) n)))); [lia|].
        apply (heap_add _ _ _ n _ dl _ xl); [done|lia|lia|lia|done|]. right. done.
      * rewrite fmap_app. simpl. rewrite Hve, <- Permutation_cons_append, !(app_assoc done). apply Permutation_middle.
    + intros key (a & r' & h' & Ha & H99 & Hh' & ->). cbn -[lookup insert] in Ha, Hh'.
      apply lookup_insert_Some in Ha as [[<- <-]|[Hne Ha]]; [done|].
      exists a, r', h'. split_and!; try done. rewrite lookup_insert_ne in Hh'; [done|]. intros E. rewrite <- E in Hh'.
      destruct (o_req _ _ _ _ _ _ _ _ Hhe a (token r') (curr r') (socketId r')) as (h2 & _ & _ & G & _); [by rewrite lookup_fmap, Ha|congruence].
  - cbn [hd h_payload]. erewrite bind_run by (apply free_bytes_run with (b := []); cbn -[lookup insert]; apply lookup_insert_eq).
    erewrite free_hdr_run by (cbn -[lookup insert]; apply lookup_insert_eq). cbn -[lookup insert delete]. fold n.
    rewrite !delete_insert_id by done.
    destruct (Hstop (S (S (S n))) ltac:(lia)) as (s' & xl' & E & H). injection E as <-. eexists _, xl'. split; [done|exact H].
Qed.

(** The keys of the records are new. *)
Definition keys_free (s : sap) (records : list (list Z)) : Prop :=
  NoDup (omap record_key records) /\ (forall key, key ∈ omap record_key records -> ~ outstanding s key).

Definition push_all (records : list (list Z)) : SM unit := foldr (fun r m => pushRecord 0 r;; m) (mret tt) records.

Lemma push_all_ok records : forall s k dl pl xl done,
  sap_ok s k dl pl xl done -> keys_free s records ->
  exists s' k' dl', push_all records s = Ret (tt, s') /\ sap_ok s' k' dl' pl xl done /\ same_connection k k' /\ writes s' = writes s.
Proof.
  induction records as [|r records IH]; intros s k dl pl xl done Hok [Hnd Hfree].
  - exists s, k, dl. split; [done|]. split; [done|]. by repeat split.
  - destruct (pushRecord_ok _ _ _ _ _ _ r Hok) as (s1 & k1 & dl1 & Hrun & Hok1 & Hc1 & Hw1 & _ & Hout).
    { intros key E. apply Hfree. simpl. rewrite E. apply list_elem_of_here. }
    destruct (IH s1 k1 dl1 pl xl done Hok1) as (s2 & k2 & dl2 & Hrun2 & Hok2 & Hc2 & Hw2).
    { simpl in *. destruct (record_key r) as [key|] eqn:E.
      - apply NoDup_cons in Hnd as [Hn Hnd]. split; [done|]. intros key' Hk' Ho. destruct (Hout _ Ho) as [Ho'|[= ->]]; [|done].
        apply (Hfree key'); [by apply list_elem_of_further|done].
      - split; [done|]. intros key' Hk' Ho. destruct (Hout _ Ho) as [Ho'|Ho']; [by apply (Hfree key')|done]. }
    exists s2, k2, dl2. split; [|split; [done|]; unfold same_connection in *; intuition congruence].
    unfold push_all. cbn [foldr]. by rewrite (bind_run _ _ _ _ _ Hrun).
Qed.

(** The state of the connection: the socket listens without a client. *)
Definition conn_ok (k : RilSapSocket) : Prop :=
  (listening k = true -> commandFd k = -1) /\ (watched k = true -> 0 <= commandFd k) /\ (watched k = false -> commandFd k = -1).

Lemma conn_ok_same k k' : conn_ok k -> same_connection k k' -> conn_ok k'.
Proof. unfold conn_ok. intros (? & ? & ?) (E1 & E2 & E3 & E4 & _). rewrite E1, E3, E4. done. Qed.

Lemma socketRequestsHandler_ok s k dl pl xl done records ending :
  sap_ok s k dl pl xl done -> conn_ok k -> keys_free s records ->
  exists s' k' dl' xl', socketRequestsHandler 0 (commandFd k) records ending s = Ret (tt, s') /\ sap_ok s' k' dl' pl xl' done /\ conn_ok k' /\
    writes s' = writes s.
Proof.
  intros Hok Hcn Hfree. unfold socketRequestsHandler. erewrite bind_run by (apply this_run, (s_head _ _ _ _ _ _ Hok)).
  rewrite Z.eqb_refl. cbn [negb].
  fold (push_all records). destruct (push_all_ok _ _ _ _ _ _ _ Hok Hfree) as (s1 & k1 & dl1 & Hrun & Hok1 & Hc1 & Hw1).
  rewrite (bind_run _ _ _ _ _ Hrun).
  pose proof (s_head _ _ _ _ _ _ Hok1) as Hh1.
  assert (Hclosed : exists s' k' dl' xl', (update 0 (with_command (-1) false);; k ← this 0; update 0 (with_listen (listenFd k) true);; onCommandsSocketClosed 0) s1 = Ret (tt, s') /\
    sap_ok s' k' dl' pl xl' done /\ conn_ok k' /\ writes s' = writes s).
  { rewrite (bind_run _ _ _ _ _ (sap_update_run _ _ _ Hh1)). erewrite bind_run by (by apply this_run).
    erewrite bind_run by (by apply sap_update_run).
    set (k2 := with_listen _ _ _).
    assert (Hok2 : sap_ok (with_head [k2] (with_head [with_command (-1) false k1] s1)) k2 dl1 pl xl done).
    { apply (sap_ok_socket (with_head [with_command (-1) false k1] s1) (with_command (-1) false k1)); try done.
      by eapply sap_ok_socket. }
    destruct (sendDisconnect_ok _ _ _ _ _ _ Hok2) as (s' & xl' & Hr & Hok' & Hw & _). exists s', k2, dl1, xl'.
    split_and!; try done. by rewrite Hw. }
  destruct ending; [|done|done]. exists s1, k1, dl1, xl. split_and!; try done. by eapply conn_ok_same.
Qed.

Lemma listenCallback_ok s k dl pl xl done accepted is_bluetooth :
  sap_ok s k dl pl xl done -> commandFd k = -1 -> watched k = false ->
  exists s' k' xl', listenCallback 0 accepted is_bluetooth s = Ret (tt, s') /\ sap_ok s' k' dl pl xl' done /\ writes s' = writes s /\
    (conn_ok k' \/ listening k = true) .
Proof.
  intros Hok Hfd Hwt. unfold listenCallback. pose proof (s_head _ _ _ _ _ _ Hok) as Hh. erewrite bind_run by (by apply this_run).
  rewrite Hfd.
  change (negb (-1 <? 0)) with false. destruct (Z.ltb_spec accepted 0).
  - rewrite (sap_update_run _ _ _ Hh). eexists _, _, xl. split; [done|]. split; [by eapply sap_ok_socket|]. split; [done|]. left.
    repeat split; simpl; congruence.
  - destruct is_bluetooth; cbn [negb].
    + rewrite (bind_run _ _ _ _ _ (sap_update_run _ _ _ Hh)). unfold onNewCommandConnect. erewrite sap_update_run by done.
      eexists _, _, xl. split; [done|].
      split; [eapply sap_ok_socket; [by eapply sap_ok_socket|done..]|]. split; [done|].
      destruct (listening k) eqn:El; [by right|left]. repeat split; simpl; congruence.
    + destruct (sendDisconnect_ok _ _ _ _ _ _ Hok) as (s1 & xl' & Hr & Hok1 & Hw & _). unfold onCommandsSocketClosed.
      rewrite (bind_run _ _ _ _ _ Hr).
      pose proof (s_head _ _ _ _ _ _ Hok1) as Hh1. erewrite bind_run by (by apply this_run). rewrite (sap_update_run _ _ _ Hh1).
      eexists _, _, xl'. split; [done|]. split; [by eapply sap_ok_socket|]. split; [done|]. left. repeat split; simpl; congruence.
Qed.

End System.
