(* ===== verification/SapProps.v ===== *)
(** * Theorems about the SAP socket

    The events of the SAP socket in any order: records from the client, the
    request threads, answers and notifications of the vendor library, new
    connections.  The client does not use a message id and token again before
    it is answered, and the vendor library completes each token once. *)

From S2P Require Import Prelude RilQueue SapSocket SapInv SapSystem.

Section Events.
Context {A : SapApi}.

Inductive event : Type :=
| Records (records : list (list Z)) (ending : stream_end)
| Process
| Complete (t : nat) (e : Z) (response : option (list Z))
| Unsolicited (unsolResponse : Z) (data : option (list Z))
| Connect (accepted : Z) (is_bluetooth : bool).

(** The event loop removes the listen event, which is not persistent, before
    it calls the callback. *)
Definition handle (ev : event) : SM unit :=
  match ev with
  | Records records ending => k ← this 0; socketRequestsHandler 0 (commandFd k) records ending
  | Process => processRequest 0
  | Complete t e response => sOnRequestComplete t e response
  | Unsolicited unsolResponse data => sOnUnsolicitedResponse unsolResponse data
  | Connect accepted is_bluetooth =>
      k ← this 0;
      update 0 (with_listen (listenFd k) false);;
      listenCallback 0 accepted is_bluetooth
  end.

(** When the program itself lets an event happen: the socket is watched, a
    thread has been started, the listening socket is in the event loop. *)
Definition enabled (s : sap) (ev : event) : Prop :=
  match ev with
  | Records _ _ => exists k, head s = [k] /\ watched k = true
  | Process => exists k, head s = [k] /\ (0 < threads k)%nat
  | Complete _ _ _ | Unsolicited _ _ => True
  | Connect _ _ => exists k, head s = [k] /\ listening k = true
  end.

(** What the program relies on and does not check: the client sends no message
    id and token that is not answered yet, and the vendor library completes
    what it was given, each token once ([done]: completed tokens). *)
Definition disciplined (s : sap) (done : list nat) (ev : event) : Prop :=
  match ev with
  | Records records _ => keys_free s records
  | Complete t _ _ => t ∈ v_token <$> calls s /\ t ∉ done
  | _ => True
  end.

Definition now_done (ev : event) (done : list nat) : list nat := match ev with Complete t _ _ => t :: done | _ => done end.

Inductive sap_step : sap * list nat -> sap * list nat -> Prop :=
| sap_event s s' done ev : enabled s ev -> disciplined s done ev -> handle ev s = Ret (tt, s') -> sap_step (s, done) (s', now_done ev done).

(** The daemon has registered the vendor library and has the socket. *)
Definition started (s : sap) : Prop := RIL_register_socket (Some true) no_sockets = Ret (tt, s) /\ head s <> [].

Definition reachable (s : sap) (done : list nat) : Prop := exists s0, started s0 /\ rtc sap_step (s0, []) (s, done).

End Events.

Section Theorems.
Context {A : SapApi} {L : SapLaws A}.

Definition sap_inv (s : sap) (done : list nat) : Prop := exists k dl pl xl, sap_ok s k dl pl xl done /\ conn_ok k.

Lemma handle_ok s done ev : sap_inv s done -> enabled s ev -> disciplined s done ev -> exists s', handle ev s = Ret (tt, s') /\ sap_inv s' (now_done ev done).
Proof.
  intros (k & dl & pl & xl & Hok & Hcn) Hev Hdi. pose proof (s_head _ _ _ _ _ _ Hok) as Hh.
  destruct ev as [records ending| |t e response|code data|fd bt]; cbn [handle now_done].
  - rename Hdi into Hfree. rewrite (bind_run _ _ _ _ _ (this_run s k Hh)).
    destruct (socketRequestsHandler_ok _ _ _ _ _ _ records ending Hok Hcn Hfree) as (s' & k' & dl' & xl' & Hr & Hok' & Hcn' & _).
    exists s'. split; [done|]. by exists k', dl', pl, xl'.
  - destruct (processRequest_ok _ _ _ _ _ _ Hok) as (s' & k' & Hr & Hc & _ & _ & Hres). exists s'. split; [done|].
    destruct dl as [|a dl]; [destruct Hres as [Hok' _]|destruct (malloc_ok (fresh s)); destruct Hres as [Hok' _]]; eexists k', _, _, _; split; eauto using conn_ok_same.
  - destruct Hdi as [Hin Hnd]. rewrite (s_vendor _ _ _ _ _ _ Hok) in Hin.
    apply elem_of_app in Hin as [?|[Ht|Ht]%elem_of_app]; [done|..];
      apply list_elem_of_split in Ht as (l1 & l2 & ->).
    + destruct (sap_complete_pending _ _ _ _ _ _ _ _ e response Hok) as (s' & k' & r & h & Hr & Hc & Hok' & _). exists s'.
      split; [done|].
      eexists k', _, _, _. eauto using conn_ok_same.
    + destruct (complete_disconnect _ _ _ _ _ _ _ _ e response Hok) as (s' & Hr & Hok' & _). exists s'. split; [done|].
      by eexists k, _, _, _.
  - unfold sOnUnsolicitedResponse. erewrite bind_run by reflexivity. rewrite Hh. cbn [find_socket].
    rewrite (s_id _ _ _ _ _ _ Hok), Z.eqb_refl.
    assert (Hsame : exists s', Ret (tt, s) = Ret (tt, s') /\ sap_inv s' done) by (exists s; split; [done|]; by exists k, dl, pl, xl).
    destruct data as [[|b bs]|]; [done| |done]. unfold onUnsolicitedResponse.
    destruct (respond_ok s k dl pl xl done stack_garbage MsgType_UNSOL_RESPONSE code Error_RIL_E_SUCCESS (b :: bs) Hok) as (s' & Hr & Hok' & _).
    exists s'. split; [done|]. by exists k, dl, pl, xl.
  - destruct Hev as (k0 & Hh0 & Hl). rewrite Hh in Hh0. injection Hh0 as <-. destruct Hcn as (Hc1 & Hc2 & Hc3).
    specialize (Hc1 Hl).
    rewrite (bind_run _ _ _ _ _ (this_run s k Hh)). erewrite bind_run by (by apply sap_update_run). set (k1 := with_listen _ _ k).
    assert (Hok1 : sap_ok (with_head [k1] s) k1 dl pl xl done) by (by eapply sap_ok_socket).
    destruct (listenCallback_ok _ _ _ _ _ _ fd bt Hok1) as (s' & k' & xl' & Hr & Hok' & _ & Hcn').
    { done. } { simpl. destruct (watched k); [|done]. specialize (Hc2 eq_refl). lia. }
    exists s'. split; [done|]. exists k', dl, pl, xl'. split; [done|]. destruct Hcn' as [|Hl']; [done|]. done.
Qed.

(** The list without sockets is empty after the registration when memory ran out. *)
Lemma started_inv s : started s -> sap_inv s [].
Proof.
  intros [Hr Hne]. unfold RIL_register_socket, initSapSocket in Hr. pose proof one_sim as H1.
  assert ((2 <=? SIM_COUNT) = false) as E2 by lia. assert ((3 <=? SIM_COUNT) = false) as E3 by lia.
  assert ((4 <=? SIM_COUNT) = false) as E4 by lia.
  rewrite E2, E3, E4 in Hr. unfold init_one, addSocketToList, SocketExists, malloc in Hr. rewrite bool_decide_true in Hr by done.
  unfold mbind, M_bind in Hr. cbn -[lookup insert socketInit] in Hr.
  destruct (malloc_ok 0); cbn -[lookup insert socketInit] in Hr; [|by injection Hr as <-].
  assert (Hgo : forall fd l, sap_inv (Sap ∅ ∅ ∅ 1 [with_listen fd l (new_RilSapSocket "sap_uim_socket1" (RIL_SOCKET 1) true)] [] []) []).
  { intros fd l. exists (with_listen fd l (new_RilSapSocket "sap_uim_socket1" (RIL_SOCKET 1) true)), [], [], [].
    split; [|by repeat split]. split; try done. cbn [reqs hdrs pays]. rewrite fmap_empty. split; try done. by constructor. }
  unfold socketInit, update, this in Hr. unfold mbind, M_bind in Hr. cbn in Hr.
  destruct (_ <? 0) in Hr; cbn in Hr; injection Hr as <-; apply Hgo.
Qed.

Lemma sap_reachable_inv s done : reachable s done -> sap_inv s done.
Proof.
  intros (s0 & Hs & Hr). apply started_inv in Hs. remember (s0, []) as x eqn:Ex. remember (s, done) as y eqn:Ey.
  revert s0 s done Ex Ey Hs.
  assert (H : forall x y, rtc sap_step x y -> sap_inv x.1 x.2 -> sap_inv y.1 y.2).
  { induction 1 as [|x1 x2 x3 Hst _ IH]; [done|]. intros Hi. apply IH. destruct Hst as [s s' done ev Hev Hdi Hh].
    destruct (handle_ok s done ev Hi Hev Hdi) as (s2 & Hh2 & Hi2).
    rewrite Hh in Hh2. by injection Hh2 as <-. }
  intros s0 s done -> -> Hi. exact (H _ _ Hr Hi).
Qed.

(** C33: as long as the client does not use a message id and token again before
    it is answered, and the vendor library completes what it was given and each
    token once ([disciplined]; the code checks neither, and a token that is
    used twice makes it read freed memory: [duplicate_token_use_after_free]),
    every event that the program lets happen is handled without touching freed
    memory, in any order of such events; each request block is on the
    dispatch queue, on the pending queue or a disconnect request, once, and
    has its header; and the tokens given to the vendor library are those that
    it has completed and those that still exist. *)
Theorem sap_requests_are_safe s done :
  reachable s done ->
  (forall ev, enabled s ev -> disciplined s done ev -> exists s', handle ev s = Ret (tt, s')) /\
  exists k dl pl xl, head s = [k] /\ chain (reqs s) (dispatchQueue k) dl /\ chain (reqs s) (pendingResponseQueue k) pl /\
    NoDup (dl ++ pl ++ xl) /\ dom (reqs s) = list_to_set (dl ++ pl ++ xl) /\
    (forall a r, reqs s !! a = Some r -> is_Some (hdrs s !! curr r)) /\
    v_token <$> calls s ≡ₚ done ++ pl ++ xl.
Proof.
  intros Hr. apply sap_reachable_inv in Hr. split.
  - intros ev Hev Hdi. destruct (handle_ok s done ev Hr Hev Hdi) as (s' & ? & _). eauto.
  - destruct Hr as (k & dl & pl & xl & [? ? ? ? ? Hhe ?] & _). exists k, dl, pl, xl. split_and!; try done; [apply Hhe| |].
    + rewrite <- (o_dom _ _ _ _ _ _ _ _ Hhe). by rewrite dom_fmap_L.
    + intros a r Ha.
      destruct (o_req _ _ _ _ _ _ _ _ Hhe a (token r) (curr r) (socketId r)) as (h & _ & _ & ? & _); [by rewrite lookup_fmap, Ha|eauto].
Qed.

(** C34: when the vendor library completes a request of the client with data,
    and the client is connected and memory is left, exactly one frame is
    written to the connection: the length of the message and a message that
    is decoded to the token and id of the request, the error and the data;
    without data nothing is written.  The request and its header are freed. *)
Theorem sap_completion_answers s done t e response r h k :
  reachable s done -> t ∈ v_token <$> calls s -> t ∉ done -> head s = [k] ->
  reqs s !! t = Some r -> socketId r = id k -> hdrs s !! curr r = Some h ->
  exists s', sOnRequestComplete t e response s = Ret (tt, s') /\ reqs s' !! t = None /\ hdrs s' !! curr r = None /\
    match response with
    | Some (b :: bs) =>
        if malloc_ok (fresh s) && negb (commandFd k =? -1) then
          match pb_encode (MkMsg (h_token h) MsgType_RESPONSE (h_id h) e response) with
          | Some m =>
              pb_decode m = Some (MkMsg (h_token h) MsgType_RESPONSE (h_id h) e response) /\
              (Z.of_nat (length m) <= INT32_MAX -> writes s' = writes s ++ [(commandFd k, htonl_bytes (Z.of_nat (length m)) ++ m)])
          | None => writes s' = writes s
          end
        else writes s' = writes s
    | _ => writes s' = writes s
    end.
Proof.
  intros Hr Hin Hnd Hh Hreq Hsid Hhdr. apply sap_reachable_inv in Hr as (k0 & dl & pl & xl & Hok & Hcn).
  rewrite (s_head _ _ _ _ _ _ Hok) in Hh. injection Hh as ->.
  rewrite (s_vendor _ _ _ _ _ _ Hok) in Hin. apply elem_of_app in Hin as [?|[Ht|Ht]%elem_of_app]; [done| |].
  2: { destruct (live_request _ _ _ _ _ _ t Hok) as (r' & h' & p & b & Hr' & _ & _ & _ & _ & H99 & _); [set_solver|].
       rewrite Hreq in Hr'. injection Hr' as <-.
    pose proof socket_ids. rewrite (H99 Ht), (s_id _ _ _ _ _ _ Hok) in Hsid. congruence. }
  apply list_elem_of_split in Ht as (l1 & l2 & ->).
  destruct (sap_complete_pending _ _ _ _ _ _ _ _ e response Hok) as (s' & k' & r' & h' & Hrun & _ & _ & Hr' & Hh' & _ & _ & Hf1 & Hf2 & Hw).
  simplify_eq.
  exists s'. split_and!; try done. destruct response as [[|b bs]|]; [by rewrite app_nil_r in Hw| |by rewrite app_nil_r in Hw].
  unfold reply, frames in Hw. destruct (malloc_ok (fresh s)); [|by rewrite app_nil_r in Hw]. cbn [andb].
  destruct (pb_encode _) as [m|] eqn:Em; [|rewrite app_nil_r in Hw; by destruct (negb _)].
  destruct (negb (commandFd k =? -1)); [|rewrite andb_false_r, app_nil_r in Hw; done]. rewrite andb_true_r in Hw.
  split; [by apply decode_encode|].
  intros Hle%Z.leb_le. by rewrite Hle in Hw.
Qed.

End Theorems.
