(* ===== verification/SapRuns.v ===== *)
(** * Runs of the SAP socket

    A codec for the messages, runs that meet the hypotheses of the theorems,
    and runs that show what happens when they are not met. *)

From S2P Require Import Prelude RilQueue SapSocket SapInv SapSystem SapProps.

(** ** A concrete codec *)

Definition simple_encode (m : Msg) : option (list Z) :=
  match m_payload m with Some b => Some (m_token m :: m_type m :: m_id m :: m_error m :: b) | None => None end.
Definition simple_decode (r : list Z) : option Msg :=
  match r with tok :: ty :: mid :: err :: b => Some (MkMsg tok ty mid err (Some b)) | _ => None end.

#[export] Instance simple_api : SapApi := {|
  pb_encode := simple_encode; pb_decode := simple_decode; encode_disconnect := Some [];
  MsgType_REQUEST := 1; MsgType_RESPONSE := 2; MsgType_UNSOL_RESPONSE := 3;
  MsgId_RIL_SIM_SAP_DISCONNECT := 2; Error_RIL_E_SUCCESS := 0;
  RIL_SOCKET := fun n => Z.of_nat n - 1; SIM_COUNT := 1; stack_garbage := 77;
  malloc_ok := fun _ => true; android_get_control_socket := fun _ => 3; listen_result := fun _ => 0
|}.

#[export] Instance simple_laws : SapLaws simple_api.
Proof.
  split; try done.
  - intros r m. cbn. unfold simple_decode. destruct r as [|? [|? [|? [|? ?]]]]; try done. by intros [= <-].
  - intros [tok ty mid err [b|]] bs; cbn; [|done]. by intros [= <-].
Qed.

Definition run (l : list event) (s : sap) : sap :=
  foldl (fun s ev => match handle ev s with Ret (_, s') => s' | _ => s end) s l.

Definition registered : sap := match RIL_register_socket (Some true) no_sockets with Ret (_, s) => s | _ => no_sockets end.
Definition connected : sap := run [Connect 7 true] registered.

(** A request with token 5 and id 1, and the same with token 6. *)
Definition request5 : list Z := [5; 1; 1; 0; 170].
Definition request6 : list Z := [6; 1; 1; 0; 171].

Definition queued : sap := run [Records [request5; request6] WouldBlock] connected.
Definition half_dispatched : sap := run [Process] queued.
Definition dispatched : sap := run [Process] half_dispatched.

Lemma registered_started : started registered.
Proof. split; [vm_compute; reflexivity|done]. Qed.

(** Without requests every key is new. *)
Lemma keys_free_empty s records : reqs s = ∅ -> NoDup (omap record_key records) -> keys_free s records.
Proof. intros E Hn. split; [done|]. intros key _ (a & r & h & Ha & _). rewrite E, lookup_empty in Ha. done. Qed.

Lemma step_run s ev done : enabled s ev -> disciplined s done ev -> handle ev s = Ret (tt, run [ev] s) -> sap_step (s, done) (run [ev] s, now_done ev done).
Proof. apply sap_event. Qed.

Lemma queued_reachable : reachable queued [].
Proof.
  exists registered. split; [exact registered_started|].
  apply (rtc_l _ _ (connected, [])); [apply (step_run registered (Connect 7 true)); [eexists; split; vm_compute; reflexivity|done|vm_compute; reflexivity]|].
  apply rtc_once. apply (step_run connected (Records [request5; request6] WouldBlock)); [eexists; split; vm_compute; reflexivity| |vm_compute; reflexivity].
  apply keys_free_empty; [vm_compute; reflexivity|]. change (NoDup [(1, 5); (1, 6)]). repeat (constructor; [set_solver|]).
  constructor.
Qed.

Lemma dispatched_reachable : reachable dispatched [].
Proof.
  destruct queued_reachable as (s0 & H0 & Hr). exists s0. split; [done|]. etrans; [exact Hr|].
  apply (rtc_l _ _ (half_dispatched, [])); [apply (step_run queued Process); [eexists; split; [vm_compute; reflexivity|vm_compute; lia]|done|vm_compute; reflexivity]|].
  apply rtc_once.
  apply (step_run half_dispatched Process); [eexists; split; [vm_compute; reflexivity|vm_compute; lia]|done|vm_compute; reflexivity].
Qed.

(** ** The queue is last in, first out *)

Lemma newest_request_first : map v_data (calls dispatched) = [[171]; [170]].
Proof. vm_compute. reflexivity. Qed.

Definition token6 : nat := match calls dispatched with c :: _ => v_token c | [] => 0%nat end.
Definition sap_socket : RilSapSocket := match head dispatched with k :: _ => k | [] => new_RilSapSocket "" 0 true end.
Definition request_of (t : nat) (s : sap) : SapSocketRequest := default (Request 0 0 None 0) (reqs s !! t).
Definition header_of (t : nat) (s : sap) : MsgHeader := default (Header 0 0 0 0 None) (hdrs s !! curr (request_of t s)).

(** The theorem with both requests at the vendor library. *)
Lemma sap_requests_are_safe_witness : disciplined dispatched [] (Complete token6 0 (Some [1; 2])) /\
  exists s', handle (Complete token6 0 (Some [1; 2])) dispatched = Ret (tt, s').
Proof.
  assert (Hc : disciplined dispatched [] (Complete token6 0 (Some [1; 2]))) by (split; [apply list_elem_of_In; vm_compute; auto|by apply not_elem_of_nil]).
  split; [exact Hc|]. exact (proj1 (@sap_requests_are_safe simple_api simple_laws dispatched [] dispatched_reachable) (Complete token6 0 (Some [1; 2])) I Hc).
Defined.

(** The theorem for the newer request. *)
Lemma sap_completion_answers_witness : exists s',
  sOnRequestComplete token6 0 (Some [1; 2]) dispatched = Ret (tt, s') /\ reqs s' !! token6 = None /\
  hdrs s' !! curr (request_of token6 dispatched) = None.
Proof.
  destruct (@sap_completion_answers simple_api simple_laws dispatched [] token6 0 (Some [1; 2]) (request_of token6 dispatched) (header_of token6 dispatched) sap_socket
    dispatched_reachable ltac:(apply list_elem_of_In; vm_compute; auto) ltac:(apply not_elem_of_nil)
    ltac:(vm_compute; reflexivity) ltac:(vm_compute; reflexivity) ltac:(vm_compute; reflexivity) ltac:(vm_compute; reflexivity)) as (s' & H1 & H2 & H3 & _).
  exists s'. exact (conj H1 (conj H2 H3)).
Defined.

(** ** What the client and the vendor library must not do *)

(** Two requests with one id and token: completing the older one frees the
    block of the newer one, and completing that one reads freed memory. *)
Lemma duplicate_token_use_after_free :
  let s := run [Records [request5; request5] WouldBlock; Process; Process] connected in
  match map v_token (calls s) with
  | [t1; t2] => handle (Complete t2 0 (Some [1])) (run [Complete t1 0 (Some [1])] s) = Fault \/ handle (Complete t1 0 (Some [1])) (run [Complete t2 0 (Some [1])] s) = Fault
  | _ => False
  end.
Proof. vm_compute. auto. Qed.

(** The answer of a request of an old connection goes to the new client. *)
Lemma answer_goes_to_new_client :
  let s := run [Records [request5] WouldBlock; Process; Records [] EndOfStream; Connect 8 true] connected in
  match map v_token (calls s) with
  | t :: _ => writes (run [Complete t 0 (Some [1])] s) = [(8, htonl_bytes 5 ++ [5; 2; 1; 0; 1])]
  | [] => False
  end.
Proof. vm_compute. reflexivity. Qed.

(** A notification without a socket calls a member of a null pointer. *)
Lemma unsolicited_without_socket : sOnUnsolicitedResponse 4 (Some [1]) no_sockets = Fault.
Proof. reflexivity. Qed.

(** The payload of an answered request is never freed. *)
Lemma payload_is_leaked :
  let s := run [Complete token6 0 (Some [1])] dispatched in
  size (reqs s) = 1%nat /\ size (hdrs s) = 1%nat /\ size (pays s) = 2%nat.
Proof. vm_compute. auto. Qed.

(** The size of the disconnect message is used in network byte order: a
    message of one byte would be copied from far behind its buffer. *)
Lemma disconnect_size_is_swapped : htonl 1 = 2 ^ 24.
Proof. reflexivity. Qed.
