(* ===== verification/SapLog.v ===== *)
(** * libril/RilSapSocket.cpp: the hex dump of SAP messages

    [log_hex] prints the bytes of a message in lines of sixteen, which it
    builds in an array of 80 characters.  Each message that the SAP socket
    receives or sends goes through it. *)

From S2P Require Import Prelude Texts.

(** ** State *)

(** [out], the position of the bytes in [source], that of the text in [dest],
    the bytes of this line; [logged]: the lines. *)
Record hex_log : Type := HexLog { out : list Z; source : Z; dest : Z; per_line : Z; logged : list (list Z) }.

Definition dest_len : Z := 80.
Definition BYTES_PER_LINE : Z := 16.

Abbreviation HM := (M hex_log).

(** [out[dest++] = x]. *)
Definition put_out (x : Z) : HM unit := fun s =>
  if (0 <=? dest s) && (dest s <? dest_len) then
    Ret (tt, HexLog (<[Z.to_nat (dest s) := x]> (out s)) (source s) (dest s + 1) (per_line s) (logged s))
  else Fault.

(** ** Digits *)

Definition NIBBLE_TO_HEX (n : Z) : Z := if 10 <=? n then 65 + n - 10 else 48 + n.
Definition HEX_HIGH (b : Z) : Z := NIBBLE_TO_HEX (Z.land (Z.shiftr b 4) 15).
Definition HEX_LOW (b : Z) : Z := NIBBLE_TO_HEX (Z.land b 15).

(** "%8.8s": the first eight characters, with blanks before them. *)
Definition format_name (who : list Z) : list Z := let w := take 8 who in replicate (8 - length w) 32 ++ w.

(** "%8.8x": eight small digits. *)
Definition small_digit (n : Z) : Z := if 10 <=? n then 97 + n - 10 else 48 + n.
Definition format_hex (v : Z) : list Z := map (fun shift => small_digit (Z.land (Z.shiftr v shift) 15)) [28; 24; 20; 16; 12; 8; 4; 0].

(** "%8.8s [%8.8x] ". *)
Definition header (who : list Z) (v : Z) : list Z := format_name who ++ [32; 91] ++ format_hex v ++ [93; 32].

(** [dest += sprintf(out, ...)], with the zero at the end. *)
Definition sprintf_header (who : list Z) : HM unit := fun s =>
  let text := header who (source s) in
  if (length text <? length (out s))%nat then
    Ret (tt, HexLog (text ++ 0 :: drop (S (length text)) (out s)) (source s) (dest s + Z.of_nat (length text)) (per_line s) (logged s))
  else Fault.

Definition RLOGD : HM unit := fun s =>
  match c_string (out s) with
  | None => Fault
  | Some line => Ret (tt, HexLog (out s) (source s) (dest s) (per_line s) (logged s ++ [line]))
  end.

(** ** The loops *)

Definition read_byte (buffer : list Z) : HM Z := fun s =>
  if source s <? 0 then Fault else match buffer !! Z.to_nat (source s) with Some b => Ret (b, s) | None => Fault end.

Definition next_byte : HM unit := fun s => Ret (tt, HexLog (out s) (source s + 1) (dest s) (per_line s + 1) (logged s)).
Definition reset_line : HM unit := fun s => Ret (tt, HexLog (out s) (source s) 0 0 (logged s)).

(** The bytes of a line: at most sixteen rounds, and the test after them. *)
Fixpoint line_loop (fuel : nat) (buffer : list Z) (length : Z) : HM unit :=
  match fuel with
  | O => fault
  | S fuel' =>
      s ← get;
      if (source s <? length) && (3 <? dest_len - dest s) && (per_line s <? BYTES_PER_LINE) then
        b ← read_byte buffer;
        put_out (HEX_HIGH b);;
        put_out (HEX_LOW b);;
        put_out 32;;
        next_byte;;
        line_loop fuel' buffer length
      else mret tt
  end.

Definition line_fuel : nat := 17.

(** The lines. *)
Fixpoint lines_loop (fuel : nat) (who buffer : list Z) (length : Z) : HM unit :=
  match fuel with
  | O => fault
  | S fuel' =>
      sprintf_header who;;
      line_loop line_fuel buffer length;;
      s ← get;
      (if (dest s <? dest_len) && ((per_line s =? BYTES_PER_LINE) || (length <=? source s)) then
         put_out 0;;
         reset_line;;
         RLOGD
       else mret tt);;
      s ← get;
      if (source s <? length) && (dest s <? dest_len) then lines_loop fuel' who buffer length else mret tt
  end.

(** [junk]: the array before it is written; the lines that were logged. *)
Definition log_hex (fuel : nat) (junk who buffer : list Z) (length : Z) : outcome (list (list Z)) :=
  match lines_loop fuel who buffer length (HexLog junk 0 0 0 []) with
  | Ret (_, s) => Ret (logged s)
  | Abort => Abort
  | Fault => Fault
  end.

(** ** What it should print *)

(** The characters of a text. *)
Definition chars (t : string) : list Z := map (fun a => Z.of_N (Strings.Ascii.N_of_ascii a)) (Strings.String.list_ascii_of_string t).

(** A number written with [n] digits of base 16, the highest first. *)
Definition digit_of (digits : string) (n : Z) : Z := nth (Z.to_nat n) (chars digits) 0.
Fixpoint base16 (digits : string) (n : nat) (v : Z) : list Z :=
  match n with
  | O => []
  | S n' => base16 digits n' (v / 16) ++ [digit_of digits (v mod 16)]
  end.

(** The name in eight columns, at the right or cut off; the number of the first
    byte in brackets; and each byte with a blank behind it. *)
Definition dump_line (who : list Z) (v : Z) (bytes : list Z) : list Z :=
  (if decide (8 <= length who)%nat then take 8 who else replicate (8 - length who) 32 ++ who) ++
  chars " [" ++ base16 "0123456789abcdef" 8 v ++ chars "] " ++
  concat (map (fun b => base16 "0123456789ABCDEF" 2 b ++ chars " ") bytes).

(** The lines of a message: sixteen bytes each, and one line for an empty
    message. *)
Definition line_count (data : list Z) : nat := Nat.max 1 ((length data + 15) / 16).
Definition hex_dump (who data : list Z) : list (list Z) :=
  map (fun k => dump_line who (16 * Z.of_nat k) (take 16 (drop (16 * k) data))) (seq 0 (line_count data)).

(** ** What the code writes *)

Definition hex_byte (b : Z) : list Z := [HEX_HIGH b; HEX_LOW b; 32].
Definition hex_line (who : list Z) (v : Z) (bytes : list Z) : list Z := header who v ++ concat (map hex_byte bytes).

(** A property of all the digits. *)
Lemma digits_all (P : Z -> Prop) n : 0 <= n < 16 -> Forall P (map Z.of_nat (seq 0 16)) -> P n.
Proof.
  intros Hn Hall. rewrite Forall_forall in Hall. apply Hall, list_elem_of_fmap. exists (Z.to_nat n).
  rewrite elem_of_seq. lia.
Qed.

Lemma digit_upper n : 0 <= n < 16 -> NIBBLE_TO_HEX n = digit_of "0123456789ABCDEF" n.
Proof. intros Hn. apply (digits_all (fun n => NIBBLE_TO_HEX n = digit_of "0123456789ABCDEF" n) n Hn). by repeat constructor. Qed.

Lemma digit_lower n : 0 <= n < 16 -> small_digit n = digit_of "0123456789abcdef" n.
Proof. intros Hn. apply (digits_all (fun n => small_digit n = digit_of "0123456789abcdef" n) n Hn). by repeat constructor. Qed.

(** The bits from [shift] on are a digit. *)
Lemma nibble v shift : 0 <= shift -> Z.land (Z.shiftr v shift) 15 = v / 2 ^ shift mod 16.
Proof. intros Hs. rewrite Z.shiftr_div_pow2 by done. exact (Z.land_ones (v / 2 ^ shift) 4 ltac:(lia)). Qed.

Lemma hex_byte_base16 b : hex_byte b = base16 "0123456789ABCDEF" 2 b ++ chars " ".
Proof.
  unfold hex_byte, HEX_HIGH, HEX_LOW. rewrite nibble by lia. rewrite (Z.land_ones b 4 ltac:(lia) : Z.land b 15 = b mod 16).
  rewrite !digit_upper by (apply Z.mod_pos_bound; lia). done.
Qed.

Lemma format_hex_base16 v : format_hex v = base16 "0123456789abcdef" 8 v.
Proof.
  unfold format_hex. cbn [map]. rewrite !nibble by lia. rewrite !digit_lower by (apply Z.mod_pos_bound; lia).
  cbn [base16 app]. rewrite !Z.div_div by lia. rewrite Z.div_1_r. done.
Qed.

Lemma hex_line_dump who v bytes : hex_line who v bytes = dump_line who v bytes.
Proof.
  unfold hex_line, dump_line, header, format_name. rewrite format_hex_base16, <- !app_assoc.
  assert (map hex_byte bytes = map (fun b => base16 "0123456789ABCDEF" 2 b ++ chars " ") bytes) as ->.
  { apply map_ext. apply hex_byte_base16. }
  rewrite length_take. destruct (decide _) as [H|H].
  - rewrite Nat.min_l, Nat.sub_diag by done. done.
  - rewrite Nat.min_r, take_ge, <- app_assoc by lia. done.
Qed.

(** ** Texts without zeros *)

Lemma small_digit_not_zero n : 0 <= n -> small_digit n <> 0.
Proof. unfold small_digit. destruct (Z.leb_spec 10 n); lia. Qed.

Lemma nibble_not_zero n : 0 <= n -> NIBBLE_TO_HEX n <> 0.
Proof. unfold NIBBLE_TO_HEX. destruct (Z.leb_spec 10 n); lia. Qed.

Lemma land_15 x : 0 <= Z.land x 15.
Proof. apply Z.land_nonneg. by right. Qed.

Lemma header_length who v : length (header who v) = 20%nat.
Proof. unfold header, format_name. rewrite !length_app, length_replicate, length_take. cbn [length format_hex map]. lia. Qed.

Lemma hex_byte_no_zero b : no_zero (hex_byte b).
Proof. repeat constructor; try done; apply nibble_not_zero, land_15. Qed.

Lemma header_no_zero who v : no_zero who -> no_zero (header who v).
Proof.
  intros Hw. unfold header, format_name, no_zero. rewrite !Forall_app.
  split_and!; [|by apply Forall_take|by repeat constructor| |by repeat constructor].
  - by apply Forall_replicate.
  - unfold format_hex. apply Forall_map, Forall_true. intros shift. apply small_digit_not_zero, land_15.
Qed.

Lemma hex_line_no_zero who v bytes : no_zero who -> no_zero (hex_line who v bytes).
Proof.
  intros Hw. unfold hex_line, no_zero. rewrite Forall_app. split; [by apply header_no_zero|].
  induction bytes as [|b bytes IH]; [constructor|]. cbn [map concat]. rewrite Forall_app. split; [apply hex_byte_no_zero|done].
Qed.

(** ** Writing a line *)

(** The array holds the text that was written, and more. *)
Definition written (s : hex_log) (text : list Z) : Prop :=
  exists rest, out s = text ++ rest /\ dest s = Z.of_nat (length text) /\ length (out s) = 80%nat.

Lemma put_out_written x s text : written s text -> (length text < 80)%nat ->
  exists s', put_out x s = Ret (tt, s') /\ written s' (text ++ [x]) /\ source s' = source s /\ per_line s' = per_line s /\ logged s' = logged s.
Proof.
  intros (rest & Ho & Hd & Hl) Ht. unfold put_out, dest_len. rewrite Hd.
  destruct (Z.leb_spec 0 (Z.of_nat (length text))); [|lia]. destruct (Z.ltb_spec (Z.of_nat (length text)) 80); [|lia]. simpl.
  eexists. split; [reflexivity|]. split; [|done]. rewrite Nat2Z.id. destruct rest as [|r rest].
  { rewrite Ho, app_nil_r in Hl. lia. }
  exists rest. simpl. rewrite length_insert, length_app. simpl. split_and!; [|lia|done].
  rewrite Ho. rewrite <- (Nat.add_0_r (length text)), insert_app_r. simpl. by rewrite <- app_assoc.
Qed.

(** A byte of the line. *)
Lemma byte_written (b : Z) s text : written s text -> (length text + 3 <= 80)%nat ->
  exists s', (put_out (HEX_HIGH b);; put_out (HEX_LOW b);; put_out 32;; next_byte) s = Ret (tt, s') /\
    written s' (text ++ hex_byte b) /\ source s' = source s + 1 /\ per_line s' = per_line s + 1 /\ logged s' = logged s.
Proof.
  intros Hw Ht. destruct (put_out_written (HEX_HIGH b) s text Hw) as (s1 & E1 & W1 & A1 & B1 & C1); [lia|].
  destruct (put_out_written (HEX_LOW b) s1 _ W1) as (s2 & E2 & W2 & A2 & B2 & C2); [rewrite length_app; simpl; lia|].
  destruct (put_out_written 32 s2 _ W2) as (s3 & E3 & W3 & A3 & B3 & C3); [rewrite !length_app; simpl; lia|].
  eexists. split; [rewrite (bind_run _ _ _ _ _ E1), (bind_run _ _ _ _ _ E2), (bind_run _ _ _ _ _ E3); reflexivity|].
  rewrite <- !app_assoc in W3. simpl. split; [exact W3|]. split_and!; congruence.
Qed.

Lemma hex_text_length bytes : length (concat (map hex_byte bytes)) = (3 * length bytes)%nat.
Proof. induction bytes as [|b bytes IH]; [done|]. cbn [map concat]. rewrite length_app, IH. simpl. lia. Qed.

(** The loop writes the bytes that are left, up to sixteen in the line. *)
Lemma line_loop_run buffer len bytes : forall fuel s text,
  (length bytes < fuel)%nat -> written s text -> 0 <= source s -> len <= Z.of_nat (length buffer) ->
  dest s = 20 + 3 * per_line s -> 0 <= per_line s ->
  bytes = take (Z.to_nat (16 - per_line s)) (drop (Z.to_nat (source s)) (take (Z.to_nat len) buffer)) ->
  exists s', line_loop fuel buffer len s = Ret (tt, s') /\ written s' (text ++ concat (map hex_byte bytes)) /\
    source s' = source s + Z.of_nat (length bytes) /\ per_line s' = per_line s + Z.of_nat (length bytes) /\ logged s' = logged s.
Proof.
  induction bytes as [|b bytes IH]; intros [|fuel] s text Hf Hw Hs Hb Hd Hp Hbytes; try (simpl in Hf; lia); cbn [line_loop];
    rewrite (bind_run _ _ _ s s) by done.
  - assert ((source s <? len) && (3 <? dest_len - dest s) && (per_line s <? BYTES_PER_LINE) = false) as ->.
    { apply not_true_iff_false. intros [[H1%Z.ltb_lt _]%andb_true_iff H2%Z.ltb_lt]%andb_true_iff. unfold BYTES_PER_LINE in H2.
      apply (f_equal length) in Hbytes. rewrite length_take, length_drop, length_take in Hbytes. simpl in Hbytes. lia. }
    exists s. simpl. rewrite app_nil_r, !Z.add_0_r. done.
  - pose proof (f_equal length Hbytes) as Hlen. rewrite length_take, length_drop, length_take in Hlen. simpl in Hlen.
    assert ((source s <? len) && (3 <? dest_len - dest s) && (per_line s <? BYTES_PER_LINE) = true) as ->.
    { unfold dest_len, BYTES_PER_LINE. rewrite !andb_true_iff, !Z.ltb_lt. lia. }
    destruct Hw as (rest & Ho & Hdt & Hl). assert (Hw : written s text) by by exists rest.
    assert (Hbuf : buffer !! Z.to_nat (source s) = Some b).
    { apply (f_equal (fun l => l !! 0%nat)) in Hbytes. rewrite lookup_take_lt, lookup_drop, lookup_take_lt in Hbytes by lia.
      rewrite Nat.add_0_r in Hbytes. by rewrite <- Hbytes. }
    assert (Hread : read_byte buffer s = Ret (b, s)) by (unfold read_byte; destruct (Z.ltb_spec (source s) 0); [lia|by rewrite Hbuf]).
    rewrite (bind_run _ _ _ _ _ Hread). destruct (byte_written b s text Hw) as (s1 & E1 & W1 & A1 & B1 & C1); [lia|].
    destruct (IH fuel s1 (text ++ hex_byte b)) as (s2 & E2 & W2 & A2 & B2 & C2).
    + simpl in Hf. lia.
    + done.
    + lia.
    + done.
    + destruct W1 as (rest1 & _ & -> & _). rewrite length_app, B1. cbn [length hex_byte]. lia.
    + lia.
    + rewrite A1, B1. replace (Z.to_nat (16 - per_line s)) with (S (Z.to_nat (16 - (per_line s + 1)))) in Hbytes by lia.
      replace (Z.to_nat (source s + 1)) with (S (Z.to_nat (source s))) by lia.
      destruct (drop (Z.to_nat (source s)) (take (Z.to_nat len) buffer)) as [|y l] eqn:Ed; [done|]. simpl in Hbytes.
      injection Hbytes as _ ->.
      f_equal. rewrite <- Nat.add_1_r, <- drop_drop, Ed. done.
    + exists s2. split; [|split_and!].
      * revert E1. unfold mbind, M_bind. destruct (put_out _ s) as [[[] u1]| |]; [|done|done].
        destruct (put_out _ u1) as [[[] u2]| |]; [|done|done].
        destruct (put_out _ u2) as [[[] u3]| |]; [|done|done]. intros ->. done.
      * cbn [map concat]. by rewrite app_assoc.
      * simpl. lia.
      * simpl. lia.
      * congruence.
Qed.

(** ** The lines *)

(** Between two lines: [k] lines were logged. *)
Record between (k : nat) (s : hex_log) : Prop := Between {
  b_out : length (out s) = 80%nat; b_dest : dest s = 0; b_per_line : per_line s = 0; b_source : source s = 16 * Z.of_nat k
}.

Lemma sprintf_run who k s : between k s -> exists s',
  sprintf_header who s = Ret (tt, s') /\ written s' (header who (16 * Z.of_nat k)) /\
  source s' = source s /\ dest s' = 20 /\ per_line s' = 0 /\ logged s' = logged s.
Proof.
  intros [Ho Hd Hp Hs]. unfold sprintf_header. rewrite header_length, Ho. simpl. rewrite Hd, Hp, Hs. eexists.
  split; [reflexivity|].
  split; [|done]. eexists. simpl. split; [reflexivity|]. rewrite header_length. split; [done|]. rewrite length_app, header_length.
  simpl. rewrite length_drop, Ho. done.
Qed.

(** The end of a line: the text is logged. *)
Lemma end_line_run (s : hex_log) text : written s text -> (length text < 80)%nat -> no_zero text -> exists s',
  (put_out 0;; reset_line;; RLOGD) s = Ret (tt, s') /\
  length (out s') = 80%nat /\ source s' = source s /\ dest s' = 0 /\ per_line s' = 0 /\ logged s' = logged s ++ [text].
Proof.
  intros Hw Ht Hz. destruct (put_out_written 0 s text Hw Ht) as (s1 & E1 & (rest & Ho & Hd & Hl) & A1 & B1 & C1).
  rewrite (bind_run _ _ _ _ _ E1). erewrite bind_run by reflexivity. unfold RLOGD. cbn [out]. rewrite Ho, <- app_assoc. cbn [app].
  rewrite c_string_zero by done.
  eexists. split; [reflexivity|]. cbn [out source dest per_line logged]. rewrite <- C1, <- A1. split_and!; try done.
  by rewrite Ho, <- app_assoc in Hl.
Qed.

Section Lines.
Context (who buffer : list Z) (len : Z).
Hypothesis who_text : no_zero who.
Hypothesis len_inside : len <= Z.of_nat (length buffer).

Definition data : list Z := take (Z.to_nat len) buffer.
Definition chunk (k : nat) : list Z := take 16 (drop (16 * k) data).

Lemma data_length : length data = Z.to_nat len.
Proof. unfold data. rewrite length_take. lia. Qed.

Lemma chunk_length k : length (chunk k) = Nat.min 16 (Z.to_nat len - 16 * k).
Proof. unfold chunk. by rewrite length_take, length_drop, data_length. Qed.

(** One round of the outer loop. *)
Lemma lines_loop_round fuel k s : between k s -> (k = 0%nat \/ 16 * Z.of_nat k < len) -> exists s',
  lines_loop (S fuel) who buffer len s =
    (if source s' <? len then lines_loop fuel who buffer len s' else Ret (tt, s')) /\
  (16 * Z.of_nat (S k) < len <-> source s' < len) /\ (source s' < len -> between (S k) s') /\
  logged s' = logged s ++ [hex_line who (16 * Z.of_nat k) (chunk k)].
Proof.
  intros Hb Hk. pose proof (b_source _ _ Hb) as Hsrc. destruct (sprintf_run who k s Hb) as (s1 & E1 & W1 & A1 & D1 & B1 & C1).
  cbn [lines_loop].
  rewrite (bind_run _ _ _ _ _ E1).
  assert (Hc : chunk k = take (Z.to_nat (16 - per_line s1)) (drop (Z.to_nat (source s1)) (take (Z.to_nat len) buffer))).
  { rewrite B1, A1, Hsrc. unfold chunk, data. do 2 f_equal. lia. }
  pose proof (chunk_length k) as Hcl.
  destruct (line_loop_run buffer len (chunk k) line_fuel s1 _ ltac:(unfold line_fuel; lia) W1 ltac:(lia) len_inside ltac:(lia) ltac:(lia) Hc)
    as (s2 & E2 & W2 & A2 & B2 & C2). rewrite (bind_run _ _ _ _ _ E2). rewrite (bind_run _ _ _ s2 s2) by done.
  assert (Hd2 : dest s2 = 20 + 3 * Z.of_nat (length (chunk k))).
  { destruct W2 as (rest & _ & -> & _). rewrite length_app, header_length, hex_text_length. lia. }
  assert (((dest s2 <? dest_len) && ((per_line s2 =? BYTES_PER_LINE) || (len <=? source s2))) = true) as ->.
  { unfold dest_len, BYTES_PER_LINE. apply andb_true_iff. rewrite Z.ltb_lt, orb_true_iff, Z.eqb_eq, Z.leb_le. lia. }
  destruct (end_line_run s2 (hex_line who (16 * Z.of_nat k) (chunk k)) W2) as (s3 & E3 & O3 & A3 & D3 & B3 & C3).
  { unfold hex_line. rewrite length_app, header_length, hex_text_length. lia. }
  { by apply hex_line_no_zero. }
  rewrite (bind_run _ _ _ _ _ E3), (bind_run _ _ _ s3 s3) by done. exists s3. split; [|split_and!].
  - rewrite D3. unfold dest_len. rewrite (proj2 (Z.ltb_lt 0 80)) by lia. rewrite andb_true_r. by destruct (source s3 <? len).
  - rewrite A3, A2, A1, Hsrc, Hcl. lia.
  - intros Hlt. rewrite A3, A2, A1, Hsrc, Hcl in Hlt. split; [done|done|done|]. rewrite A3, A2, A1, Hsrc, Hcl. lia.
  - by rewrite C3, C2, C1.
Qed.

(** All the lines from the [k]th on. *)
Lemma lines_loop_run n : forall fuel k s, between k s -> (k = 0%nat \/ 16 * Z.of_nat k < len) -> (n < fuel)%nat ->
  (S n + k = line_count data)%nat ->
  exists s', lines_loop fuel who buffer len s = Ret (tt, s') /\
    logged s' = logged s ++ map (fun k => hex_line who (16 * Z.of_nat k) (chunk k)) (seq k (S n)).
Proof.
  induction n as [|n IH]; intros [|fuel] k s Hb Hk Hf Hn; try lia; destruct (lines_loop_round fuel k s Hb Hk) as (s1 & -> & Hiff & Hb1 & Hl1);
    unfold line_count in Hn; rewrite data_length in Hn.
  - destruct (Z.ltb_spec (source s1) len) as [Hlt|_]; [|by exists s1]. exfalso. apply Hiff in Hlt.
    assert (16 * S k < Z.to_nat len)%nat by lia.
    pose proof (Nat.div_le_lower_bound (Z.to_nat len + 15) 16 (S (S k)) ltac:(lia) ltac:(lia)). lia.
  - assert (Hlt : 16 * Z.of_nat (S k) < len).
    { pose proof (Nat.Div0.mul_div_le (Z.to_nat len + 15) 16). lia. }
    destruct (Z.ltb_spec (source s1) len) as [Hs|Hs]; [|apply Hiff in Hlt; lia].
    destruct (IH fuel (S k) s1 (Hb1 Hs) ltac:(lia) ltac:(lia)) as (s2 & -> & Hl2); [unfold line_count; rewrite data_length; lia|].
    exists s2. split; [done|]. rewrite Hl2, Hl1, <- app_assoc. done.
Qed.

End Lines.

(** C35: [log_hex] reads no byte outside the message, writes nothing behind its
    array and ends; what it logs is the hex dump of the message: in each line
    the name in eight columns, the number of the first byte with eight small
    digits in brackets, and sixteen bytes with two capital digits and a blank
    each, the last line with those that are left. *)
Theorem log_hex_dumps fuel junk who buffer len :
  length junk = 80%nat -> no_zero who -> len <= Z.of_nat (length buffer) -> (line_count (take (Z.to_nat len) buffer) <= fuel)%nat ->
  log_hex fuel junk who buffer len = Ret (hex_dump who (take (Z.to_nat len) buffer)).
Proof.
  intros Hj Hw Hl Hf. unfold log_hex. assert (Hb : between 0 (HexLog junk 0 0 0 [])) by done.
  destruct (line_count (take (Z.to_nat len) buffer)) as [|n] eqn:En; [unfold line_count in En; lia|].
  destruct (lines_loop_run who buffer len Hw Hl n fuel 0 _ Hb ltac:(by left)) as (s & -> & Hlog); [lia|unfold data; by rewrite En, Nat.add_0_r|].
  rewrite Hlog. unfold hex_dump. rewrite En. f_equal. apply map_ext. intros k. apply hex_line_dump.
Qed.

(** A message of 18 bytes. *)
Definition sample_who : list Z := [66; 116; 83; 97; 112; 84; 101; 115; 116].
Definition sample_message : list Z := map Z.of_nat (seq 200 18).

Lemma log_hex_dumps_witness :
  log_hex 2 (replicate 80 7) sample_who sample_message 18 =
    Ret [chars "BtSapTes [00000000] C8 C9 CA CB CC CD CE CF D0 D1 D2 D3 D4 D5 D6 D7 "; chars "BtSapTes [00000010] D8 D9 "].
Proof.
  rewrite (log_hex_dumps 2 (replicate 80 7) sample_who sample_message 18);
    [vm_compute; reflexivity|reflexivity|by repeat constructor|vm_compute; discriminate|vm_compute; lia].
Defined.
