(* ===== verification/Doubles.v ===== *)
(** * Numbers of type double

    IEEE 754 arithmetic with 53 bits, by the executable specification of the
    Standard Library, the conversions from and to [int], and the one fact that
    clients need: a product that is at most an integer stays at most that
    integer when it is rounded. *)

From Stdlib Require Import SpecFloat.
From S2P Require Import Prelude.

(** ** Operations *)

Definition double : Type := spec_float.
Definition double_prec : Z := 53.
Definition double_emax : Z := 1024.

Definition double_of_int (n : Z) : double := binary_normalize double_prec double_emax n 0 false.
Definition double_mul : double -> double -> double := SFmul double_prec double_emax.
Definition double_div : double -> double -> double := SFdiv double_prec double_emax.

(** The cast to [int] drops the fraction; [None]: the behaviour is undefined. *)
Definition int_of_double (x : double) : option Z :=
  match x with
  | S754_zero _ => Some 0
  | S754_finite s m e =>
      let t := if 0 <=? e then Z.pos m * 2 ^ e else Z.pos m / 2 ^ (- e) in
      let t := if s then - t else t in
      if (- 2 ^ 31 <=? t) && (t <? 2 ^ 31) then Some t else None
  | S754_infinity _ | S754_nan => None
  end.

(** ** Comparison with integers *)

(** [m * 2 ^ e <= n]. *)
Definition scaled_le (m e n : Z) : bool := m * 2 ^ Z.max e 0 <=? n * 2 ^ Z.max (- e) 0.

(** The number is between 0 and [n]. *)
Definition between_zero_and (n : Z) (x : double) : bool :=
  match x with
  | S754_zero _ => true
  | S754_finite false m e => scaled_le (Z.pos m) e n
  | _ => false
  end.

Lemma scaled_le_at k m e n : 0 <= k -> 0 <= k + e -> scaled_le m e n = true <-> m * 2 ^ (k + e) <= n * 2 ^ k.
Proof.
  intros Hk He. unfold scaled_le. rewrite Z.leb_le. set (j := k - Z.max (- e) 0).
  replace (k + e) with (Z.max e 0 + j) by lia. replace k with (Z.max (- e) 0 + j) by lia.
  rewrite !Z.pow_add_r, !Z.mul_assoc by lia. symmetry. rewrite <- Z.mul_le_mono_pos_r; [done|]. apply Z.pow_pos_nonneg; lia.
Qed.

(** Dropping low bits. *)
Lemma scaled_le_shift m e n k : 0 <= k -> scaled_le m e n = true -> scaled_le (m / 2 ^ k) (e + k) n = true.
Proof.
  intros Hk. set (j := Z.abs e + k). rewrite (scaled_le_at j m e n), (scaled_le_at j (m / 2 ^ k) (e + k) n) by lia. intros H.
  etrans; [|exact H]. replace (j + (e + k)) with (k + (j + e)) by lia. rewrite Z.pow_add_r, Z.mul_assoc by lia.
  apply Z.mul_le_mono_nonneg_r; [apply Z.pow_nonneg; lia|]. rewrite Z.mul_comm. apply Z.mul_div_le, Z.pow_pos_nonneg; lia.
Qed.

Lemma scaled_le_exponent m e n : 0 < m -> n < 2 ^ 53 -> scaled_le m e n = true -> e < 53.
Proof.
  intros Hm Hn H. destruct (Z.lt_ge_cases e 53) as [|He]; [done|]. exfalso. rewrite (scaled_le_at 0) in H by lia.
  change (0 + e) with e in H. assert (2 ^ 53 <= 2 ^ e) by (apply Z.pow_le_mono_r; lia). nia.
Qed.

(** The cast stays in the range. *)
Lemma int_of_double_range n x : 0 <= n < 2 ^ 31 -> between_zero_and n x = true -> exists t, int_of_double x = Some t /\ 0 <= t <= n.
Proof.
  intros Hn H. destruct x as [s| | |[] m e]; try done; [exists 0; split; [done|lia]|]. simpl in H. unfold int_of_double.
  assert (Ht : 0 <= (if 0 <=? e then Z.pos m * 2 ^ e else Z.pos m / 2 ^ (- e)) <= n).
  { destruct (Z.leb_spec 0 e).
    - rewrite (scaled_le_at 0) in H by lia. change (0 + e) with e in H. pose proof (Z.pow_nonneg 2 e). lia.
    - rewrite (scaled_le_at (- e)) in H by lia. replace (- e + e) with 0 in H by lia. rewrite Z.mul_1_r in H.
      assert (0 < 2 ^ (- e)) by (apply Z.pow_pos_nonneg; lia). split; [by apply Z.div_pos|].
      apply Z.lt_succ_r, Z.div_lt_upper_bound; lia. }
  set (t := if 0 <=? e then _ else _) in *. clearbody t. cbv zeta. exists t.
  rewrite (proj2 (Z.leb_le _ _)), (proj2 (Z.ltb_lt _ _)) by lia. done.
Qed.

(** ** Shifting *)

(** The mantissa is halved; a bit is remembered if one was lost. *)
Definition lost (r : shr_record) : bool := shr_r r || shr_s r.

Lemma shr_1_spec r : 0 <= shr_m r ->
  shr_m (shr_1 r) = shr_m r / 2 /\ (lost (shr_1 r) = true -> lost r = true \/ shr_m r mod 2 <> 0).
Proof.
  destruct r as [[|[p|p|]|p] b1 b2]; simpl; intros H; try lia; split.
  - done.
  - unfold lost. simpl. auto.
  - rewrite (Zpos_xI p). apply (Z.div_unique_pos _ 2 _ 1); lia.
  - intros _. right. rewrite (Zpos_xI p), Z.add_comm, Z.mul_comm, Z.mod_add by lia. done.
  - rewrite (Zpos_xO p). apply (Z.div_unique_pos _ 2 _ 0); lia.
  - unfold lost. simpl. auto.
  - done.
  - intros _. right. done.
Qed.

Lemma iter_pos_nat {A} (f : A -> A) p x : SpecFloat.iter_pos f p x = Nat.iter (Pos.to_nat p) f x.
Proof.
  revert x. induction p as [p IH|p IH|]; intros x; [| |done]; cbn [SpecFloat.iter_pos]; rewrite !IH.
  - rewrite Pos2Nat.inj_xI, <- Nat.iter_succ_r, <- Nat.iter_add. f_equal. lia.
  - rewrite Pos2Nat.inj_xO, <- Nat.iter_add. f_equal. lia.
Qed.

Lemma iter_shr k m : 0 <= m ->
  let r := Nat.iter k shr_1 (Build_shr_record m false false) in
  shr_m r = m / 2 ^ Z.of_nat k /\ (lost r = true -> m mod 2 ^ Z.of_nat k <> 0).
Proof.
  intros Hm. cbv zeta. induction k as [|k [IH1 IH2]]; [simpl; by rewrite Z.div_1_r|].
  change (Nat.iter (S k) shr_1 ?x) with (shr_1 (Nat.iter k shr_1 x)).
  set (r := Nat.iter k shr_1 _) in *. assert (H0 : 0 <= shr_m r) by (rewrite IH1; apply Z.div_pos; [done|apply Z.pow_pos_nonneg; lia]).
  destruct (shr_1_spec r H0) as [E1 E2]. replace (Z.of_nat (S k)) with (Z.of_nat k + 1) by lia.
  assert (Hp : 0 < 2 ^ Z.of_nat k) by (apply Z.pow_pos_nonneg; lia). rewrite Z.pow_add_r, Z.pow_1_r by lia.
  split; [by rewrite E1, IH1, Z.div_div by lia|]. intros Hl Hz. rewrite Z.rem_mul_r in Hz by lia.
  assert (m mod 2 ^ Z.of_nat k = 0 /\ (m / 2 ^ Z.of_nat k) mod 2 = 0) as [Z1 Z2].
  { pose proof (Z.mod_pos_bound m (2 ^ Z.of_nat k) Hp). pose proof (Z.mod_pos_bound (m / 2 ^ Z.of_nat k) 2 ltac:(lia)). nia. }
  destruct (E2 Hl) as [Hl'|Hb]; [by apply IH2|]. by rewrite IH1 in Hb.
Qed.

(** Shifting right by [k], or not at all when [k] is not positive. *)
Lemma shr_spec m e k : 0 <= m -> exists r,
  shr (Build_shr_record m false false) e k = (r, e + Z.max k 0) /\ shr_m r = m / 2 ^ Z.max k 0 /\
  (lost r = true -> m mod 2 ^ Z.max k 0 <> 0).
Proof.
  intros Hm. destruct k as [|p|p]; simpl; try (exists (Build_shr_record m false false); rewrite Z.add_0_r, Z.div_1_r; done).
  rewrite iter_pos_nat. eexists. split; [done|].
  destruct (iter_shr (Pos.to_nat p) m Hm) as [E1 E2]. rewrite positive_nat_Z in *. done.
Qed.

(** ** Rounding *)

Lemma round_nearest_even_spec r :
  let x := round_nearest_even (shr_m r) (loc_of_shr_record r) in x = shr_m r \/ x = shr_m r + 1 /\ lost r = true.
Proof. destruct r as [m [] []]; simpl; auto. destruct (Z.even m); auto. Qed.

Lemma digits_spec p : 2 ^ (Z.pos (digits2_pos p) - 1) <= Z.pos p.
Proof.
  induction p as [p IH|p IH|]; cbn [digits2_pos]; [| |done]; rewrite Pos2Z.inj_succ;
    replace (Z.succ (Z.pos (digits2_pos p)) - 1) with (Z.succ (Z.pos (digits2_pos p) - 1)) by lia; rewrite Z.pow_succ_r by lia; lia.
Qed.

Definition shift_of (m e : Z) : Z := fexp double_prec double_emax (Zdigits2 m + e) - e.

Lemma shr_fexp_exact m e : shr_fexp double_prec double_emax m e loc_Exact = shr (Build_shr_record m false false) e (shift_of m e).
Proof. done. Qed.

(** The first rounding: to a grid on which the bound lies. *)
Lemma round_scaled_le p e n : 0 <= n < 2 ^ 53 -> scaled_le (Z.pos p) e n = true ->
  exists r, shr_fexp double_prec double_emax (Z.pos p) e loc_Exact = (r, e + Z.max (shift_of (Z.pos p) e) 0) /\ 0 <= shr_m r /\
    scaled_le (round_nearest_even (shr_m r) (loc_of_shr_record r)) (e + Z.max (shift_of (Z.pos p) e) 0) n = true.
Proof.
  intros Hn H. rewrite shr_fexp_exact. set (k := shift_of (Z.pos p) e).
  destruct (shr_spec (Z.pos p) e k ltac:(lia)) as (r & -> & Em & El). exists r.
  assert (Hp : 0 < 2 ^ Z.max k 0) by (apply Z.pow_pos_nonneg; lia).
  split; [done|]. split; [rewrite Em; by apply Z.div_pos|].
  pose proof (round_nearest_even_spec r) as Hr. cbv zeta in Hr.
  destruct Hr as [->|[-> Hl]]; rewrite Em; [apply scaled_le_shift; [lia|done]|]. specialize (El Hl).
  assert (Hk : 0 < k) by (destruct (Z.lt_ge_cases 0 k); [done|]; rewrite Z.max_r, Z.mod_1_r in El by done; done).
  rewrite Z.max_l in * by lia.
  assert (Hd : Z.pos (digits2_pos p) + e <= 53).
  { pose proof (digits_spec p) as Hds. destruct (Z.le_gt_cases (Z.pos (digits2_pos p) + e) 53) as [|Hc]; [done|]. exfalso.
    set (j := Z.abs e). rewrite (scaled_le_at j) in H by lia.
    assert (2 ^ (Z.pos (digits2_pos p) - 1) * 2 ^ (j + e) <= n * 2 ^ j) as Hx.
    { etrans; [|exact H]. apply Z.mul_le_mono_nonneg_r; [apply Z.pow_nonneg; lia|done]. }
    rewrite <- Z.pow_add_r in Hx by lia. 
    assert (2 ^ (53 + j) <= 2 ^ (Z.pos (digits2_pos p) - 1 + (j + e))) as Hy by (apply Z.pow_le_mono_r; lia).
    rewrite (Z.pow_add_r 2 53) in Hy by lia. assert (0 < 2 ^ j) by (apply Z.pow_pos_nonneg; lia). nia. }
  assert (He : e + k <= 0).
  { unfold k, shift_of, fexp, emin, double_prec, double_emax. cbn [Zdigits2]. lia. }
  rewrite (scaled_le_at (- (e + k))) by lia. replace (- (e + k) + (e + k)) with 0 by lia. rewrite Z.mul_1_r.
  rewrite (scaled_le_at (- e)) in H by lia. replace (- e + e) with 0 in H by lia. rewrite Z.mul_1_r in H.
  replace (- e) with (- (e + k) + k) in H by lia. rewrite Z.pow_add_r, Z.mul_assoc in H by lia.
  set (t := n * 2 ^ (- (e + k))) in *. pose proof (Z.div_mod (Z.pos p) (2 ^ k) ltac:(lia)).
  pose proof (Z.mod_pos_bound (Z.pos p) (2 ^ k) Hp). nia.
Qed.

Lemma round_between p e n : 0 <= n < 2 ^ 53 -> scaled_le (Z.pos p) e n = true ->
  between_zero_and n (binary_round_aux double_prec double_emax false (Z.pos p) e loc_Exact) = true.
Proof.
  intros Hn H. destruct (round_scaled_le p e n Hn H) as (r & E & Hm & Hle). unfold binary_round_aux. rewrite E.
  set (m' := round_nearest_even _ _) in *. set (e' := e + _) in *.
  assert (Hm' : 0 <= m') by (pose proof (round_nearest_even_spec r) as Hr; cbv zeta in Hr; fold m' in Hr; lia).
  rewrite shr_fexp_exact. destruct (shr_spec m' e' (shift_of m' e') Hm') as (r2 & -> & Em & _).
  pose proof (scaled_le_shift m' e' n (Z.max (shift_of m' e') 0) ltac:(lia) Hle) as Hle2. rewrite <- Em in Hle2.
  assert (H2 : 0 <= shr_m r2) by (rewrite Em; apply Z.div_pos; [done|apply Z.pow_pos_nonneg; lia]).
  destruct (shr_m r2) as [|q|q]; [done| |lia].
  pose proof (scaled_le_exponent (Z.pos q) _ n (Pos2Z.is_pos q) (proj2 Hn) Hle2). unfold double_prec, double_emax.
  rewrite (proj2 (Z.leb_le _ _)) by lia. exact Hle2.
Qed.

(** A product of which the exact value is at most [n]. *)
Lemma mul_between m1 e1 m2 e2 n : 0 <= n < 2 ^ 53 -> scaled_le (Z.pos (m1 * m2)) (e1 + e2) n = true ->
  between_zero_and n (double_mul (S754_finite false m1 e1) (S754_finite false m2 e2)) = true.
Proof. apply round_between. Qed.

(** A number of the unit interval times a number that is at most [n]. *)
Lemma unit_mul_between n x y : 0 <= n < 2 ^ 53 -> between_zero_and 1 x = true -> between_zero_and n y = true ->
  between_zero_and n (double_mul x y) = true.
Proof.
  intros Hn Hx Hy. destruct x as [[]| | |[] m1 e1]; try done; destruct y as [[]| | |[] m2 e2]; try done.
  apply mul_between; [done|]. simpl in Hx, Hy. set (k1 := Z.abs e1). set (k2 := Z.abs e2).
  rewrite (scaled_le_at k1) in Hx by lia. rewrite (scaled_le_at k2) in Hy by lia. rewrite (scaled_le_at (k1 + k2)) by lia.
  replace (k1 + k2 + (e1 + e2)) with ((k1 + e1) + (k2 + e2)) by lia.
  rewrite Pos2Z.inj_mul, (Z.pow_add_r 2 (k1 + e1) (k2 + e2)), (Z.pow_add_r 2 k1 k2) by lia.
  rewrite Z.mul_1_l in Hx. assert (0 < 2 ^ (k1 + e1) /\ 0 < 2 ^ (k2 + e2)) as [P1 P2] by (split; apply Z.pow_pos_nonneg; lia).
  replace (Z.pos m1 * Z.pos m2 * (2 ^ (k1 + e1) * 2 ^ (k2 + e2))) with ((Z.pos m1 * 2 ^ (k1 + e1)) * (Z.pos m2 * 2 ^ (k2 + e2))) by lia.
  replace (n * (2 ^ k1 * 2 ^ k2)) with (2 ^ k1 * (n * 2 ^ k2)) by lia. apply Z.mul_le_mono_nonneg; lia.
Qed.
