(* ===== verification/Lights.v ===== *)
(** * liblights/lights.c: backlights and notification LED

    The module writes decimal numbers and words to files of [sysfs].  The
    state is what the files hold and the two remembered states of the shared
    LED; [open] and [write] may fail.  [hardware/lights.h], the build
    configuration and the function [pow] of the mathematical library are
    parameters; the arithmetic of type double is that of [Doubles]. *)

From stdpp Require Import pretty.
From Stdlib Require Import SpecFloat.
From S2P Require Import Prelude Doubles.

(** ** Parameters *)

Class LightsHeader := {
  LIGHT_ID_BACKLIGHT : string; LIGHT_ID_KEYBOARD : string; LIGHT_ID_BUTTONS : string;
  LIGHT_ID_BATTERY : string; LIGHT_ID_NOTIFICATIONS : string;
  LIGHT_FLASH_NONE : Z; LIGHT_FLASH_TIMED : Z; LIGHT_FLASH_HARDWARE : Z; EINVAL : Z;
  HAVE_BUTTON_BACKLIGHT : bool; HAVE_KEYBOARD_BACKLIGHT : bool;
  (** [pow] of libm *)
  pow : double -> double -> double;
  (** the error of [open] and of [write], if they fail *)
  open_errno : string -> option Z; write_errno : string -> option Z
}.

(** ** State *)

(** [struct light_state_t]. *)
Record light_state_t : Type := LightState { color : Z; flashMode : Z; flashOnMS : Z; flashOffMS : Z }.

Definition with_flashMode (m : Z) (st : light_state_t) : light_state_t := LightState (color st) m (flashOnMS st) (flashOffMS st).

Record lights : Type := Lights { sysfs : gmap string string; g_notification : light_state_t; g_battery : light_state_t }.

Definition with_sysfs (f : gmap string string) (s : lights) : lights := Lights f (g_notification s) (g_battery s).
Definition with_notification (st : light_state_t) (s : lights) : lights := Lights (sysfs s) st (g_battery s).
Definition with_battery (st : light_state_t) (s : lights) : lights := Lights (sysfs s) (g_notification s) st.

Definition LCD_BACKLIGHT_FILE : string := "/sys/class/leds/lcd-backlight/brightness".
Definition BUTTON_BACKLIGHT_FILE : string := "/sys/class/leds/button-backlight/brightness".
Definition KEYBOARD_BACKLIGHT_FILE : string := "/sys/class/leds/keyboard-backlight/brightness".
Definition RED_LED_FILE : string := "/sys/class/leds/red/brightness".
Definition GREEN_LED_FILE : string := "/sys/class/leds/green/brightness".
Definition BLUE_LED_FILE : string := "/sys/class/leds/blue/brightness".
Definition LED_FILE_TRIGGER : list string :=
  ["/sys/class/leds/red/trigger"; "/sys/class/leds/green/trigger"; "/sys/class/leds/blue/trigger"].
Definition LED_FILE_DELAYON : list string :=
  ["/sys/class/leds/red/delay_on"; "/sys/class/leds/green/delay_on"; "/sys/class/leds/blue/delay_on"].
Definition LED_FILE_DELAYOFF : list string :=
  ["/sys/class/leds/red/delay_off"; "/sys/class/leds/green/delay_off"; "/sys/class/leds/blue/delay_off"].
Definition LCD_BRIGHTNESS_MIN : Z := 5.

Section Operations.
Context {L : LightsHeader}.

(** ** Files *)

Definition newline : string := String (Ascii.ascii_of_nat 10) EmptyString.

(** The bytes that [write] takes from the buffer of 20 bytes of [snprintf],
    which ends a text of 20 bytes early; a longer one is read from behind it. *)
Definition buffered (text : string) : option string :=
  let n := Z.of_nat (String.length text) in
  if 20 <? n then None
  else if n =? 20 then Some (String.substring 0 19 text +:+ String Ascii.zero EmptyString)
  else Some text.

Definition write_text (path : string) (text : string) : M lights Z := fun s =>
  match open_errno path with
  | Some errno => Ret (- errno, s)
  | None =>
      match buffered (text +:+ newline) with
      | None => Fault
      | Some bytes =>
          match write_errno path with
          | Some errno => Ret (- errno, s)
          | None => Ret (0, with_sysfs (<[path := bytes]> (sysfs s)) s)
          end
      end
  end.

Definition write_int (path : string) (value : Z) : M lights Z := write_text path (pretty value).
Definition write_string (path : string) (value : string) : M lights Z := write_text path value.

(** ** Colours *)

Definition is_lit (state : light_state_t) : Z := Z.land (color state) 16777215.

Definition rgb_to_brightness (state : light_state_t) : Z :=
  let color := Z.land (color state) 16777215 in
  Z.shiftr (77 * Z.land (Z.shiftr color 16) 255 + 150 * Z.land (Z.shiftr color 8) 255 + 29 * Z.land color 255) 8.

(** The constant 2.2, rounded to 53 bits. *)
Definition gamma_exponent : double := S754_finite false 4953959590107546 (-51).

(** [/= 255.0], [pow(_, 2.2)], [*= 255.0] and the cast. *)
Definition brightness_apply_gamma (brightness : Z) : M lights Z :=
  let floatbrt := double_of_int brightness in
  let floatbrt := double_div floatbrt (double_of_int 255) in
  let floatbrt := pow floatbrt gamma_exponent in
  let floatbrt := double_mul floatbrt (double_of_int 255) in
  match int_of_double floatbrt with
  | None => fault
  | Some brightness => mret (if brightness <? LCD_BRIGHTNESS_MIN then LCD_BRIGHTNESS_MIN else brightness)
  end.

(** ** Backlights *)

Definition set_light_backlight (state : light_state_t) : M lights Z :=
  let brightness := rgb_to_brightness state in
  brightness ← (if 0 <? brightness then brightness_apply_gamma brightness else mret brightness);
  write_int LCD_BACKLIGHT_FILE brightness.

Definition set_light_buttons (state : light_state_t) : M lights Z :=
  if HAVE_BUTTON_BACKLIGHT then
    let brightness := rgb_to_brightness state in
    err ← write_int BUTTON_BACKLIGHT_FILE brightness;
    mret (Z.lor 0 err)
  else mret 0.

Definition set_light_keyboard (state : light_state_t) : M lights Z :=
  if HAVE_KEYBOARD_BACKLIGHT then
    let brightness := rgb_to_brightness state in
    err ← write_int KEYBOARD_BACKLIGHT_FILE brightness;
    mret (Z.lor 0 err)
  else mret 0.

(** ** The shared LED *)

Fixpoint timer_loop (files : list (string * string * string)) (delayOn delayOff : Z) : M lights unit :=
  match files with
  | [] => mret tt
  | (trigger, on, off) :: files =>
      write_string trigger "timer";;
      write_int on delayOn;;
      write_int off delayOff;;
      timer_loop files delayOn delayOff
  end.

Fixpoint none_loop (files : list string) : M lights unit :=
  match files with
  | [] => mret tt
  | trigger :: files => write_string trigger "none";; none_loop files
  end.

(** The result is [*state] afterwards. *)
Definition set_shared_light_locked (state : light_state_t) : M lights light_state_t :=
  let colorRGB := Z.land 16777215 (color state) in
  let delayOn := flashOnMS state in
  let delayOff := flashOffMS state in
  let state := if delayOn =? 1 then with_flashMode LIGHT_FLASH_NONE state else state in
  (if (flashMode state =? LIGHT_FLASH_TIMED) || (flashMode state =? LIGHT_FLASH_HARDWARE) then
     timer_loop (zip (zip LED_FILE_TRIGGER LED_FILE_DELAYON) LED_FILE_DELAYOFF) delayOn delayOff
   else if flashMode state =? LIGHT_FLASH_NONE then none_loop LED_FILE_TRIGGER
   else mret tt);;
  write_int RED_LED_FILE (Z.land (Z.shiftr colorRGB 16) 255);;
  write_int GREEN_LED_FILE (Z.land (Z.shiftr colorRGB 8) 255);;
  write_int BLUE_LED_FILE (Z.land colorRGB 255);;
  mret state.

Definition handle_shared_battery_locked : M lights unit :=
  s ← get;
  if negb (is_lit (g_notification s) =? 0) then
    st ← set_shared_light_locked (g_notification s); s ← get; put (with_notification st s)
  else
    st ← set_shared_light_locked (g_battery s); s ← get; put (with_battery st s).

Definition set_light_battery (state : light_state_t) : M lights Z :=
  s ← get;
  put (with_battery state s);;
  handle_shared_battery_locked;;
  mret 0.

Definition set_light_notifications (state : light_state_t) : M lights Z :=
  s ← get;
  put (with_notification state s);;
  handle_shared_battery_locked;;
  mret 0.

(** ** The device *)

Inductive set_light : Type := Backlight | Keyboard | Buttons | Battery | Notifications.

(** [open_lights]: the function of the device, or the error; [allocated]: the
    result of [malloc], which is not checked. *)
Definition open_lights (name : string) (allocated : bool) : outcome (set_light + Z) :=
  let device (f : set_light) := if allocated then Ret (inl f) else Fault in
  if bool_decide (LIGHT_ID_BACKLIGHT = name) then device Backlight
  else if bool_decide (LIGHT_ID_KEYBOARD = name) then device Keyboard
  else if bool_decide (LIGHT_ID_BUTTONS = name) then device Buttons
  else if bool_decide (LIGHT_ID_BATTERY = name) then device Battery
  else if bool_decide (LIGHT_ID_NOTIFICATIONS = name) then device Notifications
  else Ret (inr (- EINVAL)).

(** A call through the device. *)
Definition call_set_light (f : set_light) (state : light_state_t) : M lights Z :=
  match f with
  | Backlight => set_light_backlight state
  | Keyboard => set_light_keyboard state
  | Buttons => set_light_buttons state
  | Battery => set_light_battery state
  | Notifications => set_light_notifications state
  end.

Definition call_all (l : list (set_light * light_state_t)) : M lights unit :=
  foldr (fun c m => call_set_light c.1 c.2;; m) (mret tt) l.

End Operations.

(** The static variables are zero. *)
Definition dark : light_state_t := LightState 0 0 0 0.
Definition initial_lights (files : gmap string string) : lights := Lights files dark dark.
