(* ===== verification/LightsProps.v ===== *)
(** * Theorems about the lights

    What is written to the files is always in range, and the shared LED shows
    the notification if there is one, and the battery state otherwise. *)

From stdpp Require Import pretty.
From Stdlib Require Import SpecFloat.
From S2P Require Import Prelude Texts Doubles Lights.

(** The header names different flash modes, of which no flashing is zero; a
    positive power of a number between 0 and 1 is between 0 and 1. *)
Class LightsLaws (L : LightsHeader) : Prop := {
  flash_modes : LIGHT_FLASH_NONE <> LIGHT_FLASH_TIMED /\ LIGHT_FLASH_NONE <> LIGHT_FLASH_HARDWARE;
  flash_none : LIGHT_FLASH_NONE = 0;
  pow_unit x m e : between_zero_and 1 x = true -> between_zero_and 1 (pow x (S754_finite false m e)) = true
}.

(** A number of type [int] fits into the buffer. *)
Lemma int_fits v : - 2 ^ 31 <= v < 2 ^ 31 -> buffered (pretty v +:+ newline) = Some (pretty v +:+ newline).
Proof.
  intros Hv. unfold buffered. rewrite length_append. change (String.length newline) with 1%nat.
  pose proof (pretty_int_length v Hv).
  destruct (Z.ltb_spec 20 (Z.of_nat (String.length (pretty v) + 1))); [lia|].
  destruct (Z.eqb_spec (Z.of_nat (String.length (pretty v) + 1)) 20); [lia|done].
Qed.

(** ** Colours *)

Lemma land_255 x : Z.land x 255 = x mod 256.
Proof. exact (Z.land_ones x 8 ltac:(lia)). Qed.

Lemma channel_range x : 0 <= Z.land x 255 <= 255.
Proof. rewrite land_255. pose proof (Z.mod_pos_bound x 256). lia. Qed.

Lemma brightness_range st : 0 <= rgb_to_brightness st <= 255.
Proof.
  unfold rgb_to_brightness. cbv zeta. set (c := Z.land (color st) 16777215).
  pose proof (channel_range (Z.shiftr c 16)). pose proof (channel_range (Z.shiftr c 8)). pose proof (channel_range c).
  rewrite Z.shiftr_div_pow2 by lia. change (2 ^ 8) with 256. split; [apply Z.div_pos; lia|].
  apply Z.lt_succ_r, Z.div_lt_upper_bound; lia.
Qed.

(** A grey is as bright as its channels. *)
Lemma grey_brightness v mode on off : 0 <= v <= 255 -> rgb_to_brightness (LightState (v * 65536 + v * 256 + v) mode on off) = v.
Proof.
  intros Hv. unfold rgb_to_brightness. cbv zeta. simpl color.
  assert (Hc : Z.land (v * 65536 + v * 256 + v) 16777215 = v * 65536 + v * 256 + v).
  { change 16777215 with (Z.ones 24). rewrite Z.land_ones by lia. apply Z.mod_small. lia. }
  rewrite Hc, !land_255, !Z.shiftr_div_pow2 by lia.
  change (2 ^ 16) with 65536. change (2 ^ 8) with 256.
  replace ((v * 65536 + v * 256 + v) / 65536) with v by (apply Z.div_unique with (r := v * 256 + v); lia).
  replace ((v * 65536 + v * 256 + v) / 256) with (v * 256 + v) by (apply Z.div_unique with (r := v); lia).
  replace (v mod 256) with v by (symmetry; apply Z.mod_small; lia).
  replace ((v * 256 + v) mod 256) with v by (apply Z.mod_unique with (q := v); lia).
  replace ((v * 65536 + v * 256 + v) mod 256) with v by (apply Z.mod_unique with (q := v * 256 + v); lia).
  symmetry. apply Z.div_unique with (r := 0); lia.
Qed.

(** ** What the files may hold *)

Definition is_int (v : Z) : Prop := - 2 ^ 31 <= v < 2 ^ 31.
Definition number_line (v : Z) : string := pretty v +:+ newline.

Definition LED_FILES : list string := [RED_LED_FILE; GREEN_LED_FILE; BLUE_LED_FILE].

Definition file_ok (path text : string) : Prop :=
  (path = LCD_BACKLIGHT_FILE -> exists v, text = number_line v /\ (v = 0 \/ LCD_BRIGHTNESS_MIN <= v <= 255)) /\
  (path ∈ BUTTON_BACKLIGHT_FILE :: KEYBOARD_BACKLIGHT_FILE :: LED_FILES -> exists v, text = number_line v /\ 0 <= v <= 255) /\
  (path ∈ LED_FILE_TRIGGER -> text = "timer" +:+ newline \/ text = "none" +:+ newline) /\
  (path ∈ LED_FILE_DELAYON ++ LED_FILE_DELAYOFF -> exists v, text = number_line v /\ is_int v).

(** The delays are of type [int]. *)
Definition valid_state (st : light_state_t) : Prop := is_int (flashOnMS st) /\ is_int (flashOffMS st).

Definition lights_ok (s : lights) : Prop :=
  map_Forall file_ok (sysfs s) /\ valid_state (g_notification s) /\ valid_state (g_battery s).

Section Bounds.
Context {L : LightsHeader} {W : LightsLaws L}.

(** A computation that keeps the files in order and does not fault. *)
Definition keeps {A} (m : M lights A) : Prop := forall s, lights_ok s -> holds m s (fun _ s' => lights_ok s') False.

Lemma lights_keeps_ret {A} (a : A) : keeps (mret a).
Proof. by intros s Hs. Qed.

Lemma lights_keeps_bind {A B} (m : M lights A) (k : A -> M lights B) : keeps m -> (forall a, keeps (k a)) -> keeps (m ≫= k).
Proof. intros Hm Hk s Hs. eapply holds_bind; [by apply Hm|]. intros a s' Hs'. by apply Hk. Qed.

Lemma keeps_write path text : buffered (text +:+ newline) = Some (text +:+ newline) -> file_ok path (text +:+ newline) -> keeps (write_text path text).
Proof.
  intros Hb Hf s (H1 & H2 & H3). unfold holds, write_text. destruct (open_errno path); [done|]. rewrite Hb.
  destruct (write_errno path); [done|].
  split; [|done]. simpl. by apply map_Forall_insert_2.
Qed.

(** Which files a text is right for. *)
Lemma file_ok_lcd v : v = 0 \/ LCD_BRIGHTNESS_MIN <= v <= 255 -> file_ok LCD_BACKLIGHT_FILE (number_line v).
Proof. intros Hv. split; [eauto|]. split_and!; intros Hpath; exfalso; set_solver. Qed.

Lemma file_ok_brightness path v : path ∈ BUTTON_BACKLIGHT_FILE :: KEYBOARD_BACKLIGHT_FILE :: LED_FILES -> 0 <= v <= 255 -> file_ok path (number_line v).
Proof. intros Hp Hv. split_and!; intros Hpath; [exfalso; subst path; set_solver|eauto|exfalso; set_solver|exfalso; set_solver]. Qed.

Lemma file_ok_trigger path text : path ∈ LED_FILE_TRIGGER -> text = "timer" \/ text = "none" -> file_ok path (text +:+ newline).
Proof.
  intros Hp Ht.
  split_and!; intros Hpath; [exfalso; subst path; set_solver|exfalso; set_solver|destruct Ht as [->| ->]; auto|exfalso; set_solver].
Qed.

Lemma file_ok_delay path v : path ∈ LED_FILE_DELAYON ++ LED_FILE_DELAYOFF -> is_int v -> file_ok path (number_line v).
Proof. intros Hp Hv. split_and!; intros Hpath; [exfalso; subst path; set_solver|exfalso; set_solver|exfalso; set_solver|eauto]. Qed.

Lemma keeps_number path v : is_int v -> file_ok path (number_line v) -> keeps (write_int path v).
Proof. intros Hv. apply keeps_write. by apply int_fits. Qed.

Lemma keeps_brightness path v : path ∈ BUTTON_BACKLIGHT_FILE :: KEYBOARD_BACKLIGHT_FILE :: LED_FILES -> 0 <= v <= 255 -> keeps (write_int path v).
Proof. intros Hp Hv. apply keeps_number; [unfold is_int; lia|by apply file_ok_brightness]. Qed.

Lemma keeps_channel path v : path ∈ LED_FILES -> keeps (write_int path (Z.land v 255)).
Proof. intros Hp. apply keeps_brightness; [set_solver|apply channel_range]. Qed.

Lemma keeps_trigger path text : path ∈ LED_FILE_TRIGGER -> text = "timer" \/ text = "none" -> keeps (write_string path text).
Proof. intros Hp Ht. apply keeps_write; [by destruct Ht as [-> | ->]|by apply file_ok_trigger]. Qed.

(** The constant is the double next to 2.2. *)
Lemma gamma_exponent_value : gamma_exponent = double_div (double_of_int 22) (double_of_int 10).
Proof. vm_compute. reflexivity. Qed.

(** The cast of the gamma correction is defined, and what it gives is in range. *)
Lemma gamma_run b s : 0 < b <= 255 -> exists v, brightness_apply_gamma b s = Ret (v, s) /\ LCD_BRIGHTNESS_MIN <= v <= 255.
Proof.
  intros Hb. unfold brightness_apply_gamma. cbv zeta.
  assert (Hu : between_zero_and 1 (double_div (double_of_int b) (double_of_int 255)) = true).
  { assert (Hall : forallb (fun b => between_zero_and 1 (double_div (double_of_int b) (double_of_int 255))) (map Z.of_nat (seq 1 255)) = true)
      by (vm_compute; reflexivity).
    apply (proj1 (forallb_forall _ _) Hall), list_elem_of_In, list_elem_of_fmap. exists (Z.to_nat b). rewrite elem_of_seq. lia. }
  apply (pow_unit _ 4953959590107546 (-51)) in Hu. fold gamma_exponent in Hu.
  pose proof (unit_mul_between 255 _ (double_of_int 255) ltac:(lia) Hu eq_refl) as Hm.
  destruct (int_of_double_range 255 _ ltac:(lia) Hm) as (t & -> & Ht). eexists. split; [reflexivity|].
  unfold LCD_BRIGHTNESS_MIN. destruct (Z.ltb_spec t 5); lia.
Qed.

(** What [set_light_backlight] writes. *)
Lemma backlight_value st : exists v, (v = 0 \/ LCD_BRIGHTNESS_MIN <= v <= 255) /\
  forall s, set_light_backlight st s = write_int LCD_BACKLIGHT_FILE v s.
Proof.
  pose proof (brightness_range st) as Hb. unfold set_light_backlight. cbv zeta. destruct (Z.ltb_spec 0 (rgb_to_brightness st)) as [Hp|Hp].
  - destruct (gamma_run (rgb_to_brightness st) (Lights ∅ (LightState 0 0 0 0) (LightState 0 0 0 0))) as (v & E & Hv); [lia|].
    exists v. split; [by right|]. intros s. assert (E' : brightness_apply_gamma (rgb_to_brightness st) s = Ret (v, s)).
    { revert E. unfold brightness_apply_gamma. destruct (int_of_double _); [by intros [= ->]|done]. }
    by rewrite (bind_run _ _ _ _ _ E').
  - exists (rgb_to_brightness st). split; [left; lia|done].
Qed.

Lemma keeps_backlight st : keeps (set_light_backlight st).
Proof.
  destruct (backlight_value st) as (v & Hv & E). intros s Hs. unfold holds. rewrite E.
  apply keeps_number; [unfold is_int, LCD_BRIGHTNESS_MIN in *; lia|apply file_ok_lcd; tauto|done].
Qed.

Lemma keeps_buttons st : keeps (set_light_buttons st).
Proof.
  unfold set_light_buttons. destruct HAVE_BUTTON_BACKLIGHT; [|apply lights_keeps_ret].
  apply lights_keeps_bind; [|intros; apply lights_keeps_ret].
  apply keeps_brightness; [set_solver|apply brightness_range].
Qed.

Lemma keeps_keyboard st : keeps (set_light_keyboard st).
Proof.
  unfold set_light_keyboard. destruct HAVE_KEYBOARD_BACKLIGHT; [|apply lights_keeps_ret].
  apply lights_keeps_bind; [|intros; apply lights_keeps_ret].
  apply keeps_brightness; [set_solver|apply brightness_range].
Qed.

Lemma keeps_none files : (forall f, f ∈ files -> f ∈ LED_FILE_TRIGGER) -> keeps (none_loop files).
Proof.
  induction files as [|f files IH]; intros Hf; [apply lights_keeps_ret|]. cbn [none_loop].
  apply lights_keeps_bind; [|intros _; apply IH; set_solver].
  apply keeps_trigger; [set_solver|auto].
Qed.

Lemma keeps_timer files on off :
  (forall f a b, (f, a, b) ∈ files -> f ∈ LED_FILE_TRIGGER /\ a ∈ LED_FILE_DELAYON /\ b ∈ LED_FILE_DELAYOFF) -> is_int on -> is_int off -> keeps (timer_loop files on off).
Proof.
  intros Hf Hon Hoff. induction files as [|[[f a] b] files IH]; [apply lights_keeps_ret|]. cbn [timer_loop].
  destruct (Hf f a b (list_elem_of_here _ _)) as (H1 & H2 & H3). repeat (apply lights_keeps_bind; [|intros _]).
  - apply keeps_trigger; auto.
  - apply keeps_number; [done|]. apply file_ok_delay; [apply elem_of_app; auto|done].
  - apply keeps_number; [done|]. apply file_ok_delay; [apply elem_of_app; auto|done].
  - apply IH. intros f' a' b' Hin. apply Hf. by apply list_elem_of_further.
Qed.

(** The shared LED; the state that comes back is valid too. *)
Lemma shared_light_ok st s : valid_state st -> lights_ok s -> holds (set_shared_light_locked st) s (fun st' s' => lights_ok s' /\ valid_state st') False.
Proof.
  intros [Hon Hoff] Hs. unfold set_shared_light_locked. cbv zeta. set (st' := if flashOnMS st =? 1 then _ else st).
  assert (Hv : valid_state st') by (unfold st'; by destruct (_ =? 1)). clearbody st'.
  eapply holds_bind with (Q := fun _ s' => lights_ok s').
  { apply (fun H : keeps _ => H s Hs). destruct (_ || _).
    - apply keeps_timer; [|done|done]. intros f a b. cbn. rewrite !elem_of_cons, elem_of_nil. intros Hin.
      destruct_or?; simplify_eq; set_solver.
    - destruct (_ =? _); [by apply keeps_none|apply lights_keeps_ret]. }
  intros _ s1 H1.
  assert (Hch : forall path v, path ∈ LED_FILES -> forall s2, lights_ok s2 -> holds (write_int path (Z.land v 255)) s2 (fun _ s' => lights_ok s') False)
    by (intros path v Hp s2 H2; by apply keeps_channel).
  eapply holds_bind; [apply Hch; [set_solver|done]|]. intros ? s2 H2. eapply holds_bind; [apply Hch; [set_solver|done]|].
  intros ? s3 H3.
  eapply holds_bind; [apply Hch; [set_solver|done]|]. intros ? s4 H4. by apply holds_ret.
Qed.

Lemma keeps_shared : keeps handle_shared_battery_locked.
Proof.
  intros s Hs. unfold handle_shared_battery_locked. eapply holds_run; [reflexivity|]. pose proof Hs as (_ & Hn & Hb).
  destruct (negb _); (eapply holds_bind; [by apply shared_light_ok|]); intros st s' [(H1 & H2 & H3) Hst]; unfold holds; cbn; split; [done|by split|done|by split].
Qed.

Lemma lights_keeps_call f st : valid_state st -> keeps (call_set_light f st).
Proof.
  intros Hst. destruct f; cbn [call_set_light].
  - apply keeps_backlight.
  - apply keeps_keyboard.
  - apply keeps_buttons.
  - intros s (H1 & H2 & H3). unfold set_light_battery. do 2 (eapply holds_run; [reflexivity|]).
    by apply (lights_keeps_bind _ _ keeps_shared (fun _ => lights_keeps_ret 0)).
  - intros s (H1 & H2 & H3). unfold set_light_notifications. do 2 (eapply holds_run; [reflexivity|]).
    by apply (lights_keeps_bind _ _ keeps_shared (fun _ => lights_keeps_ret 0)).
Qed.

(** C36: whatever light states the framework sets, and whichever files cannot
    be opened or written, no call overruns its text buffer, the cast of the
    gamma correction to [int] is defined, and every file that was written holds
    a value in range: the backlight is 0 or between [LCD_BRIGHTNESS_MIN] and
    255, a LED or key backlight between 0 and 255, a trigger is [timer] or
    [none], and a delay a number of type [int].  Of [pow] it is used that a
    power of a number from 0 to 1 with a positive exponent is from 0 to 1
    ([pow_unit]); the division by 255.0, the multiplication and the cast are
    computed on doubles. *)
Theorem lights_stay_in_range calls s :
  Forall (fun c => valid_state c.2) calls -> lights_ok s ->
  exists s', call_all calls s = Ret (tt, s') /\ map_Forall file_ok (sysfs s').
Proof.
  intros Hc. revert s. induction Hc as [|[f st] calls Hst _ IH]; intros s Hs; [exists s; split; [done|apply Hs]|].
  pose proof (lights_keeps_call f st Hst s Hs) as H. unfold holds in H. unfold call_all. cbn [foldr fst snd].
  destruct (call_set_light f st s) as [[v s1]| |] eqn:E; try done.
  rewrite (bind_run _ _ _ _ _ E). by apply IH.
Qed.

End Bounds.

(** ** The shared LED as the framework sees it *)

Section Led.
Context {L : LightsHeader} {W : LightsLaws L}.

Definition led_paths : list string := LED_FILES ++ LED_FILE_TRIGGER ++ LED_FILE_DELAYON ++ LED_FILE_DELAYOFF.

(** The files of the LED can be written. *)
Definition led_writable : Prop := forall path, path ∈ led_paths -> open_errno path = None /\ write_errno path = None.

(** A period of one millisecond means no flashing. *)
Definition steady (st : light_state_t) : light_state_t := if flashOnMS st =? 1 then with_flashMode LIGHT_FLASH_NONE st else st.

Definition flashes (st : light_state_t) : bool := (flashMode st =? LIGHT_FLASH_TIMED) || (flashMode st =? LIGHT_FLASH_HARDWARE).

(** The LED shows the state [st]. *)
Definition leds_show (f : gmap string string) (st : light_state_t) : Prop :=
  f !! RED_LED_FILE = Some (number_line (Z.land (Z.shiftr (Z.land 16777215 (color st)) 16) 255)) /\
  f !! GREEN_LED_FILE = Some (number_line (Z.land (Z.shiftr (Z.land 16777215 (color st)) 8) 255)) /\
  f !! BLUE_LED_FILE = Some (number_line (Z.land (Z.land 16777215 (color st)) 255)) /\
  (forall path, path ∈ LED_FILE_TRIGGER -> f !! path = Some ((if flashes (steady st) then "timer" else "none") +:+ newline)) /\
  (flashes (steady st) = true ->
    (forall path, path ∈ LED_FILE_DELAYON -> f !! path = Some (number_line (flashOnMS st))) /\
    (forall path, path ∈ LED_FILE_DELAYOFF -> f !! path = Some (number_line (flashOffMS st)))).

Definition known_mode (st : light_state_t) : Prop := flashMode st = LIGHT_FLASH_NONE \/ flashes st = true.

Lemma steady_idem st : steady (steady st) = steady st.
Proof. unfold steady. destruct (flashOnMS st =? 1) eqn:E; simpl; by rewrite E. Qed.

Lemma leds_show_steady f st : leds_show f (steady st) <-> leds_show f st.
Proof.
  unfold leds_show. rewrite steady_idem.
  assert (color (steady st) = color st /\ flashOnMS (steady st) = flashOnMS st /\ flashOffMS (steady st) = flashOffMS st) as (-> & -> & ->)
    by (unfold steady; by destruct (_ =? 1)). done.
Qed.

Lemma write_led path text s :
  led_writable -> path ∈ led_paths -> buffered (text +:+ newline) = Some (text +:+ newline) ->
  write_text path text s = Ret (0, with_sysfs (<[path := text +:+ newline]> (sysfs s)) s).
Proof. intros Hw Hp Hb. unfold write_text. destruct (Hw path Hp) as [-> ->]. by rewrite Hb. Qed.

(** Membership in a list of constants. *)
Ltac member := apply (bool_decide_unpack _); vm_compute; exact I.

(** Run the writes of the LED one after the other. *)
Ltac run_writes Hw :=
  repeat (erewrite bind_run by (apply write_led; [exact Hw|member|first [reflexivity | apply int_fits; assumption]])).

(** The files after a list of writes. *)
Definition written (f : gmap string string) (ws : list (string * string)) : gmap string string :=
  foldl (fun f w => <[w.1 := w.2 +:+ newline]> f) f ws.

Lemma written_other f ws path : path ∉ ws.*1 -> written f ws !! path = f !! path.
Proof.
  revert f. induction ws as [|[k v] ws IH]; intros f Hp; [done|]. simpl in *. rewrite IH by set_solver. apply lookup_insert_ne.
  set_solver.
Qed.

Lemma written_lookup f ws path text : NoDup ws.*1 -> (path, text) ∈ ws -> written f ws !! path = Some (text +:+ newline).
Proof.
  revert f. induction ws as [|[k v] ws IH]; intros f Hn Hin; [by apply not_elem_of_nil in Hin|]. simpl in *.
  apply NoDup_cons in Hn as [Hk Hn].
  apply elem_of_cons in Hin as [[= -> ->]|Hin]; [|by apply IH]. rewrite written_other by done. apply lookup_insert_eq.
Qed.

Definition color_writes (st : light_state_t) : list (string * string) :=
  let c := Z.land 16777215 (color st) in
  [(RED_LED_FILE, pretty (Z.land (Z.shiftr c 16) 255)); (GREEN_LED_FILE, pretty (Z.land (Z.shiftr c 8) 255)); (BLUE_LED_FILE, pretty (Z.land c 255))].

Definition timer_writes (st : light_state_t) : list (string * string) :=
  concat (zip_with (fun '(t, on) off => [(t, "timer"); (on, pretty (flashOnMS st)); (off, pretty (flashOffMS st))]) (zip LED_FILE_TRIGGER LED_FILE_DELAYON) LED_FILE_DELAYOFF).

Definition none_writes : list (string * string) := map (fun t => (t, "none")) LED_FILE_TRIGGER.

Definition led_writes (st : light_state_t) : list (string * string) := (if flashes (steady st) then timer_writes st else none_writes) ++ color_writes st.

Lemma led_writes_nodup st : NoDup (led_writes st).*1.
Proof. unfold led_writes. destruct (flashes (steady st)); apply (bool_decide_unpack _); vm_compute; exact I. Qed.

Lemma led_writes_show f st : leds_show (written f (led_writes st)) st.
Proof.
  assert (H : forall path text, (path, text) ∈ led_writes st -> written f (led_writes st) !! path = Some (text +:+ newline))
    by (intros; apply written_lookup; [apply led_writes_nodup|done]).
  assert (Hc : forall w, w ∈ color_writes st -> w ∈ led_writes st) by (intros w Hw; apply elem_of_app; by right).
  unfold leds_show, number_line. split_and!; try (apply H, Hc; unfold color_writes; rewrite !elem_of_cons; tauto).
  - intros path Hp. apply H, elem_of_app. left. unfold LED_FILE_TRIGGER in Hp. rewrite !elem_of_cons, elem_of_nil in Hp.
    destruct (flashes (steady st)); cbn; rewrite !elem_of_cons; destruct_or?; subst; tauto.
  - intros Ef. split; intros path Hp; apply H, elem_of_app; left; rewrite Ef; unfold LED_FILE_DELAYON, LED_FILE_DELAYOFF in Hp;
      rewrite !elem_of_cons, elem_of_nil in Hp; cbn; rewrite !elem_of_cons; destruct_or?; subst; tauto.
Qed.

Lemma led_writes_frame f st path : path ∉ led_paths -> written f (led_writes st) !! path = f !! path.
Proof.
  intros Hp. apply written_other. intros Hin. apply Hp. revert path Hin Hp.
  assert (Hall : Forall (fun p => p ∈ led_paths) (led_writes st).*1) by (unfold led_writes; destruct (flashes (steady st)); member).
  intros path Hin _. by rewrite Forall_forall in Hall; apply Hall.
Qed.

Lemma shared_light_shows st s :
  led_writable -> valid_state st -> known_mode (steady st) ->
  set_shared_light_locked st s = Ret (steady st, with_sysfs (written (sysfs s) (led_writes st)) s).
Proof.
  intros Hw [Hon Hoff] Hk. unfold set_shared_light_locked. cbv zeta. fold (steady st). fold (flashes (steady st)).
  assert (Hcol : forall v, is_int (Z.land v 255)) by (intros v; pose proof (channel_range v); unfold is_int; lia).
  pose proof (Hcol (Z.shiftr (Z.land 16777215 (color st)) 16)) as C1.
  pose proof (Hcol (Z.shiftr (Z.land 16777215 (color st)) 8)) as C2.
  pose proof (Hcol (Z.land 16777215 (color st))) as C3. unfold led_writes. destruct (flashes (steady st)) eqn:Ef.
  - erewrite bind_run; [|cbn [timer_loop zip zip_with LED_FILE_TRIGGER LED_FILE_DELAYON LED_FILE_DELAYOFF]; run_writes Hw; reflexivity].
    run_writes Hw. reflexivity.
  - destruct Hk as [Hn|Hn]; [|congruence]. rewrite Hn, Z.eqb_refl.
    erewrite bind_run; [|cbn [none_loop LED_FILE_TRIGGER]; run_writes Hw; reflexivity]. run_writes Hw. reflexivity.
Qed.

(** *** The abstract LED *)

(** The last state of the notification light and of the battery light, and
    whether one of them was ever set. *)
Definition remember (p : light_state_t * light_state_t * bool) (c : set_light * light_state_t) : light_state_t * light_state_t * bool :=
  match c.1 with
  | Battery => (p.1.1, c.2, true)
  | Notifications => (c.2, p.1.2, true)
  | _ => p
  end.

Definition shown_state (n b : light_state_t) : light_state_t := if is_lit n =? 0 then b else n.

Definition same_light (g st : light_state_t) : Prop := (g = st \/ g = steady st) /\ valid_state st /\ known_mode (steady st).

Lemma same_light_use g st : same_light g st -> is_lit g = is_lit st /\ valid_state g /\ known_mode (steady g) /\ steady g = steady st.
Proof.
  intros [[-> | ->] [Hv Hk]]; [done|]. rewrite steady_idem.
  split; [unfold steady; by destruct (_ =? 1)|]. split; [unfold steady; by destruct (_ =? 1)|done].
Qed.

(** The concrete LED is right for what the framework last asked for. *)
Definition led_sim (s : lights) (p : light_state_t * light_state_t * bool) : Prop :=
  same_light (g_notification s) p.1.1 /\ same_light (g_battery s) p.1.2 /\
  (p.2 = true -> leds_show (sysfs s) (shown_state p.1.1 p.1.2)).

Lemma leds_show_eq f st st' : steady st = steady st' -> leds_show f st -> leds_show f st'.
Proof. intros E H. apply (proj1 (leds_show_steady f st')). rewrite <- E. exact (proj2 (leds_show_steady f st) H). Qed.

Lemma handle_shared_shows s n b :
  led_writable -> same_light (g_notification s) n -> same_light (g_battery s) b ->
  exists s', handle_shared_battery_locked s = Ret (tt, s') /\ led_sim s' (n, b, true).
Proof.
  intros Hw Hn Hb. destruct (same_light_use _ _ Hn) as (En & Vn & Kn & Sn), (same_light_use _ _ Hb) as (Eb & Vb & Kb & Sb).
  unfold handle_shared_battery_locked. erewrite bind_run by reflexivity. rewrite En.
  assert (Hshow : forall g st, steady g = steady st -> leds_show (written (sysfs s) (led_writes g)) st) by (intros g st E; eapply leds_show_eq; [exact E|apply led_writes_show]).
  destruct Hn as (Hn & ? & ?), Hb as (Hb & ? & ?). unfold led_sim, shown_state. cbn [fst snd].
  destruct (is_lit n =? 0) eqn:El; cbn [negb].
  - rewrite (bind_run _ _ _ _ _ (shared_light_shows _ s Hw Vb Kb)). eexists. split; [reflexivity|].
    split_and!; [by split|split; [right; exact Sb|done]|]. intros _. by apply Hshow.
  - rewrite (bind_run _ _ _ _ _ (shared_light_shows _ s Hw Vn Kn)). eexists. split; [reflexivity|].
    split_and!; [split; [right; exact Sn|done]|by split|]. intros _. by apply Hshow.
Qed.

(** A write to another file leaves the LED alone. *)
Lemma write_elsewhere path v s p :
  path ∉ led_paths -> is_int v -> led_sim s p -> exists e s', write_int path v s = Ret (e, s') /\ led_sim s' p.
Proof.
  intros Hp Hv (H1 & H2 & H3). unfold write_int, write_text. destruct (open_errno path); [by eexists _, s|].
  rewrite int_fits by done.
  destruct (write_errno path); [by eexists _, s|]. eexists _, _. split; [done|]. split; [done|]. split; [done|]. intros Hs.
  specialize (H3 Hs). cbn -[lookup insert].
  assert (Hne : forall q, q ∈ led_paths -> <[path := pretty v +:+ newline]> (sysfs s) !! q = sysfs s !! q) by (intros q Hq; apply lookup_insert_ne; by intros <-).
  destruct H3 as (R & G & B & T & D). unfold leds_show. rewrite !Hne by member. split_and!; try done.
  - intros q Hq. rewrite Hne; [by apply T|]. apply elem_of_app. right. apply elem_of_app. by left.
  - intros Ef. destruct (D Ef) as [D1 D2].
    split; intros q Hq; rewrite Hne; [by apply D1| |by apply D2|]; unfold led_paths; rewrite !elem_of_app; auto.
Qed.

Lemma call_sim c s p :
  led_writable -> valid_state c.2 -> known_mode (steady c.2) -> led_sim s p ->
  exists e s', call_set_light c.1 c.2 s = Ret (e, s') /\ led_sim s' (remember p c).
Proof.
  intros Hw Hv Hk Hs. destruct c as [f st], p as [[n b] sh]. pose proof Hs as (Hn & Hb & _). cbn [fst snd] in *.
  assert (Hbr : is_int (rgb_to_brightness st)) by (pose proof (brightness_range st); unfold is_int; lia). unfold remember.
  cbn [fst snd].
  destruct f; cbn [call_set_light].
  - destruct (backlight_value st) as (v & Hvr & E). rewrite E.
    apply write_elsewhere; [by apply (bool_decide_unpack _)|unfold is_int, LCD_BRIGHTNESS_MIN in *; lia|done].
  - unfold set_light_keyboard. destruct HAVE_KEYBOARD_BACKLIGHT; [|by eexists _, s].
    destruct (write_elsewhere KEYBOARD_BACKLIGHT_FILE (rgb_to_brightness st) s (n, b, sh)) as (e & s' & E & H); [by apply (bool_decide_unpack _)|done|done|].
    rewrite (bind_run _ _ _ _ _ E). by eexists _, s'.
  - unfold set_light_buttons. destruct HAVE_BUTTON_BACKLIGHT; [|by eexists _, s].
    destruct (write_elsewhere BUTTON_BACKLIGHT_FILE (rgb_to_brightness st) s (n, b, sh)) as (e & s' & E & H); [by apply (bool_decide_unpack _)|done|done|].
    rewrite (bind_run _ _ _ _ _ E). by eexists _, s'.
  - destruct (handle_shared_shows (with_battery st s) n st Hw) as (s' & E & H); [done|by split; [left|]|]. exists 0, s'.
    split; [|done].
    unfold set_light_battery. do 2 (erewrite bind_run by reflexivity). by rewrite (bind_run _ _ _ _ _ E).
  - destruct (handle_shared_shows (with_notification st s) st b Hw) as (s' & E & H); [by split; [left|]|done|]. exists 0, s'.
    split; [|done].
    unfold set_light_notifications. do 2 (erewrite bind_run by reflexivity). by rewrite (bind_run _ _ _ _ _ E).
Qed.

(** C37: after any calls of the framework, when the files of the LED can be
    written, the LED shows the last state of the notification light if that
    has a colour, and the last state of the battery light otherwise: the three
    channels of the colour, and flashing with the delays of that state exactly
    when its mode asks for it and its period is not one millisecond. *)
Theorem led_shows_notification_first calls files :
  led_writable -> Forall (fun c => valid_state c.2 /\ known_mode (steady c.2)) calls ->
  exists s', call_all calls (initial_lights files) = Ret (tt, s') /\
    let '(n, b, set) := foldl remember (dark, dark, false) calls in
    set = true -> leds_show (sysfs s') (shown_state n b).
Proof.
  intros Hw Hc.
  assert (H : forall s p, led_sim s p -> exists s', call_all calls s = Ret (tt, s') /\ led_sim s' (foldl remember p calls)).
  { induction Hc as [|c calls [Hv Hk] _ IH]; intros s p Hs; [by exists s|].
    destruct (call_sim c s p Hw Hv Hk Hs) as (e & s1 & E & H1).
    destruct (IH s1 _ H1) as (s' & E' & H'). exists s'. split; [|done]. unfold call_all. cbn [foldr].
    by rewrite (bind_run _ _ _ _ _ E). }
  destruct (H (initial_lights files) (dark, dark, false)) as (s' & E & Hs').
  { assert (same_light dark dark) by (split; [by left|split; [done|left; by rewrite flash_none]]). by split_and!. }
  exists s'. split; [done|]. destruct (foldl remember _ calls) as [[n b] sh]. apply Hs'.
Qed.

End Led.

(** ** Witnesses *)

(** The values of [hardware/lights.h], all files writable, and the square in
    place of the power 2.2. *)
Definition sample_header : LightsHeader := {|
  LIGHT_ID_BACKLIGHT := "backlight"; LIGHT_ID_KEYBOARD := "keyboard"; LIGHT_ID_BUTTONS := "buttons";
  LIGHT_ID_BATTERY := "battery"; LIGHT_ID_NOTIFICATIONS := "notifications";
  LIGHT_FLASH_NONE := 0; LIGHT_FLASH_TIMED := 1; LIGHT_FLASH_HARDWARE := 2; EINVAL := 22;
  HAVE_BUTTON_BACKLIGHT := true; HAVE_KEYBOARD_BACKLIGHT := false;
  pow := fun x _ => double_mul x x; open_errno := fun _ => None; write_errno := fun _ => None
|}.

Lemma sample_laws : LightsLaws sample_header.
Proof.
  split; [done|done|]. intros x m e Hx. by apply unit_mul_between.
Qed.

(** The battery is charging (steady red), a message arrives (flashing green),
    and the screen is dimmed. *)
Definition sample_calls : list (set_light * light_state_t) :=
  [(Battery, LightState 16711680 0 0 0); (Notifications, LightState 65280 1 500 2000); (Backlight, LightState 1052688 0 0 0)].

(** The theorem for these calls. *)
Lemma lights_stay_in_range_witness : exists s',
  @call_all sample_header sample_calls (initial_lights ∅) = Ret (tt, s') /\ map_Forall file_ok (sysfs s').
Proof.
  apply (@lights_stay_in_range sample_header sample_laws sample_calls (initial_lights ∅)).
  - repeat constructor; cbn; lia.
  - split; [apply map_Forall_empty|]. repeat split; cbn; lia.
Defined.

(** The theorem for these calls: the LED shows the message. *)
Lemma led_shows_notification_first_witness : exists s',
  @call_all sample_header sample_calls (initial_lights ∅) = Ret (tt, s') /\
  @leds_show sample_header (sysfs s') (LightState 65280 1 500 2000).
Proof.
  destruct (@led_shows_notification_first sample_header sample_laws sample_calls ∅) as (s' & E & H).
  - done.
  - repeat constructor; cbn; lia.
  - exists s'. split; [exact E|]. exact (H eq_refl).
Defined.

(** A message of the colour 1 is lit, but its brightness is zero. *)
Lemma dark_blue_is_lit : is_lit (LightState 1 0 0 0) = 1 /\ rgb_to_brightness (LightState 1 0 0 0) = 0.
Proof. done. Qed.
