(* ===== verification/Keycheck.v ===== *)
(** * keycheck/keycheck.c: waiting for a volume key

    The program polls the input devices and the directory that holds them, and
    exits with 42 when a volume key is used.  The arrays [ufds] and
    [device_names] are lists with their capacity; entry 0 is the inotify
    descriptor, which has no name.  The kernel's answers are parameters and
    inputs. *)

From S2P Require Import Prelude.

(** ** Parameters *)

Class InputEnv := {
  (** the descriptor of [open], negative when it fails *)
  open_fd : string -> Z;
  (** [ioctl] for the version or the id of the device fails *)
  ioctl_fails : string -> bool;
  (** the n-th allocation succeeds *)
  realloc_ok : nat -> bool;
  (** what uninitialised memory holds *)
  garbage : Z;
  POLLIN : Z; IN_CREATE : Z; KEY_VOLUMEDOWN : Z; KEY_VOLUMEUP : Z
}.

(** ** State *)

Record pollfd : Type := PollFd { fd : Z; revents : Z }.

(** [allocs] counts the allocations. *)
Record keys : Type := Keys { ufds : list pollfd; device_names : list (option string); nfds : nat; allocs : nat }.

Section Operations.
Context {E : InputEnv}.

Definition count_alloc : M keys bool := fun s =>
  Ret (realloc_ok (allocs s), Keys (ufds s) (device_names s) (nfds s) (S (allocs s))).

(** An array of [n] entries with the old contents. *)
Definition realloc_array {X} (l : list X) (n : nat) (x : X) : list X := take n l ++ replicate (n - length l) x.

Definition set_ufds (l : list pollfd) : M keys unit := fun s => Ret (tt, Keys l (device_names s) (nfds s) (allocs s)).
Definition set_names (l : list (option string)) : M keys unit := fun s => Ret (tt, Keys (ufds s) l (nfds s) (allocs s)).
Definition set_nfds (n : nat) : M keys unit := fun s => Ret (tt, Keys (ufds s) (device_names s) n (allocs s)).

(** An assignment to an entry of an array. *)
Definition store {X} (l : list X) (i : nat) (x : X) : M keys (list X) :=
  if decide (i < length l)%nat then mret (<[i := x]> l) else fault.

(** ** Devices *)

Definition open_device (device : string) : M keys Z :=
  let f := open_fd device in
  if f <? 0 then mret (-1)
  else if ioctl_fails device then mret (-1)
  else
    s ← get;
    ok ← count_alloc;
    if negb ok then mret (-1) else
    set_ufds (realloc_array (ufds s) (nfds s + 1) (PollFd garbage garbage));;
    ok ← count_alloc;
    if negb ok then mret (-1) else
    set_names (realloc_array (device_names s) (nfds s + 1) None);;
    s ← get;
    (** the field [revents] is not set *)
    u ← store (ufds s) (nfds s) (PollFd f (default garbage (revents <$> ufds s !! nfds s)));
    set_ufds u;;
    dup ← count_alloc;
    n ← store (device_names s) (nfds s) (if dup : bool then Some device else None);
    set_names n;;
    set_nfds (nfds s + 1);;
    mret 0.

(** [memmove(l + i, l + i + 1, count)]. *)
Definition memmove {X} (l : list X) (i count : nat) : list X := take i l ++ take count (drop (i + 1) l) ++ drop (i + count) l.

(** The loop of [close_device], with [n] entries left. *)
Fixpoint close_loop (n i : nat) (device : string) : M keys Z :=
  match n with
  | O => mret (-1)
  | S n' =>
      s ← get;
      match device_names s !! i with
      | Some (Some name) =>
          if bool_decide (name = device) then
            let count := (nfds s - i - 1)%nat in
            set_names (memmove (device_names s) i count);;
            set_ufds (memmove (ufds s) i count);;
            set_nfds (nfds s - 1);;
            mret 0
          else close_loop n' (S i) device
      | _ => fault
      end
  end.

Definition close_device (device : string) : M keys Z := s ← get; close_loop (nfds s - 1) 1 device.

(** ** Notifications *)

(** A read of the inotify descriptor: an error, or events with a mask and a
    name. *)
Inductive notify_read : Type :=
| ReadFailed (eintr : bool)
| ReadEvents (events : list (Z * option string)).

Definition devname (dirname filename : string) : string := dirname +:+ "/" +:+ filename.

Fixpoint notify_loop (dirname : string) (events : list (Z * option string)) : M keys unit :=
  match events with
  | [] => mret tt
  | (mask, Some name) :: events =>
      (if negb (Z.land mask IN_CREATE =? 0) then open_device (devname dirname name) else close_device (devname dirname name));;
      notify_loop dirname events
  | (_, None) :: events => notify_loop dirname events
  end.

Definition read_notify (dirname : string) (r : notify_read) : M keys Z :=
  match r with
  | ReadFailed true => mret 0
  | ReadFailed false => mret 1
  | ReadEvents events => notify_loop dirname events;; mret 0
  end.

Fixpoint scan_loop (dirname : string) (entries : list string) : M keys unit :=
  match entries with
  | [] => mret tt
  | d_name :: entries =>
      (if bool_decide (d_name = "." \/ d_name = "..") then mret 0 else open_device (devname dirname d_name));;
      scan_loop dirname entries
  end.

(** [None]: [opendir] fails. *)
Definition scan_dir (dirname : string) (entries : option (list string)) : M keys Z :=
  match entries with
  | None => mret (-1)
  | Some entries => scan_loop dirname entries;; mret 0
  end.

(** ** The main loop *)

(** A round of [poll]: the events of each entry, the inotify read, and the
    code of the event that a read of a descriptor gives ([None]: short). *)
Record poll_round : Type := Round { p_revents : nat -> Z; p_notify : notify_read; p_read : Z -> option Z }.

Definition poll (r : poll_round) : M keys unit := fun s =>
  Ret (tt, Keys (imap (fun i u => if decide (i < nfds s)%nat then PollFd (fd u) (p_revents r i) else u) (ufds s)) (device_names s) (nfds s) (allocs s)).

Definition is_volume_key (code : Z) : bool := (code =? KEY_VOLUMEDOWN) || (code =? KEY_VOLUMEUP).

(** The loop over the devices, with [n] entries left: the exit code, if the
    program ends.  [event_count] is always 0. *)
Fixpoint device_loop (r : poll_round) (n i : nat) : M keys (option Z) :=
  match n with
  | O => mret None
  | S n' =>
      s ← get;
      match ufds s !! i with
      | None => fault
      | Some u =>
          if negb (revents u =? 0) && negb (Z.land (revents u) POLLIN =? 0) then
            match p_read r (fd u) with
            | None => mret (Some 1)
            | Some code => if is_volume_key code then mret (Some 42) else device_loop r n' (S i)
            end
          else device_loop r n' (S i)
      end
  end.

Definition device_path : string := "/dev/input".

Definition main_round (r : poll_round) : M keys (option Z) :=
  poll r;;
  s ← get;
  match ufds s !! 0%nat with
  | None => fault
  | Some u =>
      (if negb (Z.land (revents u) POLLIN =? 0) then read_notify device_path (p_notify r) else mret 0);;
      s ← get;
      device_loop r (nfds s - 1) 1
  end.

Fixpoint main_loop (rounds : list poll_round) : M keys (option Z) :=
  match rounds with
  | [] => mret None
  | r :: rounds => res ← main_round r; match res with Some code => mret (Some code) | None => main_loop rounds end
  end.

(** [main]: the exit code, or [None] when the program still waits after the
    rounds.  [watch]: the result of [inotify_add_watch]. *)
Definition keycheck_main (notify_fd watch : Z) (entries : option (list string)) (rounds : list poll_round) : outcome (option Z * keys) :=
  (if watch <? 0 then mret (Some 1) else
   res ← scan_dir device_path entries;
   if res <? 0 then mret (Some 1) else main_loop rounds) (Keys [PollFd notify_fd 0] [] 1 0).

End Operations.
