(* ===== verification/Init.v ===== *)
(** * init/: the first program of the boot image

    [main] prepares the device nodes, asks [keycheck] for a key, unpacks one of
    two ramdisks and runs the [/init] in it.  Its effects are a list of
    actions, and the answers of the system are inputs.  A board has constants
    and hooks of its own; that of the repository is [semc_board]. *)

From stdpp Require Import pretty.
From S2P Require Import Prelude.

(** ** Actions *)

Inductive action : Type :=
| Unlink (path : string) | Rmdir (path : string) | Mkdir (path : string) (mode : Z) | Mknod (path : string) (char_dev : bool) (mode major minor : Z)
| Mount (dev path fs : string) | Umount (path : string)
| WriteInt (path : string) (value : Z) | WriteString (path text : string) (append : bool) | WriteDate (path : string) (append : bool)
| Exec (argv : list string) | ExecBg (argv : list string) | ExecInline (argv : list string) | Kill (pid : Z)
| Msleep (millis : Z).

#[global] Instance action_eq_dec : EqDecision action.
Proof. solve_decision. Defined.

(** ** init_files.cpp *)

(** [strstr]: the text contains the needle. *)
Fixpoint is_prefix (needle text : string) : bool :=
  match needle, text with
  | EmptyString, _ => true
  | String a needle, String b text => bool_decide (a = b) && is_prefix needle text
  | _, _ => false
  end.
Fixpoint strstr (text needle : string) : bool :=
  is_prefix needle text || match text with EmptyString => false | String _ text => strstr text needle end.

(** [file_contains]: a file that cannot be read is empty. *)
Definition file_contains (content : option string) (needle : string) : bool := strstr (default "" content) needle.

(** [file_exists] and [file_empty] for a file with this content, if any. *)
Definition file_exists (content : option string) : bool := match content with Some _ => true | None => false end.
Definition file_empty (content : option string) : bool := match content with Some c => Nat.eqb (String.length c) 0 | None => false end.

(** A directory tree: nodes that can be unlinked, directories, and names for
    which [stat] fails (dangling links). *)
Inductive entry : Type :=
| Node
| Dangling
| Dir (l : entries)
with entries : Type :=
| NoEntry
| Entry (name : string) (e : entry) (rest : entries).

(** [d_name[0] == '.']. *)
Definition is_hidden (name : string) : bool := match name with String c _ => Ascii.eqb c (Ascii.ascii_of_nat 46) | EmptyString => false end.

(** The buffer [cur_file] has 512 bytes. *)
Definition fits (path : string) : bool := Nat.leb (String.length path) 511.

(** [dir_unlink_r] on [path_dir], which is [e]: the actions, what is left of
    [e], and whether it is gone.  An entry whose path does not fit into the
    buffer is not reached.  [rmdir] removes an empty directory only. *)
Fixpoint dir_unlink_r (path_dir : string) (rm_top child : bool) (e : entry) {struct e} : list action * entry * bool :=
  match e with
  | Dir l =>
      let '(acts, kept) := unlink_entries path_dir rm_top l in
      (acts ++ (if child || rm_top then [Rmdir path_dir] else []), Dir kept,
       (child || rm_top) && match kept with NoEntry => true | _ => false end)
  | _ => ((if child || rm_top then [Rmdir path_dir] else []), e, false)
  end
with unlink_entries (path_dir : string) (rm_top : bool) (l : entries) {struct l} : list action * entries :=
  match l with
  | NoEntry => ([], NoEntry)
  | Entry name e rest =>
      let cur_file := path_dir +:+ "/" +:+ name in
      let '(acts, kept) := unlink_entries path_dir rm_top rest in
      if is_hidden name || negb (fits cur_file) then (acts, Entry name e kept)
      else
        match e with
        | Node => (Unlink cur_file :: acts, kept)
        | _ =>
            let '(acts', e', gone) := dir_unlink_r cur_file rm_top true e in
            (acts' ++ acts, if gone : bool then kept else Entry name e' kept)
        end
  end.

(** ** init_exec.cpp *)

(** The answer of [fork], and whether [execv] returns to the child. *)
Record spawn : Type := Spawn { fork_pid : Z; exec_fails : bool }.

(** [system_exec] returns the status of [waitpid], -1 when that fails; a child
    whose [execv] fails exits with 1. *)
Definition system_exec (sp : spawn) (exit_status wait_any : option Z) : Z :=
  if fork_pid sp <? 0 then default (-1) wait_any
  else if exec_fails sp then Z.shiftl 1 8
  else default (-1) exit_status.

(** [system_exec_bg]: what it returns, in each process that goes on behind it;
    a child whose [execv] fails is one of them. *)
Definition system_exec_bg (sp : spawn) : list Z :=
  fork_pid sp :: if (0 <? fork_pid sp) && exec_fails sp then [0] else [].

(** [system_exec_inline] returns when [execv] fails. *)
Definition system_exec_inline (fails : bool) : list unit := if fails then [tt] else [].

(** An answer of [waitpid] with [WNOHANG], and the time after it. *)
Inductive wait_answer : Type := Exited (status : Z) | WaitError | Running (now : Z).

(** [system_exec_kill]: the status and whether the process was killed;
    [None]: the loop has not ended after these answers. *)
Fixpoint wait_loop (answers : list wait_answer) (start timeout : Z) : option (Z * bool) :=
  match answers with
  | [] => None
  | Exited status :: _ => Some (status, false)
  | WaitError :: _ => Some (-1, false)
  | Running now :: answers => if now - start <? timeout then wait_loop answers start timeout else Some (0, true)
  end.

Definition system_exec_kill (answers : list wait_answer) (start timeout : Z) : option (Z * bool) := wait_loop answers start timeout.

(** ** init_io.cpp *)

Definition CMD_MAX_LENGTH : Z := 80.
Definition newline : string := String (Ascii.ascii_of_nat 10) EmptyString.

(** The bytes that [write] takes from the buffer of [snprintf]; [None]: it
    reads behind the buffer. *)
Definition buffered (text : string) : option string :=
  let bytes := Z.of_nat (String.length text) in
  if CMD_MAX_LENGTH <? bytes then None
  else if bytes =? CMD_MAX_LENGTH then Some (String.substring 0 (Z.to_nat (CMD_MAX_LENGTH - 1)) text +:+ String Ascii.zero EmptyString)
  else Some text.

(** The contents after a write at the end ([O_APPEND]) or at the start; the
    file is created, and not truncated. *)
Definition write_file (old : option string) (bytes : string) (append : bool) : string :=
  let old := default "" old in
  if append then old +:+ bytes
  else bytes +:+ String.substring (String.length bytes) (String.length old) old.

(** The decimal digits of a number. *)
Definition decimal (value : Z) : string := pretty value.

Definition write_int (old : option string) (value : Z) : option string :=
  b ← buffered (decimal value +:+ newline); Some (write_file old b false).
Definition write_string (old : option string) (value : string) (append : bool) : option string :=
  b ← buffered (value +:+ newline); Some (write_file old b append).
(** [strftime] writes nothing when the text does not fit. *)
Definition write_date (old : option string) (date : string) (append : bool) : option string :=
  Some (write_file old (if Z.of_nat (String.length date) <? CMD_MAX_LENGTH then date else "") append).

(** ** init_main.cpp *)

Definition BOOT_TXT : string := "/boot.txt".
Definition EXEC_KEYCHECK : string := "/sbin/keycheck".
Definition EXEC_TOYBOX : string := "/sbin/toybox_init".
Definition SBIN_CPIO_ANDROID : string := "/sbin/ramdisk.cpio".
Definition SBIN_CPIO_RECOVERY : string := "/sbin/ramdisk-recovery.cpio".
Definition KEYCHECK_RECOVERY_BOOT : Z := Z.shiftl 41 8.
Definition KEYCHECK_RECOVERY_FOTA : Z := Z.shiftl 42 8.

(** What a hook of a board leaves to [main]: it runs no program and does not
    touch the log. *)
Definition quiet (a : action) : bool :=
  match a with
  | Exec _ | ExecBg _ | ExecInline _ => false
  | Unlink path | WriteString path _ _ | WriteDate path _ => negb (bool_decide (path = BOOT_TXT))
  | _ => true
  end.

(** The constants and the hooks of a board, the class [init_board_common]. *)
Class Board : Type := {
  DEV_BLOCK_PATH : string; DEV_BLOCK_MAJOR : Z; DEV_BLOCK_MINOR : Z;
  WARMBOOT_CMDLINE : string; WARMBOOT_RECOVERY : string; KEYCHECK_TIMEOUT : Z;
  start_init : list action; introduce_keycheck : list action; introduce_android : list action;
  introduce_recovery : list action; finish_init : list action;
  hooks_quiet : forallb quiet (start_init ++ introduce_keycheck ++ introduce_android ++ introduce_recovery ++ finish_init) = true
}.

(** The constants of init_board.h and the empty hooks of [init_board_common]. *)
#[refine] Definition common_board : Board := {|
  DEV_BLOCK_PATH := "/dev/block/mmcblk0"; DEV_BLOCK_MAJOR := 179; DEV_BLOCK_MINOR := 0;
  WARMBOOT_CMDLINE := "/proc/cmdline"; WARMBOOT_RECOVERY := "warmboot=0x77665502"; KEYCHECK_TIMEOUT := 3;
  start_init := []; introduce_keycheck := []; introduce_android := []; introduce_recovery := []; finish_init := []
|}.
Proof. reflexivity. Defined.

(** ** init_semc/init_board_device.h *)

Definition led_color (r g b : Z) : list action :=
  [WriteInt "/sys/class/leds/red/brightness" r; WriteInt "/sys/class/leds/green/brightness" g; WriteInt "/sys/class/leds/blue/brightness" b].
Definition vibrate (strength : Z) : list action := [WriteInt "/sys/class/timed_output/vibrator/enable" strength].

Definition semc_warmboot_cmdline : string := "/cache/recovery/boot".
Definition semc_warmboot_recovery : string := "recovery".
Definition semc_start_init : list action :=
  [Mkdir "/cache" 493; Mknod "/dev/block/mtdblock2" false 384 31 2; Mount "/dev/block/mtdblock2" "/cache" "yaffs2"].
Definition semc_introduce_keycheck : list action := vibrate 30 ++ led_color 255 0 255.
Definition semc_introduce_android : list action := led_color 0 255 0 ++ [Msleep 250].
Definition semc_introduce_recovery : list action := [Unlink semc_warmboot_cmdline] ++ vibrate 30 ++ led_color 0 0 255 ++ [Msleep 250].
Definition semc_finish_init : list action := led_color 0 0 0 ++ vibrate 0 ++ [Umount "/cache"; Rmdir "/cache"].

(** [init_board_device], with the constants of init_board.h that it does not
    change. *)
#[refine] Definition semc_board : Board := {|
  DEV_BLOCK_PATH := "/dev/block/mmcblk0"; DEV_BLOCK_MAJOR := 179; DEV_BLOCK_MINOR := 0;
  WARMBOOT_CMDLINE := semc_warmboot_cmdline; WARMBOOT_RECOVERY := semc_warmboot_recovery; KEYCHECK_TIMEOUT := 3;
  start_init := semc_start_init; introduce_keycheck := semc_introduce_keycheck; introduce_android := semc_introduce_android;
  introduce_recovery := semc_introduce_recovery; finish_init := semc_finish_init
|}.
Proof. reflexivity. Defined.

(** ** init_main.cpp, the program *)

Section Main.
Context {B : Board}.

(** "/dev/input/event%u" for 0 to 12. *)
Definition event_nodes : list action :=
  imap (fun i (name : string) => Mknod name true 384 13 (64 + Z.of_nat i))
    ["/dev/input/event0"; "/dev/input/event1"; "/dev/input/event2"; "/dev/input/event3"; "/dev/input/event4"; "/dev/input/event5"; "/dev/input/event6";
     "/dev/input/event7"; "/dev/input/event8"; "/dev/input/event9"; "/dev/input/event10"; "/dev/input/event11"; "/dev/input/event12"].

Definition prepare : list action :=
  [Unlink BOOT_TXT; WriteString BOOT_TXT "SEMC INIT" false; WriteDate BOOT_TXT true; Unlink "/init";
   Mkdir "/dev/block" 493; Mkdir "/dev/input" 493; Mkdir "/proc" 365; Mkdir "/sys" 493;
   Mknod DEV_BLOCK_PATH false 384 DEV_BLOCK_MAJOR DEV_BLOCK_MINOR] ++ event_nodes ++
  [Mknod "/dev/null" true 438 1 3; Mount "proc" "/proc" "proc"; Mount "sysfs" "/sys" "sysfs"] ++ start_init.

(** Whether to boot to recovery, and the actions on the way; [None]: the wait
    for [keycheck] has not ended. *)
Definition choose (cmdline : option string) (keycheck_pid start : Z) (answers : list wait_answer) : option (bool * list action) :=
  if file_contains cmdline WARMBOOT_RECOVERY then Some (true, [])
  else
    match system_exec_kill answers start KEYCHECK_TIMEOUT with
    | None => None
    | Some (keycheckStatus, killed) =>
        Some ((keycheckStatus =? KEYCHECK_RECOVERY_BOOT) || (keycheckStatus =? KEYCHECK_RECOVERY_FOTA),
              [ExecBg [EXEC_KEYCHECK]] ++ introduce_keycheck ++ if killed : bool then [Kill keycheck_pid] else [])
    end.

Definition unpack (recoveryBoot : bool) : list action :=
  if recoveryBoot then
    [WriteString BOOT_TXT "RECOVERY BOOT" true] ++ introduce_recovery ++ [Exec [EXEC_TOYBOX; "cpio"; "-i"; "-F"; SBIN_CPIO_RECOVERY]]
  else
    [WriteString BOOT_TXT "ANDROID BOOT" true] ++ introduce_android ++ [Exec [EXEC_TOYBOX; "cpio"; "-i"; "-F"; SBIN_CPIO_ANDROID]].

(** [dev]: the entries of [/dev] at the end. *)
Definition finish (argc : Z) (dev : entry) : list action :=
  finish_init ++ [WriteDate BOOT_TXT true; Unlink EXEC_TOYBOX; Umount "/proc"; Umount "/sys"] ++
  if argc <? 2 then (dir_unlink_r "/dev" false false dev).1.1 ++ [ExecInline ["/init"]] else [].

Definition init_main (argc : Z) (cmdline : option string) (keycheck_pid start : Z) (answers : list wait_answer) (dev : entry) : option (list action) :=
  match choose cmdline keycheck_pid start answers with
  | None => None
  | Some (recoveryBoot, acts) => Some (prepare ++ acts ++ unpack recoveryBoot ++ finish argc dev)
  end.

(** The processes that run [main]: each has done what is listed, and sees its
    own answers of [waitpid]. *)
Definition init_processes (argc : Z) (cmdline : option string) (sp : spawn) (start : Z) (answers_of : Z -> list wait_answer) (dev : entry) :
    list (option (list action)) :=
  let pids := if file_contains cmdline WARMBOOT_RECOVERY then [1] else system_exec_bg sp in
  map (fun pid => init_main argc cmdline pid start (answers_of pid) dev) pids.

End Main.

(** ** The log of the boot *)

(** The effect of an action on [/boot.txt], when it can be opened; [None] in
    the result: a write reads behind its buffer. *)
Definition log_action (date : string) (log : option (option string)) (a : action) : option (option string) :=
  match log with
  | None => None
  | Some content =>
      match a with
      | Unlink path => Some (if bool_decide (path = BOOT_TXT) then None else content)
      | WriteString path text append =>
          if bool_decide (path = BOOT_TXT) then Some <$> write_string content text append else Some content
      | WriteDate path append => if bool_decide (path = BOOT_TXT) then Some <$> write_date content date append else Some content
      | _ => Some content
      end
  end.

Definition boot_log (date : string) (old : option string) (acts : list action) : option (option string) :=
  foldl (log_action date) (Some old) acts.

(** ** What the boot leaves *)

(** The warm boot request, the attributes of LED and vibrator, and the mounted
    file systems. *)
Record machine : Type := Machine { warmboot : option string; attrs : gmap string Z; mounts : list string }.

Fixpoint remove_mount (path : string) (l : list string) : list string :=
  match l with [] => [] | p :: rest => if bool_decide (p = path) then rest else p :: remove_mount path rest end.

(** The effect of an action that succeeds. *)
Definition effect `{Board} (m : machine) (a : action) : machine :=
  match a with
  | Unlink path => if bool_decide (path = WARMBOOT_CMDLINE) then Machine None (attrs m) (mounts m) else m
  | WriteInt path value => Machine (warmboot m) (<[path := value]> (attrs m)) (mounts m)
  | Mount _ path _ => Machine (warmboot m) (attrs m) (path :: mounts m)
  | Umount path => Machine (warmboot m) (attrs m) (remove_mount path (mounts m))
  | _ => m
  end.
