(* ===== verification/BootProps.v ===== *)
(** * Theorems about the boot

    [keycheck] keeps its two arrays in step with the devices and reports a
    volume key only when one was read; [init] turns its exit code into the
    choice of the ramdisk. *)

From stdpp Require Import pretty.
From S2P Require Import Prelude Texts Keycheck Init.

(** ** The arrays of keycheck *)

Section Arrays.
Context {E : InputEnv}.

(** [devs]: the devices that are open, in the order of the arrays. *)
Record keys_ok (s : keys) (devs : list string) : Prop := KeysOk {
  k_nfds : nfds s = S (length devs);
  k_notify : is_Some (ufds s !! 0%nat);
  k_fds : forall i d, devs !! i = Some d -> exists rv, ufds s !! S i = Some (PollFd (open_fd d) rv);
  k_names : forall i d, devs !! i = Some d -> device_names s !! S i = Some (Some d)
}.

Definition openable (d : string) : bool := negb (open_fd d <? 0) && negb (ioctl_fails d).

Lemma realloc_array_length {X} (l : list X) n x : length (realloc_array l n x) = n.
Proof. unfold realloc_array. rewrite length_app, length_take, length_replicate. lia. Qed.

Lemma realloc_array_old {X} (l : list X) n x i y : (i < n)%nat -> l !! i = Some y -> realloc_array l n x !! i = Some y.
Proof. intros Hi Hy. unfold realloc_array. rewrite lookup_app_l; [by rewrite lookup_take_lt|]. rewrite length_take. apply lookup_lt_Some in Hy. lia. Qed.

Lemma keys_store_run {X} (l : list X) i x s : (i < length l)%nat -> store l i x s = Ret (<[i := x]> l, s).
Proof. intros Hi. unfold store. by rewrite decide_True. Qed.

(** With enough memory a device that can be opened is added at the end. *)
Lemma open_device_ok s devs d :
  (forall n, realloc_ok n = true) -> keys_ok s devs ->
  exists x s', open_device d s = Ret (x, s') /\ keys_ok s' (if openable d then devs ++ [d] else devs).
Proof.
  intros Hm Hs. unfold open_device, openable. destruct (open_fd d <? 0); [by exists (-1), s|].
  destruct (ioctl_fails d); [by exists (-1), s|]. cbn [negb andb].
  erewrite bind_run by reflexivity. erewrite bind_run by reflexivity. rewrite Hm. cbn [negb]. erewrite bind_run by reflexivity.
  erewrite bind_run by reflexivity. rewrite Hm. cbn [negb].
  do 2 (erewrite bind_run by reflexivity). cbn [ufds device_names nfds].
  set (u := realloc_array (ufds s) (nfds s + 1) (PollFd garbage garbage)).
  set (n := realloc_array (device_names s) (nfds s + 1) None).
  assert (Hu : length u = (nfds s + 1)%nat) by apply realloc_array_length.
  assert (Hn : length n = (nfds s + 1)%nat) by apply realloc_array_length.
  erewrite bind_run by (apply keys_store_run; lia). do 2 (erewrite bind_run by reflexivity). rewrite Hm.
  erewrite bind_run by (apply keys_store_run; lia). do 2 (erewrite bind_run by reflexivity). eexists _, _. split; [reflexivity|].
  destruct Hs as [K1 [u0 K2] K3 K4]. split; cbn [ufds device_names nfds].
  - rewrite length_app. simpl. lia.
  - exists u0. rewrite list_lookup_insert_ne by lia. apply realloc_array_old; [lia|done].
  - intros i d' Hi. apply lookup_app_Some in Hi as [Hi|[Hge Hi]].
    + destruct (K3 i d' Hi) as [rv Hrv]. exists rv. apply lookup_lt_Some in Hi. rewrite list_lookup_insert_ne by lia.
      apply realloc_array_old; [lia|done].
    + destruct (i - length devs)%nat eqn:Ei; [|done]. simpl in Hi. injection Hi as <-. assert (S i = nfds s) as -> by lia.
      eexists. apply list_lookup_insert_eq. lia.
  - intros i d' Hi. apply lookup_app_Some in Hi as [Hi|[Hge Hi]].
    + apply lookup_lt_Some in Hi as Hlt. rewrite list_lookup_insert_ne by lia. apply realloc_array_old; [lia|by apply K4].
    + destruct (i - length devs)%nat eqn:Ei; [|done]. simpl in Hi. injection Hi as <-. assert (S i = nfds s) as -> by lia.
      apply list_lookup_insert_eq. lia.
Qed.

(** The list without the first occurrence of [d]. *)
Fixpoint remove_first (d : string) (l : list string) : list string :=
  match l with [] => [] | x :: l => if bool_decide (x = d) then l else x :: remove_first d l end.

Lemma memmove_lookup {X} (l : list X) i count j :
  (i + count < length l)%nat -> memmove l i count !! j = if decide (i <= j < i + count)%nat then l !! S j else l !! j.
Proof.
  intros Hl. unfold memmove. destruct (decide (j < i)%nat) as [H1|H1].
  - rewrite lookup_app_l by (rewrite length_take; lia). rewrite lookup_take_lt by lia. by rewrite decide_False by lia.
  - rewrite lookup_app_r by (rewrite length_take; lia). rewrite length_take, Nat.min_l by lia.
    destruct (decide (j < i + count)%nat) as [H2|H2].
    + rewrite lookup_app_l by (rewrite length_take, length_drop; lia). rewrite lookup_take_lt by lia.
      rewrite lookup_drop, decide_True by lia. f_equal. lia.
    + rewrite lookup_app_r by (rewrite length_take, length_drop; lia).
      rewrite length_take, length_drop, lookup_drop, decide_False by lia. f_equal. lia.
Qed.

Lemma lookup_remove (devs1 devs2 : list string) d i x :
  (devs1 ++ devs2) !! i = Some x -> (devs1 ++ d :: devs2) !! (if decide (length devs1 <= i)%nat then S i else i) = Some x.
Proof.
  destruct (decide (length devs1 <= i)%nat) as [Hi|Hi].
  - rewrite !lookup_app_r by lia. by replace (S i - length devs1)%nat with (S (i - length devs1)) by lia.
  - by rewrite !lookup_app_l by lia.
Qed.

(** The loop finds the first device with the name. *)
Lemma close_loop_ok s devs1 devs2 d :
  keys_ok s (devs1 ++ devs2) ->
  exists x s', close_loop (length devs2) (S (length devs1)) d s = Ret (x, s') /\ keys_ok s' (devs1 ++ remove_first d devs2).
Proof.
  revert devs1. induction devs2 as [|d' devs2 IH]; intros devs1 Hs; [by exists (-1), s|]. cbn [close_loop length remove_first].
  erewrite bind_run by reflexivity. pose proof Hs as [K1 K2 K3 K4].
  assert (Hd : (devs1 ++ d' :: devs2) !! length devs1 = Some d') by (by rewrite list_lookup_middle). rewrite (K4 _ _ Hd).
  destruct (bool_decide (d' = d)).
  - do 3 (erewrite bind_run by reflexivity). eexists _, _. split; [reflexivity|]. rewrite length_app in K1. simpl in K1.
    assert (Hlen : forall (i : nat) x, (devs1 ++ d' :: devs2) !! i = Some x -> (S i < length (ufds s))%nat /\ (S i < length (device_names s))%nat).
    { intros i x Hx. destruct (K3 i x Hx) as [rv Hrv]. apply lookup_lt_Some in Hrv. pose proof (K4 i x Hx) as H4.
      apply lookup_lt_Some in H4. done. }
    destruct (Hlen (length devs1 + length devs2)%nat (default d' (last (d' :: devs2)))) as [Hl1 Hl2].
    { rewrite lookup_app_r by lia.
      replace (length devs1 + length devs2 - length devs1)%nat with (pred (length (d' :: devs2))) by (simpl; lia).
      rewrite <- last_lookup. destruct (last (d' :: devs2)) eqn:El; [done|]. by apply last_None in El. }
    cbn [nfds ufds device_names]. split; cbn [nfds ufds device_names].
    + rewrite length_app. lia.
    + rewrite memmove_lookup by lia. by rewrite decide_False by lia.
    + intros i x Hx. pose proof (lookup_lt_Some _ _ _ Hx) as Hlt. rewrite length_app in Hlt. rewrite memmove_lookup by lia.
      apply (lookup_remove _ _ d') in Hx.
      destruct (decide (length devs1 <= i)%nat); [rewrite decide_True by lia|rewrite decide_False by lia]; by apply K3.
    + intros i x Hx. pose proof (lookup_lt_Some _ _ _ Hx) as Hlt. rewrite length_app in Hlt. rewrite memmove_lookup by lia.
      apply (lookup_remove _ _ d') in Hx.
      destruct (decide (length devs1 <= i)%nat); [rewrite decide_True by lia|rewrite decide_False by lia]; by apply K4.
  - destruct (IH (devs1 ++ [d'])) as (x & s' & Hr & Hs'); [by rewrite <- app_assoc|]. rewrite length_app in Hr. simpl in Hr.
    replace (S (length devs1 + 1)) with (S (S (length devs1))) in Hr by lia. exists x, s'. split; [done|].
    by rewrite <- app_assoc in Hs'.
Qed.

Lemma close_device_ok s devs d : keys_ok s devs -> exists x s', close_device d s = Ret (x, s') /\ keys_ok s' (remove_first d devs).
Proof.
  intros Hs. unfold close_device. erewrite bind_run by reflexivity. rewrite (k_nfds _ _ Hs). simpl. rewrite Nat.sub_0_r.
  by apply (close_loop_ok s [] devs).
Qed.

(** ** Rounds *)

Definition apply_event (devs : list string) (ev : Z * option string) : list string :=
  match ev with
  | (mask, Some name) =>
      let d := devname device_path name in
      if negb (Z.land mask IN_CREATE =? 0) then (if openable d then devs ++ [d] else devs) else remove_first d devs
  | (_, None) => devs
  end.

Lemma notify_loop_ok events : forall s devs,
  (forall n, realloc_ok n = true) -> keys_ok s devs ->
  exists s', notify_loop device_path events s = Ret (tt, s') /\ keys_ok s' (foldl apply_event devs events).
Proof.
  induction events as [|[mask [name|]] events IH]; intros s devs Hm Hs; cbn [notify_loop foldl apply_event]; [by exists s| |by apply IH].
  destruct (negb _).
  - destruct (open_device_ok s devs (devname device_path name) Hm Hs) as (x & s1 & Hr & H1). rewrite (bind_run _ _ _ _ _ Hr).
    by apply IH.
  - destruct (close_device_ok s devs (devname device_path name) Hs) as (x & s1 & Hr & H1). rewrite (bind_run _ _ _ _ _ Hr).
    by apply IH.
Qed.

(** The devices of the directory that can be opened. *)
Definition scanned (entries : list string) : list string :=
  filter (fun d => openable d = true) (map (devname device_path) (filter (fun n => ~ (n = "." \/ n = "..")) entries)).

Lemma scan_loop_ok entries : forall s devs,
  (forall n, realloc_ok n = true) -> keys_ok s devs ->
  exists s', scan_loop device_path entries s = Ret (tt, s') /\ keys_ok s' (devs ++ scanned entries).
Proof.
  induction entries as [|d entries IH]; intros s devs Hm Hs; cbn [scan_loop]; [exists s; by rewrite app_nil_r|].
  unfold scanned. rewrite filter_cons. destruct (bool_decide_reflect (d = "." \/ d = "..")) as [Hd|Hd].
  - rewrite decide_False by tauto. erewrite bind_run by reflexivity. by apply IH.
  - rewrite decide_True by done. cbn [map]. rewrite filter_cons.
    destruct (open_device_ok s devs (devname device_path d) Hm Hs) as (x & s1 & Hr & H1). rewrite (bind_run _ _ _ _ _ Hr).
    destruct (IH _ _ Hm H1) as (s' & Hr' & H'). exists s'. split; [done|].
    destruct (openable (devname device_path d)); [rewrite decide_True by done; by rewrite <- app_assoc in H'|by rewrite decide_False by done].
Qed.

Definition ready (rv : Z) : bool := negb (rv =? 0) && negb (Z.land rv POLLIN =? 0).

(** The first device that decides the round. *)
Fixpoint round_exit (r : poll_round) (i : nat) (devs : list string) : option Z :=
  match devs with
  | [] => None
  | d :: devs =>
      if ready (p_revents r i) then
        match p_read r (open_fd d) with
        | None => Some 1
        | Some code => if is_volume_key code then Some 42 else round_exit r (S i) devs
        end
      else round_exit r (S i) devs
  end.

Lemma device_loop_ok r devs1 devs2 s :
  keys_ok s (devs1 ++ devs2) ->
  exists res, device_loop r (length devs2) (S (length devs1)) s = Ret (res, s) /\
    (res = None \/ res = Some 1 \/ res = Some 42 /\ exists d code, d ∈ devs2 /\ p_read r (open_fd d) = Some code /\ is_volume_key code = true) /\
    ((forall i u, ufds s !! i = Some u -> (i < nfds s)%nat -> revents u = p_revents r i) -> res = round_exit r (S (length devs1)) devs2).
Proof.
  revert devs1. induction devs2 as [|d devs2 IH]; intros devs1 Hs; [exists None; auto|]. cbn [device_loop length round_exit].
  erewrite bind_run by reflexivity.
  assert (Hd : (devs1 ++ d :: devs2) !! length devs1 = Some d) by (by rewrite list_lookup_middle).
  destruct (k_fds _ _ Hs _ _ Hd) as [rv Hrv]. rewrite Hrv. cbn [revents fd]. fold (ready rv).
  destruct (IH (devs1 ++ [d])) as (res & Hr & Hres & Hex); [by rewrite <- app_assoc|]. rewrite length_app in Hr, Hex.
  simpl in Hr, Hex.
  replace (S (length devs1 + 1)) with (S (S (length devs1))) in Hr, Hex by lia.
  assert (Hrv' : (forall i u, ufds s !! i = Some u -> (i < nfds s)%nat -> revents u = p_revents r i) -> rv = p_revents r (S (length devs1))).
  { intros Hall. apply (Hall _ _ Hrv). rewrite (k_nfds _ _ Hs), length_app. simpl. lia. }
  assert (Hrest : res = None \/ res = Some 1 \/ res = Some 42 /\ exists d' code, d' ∈ d :: devs2 /\ p_read r (open_fd d') = Some code /\ is_volume_key code = true).
  { destruct Hres as [?|[?|(? & d' & code & ? & ?)]]; auto. right. right. split; [done|]. exists d', code.
    split; [by apply list_elem_of_further|done]. }
  destruct (ready rv) eqn:Er.
  - destruct (p_read r (open_fd d)) as [code|] eqn:Ep.
    + destruct (is_volume_key code) eqn:Ev.
      * exists (Some 42). split; [done|].
        split; [right; right; split; [done|]; exists d, code; split; [apply list_elem_of_here|done]|].
        intros Hall. by rewrite <- (Hrv' Hall), Er.
      * exists res. split; [done|]. split; [done|]. intros Hall. rewrite <- (Hrv' Hall), Er. auto.
    + exists (Some 1). split; [done|]. split; [auto|]. intros Hall. by rewrite <- (Hrv' Hall), Er.
  - exists res. split; [done|]. split; [done|]. intros Hall. rewrite <- (Hrv' Hall), Er. auto.
Qed.

Lemma poll_ok r s devs : keys_ok s devs -> exists s', poll r s = Ret (tt, s') /\ keys_ok s' devs /\
  (forall i u, ufds s' !! i = Some u -> (i < nfds s')%nat -> revents u = p_revents r i).
Proof.
  intros [K1 [u0 K2] K3 K4]. eexists. split; [reflexivity|]. split; [split; cbn [ufds nfds device_names]|cbn [ufds nfds]].
  - done.
  - rewrite list_lookup_imap, K2. simpl. eauto.
  - intros i d Hd. destruct (K3 i d Hd) as [rv Hrv]. rewrite list_lookup_imap, Hrv. simpl. destruct (decide _); eauto.
  - done.
  - intros i u Hu Hi. rewrite list_lookup_imap in Hu. destruct (ufds s !! i) as [v|]; [|done]. simpl in Hu.
    rewrite decide_True in Hu by done. by injection Hu as <-.
Qed.

(** No notification in the round. *)
Definition no_hotplug (r : poll_round) : Prop := Z.land (p_revents r 0) POLLIN = 0.

(** The devices that are open after the notifications of a round, and in the
    round [k] of these rounds. *)
Definition after_notify (devs : list string) (r : poll_round) : list string :=
  if Z.land (p_revents r 0) POLLIN =? 0 then devs
  else match p_notify r with ReadEvents events => foldl apply_event devs events | ReadFailed _ => devs end.
Definition open_devices (devs : list string) (rounds : list poll_round) (k : nat) : list string := foldl after_notify devs (take (S k) rounds).

(** A volume key was read in the round from one of these devices. *)
Definition key_read (r : poll_round) (devs : list string) : Prop :=
  exists d code, d ∈ devs /\ p_read r (open_fd d) = Some code /\ is_volume_key code = true.

Lemma main_round_ok r s devs :
  (forall n, realloc_ok n = true) -> keys_ok s devs ->
  exists res s', main_round r s = Ret (res, s') /\ keys_ok s' (after_notify devs r) /\
    (res = None \/ res = Some 1 \/ res = Some 42 /\ key_read r (after_notify devs r)) /\
    (no_hotplug r -> res = round_exit r 1 devs).
Proof.
  intros Hm Hs. destruct (poll_ok r s devs Hs) as (s1 & Hr1 & H1 & Hrv). unfold main_round. rewrite (bind_run _ _ _ _ _ Hr1).
  erewrite bind_run by reflexivity.
  destruct (k_notify _ _ H1) as [u0 Hu0]. rewrite Hu0.
  assert (Hrev0 : revents u0 = p_revents r 0) by (apply (Hrv _ _ Hu0); rewrite (k_nfds _ _ H1); lia).
  assert (Hstep : exists x s2, (if negb (Z.land (revents u0) POLLIN =? 0) then read_notify device_path (p_notify r) else mret 0) s1 = Ret (x, s2) /\
    keys_ok s2 (after_notify devs r) /\ (no_hotplug r -> s2 = s1)).
  { unfold no_hotplug, after_notify. rewrite Hrev0.
    destruct (Z.eqb_spec (Z.land (p_revents r 0) POLLIN) 0) as [E0|E0]; cbn [negb]; [by exists 0, s1|].
    unfold read_notify. destruct (p_notify r) as [[|]|events]; [by exists 0, s1|by exists 1, s1|].
    destruct (notify_loop_ok events s1 devs Hm H1) as (s2 & Hr2 & H2). rewrite (bind_run _ _ _ _ _ Hr2). by exists 0, s2. }
  destruct Hstep as (x & s2 & Hr2 & H2 & Hq). rewrite (bind_run _ _ _ _ _ Hr2). erewrite bind_run by reflexivity.
  rewrite (k_nfds _ _ H2). simpl. rewrite Nat.sub_0_r.
  destruct (device_loop_ok r [] (after_notify devs r) s2 H2) as (res & Hr3 & Hres & Hex). simpl in *. exists res, s2. split; [done|].
  split; [done|]. split; [done|]. intros Hn. rewrite (Hq Hn) in Hex. rewrite (Hex Hrv). unfold after_notify.
  by rewrite (proj2 (Z.eqb_eq _ _) Hn).
Qed.

(** The exit code of the first round that has one. *)
Definition first_exit (rounds : list poll_round) (devs : list string) : option Z :=
  foldr (fun r res => match round_exit r 1 devs with Some code => Some code | None => res end) None rounds.

Lemma main_loop_ok rounds : forall s devs,
  (forall n, realloc_ok n = true) -> keys_ok s devs ->
  exists res s', main_loop rounds s = Ret (res, s') /\
    (res = None \/ res = Some 1 \/ res = Some 42 /\ exists k r, rounds !! k = Some r /\ key_read r (open_devices devs rounds k)) /\
    (Forall no_hotplug rounds -> res = first_exit rounds devs).
Proof.
  induction rounds as [|r rounds IH]; intros s devs Hm Hs; cbn [main_loop first_exit foldr]; [exists None, s; auto|].
  destruct (main_round_ok r s devs Hm Hs) as (res & s1 & Hr & H1 & Hres & Hex). rewrite (bind_run _ _ _ _ _ Hr).
  destruct res as [code|].
  - exists (Some code), s1. split; [done|]. split.
    + destruct Hres as [?|[?|[? ?]]]; [done|auto|]. right. right. split; [done|]. by exists 0%nat, r.
    + intros [Hn _]%Forall_cons. by rewrite <- (Hex Hn).
  - destruct (IH s1 (after_notify devs r) Hm H1) as (res & s2 & Hr2 & Hres2 & Hex2). exists res, s2. split; [done|]. split.
    + destruct Hres2 as [?|[?|(? & k & r' & Hk & Hkey)]]; auto. right. right. split; [done|]. by exists (S k), r'.
    + intros [Hn Hq]%Forall_cons. rewrite <- (Hex Hn). rewrite (Hex2 Hq). unfold after_notify. by rewrite (proj2 (Z.eqb_eq _ _) Hn).
Qed.

Lemma keycheck_ok notify_fd watch entries rounds :
  (forall n, realloc_ok n = true) -> 0 <= watch ->
  exists res s, keycheck_main notify_fd watch (Some entries) rounds = Ret (res, s) /\
    (res = None \/ res = Some 1 \/ res = Some 42 /\ exists k r, rounds !! k = Some r /\ key_read r (open_devices (scanned entries) rounds k)) /\
    (Forall no_hotplug rounds -> res = first_exit rounds (scanned entries)).
Proof.
  intros Hm Hw. unfold keycheck_main. destruct (Z.ltb_spec watch 0); [lia|]. set (s0 := Keys _ _ _ _).
  assert (H0 : keys_ok s0 []) by (split; [done|by eexists|done|done]).
  destruct (scan_loop_ok entries s0 [] Hm H0) as (s1 & Hr & H1). unfold scan_dir.
  erewrite bind_run by (by rewrite (bind_run _ _ _ _ _ Hr)). by apply main_loop_ok.
Qed.

End Arrays.

(** ** Waiting for keycheck *)

(** What [waitpid] answers at these times about a process that exits with
    [code] at time [te], or not at all. *)
Definition answers (exit : option (Z * Z)) (times : list Z) : list wait_answer :=
  map (fun t => match exit with Some (code, te) => if te <=? t then Exited (Z.shiftl code 8) else Running t | None => Running t end) times.

(** The loop ends when the time is over, with the status of a process that has
    exited, or the process is killed. *)
Lemma wait_ends exit times start timeout :
  (exists t, t ∈ times /\ timeout <= t - start) ->
  exists status killed, system_exec_kill (answers exit times) start timeout = Some (status, killed) /\
    (if killed : bool then status = 0 else exists code te, exit = Some (code, te) /\ status = Z.shiftl code 8).
Proof.
  intros (t0 & Hin & Ht0). unfold system_exec_kill. induction times as [|t times IH]; [by apply not_elem_of_nil in Hin|].
  cbn [answers map wait_loop].
  assert (Hrun : exists status killed, wait_loop (Running t :: answers exit times) start timeout = Some (status, killed) /\
    (if killed : bool then status = 0 else exists code te, exit = Some (code, te) /\ status = Z.shiftl code 8)).
  { cbn [wait_loop]. destruct (Z.ltb_spec (t - start) timeout); [|by exists 0, true]. apply IH.
    apply elem_of_cons in Hin as [<-|Hin]; [lia|done]. }
  destruct exit as [[code te]|]; [|done]. destruct (te <=? t); [|done]. exists (Z.shiftl code 8), false. eauto.
Qed.

(** A look at the process after it has exited, before the time is over. *)
Definition noticed (te start timeout : Z) (times : list Z) : Prop :=
  exists i t, times !! i = Some t /\ te <= t /\ forall j t', (j < i)%nat -> times !! j = Some t' -> t' - start < timeout.

(** The status is the exit code exactly if the exit is noticed. *)
Lemma wait_notices code te times start timeout status killed :
  system_exec_kill (answers (Some (code, te)) times) start timeout = Some (status, killed) ->
  noticed te start timeout times /\ status = Z.shiftl code 8 /\ killed = false \/
  ~ noticed te start timeout times /\ status = 0 /\ killed = true.
Proof.
  unfold system_exec_kill. induction times as [|t times IH]; [done|]. cbn [answers map wait_loop]. destruct (Z.leb_spec te t) as [Hle|Hlt].
  - intros [= <- <-]. left. split; [|done]. exists 0%nat, t. split; [done|]. split; [done|]. intros; lia.
  - cbn [wait_loop]. destruct (Z.ltb_spec (t - start) timeout) as [Hin|Hout].
    + intros [(Hn & ?)|(Hn & ?)]%IH; [left|right]; (split; [|done]).
      * destruct Hn as (i & u & Hi & Hu & Hall). exists (S i), u. split; [done|]. split; [done|].
        intros [|j] t' Hj Ht'; [by injection Ht' as <-|]. apply (Hall j); [lia|done].
      * intros (i & u & Hi & Hu & Hall). destruct i as [|i]; [injection Hi as <-; lia|]. apply Hn. exists i, u.
        split; [done|]. split; [done|]. intros j t' Hj Ht'. apply (Hall (S j)); [lia|done].
    + intros [= <- <-]. right. split; [|done]. intros (i & u & Hi & Hu & Hall). destruct i as [|i]; [injection Hi as <-; lia|].
      specialize (Hall 0%nat t ltac:(lia) eq_refl). lia.
Qed.

(** ** The choice of the ramdisk *)

Definition unpacks (cpio : string) (acts : list action) : Prop := Exec [EXEC_TOYBOX; "cpio"; "-i"; "-F"; cpio] ∈ acts.

(** Nothing else unpacks a ramdisk. *)
Definition plain (a : action) : bool := match a with Exec _ => false | _ => true end.

Scheme entry_mut := Induction for entry Sort Prop with entries_mut := Induction for entries Sort Prop.
Combined Scheme entry_entries_ind from entry_mut, entries_mut.

Lemma unlink_plain :
  (forall e path rm_top child a, a ∈ (dir_unlink_r path rm_top child e).1.1 -> plain a = true) /\
  (forall l path rm_top a, a ∈ (unlink_entries path rm_top l).1 -> plain a = true).
Proof.
  assert (Hrm : forall (b : bool) path a, a ∈ (if b then [Rmdir path] else []) -> plain a = true).
  { intros [|] path a; [by intros ->%list_elem_of_singleton|by intros ?%not_elem_of_nil]. }
  apply entry_entries_ind.
  - intros path rm_top child a. apply Hrm.
  - intros path rm_top child a. apply Hrm.
  - intros l IH path rm_top child a. cbn. specialize (IH path rm_top a). destruct (unlink_entries path rm_top l) as [acts kept].
    simpl in *.
    intros [Ha|Ha]%elem_of_app; [auto|by eapply Hrm].
  - intros path rm_top a. by intros ?%not_elem_of_nil.
  - intros name e IHe rest IHl path rm_top a. cbn. specialize (IHl path rm_top a).
    destruct (unlink_entries path rm_top rest) as [acts kept]. simpl in *.
    destruct (_ || _); [done|]. specialize (IHe (path +:+ "/" +:+ name) rm_top true a). destruct e as [| |l].
    + intros [->|?]%elem_of_cons; auto.
    + intros [->|?]%elem_of_cons; auto.
    + destruct (dir_unlink_r _ _ _ (Dir l)) as [[acts' e'] gone]. intros [?|?]%elem_of_app; auto.
Qed.

(** Actions that leave [/boot.txt] alone. *)
Definition no_log (a : action) : bool :=
  match a with Unlink path | WriteString path _ _ | WriteDate path _ => negb (bool_decide (path = BOOT_TXT)) | _ => true end.

Section Boot.
Context {B : Board}.

(** What the hooks promise. *)
Lemma quiet_plain a : quiet a = true -> plain a = true.
Proof. by destruct a. Qed.

Lemma quiet_no_log a : quiet a = true -> no_log a = true.
Proof. by destruct a. Qed.

Lemma hook_quiet a : a ∈ start_init ++ introduce_keycheck ++ introduce_android ++ introduce_recovery ++ finish_init -> quiet a = true.
Proof. intros Ha%list_elem_of_In. by apply (proj1 (List.forallb_forall quiet _) hooks_quiet). Qed.

Lemma hook_plain a :
  a ∈ start_init \/ a ∈ introduce_keycheck \/ a ∈ introduce_android \/ a ∈ introduce_recovery \/ a ∈ finish_init -> plain a = true.
Proof. intros Ha. apply quiet_plain, hook_quiet. rewrite !elem_of_app. tauto. Qed.

Lemma hook_no_log (hook : list action) :
  hook = start_init \/ hook = introduce_keycheck \/ hook = introduce_android \/ hook = introduce_recovery \/ hook = finish_init ->
  forallb no_log hook = true.
Proof.
  intros Hh. apply List.forallb_forall. intros a Ha%list_elem_of_In. apply quiet_no_log, hook_quiet. rewrite !elem_of_app.
  by destruct_or! Hh; subst; tauto.
Qed.

Lemma finish_plain argc dev a : a ∈ finish argc dev -> plain a = true.
Proof.
  unfold finish. intros [Ha|[Ha|Ha]%elem_of_app]%elem_of_app; [apply hook_plain; tauto| |].
  - rewrite !elem_of_cons, elem_of_nil in Ha. by destruct_or?; subst.
  - destruct (argc <? 2); [|by apply not_elem_of_nil in Ha].
    apply elem_of_app in Ha as [Ha|Ha]; [exact (proj1 unlink_plain _ _ _ _ _ Ha)|]. by apply list_elem_of_singleton in Ha as ->.
Qed.

Lemma prepare_plain a : a ∈ prepare -> plain a = true.
Proof.
  unfold prepare. rewrite app_assoc, app_assoc. intros [Ha|Ha]%elem_of_app; [|apply hook_plain; tauto].
  apply list_elem_of_In in Ha. revert a Ha. apply (proj1 (List.forallb_forall plain _)). reflexivity.
Qed.

Lemma choose_plain cmdline pid start l b acts a : choose cmdline pid start l = Some (b, acts) -> a ∈ acts -> plain a = true.
Proof.
  unfold choose. destruct (file_contains _ _); [intros [= <- <-]; by intros ?%not_elem_of_nil|].
  destruct (system_exec_kill _ _ _) as [[status [|]]|]; [| |done];
    intros [= <- <-]; intros [->|[Ha|Ha]%elem_of_app]%elem_of_cons; try done; try (apply hook_plain; tauto).
  - by apply list_elem_of_singleton in Ha as ->.
  - by apply not_elem_of_nil in Ha.
Qed.

(** A hook between a log line and a program. *)
Lemma hook_unpacks x y line (hook : list action) :
  hook = introduce_android \/ hook = introduce_recovery ->
  unpacks x ([WriteString BOOT_TXT line true] ++ hook ++ [Exec [EXEC_TOYBOX; "cpio"; "-i"; "-F"; y]]) <-> x = y.
Proof.
  intros Hh. unfold unpacks. rewrite !elem_of_app, !list_elem_of_singleton. split; [|intros ->; tauto].
  intros [?|[H|[= ->]]]; [done| |done]. assert (plain (Exec [EXEC_TOYBOX; "cpio"; "-i"; "-F"; x]) = true); [|done].
  apply hook_plain. destruct Hh; subst; tauto.
Qed.

Lemma main_unpacks argc cmdline pid start l dev b acts :
  choose cmdline pid start l = Some (b, acts) ->
  exists all, init_main argc cmdline pid start l dev = Some all /\
    (unpacks SBIN_CPIO_RECOVERY all <-> b = true) /\ (unpacks SBIN_CPIO_ANDROID all <-> b = false).
Proof.
  intros Hc. unfold init_main. rewrite Hc. eexists. split; [reflexivity|].
  assert (Hin : forall x, unpacks x (prepare ++ acts ++ unpack b ++ finish argc dev) <-> unpacks x (unpack b)).
  { intros x. unfold unpacks. rewrite !elem_of_app. split; [|auto]. intros [H|[H|[H|H]]]; [..|done|];
      exfalso; [apply prepare_plain in H|eapply choose_plain in H; [|done]|apply finish_plain in H]; done. }
  rewrite !Hin. unfold unpack. destruct b; rewrite !hook_unpacks by tauto; by split.
Qed.

End Boot.

Lemma no_log_fold date x acts : forallb no_log acts = true -> foldl (log_action date) (Some x) acts = Some x.
Proof.
  induction acts as [|a acts IH]; [done|]. cbn [forallb foldl]. intros [Ha Hl]%andb_true_iff. 
  assert (log_action date (Some x) a = Some x) as ->; [|by apply IH].
  destruct a as [path|path|path ?|path ? ? ? ?|? ? ?|?|? ?|path ? ?|path ?|?|?|?|?|?]; cbn in Ha |- *; try done; by destruct (bool_decide (path = BOOT_TXT)).
Qed.

Lemma log_line content text : Z.of_nat (String.length text) < 79 ->
  write_string content text true = Some (default "" content +:+ text +:+ Init.newline).
Proof.
  intros Ht. unfold write_string, buffered.
  assert (Hl : Z.of_nat (String.length (text +:+ Init.newline)) < CMD_MAX_LENGTH) by (rewrite length_append; cbn; unfold CMD_MAX_LENGTH; lia).
  destruct (Z.ltb_spec CMD_MAX_LENGTH (Z.of_nat (String.length (text +:+ Init.newline)))); [lia|].
  destruct (Z.eqb_spec (Z.of_nat (String.length (text +:+ Init.newline))) CMD_MAX_LENGTH); [lia|]. done.
Qed.

(** The log tells which way the boot went. *)
Lemma boot_log_tells `{Board} date old cmdline pid start l b acts :
  choose cmdline pid start l = Some (b, acts) -> Z.of_nat (String.length date) < CMD_MAX_LENGTH ->
  boot_log date old (prepare ++ acts ++ unpack b) =
    Some (Some ((("SEMC INIT" +:+ Init.newline) +:+ date) +:+ (if b then "RECOVERY BOOT" else "ANDROID BOOT") +:+ Init.newline)).
Proof.
  intros Hc Hd. unfold boot_log. rewrite !foldl_app.
  assert (Hp : foldl (log_action date) (Some old) prepare = Some (Some (("SEMC INIT" +:+ Init.newline) +:+ date))).
  { change prepare with ([Unlink BOOT_TXT; WriteString BOOT_TXT "SEMC INIT" false; WriteDate BOOT_TXT true] ++ drop 3 prepare).
    rewrite foldl_app.
    assert (Hd3 : foldl (log_action date) (Some old) [Unlink BOOT_TXT; WriteString BOOT_TXT "SEMC INIT" false; WriteDate BOOT_TXT true] =
      Some (Some (write_file (Some ("SEMC INIT" +:+ Init.newline)) (if Z.of_nat (String.length date) <? CMD_MAX_LENGTH then date else "") true))) by reflexivity.
    rewrite Hd3. destruct (Z.ltb_spec (Z.of_nat (String.length date)) CMD_MAX_LENGTH); [|lia].
    unfold prepare. rewrite app_assoc, app_assoc, drop_app_le by (simpl; lia). rewrite foldl_app, no_log_fold by reflexivity.
    apply no_log_fold, hook_no_log. tauto. }
  rewrite Hp. assert (Ha : forall x, foldl (log_action date) (Some x) acts = Some x).
  { intros x. apply no_log_fold. unfold choose in Hc. destruct (file_contains _ _); [injection Hc as <- <-; done|].
    destruct (system_exec_kill _ _ _) as [[st [|]]|]; [| |done]; injection Hc as <- <-; cbn [app forallb no_log]; rewrite forallb_app, hook_no_log by tauto; done.
    }
  rewrite Ha. unfold unpack.
  destruct b; rewrite !foldl_app; cbn [foldl log_action]; rewrite bool_decide_true by done; rewrite log_line by done;
    cbn [fmap option_fmap option_map]; rewrite no_log_fold by (apply hook_no_log; tauto); reflexivity.
Qed.

(** ** Both programs together *)

Section Together.
Context {E : InputEnv} {B : Board}.

(** C38: while allocations succeed, [keycheck] runs without touching a wrong
    entry of its arrays; the boot does not wait for it longer than the time-out
    and unpacks exactly one of the two ramdisks: the recovery one if and only if
    the command line asks for it, or [keycheck] exits with 42 and [init] looks
    at it after that and before the time is over.  When no device comes or
    goes, the exit code of [keycheck] is that of the first ready device, in the
    order of rounds and entries, that gives a volume key (42) or a short read
    (1); in any case it exits with 42 only if it read a volume key from a
    device that was open in that round.  ([init] is the process that started
    [keycheck]; if that fails there are two: [failed_keycheck_runs_init_twice].) *)
Theorem boot_follows_volume_key notify_fd watch names rounds argc cmdline pid start te times dev :
  (forall n, realloc_ok n = true) -> 0 <= watch -> (exists t, t ∈ times /\ KEYCHECK_TIMEOUT <= t - start) ->
  exists res s acts,
    keycheck_main notify_fd watch (Some names) rounds = Ret (res, s) /\
    init_main argc cmdline pid start (answers (match res with Some code => Some (code, te) | None => None end) times) dev = Some acts /\
    (unpacks SBIN_CPIO_ANDROID acts <-> ~ unpacks SBIN_CPIO_RECOVERY acts) /\
    (unpacks SBIN_CPIO_RECOVERY acts <->
       file_contains cmdline WARMBOOT_RECOVERY = true \/ res = Some 42 /\ noticed te start KEYCHECK_TIMEOUT times) /\
    (Forall no_hotplug rounds -> res = first_exit rounds (scanned names)) /\
    (res = Some 42 -> exists k r, rounds !! k = Some r /\ key_read r (open_devices (scanned names) rounds k)).
Proof.
  intros Hm Hw Ht. destruct (keycheck_ok notify_fd watch names rounds Hm Hw) as (res & s & Hk & Hres & Hex). exists res, s.
  set (exit := match res with Some code => Some (code, te) | None => None end).
  assert (Hc : exists b acts, choose cmdline pid start (answers exit times) = Some (b, acts) /\
    (b = true <-> file_contains cmdline WARMBOOT_RECOVERY = true \/ res = Some 42 /\ noticed te start KEYCHECK_TIMEOUT times)).
  { unfold choose. destruct (file_contains cmdline WARMBOOT_RECOVERY) eqn:Ef; [exists true, []; split; [done|]; tauto|].
    destruct (wait_ends exit times start KEYCHECK_TIMEOUT Ht) as (status & killed & Hwait & Hst). rewrite Hwait. eexists _, _.
    split; [reflexivity|]. unfold exit in *. destruct res as [code|].
    - apply wait_notices in Hwait as [(Hn & -> & ->)|(Hn & -> & ->)].
      + destruct Hres as [?|[[= ->]|[[= ->] _]]]; [done| |].
        * split; [done|]. by intros [?|[? _]].
        * split; [auto|done].
      + split; [done|]. by intros [?|[_ ?]].
    - destruct killed; [subst status|by destruct Hst as (? & ? & ? & _)]. split; [done|]. by intros [?|[? _]]. }
  destruct Hc as (b & acts & Hc & Hb). destruct (main_unpacks argc cmdline pid start _ dev b acts Hc) as (all & Hmain & Hr & Ha). exists all.
  split_and!; [done|done|rewrite Ha, Hr; by destruct b|by rewrite Hr|done|].
  intros ->. destruct Hres as [?|[?|[_ ?]]]; done.
Qed.

End Together.

(** ** A witness *)

Definition sample_input : InputEnv := {|
  open_fd := fun d => Z.of_nat (String.length d); ioctl_fails := fun _ => false; realloc_ok := fun _ => true; garbage := 7;
  POLLIN := 1; IN_CREATE := 256; KEY_VOLUMEDOWN := 114; KEY_VOLUMEUP := 115
|}.

(** Nothing happens, then a device gives a power key and another one volume up. *)
Definition sample_rounds : list poll_round :=
  [Round (fun _ => 0) (ReadFailed true) (fun _ => None);
   Round (fun i => if Nat.eqb i 0 then 0 else 1) (ReadFailed true) (fun f => if f =? 17 then Some 116 else Some 115)].

Definition sample_names : list string := ["."; ".."; "event0"; "event12"].

(** The theorem for these rounds: the key was seen, and recovery is booted. *)
Lemma boot_follows_volume_key_witness : exists res s acts,
  @keycheck_main sample_input 3 1 (Some sample_names) sample_rounds = Ret (res, s) /\
  @init_main semc_board 1 (Some "console=ttyHSL0") 55 100 (answers (match res with Some code => Some (code, 101) | None => None end) [100; 101; 102; 103]) (Dir NoEntry) = Some acts /\
  unpacks SBIN_CPIO_RECOVERY acts.
Proof.
  destruct (@boot_follows_volume_key sample_input semc_board 3 1 sample_names sample_rounds 1 (Some "console=ttyHSL0") 55 100 101 [100; 101; 102; 103] (Dir NoEntry))
    as (res & s & acts & H1 & H2 & _ & H3 & H4 & _).
  - reflexivity.
  - lia.
  - exists 103. split; [apply list_elem_of_In; simpl; auto|cbn; lia].
  - exists res, s, acts. split; [exact H1|]. split; [exact H2|]. apply H3. right. split.
    + rewrite H4 by repeat constructor. vm_compute. reflexivity.
    + exists 1%nat, 101. split; [reflexivity|]. split; [lia|]. intros [|j] t' Hj Ht'; [|lia]. injection Ht' as <-. cbn. lia.
Defined.

(** ** The removal of [/dev] *)

(** No hidden names, no dangling links, and paths that fit. *)
Fixpoint clean (path : string) (e : entry) : bool :=
  match e with Node => true | Dangling => false | Dir l => clean_entries path l end
with clean_entries (path : string) (l : entries) : bool :=
  match l with
  | NoEntry => true
  | Entry name e rest =>
      negb (is_hidden name) && fits (path +:+ "/" +:+ name) && clean (path +:+ "/" +:+ name) e && clean_entries path rest
  end.

(** Everything in such a directory is removed. *)
Lemma unlink_removes_all :
  (forall e path rm_top, clean path e = true -> e <> Node -> (dir_unlink_r path rm_top true e).2 = true) /\
  (forall l path rm_top, clean_entries path l = true -> (unlink_entries path rm_top l).2 = NoEntry).
Proof.
  apply entry_entries_ind; [done|done| |done|].
  - intros l IH path rm_top Hc _. cbn. specialize (IH path rm_top Hc). destruct (unlink_entries path rm_top l) as [acts kept].
    simpl in *. by subst kept.
  - intros name e IHe rest IHl path rm_top. cbn. rewrite !andb_true_iff, negb_true_iff. intros [[[Hh Hf] Hc] Hr]. rewrite Hh, Hf.
    specialize (IHl path rm_top Hr).
    destruct (unlink_entries path rm_top rest) as [acts kept]. simpl in *. subst kept. specialize (IHe _ rm_top Hc).
    destruct e as [| |l]; [done|done|].
    specialize (IHe ltac:(done)). destruct (dir_unlink_r _ _ _ (Dir l)) as [[acts' e'] gone]. simpl in *. by subst gone.
Qed.

(** A dangling link, or a directory with a hidden file, stays. *)
Lemma unlink_keeps :
  (dir_unlink_r "/dev" false false (Dir (Entry "log" Dangling (Entry "d" (Dir (Entry ".x" Node NoEntry)) NoEntry)))).1.2 =
  Dir (Entry "log" Dangling (Entry "d" (Dir (Entry ".x" Node NoEntry)) NoEntry)).
Proof. reflexivity. Qed.

(** ** What the boot leaves *)

(** The removal of a tree only touches paths in it. *)
Definition under (path : string) (a : action) : Prop := exists rest, a = Unlink (path +:+ rest) \/ a = Rmdir (path +:+ rest).

Lemma under_deeper path name a : under (path +:+ name) a -> under path a.
Proof. intros (rest & Ha). exists (name +:+ rest). by rewrite append_assoc in Ha. Qed.

Lemma unlink_under :
  (forall e path rm_top child a, a ∈ (dir_unlink_r path rm_top child e).1.1 -> under path a) /\
  (forall l path rm_top a, a ∈ (unlink_entries path rm_top l).1 -> under path a).
Proof.
  assert (Hrm : forall (b : bool) path a, a ∈ (if b then [Rmdir path] else []) -> under path a).
  { intros [|] path a; [intros ->%list_elem_of_singleton|by intros ?%not_elem_of_nil]. exists "". rewrite append_empty. by right.
    }
  apply entry_entries_ind.
  - intros path rm_top child a. apply Hrm.
  - intros path rm_top child a. apply Hrm.
  - intros l IH path rm_top child a. cbn. specialize (IH path rm_top a). destruct (unlink_entries path rm_top l) as [acts kept].
    simpl in *.
    intros [Ha|Ha]%elem_of_app; [auto|by eapply Hrm].
  - intros path rm_top a. by intros ?%not_elem_of_nil.
  - intros name e IHe rest IHl path rm_top a. cbn. specialize (IHl path rm_top a).
    destruct (unlink_entries path rm_top rest) as [acts kept]. simpl in *.
    destruct (_ || _); [done|]. specialize (IHe (path +:+ "/" +:+ name) rm_top true a). destruct e as [| |l].
    + intros [->|?]%elem_of_cons; [|auto]. exists ("/" +:+ name). by left.
    + intros [->|?]%elem_of_cons; [|auto]. exists ("/" +:+ name). by right.
    + destruct (dir_unlink_r _ _ _ (Dir l)) as [[acts' e'] gone]. intros [?|?]%elem_of_app; [|auto]. eapply under_deeper; eauto.
Qed.

#[local] Existing Instance semc_board.

(** The tree of [/dev] has no part in what is left. *)
Lemma dev_no_effect acts m : (forall a, a ∈ acts -> under "/dev" a) -> foldl effect m acts = m.
Proof.
  induction acts as [|a acts IH] in m |- *; [done|]. intros Hu. cbn [foldl]. assert (effect m a = m) as ->.
  { destruct (Hu a) as (rest & [->| ->]); [by apply elem_of_cons; left|done|done]. }
  apply IH. intros b Hb. apply Hu, elem_of_cons. by right.
Qed.

Definition led_off (m : machine) : Prop :=
  attrs m !! "/sys/class/leds/red/brightness" = Some 0 /\ attrs m !! "/sys/class/leds/green/brightness" = Some 0 /\
  attrs m !! "/sys/class/leds/blue/brightness" = Some 0 /\ attrs m !! "/sys/class/timed_output/vibrator/enable" = Some 0.

(** The actions in between, in which only the request, the LED and the
    vibrator change. *)
Lemma prepare_effect m : foldl effect m prepare = Machine (warmboot m) (attrs m) ("/cache" :: "/sys" :: "/proc" :: mounts m).
Proof. by destruct m. Qed.

Lemma choose_effect cmdline pid start l b acts m : choose cmdline pid start l = Some (b, acts) ->
  warmboot (foldl effect m acts) = warmboot m /\ mounts (foldl effect m acts) = mounts m.
Proof.
  unfold choose. destruct (file_contains _ _); [by intros [= <- <-]|].
  destruct (system_exec_kill _ _ _) as [[status [|]]|]; [| |done]; by intros [= <- <-].
Qed.

Lemma unpack_effect b m :
  warmboot (foldl effect m (unpack b)) = (if b then None else warmboot m) /\ mounts (foldl effect m (unpack b)) = mounts m.
Proof. by destruct b. Qed.

Lemma led_writes m (at_ : gmap string Z) :
  attrs m = <["/sys/class/timed_output/vibrator/enable" := 0]> (<["/sys/class/leds/blue/brightness" := 0]>
    (<["/sys/class/leds/green/brightness" := 0]> (<["/sys/class/leds/red/brightness" := 0]> at_))) -> led_off m.
Proof.
  intros Hm. unfold led_off. rewrite Hm. split_and!; repeat (rewrite lookup_insert_ne by done); apply lookup_insert_eq.
Qed.

Lemma finish_effect argc dev m (l : list string) : mounts m = "/cache" :: "/sys" :: "/proc" :: l ->
  warmboot (foldl effect m (finish argc dev)) = warmboot m /\ mounts (foldl effect m (finish argc dev)) = l /\
  led_off (foldl effect m (finish argc dev)).
Proof.
  intros Hl. unfold finish. rewrite !foldl_app. set (m' := foldl effect (foldl effect m finish_init) _).
  assert (H : warmboot m' = warmboot m /\ mounts m' = l /\ led_off m').
  { unfold m'. destruct m as [w at_ mo]. cbn [mounts] in Hl. subst mo. split; [reflexivity|]. split; [reflexivity|].
    by apply (led_writes _ at_). }
  destruct (argc <? 2); [|exact H]. rewrite foldl_app, (dev_no_effect (dir_unlink_r "/dev" false false dev).1.1); [exact H|].
  intros a. exact (proj1 unlink_under dev "/dev" false false a).
Qed.

(** C39: whatever the boot does, it leaves the LED and the vibrator off and
    exactly the file systems mounted that were before; the warm boot request
    is gone if recovery was booted and is as it was otherwise, so that the
    next boot is not sent to recovery by it. *)
Theorem boot_cleans_up argc pid start l dev acts m :
  init_main argc (warmboot m) pid start l dev = Some acts ->
  led_off (foldl effect m acts) /\ mounts (foldl effect m acts) = mounts m /\
  (unpacks SBIN_CPIO_RECOVERY acts -> warmboot (foldl effect m acts) = None) /\
  (unpacks SBIN_CPIO_ANDROID acts -> warmboot (foldl effect m acts) = warmboot m) /\
  file_contains (warmboot (foldl effect m acts)) WARMBOOT_RECOVERY = false.
Proof.
  intros Hi. destruct (choose (warmboot m) pid start l) as [[b mid]|] eqn:Ec; [|by unfold init_main in Hi; rewrite Ec in Hi].
  destruct (main_unpacks argc _ _ _ _ dev _ _ Ec) as (all & Hall & Hr & Ha). rewrite Hi in Hall. injection Hall as <-.
  assert (Hacts : acts = prepare ++ mid ++ unpack b ++ finish argc dev) by (unfold init_main in Hi; rewrite Ec in Hi; by injection Hi).
  set (m1 := foldl effect m prepare).
  assert (Hm1 : m1 = Machine (warmboot m) (attrs m) ("/cache" :: "/sys" :: "/proc" :: mounts m)) by apply prepare_effect.
  destruct (choose_effect _ _ _ _ _ _ m1 Ec) as [Hw2 Hm2]. set (m2 := foldl effect m1 mid) in *.
  destruct (unpack_effect b m2) as [Hw3 Hm3]. set (m3 := foldl effect m2 (unpack b)) in *.
  destruct (finish_effect argc dev m3 (mounts m)) as (Hw4 & Hm4 & Hl); [rewrite Hm3, Hm2; by subst m1|].
  assert (Hf : foldl effect m acts = foldl effect m3 (finish argc dev)) by (by rewrite Hacts, !foldl_app).
  assert (Hw : warmboot (foldl effect m3 (finish argc dev)) = if b then None else warmboot m) by (rewrite Hw4, Hw3, Hw2; by subst m1).
  rewrite Hf, Hw, Hr, Ha. split_and!; [done|done|by intros ->|by intros ->|]. destruct b; [done|].
  unfold choose in Ec. destruct (file_contains (warmboot m) WARMBOOT_RECOVERY) eqn:E; [by injection Ec|done].
Qed.

(** The theorem for a warm boot to recovery. *)
Definition warm_machine : machine := Machine (Some ("recovery" +:+ Init.newline)) ∅ [].

Lemma boot_cleans_up_witness : exists acts,
  init_main 1 (warmboot warm_machine) 1 0 [] (Dir NoEntry) = Some acts /\ warmboot (foldl effect warm_machine acts) = None.
Proof.
  destruct (main_unpacks 1 (warmboot warm_machine) 1 0 [] (Dir NoEntry) true []) as (acts & Hi & Hr & _); [reflexivity|].
  exists acts. split; [exact Hi|]. apply (boot_cleans_up 1 1 0 [] (Dir NoEntry) acts warm_machine Hi). by apply Hr.
Defined.

(** ** Programs that cannot be run *)

(** A number of type [int] is written as a whole. *)
Lemma write_int_fits old v : - 2 ^ 31 <= v < 2 ^ 31 -> write_int old v = Some (write_file old (pretty v +:+ Init.newline) false).
Proof.
  intros Hv. unfold write_int, buffered, decimal. rewrite length_append. change (String.length Init.newline) with 1%nat.
  pose proof (pretty_int_length v Hv).
  unfold CMD_MAX_LENGTH. destruct (Z.ltb_spec 80 (Z.of_nat (String.length (pretty v) + 1))); [lia|].
  destruct (Z.eqb_spec (Z.of_nat (String.length (pretty v) + 1)) 80); [lia|done].
Qed.

(** One process goes on when [keycheck] runs, or when [fork] fails. *)
Lemma one_init argc cmdline sp start answers_of dev : exec_fails sp = false \/ fork_pid sp <= 0 ->
  length (init_processes argc cmdline sp start answers_of dev) = 1%nat.
Proof.
  intros H. unfold init_processes, system_exec_bg. rewrite length_map. destruct (file_contains _ _); [done|].
  destruct H as [->|H]; [by rewrite andb_false_r|]. by destruct (Z.ltb_spec 0 (fork_pid sp)); [lia|].
Qed.

(** When [keycheck] cannot be run, the child goes on as a second [init]: it
    unpacks a ramdisk and starts [/init] as well. *)
Lemma failed_keycheck_runs_init_twice : exists parent child,
  init_processes 1 None (Spawn 55 true) 100 (fun pid => if pid =? 0 then [WaitError] else [Running 100; Running 103]) (Dir NoEntry) =
    [Some parent; Some child] /\
  Kill 55 ∈ parent /\ unpacks SBIN_CPIO_ANDROID parent /\ unpacks SBIN_CPIO_ANDROID child /\ ExecInline ["/init"] ∈ child.
Proof.
  eexists _, _. split; [reflexivity|]. unfold unpacks.
  split_and!; apply (bool_decide_unpack _ (dec := list_elem_of_dec _ _)); vm_compute; exact I.
Qed.
