(* ===== verification/VendorInit.v ===== *)
(** * libinit/init_semc.cpp: properties from the kernel command line

    [vendor_load_properties] has the function [import_kernel_nv] called for
    each argument of the command line; it sets the property of the serial
    number.  The property area and the import of the command line belong to the
    system: the class states what the code relies on. *)

From S2P Require Import Prelude.

Definition SERIAL_PROP : string := "ro.serialno".

(** [__system_property_find], [update] and [add], and [import_kernel_cmdline]
    with the arguments of the command line in [words]. *)
Class Properties (area : Type) : Type := {
  property_find : string -> area -> option string;
  property_update : string -> string -> area -> area;
  property_add : string -> string -> area -> area;
  import_kernel_cmdline : list string -> Z -> (string -> Z -> area -> area) -> area -> area
}.

(** What they promise. *)
Class PropertiesLaws (area : Type) `{Properties area} : Prop := {
  find_update n v a : is_Some (property_find n a) -> property_find n (property_update n v a) = Some v;
  find_add n v a : property_find n a = None -> property_find n (property_add n v a) = Some v;
  import_each words f a : import_kernel_cmdline words 0 f a = foldl (fun a w => f w 0 a) a words
}.

(** [strchr(name, '=')], with the text cut there: the name and the value. *)
Fixpoint split_at_equals (text : string) : option (string * string) :=
  match text with
  | EmptyString => None
  | String c rest =>
      if Ascii.eqb c (Ascii.ascii_of_nat 61) then Some (EmptyString, rest)
      else match split_at_equals rest with Some (name, value) => Some (String c name, value) | None => None end
  end.

Section Serial.
Context {area : Type} `{Properties area}.

(** [name_len] is the length of the whole argument. *)
Definition import_kernel_nv (text : string) (for_emulator : Z) (a : area) : area :=
  let name_len := String.length text in
  match split_at_equals text with
  | None => a
  | Some (name, value) =>
      if Nat.eqb name_len 0 then a
      else if bool_decide (name = "serialno") then
        match property_find SERIAL_PROP a with
        | Some _ => property_update SERIAL_PROP value a
        | None => property_add SERIAL_PROP value a
        end
      else a
  end.

Definition vendor_load_properties (words : list string) (a : area) : area := import_kernel_cmdline words 0 import_kernel_nv a.

(** The serial number that an argument gives. *)
Definition serial_of (text : string) : option string :=
  match split_at_equals text with Some (name, value) => if bool_decide (name = "serialno") then Some value else None | None => None end.

Context {L : PropertiesLaws area}.

Lemma import_serial text a :
  property_find SERIAL_PROP (import_kernel_nv text 0 a) = match serial_of text with Some v => Some v | None => property_find SERIAL_PROP a end.
Proof.
  unfold import_kernel_nv, serial_of. destruct (split_at_equals text) as [[name value]|] eqn:E; [|done].
  assert (Nat.eqb (String.length text) 0 = false) as -> by (by destruct text).
  destruct (bool_decide (name = "serialno")); [|done].
  destruct (property_find SERIAL_PROP a) eqn:Ef; [by apply find_update; eexists|by apply find_add].
Qed.

(** The property has the value of the last argument that gives one, and is as
    it was when there is none. *)
Lemma serial_is_last words a :
  property_find SERIAL_PROP (vendor_load_properties words a) =
  match last (omap serial_of words) with Some v => Some v | None => property_find SERIAL_PROP a end.
Proof.
  unfold vendor_load_properties. rewrite import_each. induction words as [|w words IH] using rev_ind; [done|].
  rewrite foldl_app, omap_app. cbn [foldl]. rewrite import_serial, IH. simpl.
  destruct (serial_of w) as [v|]; simpl; [by rewrite last_snoc|].
  by rewrite app_nil_r.
Qed.

End Serial.

(** ** A property area *)

#[export] Instance map_properties : Properties (gmap string string) := {|
  property_find := fun n a => a !! n;
  property_update := fun n v a => <[n := v]> a;
  property_add := fun n v a => <[n := v]> a;
  import_kernel_cmdline := fun words _ f a => foldl (fun a w => f w 0 a) a words
|}.

#[export] Instance map_properties_laws : PropertiesLaws (gmap string string).
Proof. split; intros; [apply lookup_insert_eq|apply lookup_insert_eq|done]. Qed.

Lemma serial_example :
  property_find SERIAL_PROP (vendor_load_properties ["console=ttyHSL0"; "serialno=CB511"; "quiet"; "serialno=a=b"] ∅) = Some "a=b".
Proof. by rewrite serial_is_last. Qed.
